(** * Text subtitle demuxer (modules/demux/subtitle.c): a shallow embedding

    The C translation unit is embedded function by function.  C [int] and
    [int64_t] values are integers of [Z] with the two's complement
    wrap-around written out where an overflow is possible, C strings are
    [string] values (the bytes before the terminating NUL), [float] and
    [double] are the binary32 and binary64 instances of the IEEE-754
    specification of [SpecFloat].  The libc functions the file calls
    ([sscanf], [strcasestr], [strtol], ...) are modelled first, the data
    model and the functions of subtitle.c follow, the theorems come last. *)

From Stdlib Require Import ZArith List String Ascii Bool Lia.
From Stdlib Require Import DecimalString.
From Stdlib Require Import Floats.SpecFloat.
Import ListNotations.

Open Scope string_scope.
Open Scope list_scope.
Open Scope Z_scope.

(* ================================================================== *)
(** * Machine integers *)

(** Two's complement reduction of an integer to [bits] bits. *)
Definition wrap (bits : Z) (z : Z) : Z :=
  let r := z mod 2 ^ bits in
  if r <? 2 ^ (bits - 1) then r else r - 2 ^ bits.

Definition int32 (z : Z) : Z := wrap 32 z.
Definition int64 (z : Z) : Z := wrap 64 z.

Definition INT_MAX : Z := 2 ^ 31 - 1.
Definition INT64_MAX : Z := 2 ^ 63 - 1.
Definition INT64_MIN : Z := - 2 ^ 63.
Definition LONG_MAX : Z := 2 ^ 63 - 1.
Definition LONG_MIN : Z := - 2 ^ 63.

(** [strtol] saturates at the bounds of [long] (LP64). *)
Definition clamp_long (z : Z) : Z :=
  if z <? LONG_MIN then LONG_MIN else if LONG_MAX <? z then LONG_MAX else z.

(* ================================================================== *)
(** * Floating point: binary32 ([float]) and binary64 ([double]) *)

Definition float := spec_float.
Definition double := spec_float.

Definition f_prec : Z := 24.
Definition f_emax : Z := 128.
Definition d_prec : Z := 53.
Definition d_emax : Z := 1024.

(** Integer to floating point, rounding to nearest even. *)
Definition float_of_Z (z : Z) : float := binary_normalize f_prec f_emax z 0 false.
Definition double_of_Z (z : Z) : double := binary_normalize d_prec d_emax z 0 false.

(** Re-rounding of a value to another format: [(float)d] is
    [round_to f_prec f_emax d], [(double)f] is exact. *)
Definition round_to (prec emax : Z) (x : spec_float) : spec_float :=
  match x with
  | S754_finite s m e => binary_round prec emax s m e
  | _ => x
  end.

Definition float_of_double (d : double) : float := round_to f_prec f_emax d.
Definition double_of_float (f : float) : double := round_to d_prec d_emax f.

(** The decimal [m * 10^k] rounded once to the format, as a correctly
    rounding [strtod]/[strtof] does. *)
Definition decimal_to_float (prec emax : Z) (neg : bool) (m : Z) (k : Z)
  : spec_float :=
  match m with
  | Z0 => S754_zero neg
  | Zneg _ => S754_nan
  | Zpos _ =>
      if 0 <=? k then
        binary_normalize prec emax ((if neg then - m else m) * 10 ^ k) 0 neg
      else
        let '(q, e, l) := SFdiv_core_binary prec emax m 0 (10 ^ (- k)) 0 in
        binary_round_aux prec emax neg q e l
  end.

(** Truncation toward zero of a finite value. *)
Definition trunc_float (x : spec_float) : option Z :=
  match x with
  | S754_zero _ => Some 0
  | S754_finite s m e =>
      let a := if 0 <=? e then Z.pos m * 2 ^ e else Z.pos m / 2 ^ (- e) in
      Some (if s then - a else a)
  | _ => None
  end.

(** [(int64_t)x].  The conversion is undefined in C when the truncated
    value does not fit (or [x] is not finite); the x86-64 conversion
    instruction then yields [INT64_MIN], which is what is modelled. *)
Definition int64_of_float (x : spec_float) : Z :=
  match trunc_float x with
  | Some z => if (INT64_MIN <=? z) && (z <=? INT64_MAX) then z else INT64_MIN
  | None => INT64_MIN
  end.

Definition fzero : spec_float := S754_zero false.

(* ================================================================== *)
(** * Characters and strings of the C library *)

Definition NUL : ascii := "000"%char.
Definition TAB : ascii := "009"%char.
Definition LF : ascii := "010"%char.
Definition CR : ascii := "013"%char.

Definition code (c : ascii) : Z := Z.of_N (N_of_ascii c).

Definition isspace (c : ascii) : bool :=
  let n := code c in (n =? 32) || ((9 <=? n) && (n <=? 13)).
Definition isdigit (c : ascii) : bool :=
  let n := code c in (48 <=? n) && (n <=? 57).
Definition isupper (c : ascii) : bool :=
  let n := code c in (65 <=? n) && (n <=? 90).
Definition islower (c : ascii) : bool :=
  let n := code c in (97 <=? n) && (n <=? 122).
Definition isalpha (c : ascii) : bool := isupper c || islower c.

Definition tolower (c : ascii) : ascii :=
  if isupper c then ascii_of_N (N_of_ascii c + 32) else c.
Definition toupper (c : ascii) : ascii :=
  if islower c then ascii_of_N (N_of_ascii c - 32) else c.

Definition digit_val (c : ascii) : Z := code c - 48.

(** Value of a hexadecimal digit, if it is one. *)
Definition xdigit_val (c : ascii) : option Z :=
  let n := code c in
  if isdigit c then Some (n - 48)
  else if (97 <=? n) && (n <=? 102) then Some (n - 87)
  else if (65 <=? n) && (n <=? 70) then Some (n - 55)
  else None.

Definition strlen (s : string) : Z := Z.of_nat (String.length s).

(** [s + n] for [0 <= n <= strlen s]. *)
Fixpoint str_drop (n : nat) (s : string) : string :=
  match n, s with
  | O, _ => s
  | S k, String _ r => str_drop k r
  | S _, EmptyString => EmptyString
  end.

Fixpoint str_take (n : nat) (s : string) : string :=
  match n, s with
  | O, _ => EmptyString
  | S k, String a r => String a (str_take k r)
  | S _, EmptyString => EmptyString
  end.

(** [strncmp(s, p, n) == 0] and [strncasecmp(s, p, n) == 0]. *)
Fixpoint strn_eq (fold : ascii -> ascii) (n : nat) (s p : string) : bool :=
  match n with
  | O => true
  | S k =>
      match s, p with
      | EmptyString, EmptyString => true
      | String a r, String b q =>
          if Ascii.eqb (fold a) (fold b) then strn_eq fold k r q else false
      | _, _ => false
      end
  end.

Definition strncmp_eq (s p : string) (n : nat) : bool := strn_eq (fun c => c) n s p.
Definition strncasecmp_eq (s p : string) (n : nat) : bool := strn_eq tolower n s p.

(** [strstr]/[strcasestr]: the suffix of the haystack that starts at the
    first occurrence of the needle, [None] for [NULL]. *)
Fixpoint str_search (fold : ascii -> ascii) (hay needle : string) : option string :=
  if strn_eq fold (String.length needle) hay needle then Some hay
  else match hay with
       | EmptyString => None
       | String _ r => str_search fold r needle
       end.

Definition strstr (hay needle : string) : option string :=
  str_search (fun c => c) hay needle.
Definition strcasestr (hay needle : string) : option string :=
  str_search tolower hay needle.

(** Leading run of decimal digits: value, number of digits, rest. *)
Fixpoint scan_digits (s : string) (acc : Z) (n : nat) : Z * nat * string :=
  match s with
  | String c r =>
      if isdigit c then scan_digits r (10 * acc + digit_val c) (S n)
      else (acc, n, s)
  | EmptyString => (acc, n, s)
  end.

Fixpoint skip_spaces (s : string) : string :=
  match s with
  | String c r => if isspace c then skip_spaces r else s
  | EmptyString => s
  end.

(** Optional sign: [true] for a minus sign. *)
Definition scan_sign (s : string) : bool * string :=
  match s with
  | String "-" r => (true, r)
  | String "+" r => (false, r)
  | _ => (false, s)
  end.

(** Optionally signed decimal integer at the head of [s] (no leading
    white space): the mathematical value and the rest. *)
Definition scan_decimal (s : string) : option (Z * string) :=
  let '(neg, r) := scan_sign s in
  let '(v, n, rest) := scan_digits r 0 O in
  match n with
  | O => None
  | _ => Some (if neg then - v else v, rest)
  end.

(** [atoi(s)], which is [(int) strtol(s, NULL, 10)]. *)
Definition atoi (s : string) : Z :=
  match scan_decimal (skip_spaces s) with
  | Some (v, _) => int32 (clamp_long v)
  | None => 0
  end.

Fixpoint scan_base (base : Z) (s : string) (acc : Z) (n : nat) : Z * nat * string :=
  match s with
  | String c r =>
      match xdigit_val c with
      | Some d => if d <? base then scan_base base r (acc * base + d) (S n)
                  else (acc, n, s)
      | None => (acc, n, s)
      end
  | EmptyString => (acc, n, s)
  end.

(** [strtol(s, &end, 0)]: value and end pointer; with no digits the value
    is 0 and the end pointer is [s] itself. *)
Definition strtol0 (s : string) : Z * string :=
  let '(neg, r) := scan_sign (skip_spaces s) in
  let sgn v := clamp_long (if neg then - v else v) in
  match r with
  | String "0" (String x r') =>
      if Ascii.eqb (tolower x) "x"%char then
        match scan_base 16 r' 0 O with
        | (_, O, _) => (0, String x r')
        | (v, _, rest) => (sgn v, rest)
        end
      else
        let '(v, _, rest) := scan_base 8 (String x r') 0 O in (sgn v, rest)
  | _ =>
      match scan_base 10 r 0 O with
      | (_, O, _) => (0, s)
      | (v, _, rest) => (sgn v, rest)
      end
  end.

(** Decimal rendering of [%d]. *)
Definition string_of_Z (z : Z) : string := NilZero.string_of_int (Z.to_int z).

(* ================================================================== *)
(** * Floating-point literals: [strtod], [us_strtod] and [%f] *)

Inductive numlit : Type :=
| N_dec (neg : bool) (m : Z) (k : Z)   (* m * 10^k *)
| N_bin (neg : bool) (m : Z) (e : Z)   (* m * 2^e, from a hexadecimal literal *)
| N_inf (neg : bool)
| N_nan.

(** Exponent part [e<sign><digits>] / [p<sign><digits>], as the [%f] of
    glibc reads it: the exponent and the rest.  The letter, and a sign
    right after it, are consumed also when no digit follows; the value is
    then that of the mantissa.  ([strtod] leaves such a letter unread, which
    makes no difference to [us_strtod]: it returns the value only.) *)
Definition scan_exponent (letter : ascii) (s : string) : Z * string :=
  match s with
  | String c r =>
      if Ascii.eqb (tolower c) letter then
        match scan_decimal r with
        | Some (e, rest) => (e, rest)
        | None => (0, snd (scan_sign r))
        end
      else (0, s)
  | EmptyString => (0, s)
  end.

Definition scan_dec_literal (neg : bool) (s : string) : option (numlit * string) :=
  let '(v1, n1, r1) := scan_digits s 0 O in
  let '(m, n2, r2) :=
    match r1 with
    | String "." r => scan_digits r v1 O
    | _ => (v1, O, r1)
    end in
  match (n1 + n2)%nat with
  | O => None
  | _ => let '(e, rest) := scan_exponent "e" r2 in
         Some (N_dec neg m (e - Z.of_nat n2), rest)
  end.

Definition scan_hex_literal (neg : bool) (s : string) : option (numlit * string) :=
  let '(v1, n1, r1) := scan_base 16 s 0 O in
  let '(m, n2, r2) :=
    match r1 with
    | String "." r => scan_base 16 r v1 O
    | _ => (v1, O, r1)
    end in
  match (n1 + n2)%nat with
  | O => None
  | _ => let '(e, rest) := scan_exponent "p" r2 in
         Some (N_bin neg m (e - 4 * Z.of_nat n2), rest)
  end.

(** The subject sequence of [strtod] at the head of [s] (white space
    already skipped). *)
Definition scan_number (s : string) : option (numlit * string) :=
  let '(neg, r) := scan_sign s in
  if strncasecmp_eq r "infinity" 8 then Some (N_inf neg, str_drop 8 r)
  else if strncasecmp_eq r "inf" 3 then Some (N_inf neg, str_drop 3 r)
  else if strncasecmp_eq r "nan" 3 then Some (N_nan, str_drop 3 r)
  else
    match r with
    | String "0" (String x r') =>
        if Ascii.eqb (tolower x) "x" then
          match scan_hex_literal neg r' with
          | Some res => Some res
          | None => Some (N_dec neg 0 0, String x r')
          end
        else scan_dec_literal neg r
    | _ => scan_dec_literal neg r
    end.

Definition numlit_to_float (prec emax : Z) (n : numlit) : spec_float :=
  match n with
  | N_dec neg m k => decimal_to_float prec emax neg m k
  | N_bin neg m e =>
      match m with
      | Z0 => S754_zero neg
      | _ => binary_normalize prec emax (if neg then - m else m) e neg
      end
  | N_inf neg => S754_infinity neg
  | N_nan => S754_nan
  end.

(** [strtod(s, NULL)]; VLC's [us_strtod] is [strtod] in the C locale. *)
Definition us_strtod (s : string) : double :=
  match scan_number (skip_spaces s) with
  | Some (n, _) => numlit_to_float d_prec d_emax n
  | None => fzero
  end.

(* ================================================================== *)
(** * [sscanf]

    A format is a list of directives.  [format] reads them off a format
    string written as in the C source, escapes [\r], [\n] and [\t]
    included: white space is the white-space directive, [%d], [%*d], [%f],
    [%c], [%*c], [%[^...]] and [%15[^...]] are the conversions the file
    uses, any other character is an ordinary character. *)

Inductive directive : Type :=
| Dws                                         (* white space *)
| Dlit (c : ascii)                            (* ordinary character *)
| Cd (assign : bool)                          (* %d, %*d *)
| Cf                                          (* %f *)
| Cc (assign : bool)                          (* %c, %*c *)
| Cset (width : option nat) (negated : bool) (set : list ascii).
                                              (* %[set], %[^set], %15[^set] *)

Inductive sval : Type :=
| Vint (z : Z)
| Vfloat (f : float)
| Vchar (c : ascii)
| Vstr (s : string).

(** The characters of a C string literal, escape sequences resolved. *)
Fixpoint unescape (s : string) : string :=
  match s with
  | String "\" (String c r) =>
      String (if Ascii.eqb c "n" then LF
              else if Ascii.eqb c "r" then CR
              else if Ascii.eqb c "t" then TAB
              else c) (unescape r)
  | String c r => String c (unescape r)
  | EmptyString => EmptyString
  end.

Inductive fmt_state : Type :=
| F_text                                              (* between directives *)
| F_spec (star : bool) (width : option nat)           (* after a percent sign *)
| F_set (width : option nat) (set : option (bool * list ascii)).
                                                      (* inside brackets *)

Fixpoint directives (st : fmt_state) (s : string) : list directive :=
  match s with
  | EmptyString => []
  | String c r =>
      match st with
      | F_text =>
          if Ascii.eqb c "%" then directives (F_spec false None) r
          else (if isspace c then Dws else Dlit c) :: directives F_text r
      | F_spec star width =>
          if Ascii.eqb c "*" then directives (F_spec true width) r
          else if isdigit c then
            directives
              (F_spec star
                 (Some (10 * match width with Some w => w | None => O end
                        + Z.to_nat (digit_val c))%nat)) r
          else if Ascii.eqb c "d" then Cd (negb star) :: directives F_text r
          else if Ascii.eqb c "f" then Cf :: directives F_text r
          else if Ascii.eqb c "c" then Cc (negb star) :: directives F_text r
          else if Ascii.eqb c "[" then directives (F_set width None) r
          else Dlit c :: directives F_text r
      | F_set width None =>
          if Ascii.eqb c "^" then directives (F_set width (Some (true, []))) r
          else directives (F_set width (Some (false, [c]))) r
      | F_set width (Some (negated, set)) =>
          if Ascii.eqb c "]" then Cset width negated set :: directives F_text r
          else directives (F_set width (Some (negated, set ++ [c]))) r
      end
  end.

Definition format (s : string) : list directive := directives F_text (unescape s).

(** The double quote of the PhoenixSub format. *)
Definition DQUOTE : ascii := "034"%char.

Definition mem_ascii (c : ascii) (l : list ascii) : bool :=
  existsb (Ascii.eqb c) l.

(** Longest run, of at most [width] characters, of the scanset: the
    characters of [set], or those outside it when the set is negated. *)
Fixpoint scan_set (width : option nat) (negated : bool) (set : list ascii)
  (s : string) : string * string :=
  match s with
  | EmptyString => (EmptyString, s)
  | String c r =>
      match width with
      | Some O => (EmptyString, s)
      | _ =>
          if xorb negated (mem_ascii c set) then
            let '(run, rest) :=
              scan_set (option_map Nat.pred width) negated set r in
            (String c run, rest)
          else (EmptyString, s)
      end
  end.

Inductive scan_stop : Type := Completed | MatchingFailure | InputFailure.

(** Execution of the directives in order; the values assigned so far are
    kept in [vals]. *)
Fixpoint scan (f : list directive) (inp : string) (vals : list sval)
  : list sval * scan_stop :=
  match f with
  | [] => (vals, Completed)
  | Dws :: k => scan k (skip_spaces inp) vals
  | Dlit c :: k =>
      match inp with
      | EmptyString => (vals, InputFailure)
      | String a r => if Ascii.eqb a c then scan k r vals
                      else (vals, MatchingFailure)
      end
  | Cd assign :: k =>
      match skip_spaces inp with
      | EmptyString => (vals, InputFailure)
      | i => match scan_decimal i with
             | None => (vals, MatchingFailure)
             | Some (v, rest) =>
                 scan k rest
                   (if assign then vals ++ [Vint (int32 (clamp_long v))] else vals)
             end
      end
  | Cf :: k =>
      match skip_spaces inp with
      | EmptyString => (vals, InputFailure)
      | i => match scan_number i with
             | None => (vals, MatchingFailure)
             | Some (n, rest) =>
                 scan k rest (vals ++ [Vfloat (numlit_to_float f_prec f_emax n)])
             end
      end
  | Cc assign :: k =>
      match inp with
      | EmptyString => (vals, InputFailure)
      | String a r => scan k r (if assign then vals ++ [Vchar a] else vals)
      end
  | Cset width negated set :: k =>
      match inp with
      | EmptyString => (vals, InputFailure)
      | _ => match scan_set width negated set inp with
             | (EmptyString, _) => (vals, MatchingFailure)
             | (run, rest) => scan k rest (vals ++ [Vstr run])
             end
      end
  end.

Definition EOF : Z := -1.

(** [sscanf(s, format, ...)]: the returned count and the values stored
    through the pointer arguments, in order.  As in glibc, an input failure
    (end of the string) with nothing assigned yet returns [EOF]. *)
Definition sscanf (s : string) (f : list directive) : Z * list sval :=
  match scan f s [] with
  | ([], InputFailure) => (EOF, [])
  | (vals, _) => (Z.of_nat (List.length vals), vals)
  end.

(** [snprintf(buf, size, ...)] keeps at most [size - 1] characters. *)
Definition snprintf (size : nat) (full : string) : string :=
  str_take (Nat.pred size) full.

(* ================================================================== *)
(** * Data model of subtitle.c *)

(** Return codes.  Their numeric values are in a VLC header; the file only
    uses that [VLC_SUCCESS] is zero and the other two are not. *)
Inductive vlc_code : Type := VLC_SUCCESS | VLC_EGENERIC | VLC_ENOMEM.

Definition nonzero (c : vlc_code) : bool :=
  match c with VLC_SUCCESS => false | _ => true end.

Inductive sub_type : Type :=
| SUB_TYPE_UNKNOWN
| SUB_TYPE_MICRODVD
| SUB_TYPE_SUBRIP
| SUB_TYPE_SSA1
| SUB_TYPE_SSA2_4
| SUB_TYPE_ASS
| SUB_TYPE_VPLAYER
| SUB_TYPE_SAMI
| SUB_TYPE_SUBVIEWER
| SUB_TYPE_DVDSUBTITLE
| SUB_TYPE_MPL2
| SUB_TYPE_AQT
| SUB_TYPE_PJS
| SUB_TYPE_MPSUB
| SUB_TYPE_JACOSUB.

Definition sub_type_eqb (a b : sub_type) : bool :=
  match a, b with
  | SUB_TYPE_UNKNOWN, SUB_TYPE_UNKNOWN | SUB_TYPE_MICRODVD, SUB_TYPE_MICRODVD
  | SUB_TYPE_SUBRIP, SUB_TYPE_SUBRIP | SUB_TYPE_SSA1, SUB_TYPE_SSA1
  | SUB_TYPE_SSA2_4, SUB_TYPE_SSA2_4 | SUB_TYPE_ASS, SUB_TYPE_ASS
  | SUB_TYPE_VPLAYER, SUB_TYPE_VPLAYER | SUB_TYPE_SAMI, SUB_TYPE_SAMI
  | SUB_TYPE_SUBVIEWER, SUB_TYPE_SUBVIEWER
  | SUB_TYPE_DVDSUBTITLE, SUB_TYPE_DVDSUBTITLE | SUB_TYPE_MPL2, SUB_TYPE_MPL2
  | SUB_TYPE_AQT, SUB_TYPE_AQT | SUB_TYPE_PJS, SUB_TYPE_PJS
  | SUB_TYPE_MPSUB, SUB_TYPE_MPSUB | SUB_TYPE_JACOSUB, SUB_TYPE_JACOSUB => true
  | _, _ => false
  end.

Record text_t : Type := mk_text {
  i_line_count : Z;
  i_line : Z;
  line : list string
}.

Record subtitle_t : Type := mk_subtitle {
  i_start : Z;
  i_stop : Z;
  psz_text : string
}.

(** The field [es], the handle [es_out_Add] returns, is left out. *)
Record demux_sys_t : Type := mk_sys {
  i_type : sub_type;
  txt : text_t;
  i_next_demux_date : Z;
  i_microsecperframe : Z;
  psz_header : option string;       (* [None] is the NULL pointer *)
  i_subtitle : Z;
  i_subtitles : Z;
  subtitle : list subtitle_t;
  i_length : Z
}.

(** The variables with static storage duration: [mpsub_total] and
    [mpsub_factor] at file scope, [i_comment], [jss_time_resolution] and
    [jss_time_shift] inside [ParseJSS].  There is one copy per process, with
    the initial values of the declarations. *)
Record statics : Type := mk_statics {
  mpsub_total : float;
  mpsub_factor : float;
  i_comment : Z;
  jss_time_resolution : Z;
  jss_time_shift : Z
}.

Definition statics_at_load : statics :=
  {| mpsub_total := fzero; mpsub_factor := fzero;
     i_comment := 0; jss_time_resolution := 30; jss_time_shift := 0 |}.

(** Modelled from the spec: the line transport ([stream_t],
    [stream_ReadLine], [stream_Seek]) is VLC core code outside this file.
    Section 6 describes it as a pull-based line source read strictly
    forward, section 4.1 as delivering lines without their terminators, and
    section 4.2 has a rewind to the start that may fail. *)
Record stream_t : Type := mk_stream {
  s_lines : list string;
  s_pos : nat;
  s_seekable : bool
}.

Definition stream_ReadLine (s : stream_t) : option string * stream_t :=
  match nth_error (s_lines s) (s_pos s) with
  | Some l => (Some l, {| s_lines := s_lines s; s_pos := S (s_pos s);
                          s_seekable := s_seekable s |})
  | None => (None, s)
  end.

(** [stream_Seek(s, 0)]: [true] when the seek failed. *)
Definition stream_Seek0 (s : stream_t) : bool * stream_t :=
  if s_seekable s
  then (false, {| s_lines := s_lines s; s_pos := O; s_seekable := true |})
  else (true, s).

(** Modelled from the spec: the object variables ([var_CreateGetFloat],
    [var_GetFloat], [var_SetFloat], [var_CreateGetString]) are VLC core code
    outside this file.  Section 6 lists what they carry: the declared source
    frame rate, the frames-per-second override and the format selection. *)
Record demux_t : Type := mk_demux {
  b_force : bool;
  s : stream_t;
  sub_original_fps : float;
  sub_fps : float;
  sub_type_name : string;
  p_sys : demux_sys_t
}.

Definition set_txt (sys : demux_sys_t) (t : text_t) : demux_sys_t :=
  mk_sys (i_type sys) t (i_next_demux_date sys) (i_microsecperframe sys)
         (psz_header sys) (i_subtitle sys) (i_subtitles sys) (subtitle sys)
         (i_length sys).

Definition set_microsecperframe (sys : demux_sys_t) (v : Z) : demux_sys_t :=
  mk_sys (i_type sys) (txt sys) (i_next_demux_date sys) v
         (psz_header sys) (i_subtitle sys) (i_subtitles sys) (subtitle sys)
         (i_length sys).

Definition set_header (sys : demux_sys_t) (h : option string) : demux_sys_t :=
  mk_sys (i_type sys) (txt sys) (i_next_demux_date sys) (i_microsecperframe sys)
         h (i_subtitle sys) (i_subtitles sys) (subtitle sys) (i_length sys).

Definition set_type (sys : demux_sys_t) (t : sub_type) : demux_sys_t :=
  mk_sys t (txt sys) (i_next_demux_date sys) (i_microsecperframe sys)
         (psz_header sys) (i_subtitle sys) (i_subtitles sys) (subtitle sys)
         (i_length sys).

Definition set_subtitle (sys : demux_sys_t) (i : Z) : demux_sys_t :=
  mk_sys (i_type sys) (txt sys) (i_next_demux_date sys) (i_microsecperframe sys)
         (psz_header sys) i (i_subtitles sys) (subtitle sys) (i_length sys).

Definition set_next_demux_date (sys : demux_sys_t) (d : Z) : demux_sys_t :=
  mk_sys (i_type sys) (txt sys) d (i_microsecperframe sys)
         (psz_header sys) (i_subtitle sys) (i_subtitles sys) (subtitle sys)
         (i_length sys).

Definition set_length (sys : demux_sys_t) (l : Z) : demux_sys_t :=
  mk_sys (i_type sys) (txt sys) (i_next_demux_date sys) (i_microsecperframe sys)
         (psz_header sys) (i_subtitle sys) (i_subtitles sys) (subtitle sys) l.

(** [p_sys->subtitle[p_sys->i_subtitles] = sub; p_sys->i_subtitles++]. *)
Definition push_subtitle (sys : demux_sys_t) (sub : subtitle_t) : demux_sys_t :=
  mk_sys (i_type sys) (txt sys) (i_next_demux_date sys) (i_microsecperframe sys)
         (psz_header sys) (i_subtitle sys) (i_subtitles sys + 1)
         (subtitle sys ++ [sub]) (i_length sys).

Definition set_sys (d : demux_t) (sys : demux_sys_t) : demux_t :=
  mk_demux (b_force d) (s d) (sub_original_fps d) (sub_fps d)
           (sub_type_name d) sys.

Definition set_stream (d : demux_t) (st : stream_t) : demux_t :=
  mk_demux (b_force d) st (sub_original_fps d) (sub_fps d)
           (sub_type_name d) (p_sys d).

Definition set_sub_fps (d : demux_t) (f : float) : demux_t :=
  mk_demux (b_force d) (s d) (sub_original_fps d) f (sub_type_name d) (p_sys d).

Definition set_start (sub : subtitle_t) (v : Z) : subtitle_t :=
  mk_subtitle v (i_stop sub) (psz_text sub).
Definition set_stop (sub : subtitle_t) (v : Z) : subtitle_t :=
  mk_subtitle (i_start sub) v (psz_text sub).
Definition set_text (sub : subtitle_t) (t : string) : subtitle_t :=
  mk_subtitle (i_start sub) (i_stop sub) t.

(* ================================================================== *)
(** * The line cursor: [TextLoad], [TextGetLine], [TextPreviousLine] *)

(** The reading loop of [TextLoad]; at most [fuel] lines are read. *)
Fixpoint TextLoad_loop (fuel : nat) (st : stream_t) (acc : list string)
  : list string * stream_t :=
  match fuel with
  | O => (acc, st)
  | S k =>
      match stream_ReadLine st with
      | (None, st') => (acc, st')
      | (Some psz, st') => TextLoad_loop k st' (acc ++ [psz])
      end
  end.

(** [TextLoad(txt, s)]: the return code, the cursor and the stream. *)
Definition TextLoad (st : stream_t) : vlc_code * text_t * stream_t :=
  let '(lines, st') :=
    TextLoad_loop (S (List.length (s_lines st))) st [] in
  let t := {| i_line_count := Z.of_nat (List.length lines); i_line := 0;
              line := lines |} in
  if i_line_count t <=? 0 then (VLC_EGENERIC, t, st')
  else (VLC_SUCCESS, t, st').

Definition TextUnload (t : text_t) : text_t :=
  {| i_line_count := 0; i_line := 0; line := [] |}.

(** [TextGetLine]: [None] is NULL.  The increment cannot overflow, the
    cursor being below the count. *)
Definition TextGetLine (t : text_t) : option string * text_t :=
  if i_line t >=? i_line_count t then (None, t)
  else (Some (nth (Z.to_nat (i_line t)) (line t) EmptyString),
        {| i_line_count := i_line_count t; i_line := i_line t + 1;
           line := line t |}).

Definition TextPreviousLine (t : text_t) : text_t :=
  if i_line t >? 0
  then {| i_line_count := i_line_count t; i_line := i_line t - 1;
          line := line t |}
  else t.

(** Number of loop iterations that certainly exhaust the cursor. *)
Definition lines_left (t : text_t) : nat :=
  S (Z.to_nat (i_line_count t - i_line t)).

(* ================================================================== *)
(** * Format probing (the autodetection loop of [Open]) *)

Definition count (s : string) (f : string) : Z := fst (sscanf s (format f)).

Definition found (o : option string) : bool :=
  match o with Some _ => true | None => false end.

(** The conditions of the [if]/[else if] chain, in the order of the
    source. *)
Definition sig_sami (l : string) : bool := found (strcasestr l "<SAMI>").
Definition sig_microdvd (l : string) : bool :=
  (count l "{%d}{%d}" =? 2) || (count l "{%d}{}" =? 1).
Definition sig_subrip (l : string) : bool :=
  count l "%d:%d:%d,%d --> %d:%d:%d,%d" =? 8.
Definition sig_ssa1 (l : string) : bool :=
  strncasecmp_eq l "!: This is a Sub Station Alpha v1" 33.
Definition sig_ass (l : string) : bool := strncasecmp_eq l "ScriptType: v4.00+" 18.
Definition sig_ssa2_4 (l : string) : bool := strncasecmp_eq l "ScriptType: v4.00" 17.
Definition sig_dialogue_marked (l : string) : bool :=
  strncasecmp_eq l "Dialogue: Marked" 16.
Definition sig_dialogue (l : string) : bool := strncasecmp_eq l "Dialogue:" 9.
Definition sig_subviewer (l : string) : bool := found (strcasestr l "[INFORMATION]").
Definition sig_jacosub (l : string) : bool :=
  (count l "%d:%d:%d.%d %d:%d:%d" =? 7) || (count l "@%d @%d" =? 2).
Definition sig_vplayer (l : string) : bool :=
  (count l "%d:%d:%d:" =? 3) || (count l "%d:%d:%d " =? 3).
Definition sig_dvdsubtitle (l : string) : bool := count l "{T %d:%d:%d:%d" =? 4.
Definition sig_mpl2 (l : string) : bool :=
  (count l "[%d][%d]" =? 2) || (count l "[%d][]" =? 1).
Definition sig_mpsub (l : string) : bool :=
  (count l "FORMAT=%d" =? 1)
  || match sscanf l (format "FORMAT=TIM%c") with
     | (1, [Vchar p_dummy]) => Ascii.eqb p_dummy "E"
     | _ => false
     end.
Definition sig_aqt (l : string) : bool := count l "-->> %d" =? 1.
Definition sig_pjs (l : string) : bool := count l "%d,%d," =? 2.

(** One pass through the chain on a line: the type it assigns and whether
    the scan stops ([break]); [None] when no condition holds. *)
Definition probe_line (l : string) : option (sub_type * bool) :=
  if sig_sami l then Some (SUB_TYPE_SAMI, true)
  else if sig_microdvd l then Some (SUB_TYPE_MICRODVD, true)
  else if sig_subrip l then Some (SUB_TYPE_SUBRIP, true)
  else if sig_ssa1 l then Some (SUB_TYPE_SSA1, true)
  else if sig_ass l then Some (SUB_TYPE_ASS, true)
  else if sig_ssa2_4 l then Some (SUB_TYPE_SSA2_4, true)
  else if sig_dialogue_marked l then Some (SUB_TYPE_SSA2_4, true)
  else if sig_dialogue l then Some (SUB_TYPE_ASS, true)
  else if sig_subviewer l then Some (SUB_TYPE_SUBVIEWER, true)
  else if sig_jacosub l then Some (SUB_TYPE_JACOSUB, false)
  else if sig_vplayer l then Some (SUB_TYPE_VPLAYER, true)
  else if sig_dvdsubtitle l then Some (SUB_TYPE_DVDSUBTITLE, true)
  else if sig_mpl2 l then Some (SUB_TYPE_MPL2, true)
  else if sig_mpsub l then Some (SUB_TYPE_MPSUB, false)
  else if sig_aqt l then Some (SUB_TYPE_AQT, false)
  else if sig_pjs l then Some (SUB_TYPE_PJS, false)
  else None.

(** The [for( i_try = 0; i_try < 256; i_try++ )] loop; [tries] is the
    number of iterations left. *)
Fixpoint probe_loop (tries : nat) (st : stream_t) (ty : sub_type)
  : sub_type * stream_t :=
  match tries with
  | O => (ty, st)
  | S k =>
      match stream_ReadLine st with
      | (None, st') => (ty, st')
      | (Some l, st') =>
          match probe_line l with
          | Some (t, true) => (t, st')
          | Some (t, false) => probe_loop k st' t
          | None => probe_loop k st' ty
          end
      end
  end.

(* ================================================================== *)
(** * The format parsers

    A parser call returns a code and leaves the state and the subtitle slot
    it was given modified.  Two more outcomes exist in the model: the C code
    has undefined behaviour on the input ([Undefined]), or the model's
    iteration bound was reached ([OutOfFuel]).  Allocation never fails in
    the model, so no path returns [VLC_ENOMEM]. *)

Inductive result (St : Type) : Type :=
| Ret (code : vlc_code) (st : St) (sub : subtitle_t)
| Undefined
| OutOfFuel.

Arguments Ret {St} code st sub.
Arguments Undefined {St}.
Arguments OutOfFuel {St}.

(** Change of the state component of a result. *)
Definition map_state {A B : Type} (f : A -> B) (r : result A) : result B :=
  match r with
  | Ret c a sub => Ret c (f a) sub
  | Undefined => Undefined
  | OutOfFuel => OutOfFuel
  end.

(** The "replace | by \n" loops. *)
Fixpoint replace_bar (t : string) : string :=
  match t with
  | EmptyString => EmptyString
  | String c r => String (if Ascii.eqb c "|" then LF else c) (replace_bar r)
  end.

Definition NL : string := String LF EmptyString.

(** [strcat]: the destination is reallocated by the callers beforehand. *)
Definition strcat (dst src : string) : string := (dst ++ src)%string.

(** [h * 3600*1000 + m * 60*1000 + s * 1000 + d], then [* 1000], all in
    [int64_t]. *)
Definition time_us (h m sec d : Z) : Z :=
  int64 (int64 (int64 (int64 (int64 (h * 3600 * 1000) + int64 (m * 60 * 1000))
                       + int64 (sec * 1000)) + d) * 1000).

(** [(int64_t)((float)1000000 / f_fps)]. *)
Definition frame_duration (f_fps : float) : Z :=
  int64_of_float (SFdiv f_prec f_emax (float_of_Z 1000000) f_fps).

(** Comparisons of a [float] with the [double] constants of the source. *)
Definition gt_zero (f : float) : bool := SFltb (double_of_Z 0) (double_of_float f).
Definition le_zero (f : float) : bool := SFleb (double_of_float f) (double_of_Z 0).
Definition ge_one (f : float) : bool := SFleb (double_of_Z 1) (double_of_float f).

(** ** ParseMicroDvd *)

(** The two [sscanf] of the loop, joined by [||]: start, stop (0 when
    empty) and text of a matching line. *)
Definition scan_microdvd (l : string) : option (Z * Z * string) :=
  match sscanf l (format "{%d}{}%[^\r\n]") with
  | (2, [Vint a; Vstr text]) => Some (a, 0, text)
  | _ =>
      match sscanf l (format "{%d}{%d}%[^\r\n]") with
      | (3, [Vint a; Vint b; Vstr text]) => Some (a, b, text)
      | _ => None
      end
  end.

Fixpoint ParseMicroDvd_loop (fuel : nat) (d : demux_t)
  : result demux_t + (demux_t * Z * Z * string) :=
  match fuel with
  | O => inl OutOfFuel
  | S k =>
      let sys := p_sys d in
      match TextGetLine (txt sys) with
      | (None, t') =>
          inl (Ret VLC_EGENERIC (set_sys d (set_txt sys t'))
                   (mk_subtitle 0 0 EmptyString))
      | (Some l, t') =>
          let d1 := set_sys d (set_txt sys t') in
          match scan_microdvd l with
          | Some (start, stop, text) =>
              if negb (start =? 1) || negb (stop =? 1)
              then inr (d1, start, stop, text)
              else
                let f_fps := float_of_double (us_strtod text) in
                if gt_zero f_fps && le_zero (sub_fps d1)
                then ParseMicroDvd_loop k
                       (set_sys d1 (set_microsecperframe (p_sys d1)
                                      (frame_duration f_fps)))
                else ParseMicroDvd_loop k d1
          | None => ParseMicroDvd_loop k d1
          end
      end
  end.

Definition ParseMicroDvd (d : demux_t) (p_subtitle : subtitle_t) (i_idx : Z)
  : result demux_t :=
  match ParseMicroDvd_loop (lines_left (txt (p_sys d))) d with
  | inl (Ret c d' _) => Ret c d' p_subtitle
  | inl r => r
  | inr (d', start, stop, text) =>
      Ret VLC_SUCCESS d'
          {| i_start := int64 (start * i_microsecperframe (p_sys d'));
             i_stop := int64 (stop * i_microsecperframe (p_sys d'));
             psz_text := replace_bar text |}
  end.

(** ** ParseSubRipSubViewer, ParseSubRip, ParseSubViewer *)

(** Index of the first occurrence of the needle. *)
Fixpoint str_index (hay needle : string) : option nat :=
  if strn_eq (fun c => c) (String.length needle) hay needle then Some O
  else match hay with
       | EmptyString => None
       | String _ r => option_map S (str_index r needle)
       end.

(** [while( ( p = strstr( psz_text, "[br]" ) ) ) { *p++ = '\n'; memmove... }];
    every round shortens the text, [fuel] is its length. *)
Fixpoint replace_br (fuel : nat) (t : string) : string :=
  match fuel with
  | O => t
  | S k =>
      match str_index t "[br]" with
      | Some i => replace_br k (strcat (str_take i t) (strcat NL (str_drop (i + 4) t)))
      | None => t
      end
  end.

(** The [sscanf] of the first loop: start and stop of a timing line. *)
Definition scan_timing (psz_fmt : string) (l : string) : option (Z * Z) :=
  match sscanf l (format psz_fmt) with
  | (8, [Vint h1; Vint m1; Vint s1; Vint d1;
         Vint h2; Vint m2; Vint s2; Vint d2]) =>
      Some (time_us h1 m1 s1 d1, time_us h2 m2 s2 d2)
  | _ => None
  end.

(** First loop: skip to the timing line. *)
Fixpoint SubRip_timing (fuel : nat) (psz_fmt : string) (t : text_t)
  : option (option (Z * Z) * text_t) :=
  match fuel with
  | O => None
  | S k =>
      match TextGetLine t with
      | (None, t') => Some (None, t')
      | (Some l, t') =>
          match scan_timing psz_fmt l with
          | Some times => Some (Some times, t')
          | None => SubRip_timing k psz_fmt t'
          end
      end
  end.

(** Second loop: "Now read text until an empty line". *)
Fixpoint SubRip_body (fuel : nat) (b_replace_br : bool) (t : text_t)
  (text : string) : option (option string * text_t) :=
  match fuel with
  | O => None
  | S k =>
      match TextGetLine t with
      | (None, t') => Some (None, t')
      | (Some l, t') =>
          if strlen l <=? 0 then Some (Some text, t')
          else
            let text1 := strcat (strcat text l) NL in
            SubRip_body k b_replace_br t'
              (if b_replace_br
               then replace_br (String.length text1) text1 else text1)
      end
  end.

Definition ParseSubRipSubViewer (t : text_t) (p_subtitle : subtitle_t)
  (psz_fmt : string) (b_replace_br : bool) : result text_t :=
  match SubRip_timing (lines_left t) psz_fmt t with
  | None => OutOfFuel
  | Some (None, t1) => Ret VLC_EGENERIC t1 p_subtitle
  | Some (Some (start, stop), t1) =>
      let sub1 := set_stop (set_start p_subtitle start) stop in
      match SubRip_body (lines_left t1) b_replace_br t1 EmptyString with
      | None => OutOfFuel
      | Some (None, t2) => Ret VLC_EGENERIC t2 sub1
      | Some (Some text, t2) => Ret VLC_SUCCESS t2 (set_text sub1 text)
      end
  end.

(** A parser that only uses the cursor, as a parser on the demuxer. *)
Definition on_txt (f : text_t -> result text_t) (d : demux_t) : result demux_t :=
  map_state (fun t => set_sys d (set_txt (p_sys d) t)) (f (txt (p_sys d))).

Definition ParseSubRip (d : demux_t) (p_subtitle : subtitle_t) (i_idx : Z)
  : result demux_t :=
  on_txt (fun t => ParseSubRipSubViewer t p_subtitle
                     "%d:%d:%d,%d --> %d:%d:%d,%d" false) d.

Definition ParseSubViewer (d : demux_t) (p_subtitle : subtitle_t) (i_idx : Z)
  : result demux_t :=
  on_txt (fun t => ParseSubRipSubViewer t p_subtitle
                     "%d:%d:%d.%d,%d:%d:%d.%d" true) d.

(** ** ParseSSA *)

(** [strcat( p_sys->psz_header, s ); strcat( p_sys->psz_header, "\n" )],
    after the header was created empty if it was NULL. *)
Definition header_append (h : option string) (l : string) : option string :=
  Some (strcat (strcat (match h with Some x => x | None => EmptyString end) l) NL).

(** The repaired text of a Dialogue line: [temp] is the first field,
    [text] the rest of the line after the two times. *)
Definition ssa_text (ty : sub_type) (i_idx : Z) (temp text : string) : string :=
  if sub_type_eqb ty SUB_TYPE_SSA1 then String "," text
  else
    let i_layer := if sub_type_eqb ty SUB_TYPE_ASS then atoi temp else 0 in
    (snprintf 16 (string_of_Z i_idx ++ "," ++ string_of_Z i_layer ++ ",") ++ text)%string.

(** The [sscanf] of a Dialogue line: first field, start, stop, and the
    rest of the line. *)
Definition scan_dialogue (l : string) : option (string * Z * Z * string) :=
  match sscanf l (format "Dialogue: %15[^,],%d:%d:%d.%d,%d:%d:%d.%d,%[^\r\n]")
  with
  | (10, [Vstr temp; Vint h1; Vint m1; Vint s1; Vint c1;
          Vint h2; Vint m2; Vint s2; Vint c2; Vstr text]) =>
      Some (temp, time_us h1 m1 s1 (int64 (c1 * 10)),
            time_us h2 m2 s2 (int64 (c2 * 10)), text)
  | _ => None
  end.

Fixpoint ParseSSA_loop (fuel : nat) (sys : demux_sys_t)
  (p_subtitle : subtitle_t) (i_idx : Z) : result demux_sys_t :=
  match fuel with
  | O => OutOfFuel
  | S k =>
      match TextGetLine (txt sys) with
      | (None, t') => Ret VLC_EGENERIC (set_txt sys t') p_subtitle
      | (Some l, t') =>
          let sys1 := set_txt sys t' in
          match scan_dialogue l with
          | Some (temp, start, stop, text) =>
              Ret VLC_SUCCESS sys1
                  {| i_start := start; i_stop := stop;
                     psz_text := ssa_text (i_type sys1) i_idx temp text |}
          | None =>
              ParseSSA_loop k
                (set_header sys1 (header_append (psz_header sys1) l))
                p_subtitle i_idx
          end
      end
  end.

Definition on_sys (f : demux_sys_t -> result demux_sys_t) (d : demux_t)
  : result demux_t :=
  map_state (set_sys d) (f (p_sys d)).

Definition ParseSSA (d : demux_t) (p_subtitle : subtitle_t) (i_idx : Z)
  : result demux_t :=
  on_sys (fun sys => ParseSSA_loop (lines_left (txt sys)) sys p_subtitle i_idx) d.

(** ** ParseVplayer *)

(** The [sscanf] of the loop: start and text of a matching line. *)
Definition scan_vplayer (l : string) : option (Z * string) :=
  match sscanf l (format "%d:%d:%d%*c%[^\r\n]") with
  | (4, [Vint h1; Vint m1; Vint s1; Vstr text]) =>
      Some (time_us h1 m1 s1 0, text)
  | _ => None
  end.

Fixpoint ParseVplayer_loop (fuel : nat) (t : text_t) (p_subtitle : subtitle_t)
  : result text_t :=
  match fuel with
  | O => OutOfFuel
  | S k =>
      match TextGetLine t with
      | (None, t') => Ret VLC_EGENERIC t' p_subtitle
      | (Some l, t') =>
          match scan_vplayer l with
          | Some (start, text) =>
              Ret VLC_SUCCESS t'
                  {| i_start := start; i_stop := 0;
                     psz_text := replace_bar text |}
          | None => ParseVplayer_loop k t' p_subtitle
          end
      end
  end.

Definition ParseVplayer (d : demux_t) (p_subtitle : subtitle_t) (i_idx : Z)
  : result demux_t :=
  on_txt (fun t => ParseVplayer_loop (lines_left t) t p_subtitle) d.

(** ** ParseSamiSearch, ParseSami *)

(** The line-reading loop of [ParseSamiSearch]: the text after the first
    occurrence of [psz_str], or NULL at the end of the input. *)
Fixpoint ParseSamiSearch_loop (fuel : nat) (t : text_t) (psz_str : string)
  : option (option string * text_t) :=
  match fuel with
  | O => None
  | S k =>
      match TextGetLine t with
      | (None, t') => Some (None, t')
      | (Some p, t') =>
          match strcasestr p psz_str with
          | Some m => Some (Some (str_drop (String.length psz_str) m), t')
          | None => ParseSamiSearch_loop k t' psz_str
          end
      end
  end.

Definition ParseSamiSearch (t : text_t) (psz_start : option string)
  (psz_str : string) : option (option string * text_t) :=
  match psz_start with
  | Some st =>
      match strcasestr st psz_str with
      | Some m => Some (Some (str_drop (String.length psz_str) m), t)
      | None => ParseSamiSearch_loop (lines_left t) t psz_str
      end
  | None => ParseSamiSearch_loop (lines_left t) t psz_str
  end.

(** [char text[8192]]: an array is its contents by index; a store outside
    [0 .. sizeof - 1] is undefined behaviour ([None]). *)
Definition sizeof_text : Z := 8192.

Definition store (a : Z -> ascii) (i : Z) (c : ascii) : option (Z -> ascii) :=
  if (0 <=? i) && (i <? sizeof_text)
  then Some (fun j => if j =? i then c else a j)
  else None.

(** The C string that starts at index [i] of the array, [None] when no
    NUL is met within [n] characters. *)
Fixpoint c_string (n : nat) (a : Z -> ascii) (i : Z) : option string :=
  match n with
  | O => None
  | S k =>
      if Ascii.eqb (a i) NUL then Some EmptyString
      else option_map (String (a i)) (c_string k a (i + 1))
  end.

(** [strdup( text )]. *)
Definition strdup_text (a : Z -> ascii) : option string :=
  c_string (Z.to_nat sizeof_text) a 0.

(** [while( s && *s == '\0' ) s = TextGetLine( txt );] *)
Fixpoint sami_skip_empty (fuel : nat) (t : text_t) (sp : option string)
  : option (option string * text_t) :=
  match sp with
  | Some EmptyString =>
      match fuel with
      | O => None
      | S k => let '(sp', t') := TextGetLine t in sami_skip_empty k t' sp'
      end
  | _ => Some (sp, t)
  end.

(** [if( c != '\0' && i_text+1 < sizeof(text) ) { text[i_text++] = c;
    text[i_text] = '\0'; }] *)
Definition sami_put (text : Z -> ascii) (i_text : Z) (c : ascii)
  : option ((Z -> ascii) * Z) :=
  if negb (Ascii.eqb c NUL) && (i_text + 1 <? sizeof_text) then
    match store text i_text c with
    | Some text1 =>
        match store text1 (i_text + 1) NUL with
        | Some text2 => Some (text2, i_text + 1)
        | None => None
        end
    | None => None
    end
  else Some (text, i_text).

Inductive sami_end : Type :=
| Sami_done (t : text_t) (text : Z -> ascii) (i_text : Z)
| Sami_undefined
| Sami_fuel.

(** The loop "now get all txt until a Start= line". *)
Fixpoint ParseSami_loop (fuel : nat) (t : text_t) (sp : option string)
  (text : Z -> ascii) (i_text : Z) : sami_end :=
  match fuel with
  | O => Sami_fuel
  | S k =>
      match sami_skip_empty (lines_left t) t sp with
      | None => Sami_fuel
      | Some (None, t1) => Sami_done t1 text i_text
      | Some (Some EmptyString, t1) => Sami_fuel
      | Some (Some (String c0 rest as str), t1) =>
          let continue t2 sp2 c :=
            match sami_put text i_text c with
            | Some (text', i_text') => ParseSami_loop k t2 sp2 text' i_text'
            | None => Sami_undefined
            end in
          if Ascii.eqb c0 "<" then
            if strncasecmp_eq str "<br" 3 then
              match ParseSamiSearch t1 (Some str) ">" with
              | Some (sp2, t2) => continue t2 sp2 LF
              | None => Sami_fuel
              end
            else if found (strcasestr str "Start=") then
              Sami_done (TextPreviousLine t1) text i_text
            else
              match ParseSamiSearch t1 (Some str) ">" with
              | Some (sp2, t2) => continue t2 sp2 NUL
              | None => Sami_fuel
              end
          else if strncmp_eq str "&nbsp;" 6 then
            continue t1 (Some (str_drop 6 str)) " "%char
          else if Ascii.eqb c0 TAB then continue t1 (Some rest) " "%char
          else continue t1 (Some rest) c0
      end
  end.

(** A bound on the iterations of [ParseSami_loop]: every iteration
    consumes a character of the current line or moves to a later line. *)
Fixpoint chars_from (n : nat) (i : Z) (lines : list string) : nat :=
  match n with
  | O => O
  | S k => S (String.length (nth (Z.to_nat i) lines EmptyString)
              + chars_from k (i + 1) lines)
  end.

(** Characters of the unread lines, each line counted with its end. *)
Definition chars_left (t : text_t) : nat :=
  chars_from (Z.to_nat (i_line_count t - i_line t)) (i_line t) (line t).

(** What is left to scan: the rest of the current line and the unread
    lines. *)
Definition sami_left (t : text_t) (sp : option string) : nat :=
  match sp with Some x => String.length x | None => O end + chars_left t.

Definition sami_fuel (t : text_t) (sp : option string) : nat :=
  S (sami_left t sp).

(** [text0] is the indeterminate initial content of the local array. *)
Definition ParseSami (text0 : Z -> ascii) (t : text_t) (p_subtitle : subtitle_t)
  : result text_t :=
  match ParseSamiSearch t None "Start=" with
  | None => OutOfFuel
  | Some (None, t1) => Ret VLC_EGENERIC t1 p_subtitle
  | Some (Some s1, t1) =>
      let '(start, s2) := strtol0 s1 in
      match ParseSamiSearch t1 (Some s2) "<P" with
      | None => OutOfFuel
      | Some (None, t2) => Ret VLC_EGENERIC t2 p_subtitle
      | Some (Some s3, t2) =>
          match ParseSamiSearch t2 (Some s3) ">" with
          | None => OutOfFuel
          | Some (None, t3) => Ret VLC_EGENERIC t3 p_subtitle
          | Some (Some s4, t3) =>
              match store text0 0 NUL with
              | None => Undefined
              | Some text1 =>
                  match ParseSami_loop (sami_fuel t3 (Some s4)) t3 (Some s4)
                          text1 0 with
                  | Sami_fuel => OutOfFuel
                  | Sami_undefined => Undefined
                  | Sami_done t4 text i_text =>
                      match strdup_text text with
                      | None => Undefined
                      | Some copy =>
                          Ret VLC_SUCCESS t4
                              {| i_start := int64 (start * 1000); i_stop := 0;
                                 psz_text := copy |}
                      end
                  end
              end
          end
      end
  end.

(** ** ParseDVDSubtitle *)

(** The [sscanf] of the first loop: the start of a timing line. *)
Definition scan_dvdsubtitle (l : string) : option Z :=
  match sscanf l (format "{T %d:%d:%d:%d") with
  | (4, [Vint h1; Vint m1; Vint s1; Vint c1]) =>
      Some (time_us h1 m1 s1 (int64 (c1 * 10)))
  | _ => None
  end.

Fixpoint DVDSubtitle_timing (fuel : nat) (t : text_t)
  : option (option Z * text_t) :=
  match fuel with
  | O => None
  | S k =>
      match TextGetLine t with
      | (None, t') => Some (None, t')
      | (Some l, t') =>
          match scan_dvdsubtitle l with
          | Some start => Some (Some start, t')
          | None => DVDSubtitle_timing k t'
          end
      end
  end.

(** "Now read text until a line containing }". *)
Fixpoint DVDSubtitle_body (fuel : nat) (t : text_t) (text : string)
  : option (option string * text_t) :=
  match fuel with
  | O => None
  | S k =>
      match TextGetLine t with
      | (None, t') => Some (None, t')
      | (Some l, t') =>
          if String.eqb l "}" then Some (Some text, t')
          else DVDSubtitle_body k t' (strcat (strcat text l) NL)
      end
  end.

Definition ParseDVDSubtitle_txt (t : text_t) (p_subtitle : subtitle_t)
  : result text_t :=
  match DVDSubtitle_timing (lines_left t) t with
  | None => OutOfFuel
  | Some (None, t1) => Ret VLC_EGENERIC t1 p_subtitle
  | Some (Some start, t1) =>
      let sub1 := set_stop (set_start p_subtitle start) 0 in
      match DVDSubtitle_body (lines_left t1) t1 EmptyString with
      | None => OutOfFuel
      | Some (None, t2) => Ret VLC_EGENERIC t2 sub1
      | Some (Some text, t2) => Ret VLC_SUCCESS t2 (set_text sub1 text)
      end
  end.

(** ** ParseMPL2 *)

(** The loop after the match: a bar becomes a line break, a slash at the
    start of a line is removed.  [at_start] is [i == 0 ||
    psz_text[i-1] == '\n']. *)
Fixpoint mpl2_text (at_start : bool) (t : string) : string :=
  match t with
  | EmptyString => EmptyString
  | String c r =>
      let c' := if Ascii.eqb c "|" then LF else c in
      if Ascii.eqb c' "/" && at_start then mpl2_text at_start r
      else String c' (mpl2_text (Ascii.eqb c' LF) r)
  end.

(** The two [sscanf] of the loop, joined by [||]: start, stop (0 when
    empty) and text of a matching line. *)
Definition scan_mpl2 (l : string) : option (Z * Z * string) :=
  match sscanf l (format "[%d][] %[^\r\n]") with
  | (2, [Vint a; Vstr text]) => Some (a, 0, text)
  | _ =>
      match sscanf l (format "[%d][%d] %[^\r\n]") with
      | (3, [Vint a; Vint b; Vstr text]) => Some (a, b, text)
      | _ => None
      end
  end.

Fixpoint ParseMPL2_loop (fuel : nat) (t : text_t) (p_subtitle : subtitle_t)
  : result text_t :=
  match fuel with
  | O => OutOfFuel
  | S k =>
      match TextGetLine t with
      | (None, t') => Ret VLC_EGENERIC t' p_subtitle
      | (Some l, t') =>
          match scan_mpl2 l with
          | Some (start, stop, text) =>
              Ret VLC_SUCCESS t'
                  {| i_start := int64 (start * 100000);
                     i_stop := int64 (stop * 100000);
                     psz_text := mpl2_text true text |}
          | None => ParseMPL2_loop k t' p_subtitle
          end
      end
  end.

(** ** ParseAQT *)

(** [sscanf (s, "-->> %d", &t) == 1]. *)
Definition scan_aqt (l : string) : option Z :=
  match sscanf l (format "-->> %d") with
  | (1, [Vint v]) => Some v
  | _ => None
  end.

Fixpoint ParseAQT_loop (fuel : nat) (t : text_t) (p_subtitle : subtitle_t)
  (text : string) (i_firstline : bool) : result text_t :=
  match fuel with
  | O => OutOfFuel
  | S k =>
      match TextGetLine t with
      | (None, t') => Ret VLC_EGENERIC t' p_subtitle
      | (Some l, t') =>
          match scan_aqt l with
          | Some v =>
              let sub1 := set_stop (set_start p_subtitle v) 0 in
              if i_firstline then ParseAQT_loop k t' sub1 text false
              else
                Ret VLC_SUCCESS
                    {| i_line_count := i_line_count t';
                       i_line := i_line t' - 1; line := line t' |}
                    (set_text sub1 text)
          | None =>
              let text1 := strcat (strcat text l) NL in
              if i_line t' =? i_line_count t'
              then Ret VLC_SUCCESS t' (set_text p_subtitle text1)
              else ParseAQT_loop k t' p_subtitle text1 i_firstline
          end
      end
  end.

(** ** ParsePJS *)

(** [psz_text[ strlen(psz_text) - 1 ] = '\0']. *)
Definition drop_last (t : string) : string :=
  str_take (Nat.pred (String.length t)) t.

(** The [sscanf] of the loop, whose format has a double quote between
    the second comma and the scanset. *)
Definition scan_pjs (l : string) : option (Z * Z * string) :=
  match sscanf l (format "%d,%d," ++ [Dlit DQUOTE] ++ format "%[^\n\r]") with
  | (3, [Vint t1; Vint t2; Vstr text]) => Some (t1, t2, text)
  | _ => None
  end.

Fixpoint ParsePJS_loop (fuel : nat) (t : text_t) (p_subtitle : subtitle_t)
  : result text_t :=
  match fuel with
  | O => OutOfFuel
  | S k =>
      match TextGetLine t with
      | (None, t') => Ret VLC_EGENERIC t' p_subtitle
      | (Some l, t') =>
          match scan_pjs l with
          | Some (t1, t2, text) =>
              Ret VLC_SUCCESS t'
                  {| i_start := int32 (10 * t1); i_stop := int32 (10 * t2);
                     psz_text := drop_last text |}
          | None => ParsePJS_loop k t' p_subtitle
          end
      end
  end.

(** ** ParseMPSub

    The state is the pair of the static variables and the demuxer. *)

Definition set_mpsub (g : statics) (total factor : float) : statics :=
  mk_statics total factor (i_comment g) (jss_time_resolution g)
             (jss_time_shift g).

(** [sscanf (s, "FORMAT=TIM%c", &p_dummy ) == 1 && p_dummy == 'E']. *)
Definition mpsub_format_time (l : string) : bool :=
  match sscanf l (format "FORMAT=TIM%c") with
  | (1, [Vchar p_dummy]) => Ascii.eqb p_dummy "E"
  | _ => false
  end.

(** [sscanf( s, "FORMAT=%[^\r\n]", psz_temp )] as the [if] reads it:
    zero, or non-zero with the string stored, or non-zero ([EOF]) with
    nothing stored. *)
Inductive mpsub_format_scan : Type :=
| Format_zero
| Format_stored (psz_temp : string)
| Format_eof.

Definition mpsub_format (l : string) : mpsub_format_scan :=
  match sscanf l (format "FORMAT=%[^\r\n]") with
  | (0, _) => Format_zero
  | (1, [Vstr psz_temp]) => Format_stored psz_temp
  | _ => Format_eof
  end.

(** [sscanf (s, "%f %f", &f1, &f2 ) == 2]. *)
Definition mpsub_data (l : string) : option (float * float) :=
  match sscanf l (format "%f %f") with
  | (2, [Vfloat f1; Vfloat f2]) => Some (f1, f2)
  | _ => None
  end.

(** First loop: a [FORMAT=] line or a data line ends it. *)
Fixpoint MPSub_head (fuel : nat) (g : statics) (d : demux_t)
  (p_subtitle : subtitle_t)
  : result (statics * demux_t) + (statics * demux_t * subtitle_t) :=
  match fuel with
  | O => inl OutOfFuel
  | S k =>
      let sys := p_sys d in
      match TextGetLine (txt sys) with
      | (None, t') =>
          inl (Ret VLC_EGENERIC (g, set_sys d (set_txt sys t')) p_subtitle)
      | (Some l, t') =>
          let d1 := set_sys d (set_txt sys t') in
          if mpsub_format_time l
          then inr (set_mpsub g (mpsub_total g) (float_of_Z 100), d1, p_subtitle)
          else
            match mpsub_format l with
            | Format_zero =>
                match mpsub_data l with
                | Some (f1, f2) =>
                    let total1 :=
                      SFadd f_prec f_emax (mpsub_total g)
                            (SFmul f_prec f_emax f1 (mpsub_factor g)) in
                    let total2 :=
                      SFadd f_prec f_emax total1
                            (SFmul f_prec f_emax f2 (mpsub_factor g)) in
                    let us total :=
                      int64_of_float
                        (SFmul d_prec d_emax (double_of_Z 10000)
                               (double_of_float total)) in
                    inr (set_mpsub g total2 (mpsub_factor g), d1,
                         set_stop (set_start p_subtitle (us total1)) (us total2))
                | None => MPSub_head k g d1 p_subtitle
                end
            | Format_stored psz_temp =>
                let f_fps := float_of_double (us_strtod psz_temp) in
                let d2 := if gt_zero f_fps && le_zero (sub_fps d1)
                          then set_sub_fps d1 f_fps else d1 in
                inr (set_mpsub g (mpsub_total g) (float_of_Z 1), d2, p_subtitle)
            | Format_eof =>
                (* the test is true and [psz_temp] was never written *)
                inl Undefined
            end
      end
  end.

(** Second loop: the text lines up to an empty line. *)
Fixpoint MPSub_body (fuel : nat) (t : text_t) (text : string)
  : option (option string * text_t) :=
  match fuel with
  | O => None
  | S k =>
      match TextGetLine t with
      | (None, t') => Some (None, t')
      | (Some l, t') =>
          if strlen l =? 0 then Some (Some text, t')
          else MPSub_body k t' (strcat (strcat text l) NL)
      end
  end.

Definition ParseMPSub (g : statics) (d : demux_t) (p_subtitle : subtitle_t)
  (i_idx : Z) : result (statics * demux_t) :=
  match MPSub_head (lines_left (txt (p_sys d))) g d p_subtitle with
  | inl r => r
  | inr (g1, d1, sub1) =>
      let t1 := txt (p_sys d1) in
      match MPSub_body (lines_left t1) t1 EmptyString with
      | None => OutOfFuel
      | Some (None, t2) =>
          Ret VLC_EGENERIC (g1, set_sys d1 (set_txt (p_sys d1) t2)) sub1
      | Some (Some text, t2) =>
          Ret VLC_SUCCESS (g1, set_sys d1 (set_txt (p_sys d1) t2))
              (set_text sub1 text)
      end
  end.

(** ** ParseJSS *)

Definition set_jss (g : statics) (comment resolution shift : Z) : statics :=
  mk_statics (mpsub_total g) (mpsub_factor g) comment resolution shift.

(** [a / b] on [int]: undefined for a zero divisor and for the one
    quotient that does not fit. *)
Definition int_div (a b : Z) : option Z :=
  if b =? 0 then None
  else if (a =? - 2 ^ 31) && (b =? -1) then None
  else Some (Z.quot a b).

(** [&psz_text[shift]], defined up to the terminating NUL. *)
Definition at_offset (t : string) (shift : nat) : option string :=
  if (shift <=? String.length t)%nat then Some (str_drop shift t) else None.

Definition nth_char (t : string) (n : nat) : ascii :=
  match String.get n t with Some c => c | None => NUL end.

(** The [case 'S'] of a directive line: the new [jss_time_shift]. *)
Definition jss_shift_directive (arg : string) (resolution old_shift : Z) : Z :=
  match sscanf arg (format "%d") with
  | (0, _) => old_shift
  | (_, vals) =>
      let h0 := match vals with [Vint v] => v | _ => 0 end in
      let '(h1, inv) := if h0 <? 0 then (int32 (h0 * -1), -1) else (h0, 1) in
      let '(h, m, sec, f) :=
        match sscanf arg (format "%*d:%d") with
        | (0, _) =>
            match snd (sscanf arg (format "%d.%d")) with
            | [Vint a; Vint b] => (0, 0, int32 (a * inv), b)
            | [Vint a] => (0, 0, int32 (a * inv), 1)
            | _ => (0, 0, int32 (1 * inv), 1)
            end
        | (_, vals_m) =>
            let m0 := match vals_m with [Vint v] => v | _ => 0 end in
            match sscanf arg (format "%*d:%*d:%d") with
            | (0, _) =>
                match snd (sscanf arg (format "%d:%d.%d")) with
                | [Vint a; Vint b; Vint c] => (0, int32 (a * inv), b, c)
                | [Vint a; Vint b] => (0, int32 (a * inv), b, 1)
                | [Vint a] => (0, int32 (a * inv), 1, 1)
                | _ => (0, int32 (m0 * inv), 1, 1)
                end
            | (_, vals_s) =>
                let sec0 := match vals_s with [Vint v] => v | _ => 1 end in
                match snd (sscanf arg (format "%*d:%*d:%*d.%d")) with
                | [Vint c] => (h1, m0, sec0, c)
                | _ => (h1, m0, sec0, 1)
                end
            end
        end in
      int32 (int32 (int32 (int32 (int32 (h * 3600) + int32 (m * 60)) + sec)
                    * resolution + f) * inv)
  end.

(** A line that starts with [#]: the statics after it, [None] when the
    argument pointer is out of the copy of the line. *)
Definition jss_directive (l : string) (g : statics) : option statics :=
  let c1 := toupper (nth_char l 1) in
  if Ascii.eqb c1 "S" then
    match at_offset l (if isalpha (nth_char l 2) then 6 else 2) with
    | Some arg =>
        Some (set_jss g (i_comment g) (jss_time_resolution g)
                (jss_shift_directive arg (jss_time_resolution g)
                                     (jss_time_shift g)))
    | None => None
    end
  else if Ascii.eqb c1 "T" then
    match at_offset l (if isalpha (nth_char l 2) then 8 else 2) with
    | Some arg =>
        match snd (sscanf arg (format "%d")) with
        | [Vint v] => Some (set_jss g (i_comment g) v (jss_time_shift g))
        | _ => Some g
        end
    | None => None
    end
  else Some g.

(** [while( *psz_text == ' ' || *psz_text == '\t' ) psz_text++;] *)
Fixpoint jss_skip_blanks (t : string) : string :=
  match t with
  | String c r =>
      if Ascii.eqb c " " || Ascii.eqb c TAB then jss_skip_blanks r else t
  | EmptyString => t
  end.

(** [while( *psz_text != ' ' ) { psz_text++ ; }]: without a space the
    pointer leaves the string. *)
Fixpoint jss_skip_word (t : string) : option string :=
  match t with
  | String c r => if Ascii.eqb c " " then Some t else jss_skip_word r
  | EmptyString => None
  end.

Inductive jss_end : Type :=
| Jss_text (comment : Z) (t : text_t) (out : string)
| Jss_input_end (comment : Z) (t : text_t)
| Jss_undefined.

Definition put (out : string) (c : ascii) : string :=
  strcat out (String c EmptyString).

(** The [for] loop over the text with its [switch]. *)
Fixpoint jss_strip (p : string) (comment : Z) (t : text_t) (out : string)
  : jss_end :=
  match p with
  | EmptyString => Jss_text comment t out
  | String c r =>
      if Ascii.eqb c LF || Ascii.eqb c CR then Jss_text comment t out
      else
        let next := nth_char r 0 in
        let default after := if comment =? 0 then put out after else out in
        if Ascii.eqb c "{" then jss_strip r (comment + 1) t out
        else if Ascii.eqb c "}" then
          if negb (comment =? 0) then
            match r with
            | String " " r2 => jss_strip r2 0 t out
            | _ => jss_strip r 0 t out
            end
          else jss_strip r comment t out
        else if Ascii.eqb c "~" then jss_strip r comment t (default " "%char)
        else if Ascii.eqb c " " || Ascii.eqb c TAB then
          if Ascii.eqb next " " || Ascii.eqb next TAB
          then jss_strip r comment t out
          else jss_strip r comment t (default " "%char)
        else if Ascii.eqb c "\" then
          match r with
          | EmptyString =>
              match TextGetLine t with
              | (None, t') => Jss_input_end comment t'
              | (Some _, t') => jss_strip r comment t' (default c)
              end
          | String n r2 =>
              if Ascii.eqb n "n" then jss_strip r2 comment t (put out LF)
              else if Ascii.eqb (toupper n) "C" || Ascii.eqb (toupper n) "F" then
                match r2 with
                | String _ r3 => jss_strip r3 comment t out
                | EmptyString => Jss_undefined
                end
              else if existsb (Ascii.eqb n)
                        ["B"; "b"; "I"; "i"; "U"; "u"; "D"; "N"]%char
              then jss_strip r2 comment t out
              else if existsb (Ascii.eqb n) ["~"; "{"; "\"]%char
              then jss_strip r2 comment t (default n)
              else if Ascii.eqb n CR || Ascii.eqb n LF then
                match TextGetLine t with
                | (None, t') => Jss_input_end comment t'
                | (Some _, t') => jss_strip r comment t' (default c)
                end
              else jss_strip r comment t (default c)
          end
        else jss_strip r comment t (default c)
  end.

(** The two timed forms of a line, [h:m:s.f h:m:s.f text] and
    [@f @f text]: start, stop ([None] when the division is undefined) and
    text. *)
Definition scan_jss (shift res : Z) (l : string)
  : option (option Z * option Z * string) :=
  match sscanf l (format "%d:%d:%d.%d %d:%d:%d.%d %[^\n\r]") with
  | (9, [Vint h1; Vint m1; Vint s1; Vint f1;
         Vint h2; Vint m2; Vint s2; Vint f2; Vstr text]) =>
      let secs h m sec :=
        int32 (int32 (int32 (h * 3600) + int32 (m * 60)) + sec) in
      let us h m sec f :=
        option_map (fun q => int64 (int64 (secs h m sec + q) * 1000000))
                   (int_div (int32 (f + shift)) res) in
      Some (us h1 m1 s1 f1, us h2 m2 s2 f2, text)
  | _ =>
      match sscanf l (format "@%d @%d %[^\n\r]") with
      | (3, [Vint f1; Vint f2; Vstr text]) =>
          let us f :=
            option_map
              (fun q => int64_of_float
                          (SFmul d_prec d_emax (double_of_Z q)
                                 (double_of_Z 1000000)))
              (int_div (int32 (f + shift)) res) in
          Some (us f1, us f2, text)
      | _ => None
      end
  end.

Fixpoint ParseJSS_loop (fuel : nat) (g : statics) (t : text_t)
  (p_subtitle : subtitle_t) : result (statics * text_t) :=
  match fuel with
  | O => OutOfFuel
  | S k =>
      match TextGetLine t with
      | (None, t') => Ret VLC_EGENERIC (g, t') p_subtitle
      | (Some l, t') =>
          let shift := jss_time_shift g in
          let res := jss_time_resolution g in
          match scan_jss shift res l with
          | Some (Some start, Some stop, text) =>
              let sub1 := set_stop (set_start p_subtitle start) stop in
              let p1 := jss_skip_blanks text in
              let p2 :=
                if isalpha (nth_char p1 0) || Ascii.eqb (nth_char p1 0) "["
                then jss_skip_word p1 else Some p1 in
              match p2 with
              | None => Undefined
              | Some p3 =>
                  match jss_strip (jss_skip_blanks p3) (i_comment g) t'
                          EmptyString with
                  | Jss_text comment t2 out =>
                      Ret VLC_SUCCESS (set_jss g comment res shift, t2)
                          (set_text sub1 out)
                  | Jss_input_end comment t2 =>
                      Ret VLC_EGENERIC (set_jss g comment res shift, t2) sub1
                  | Jss_undefined => Undefined
                  end
              end
          | Some _ => Undefined
          | None =>
              if Ascii.eqb (nth_char l 0) "#" then
                match jss_directive l g with
                | Some g' => ParseJSS_loop k g' t' p_subtitle
                | None => Undefined
                end
              else ParseJSS_loop k g t' p_subtitle
          end
      end
  end.

Definition ParseJSS (g : statics) (d : demux_t) (p_subtitle : subtitle_t)
  (i_idx : Z) : result (statics * demux_t) :=
  map_state (fun gt => (fst gt, set_sys d (set_txt (p_sys d) (snd gt))))
            (ParseJSS_loop (lines_left (txt (p_sys d))) g (txt (p_sys d))
                           p_subtitle).

(* ================================================================== *)
(** * The reader table and [Open] *)

(** The state a reader works on and its type, [pf_read]. *)
Definition world : Type := (statics * demux_t)%type.
Definition reader : Type := statics -> demux_t -> subtitle_t -> Z -> result world.

(** A reader that leaves the static variables alone. *)
Definition on_demux (f : demux_t -> subtitle_t -> Z -> result demux_t) : reader :=
  fun g d sub idx => map_state (fun d' => (g, d')) (f d sub idx).

Record es_format_t : Type := mk_es_format {
  i_codec : string;                (* the fourcc *)
  p_extra : option string          (* the header blob, NUL included in i_extra *)
}.

(** How the parsing loop of [Open] ends. *)
Inductive parse_end : Type :=
| Parse_done (g : statics) (d : demux_t)
| Parse_undefined
| Parse_out_of_fuel.

(** How the parsing loop of [Open] ends when [realloc] can fail. *)
Inductive parse_mem_end : Type :=
| Mem_done (g : statics) (d : demux_t)
| Mem_enomem (g : statics) (d : demux_t)
| Mem_undefined
| Mem_out_of_fuel.

(** The end of [Open_parse] as an end of the loop with [realloc]. *)
Definition mem_of (e : parse_end) : parse_mem_end :=
  match e with
  | Parse_done g d => Mem_done g d
  | Parse_undefined => Mem_undefined
  | Parse_out_of_fuel => Mem_out_of_fuel
  end.

Section Indeterminate.

(** Contents of memory the program reads before writing it: the local
    array of [ParseSami] and the slots of the subtitle array that [realloc]
    returns. *)
Variable text0 : Z -> ascii.
Variable heap0 : Z -> subtitle_t.

Definition ParseSami_reader : reader :=
  on_demux (fun d sub _ => on_txt (fun t => ParseSami text0 t sub) d).
Definition ParseDVDSubtitle : reader :=
  on_demux (fun d sub _ => on_txt (fun t => ParseDVDSubtitle_txt t sub) d).
Definition ParseMPL2 : reader :=
  on_demux (fun d sub _ => on_txt (fun t => ParseMPL2_loop (lines_left t) t sub) d).
Definition ParseAQT : reader :=
  on_demux (fun d sub _ =>
              on_txt (fun t => ParseAQT_loop (lines_left t) t sub EmptyString true) d).
Definition ParsePJS : reader :=
  on_demux (fun d sub _ => on_txt (fun t => ParsePJS_loop (lines_left t) t sub) d).

(** [sub_read_subtitle_function]: type name, type, display name, reader. *)
Definition sub_read_subtitle_function
  : list (option string * sub_type * string * option reader) :=
  [ (Some "microdvd",    SUB_TYPE_MICRODVD,    "MicroDVD",    Some (on_demux ParseMicroDvd));
    (Some "subrip",      SUB_TYPE_SUBRIP,      "SubRIP",      Some (on_demux ParseSubRip));
    (Some "subviewer",   SUB_TYPE_SUBVIEWER,   "SubViewer",   Some (on_demux ParseSubViewer));
    (Some "ssa1",        SUB_TYPE_SSA1,        "SSA-1",       Some (on_demux ParseSSA));
    (Some "ssa2-4",      SUB_TYPE_SSA2_4,      "SSA-2/3/4",   Some (on_demux ParseSSA));
    (Some "ass",         SUB_TYPE_ASS,         "SSA/ASS",     Some (on_demux ParseSSA));
    (Some "vplayer",     SUB_TYPE_VPLAYER,     "VPlayer",     Some (on_demux ParseVplayer));
    (Some "sami",        SUB_TYPE_SAMI,        "SAMI",        Some ParseSami_reader);
    (Some "dvdsubtitle", SUB_TYPE_DVDSUBTITLE, "DVDSubtitle", Some ParseDVDSubtitle);
    (Some "mpl2",        SUB_TYPE_MPL2,        "MPL2",        Some ParseMPL2);
    (Some "aqt",         SUB_TYPE_AQT,         "AQTitle",     Some ParseAQT);
    (Some "pjs",         SUB_TYPE_PJS,         "PhoenixSub",  Some ParsePJS);
    (Some "mpsub",       SUB_TYPE_MPSUB,       "MPSub",       Some ParseMPSub);
    (Some "jacosub",     SUB_TYPE_JACOSUB,     "JacoSub",     Some ParseJSS);
    (None,               SUB_TYPE_UNKNOWN,     "Unknown",     None) ].

(** The loop over the table that compares [psz_type_name] with the
    [sub-type] variable. *)
Fixpoint type_of_name (table : list (option string * sub_type * string * option reader))
  (psz_type : string) : sub_type :=
  match table with
  | (Some name, ty, _, _) :: rest =>
      if String.eqb name psz_type then ty else type_of_name rest psz_type
  | _ => SUB_TYPE_UNKNOWN
  end.

(** The loop over the table that picks [pf_read] for [i_type]. *)
Fixpoint reader_of_type (table : list (option string * sub_type * string * option reader))
  (ty : sub_type) : option reader :=
  match table with
  | (_, ty', _, pf) :: rest =>
      if sub_type_eqb ty' ty then pf else reader_of_type rest ty
  | [] => None
  end.

(** "Parse it": the reader is called on the next slot until it returns a
    non-zero code.  A reader may return cues without end (see [ParseSami]
    and [TextPreviousLine]), so the number of calls is bounded by [fuel].
    This is the loop in the runs in which every [realloc] of the array
    succeeds; [Open_parse_mem] below has the [realloc] and its failure. *)
Fixpoint Open_parse (fuel : nat) (pf_read : reader) (g : statics) (d : demux_t)
  : parse_end :=
  match fuel with
  | O => Parse_out_of_fuel
  | S k =>
      let n := i_subtitles (p_sys d) in
      match pf_read g d (heap0 n) n with
      | Ret code (g', d') sub =>
          if nonzero code then Parse_done g' d'
          else Open_parse k pf_read g' (set_sys d' (push_subtitle (p_sys d') sub))
      | Undefined => Parse_undefined
      | OutOfFuel => Parse_out_of_fuel
      end
  end.

(** "Fix subtitle (order and time)": the length of the whole. *)
Definition Open_length (sys : demux_sys_t) : Z :=
  if i_subtitles sys >? 0 then
    let last := nth (Z.to_nat (i_subtitles sys - 1)) (subtitle sys) (heap0 0) in
    if i_stop last <=? 0 then int64 (i_start last + 1) else i_stop last
  else 0.

Inductive open_result : Type :=
| Opened (g : statics) (d : demux_t) (load : vlc_code) (es : es_format_t)
| Open_error (code : vlc_code) (g : statics) (d : demux_t)
| Open_undefined
| Open_out_of_fuel.

(** [Open].  [d] carries the stream, the variables and [b_force]; its
    [p_sys] is overwritten.  [idate] is the value of the field
    [i_next_demux_date], which [Open] does not set.  [load] in the result is
    the code [TextLoad] returned, which [Open] does not look at.  This is
    [Open] in the runs in which no [realloc] of the parsing loop fails;
    [Open_mem] below is [Open] with the [realloc] and its VLC_ENOMEM. *)
Definition Open (fuel : nat) (idate : Z) (g : statics) (d : demux_t) : open_result :=
  if negb (b_force d) then Open_error VLC_EGENERIC g d
  else
    let mspf0 := 40000 in
    let mspf1 := if ge_one (sub_original_fps d)
                 then frame_duration (sub_original_fps d) else mspf0 in
    let mspf2 := if ge_one (sub_fps d) then frame_duration (sub_fps d) else mspf1 in
    let ty0 :=
      match sub_type_name d with
      | EmptyString => SUB_TYPE_UNKNOWN
      | name => type_of_name sub_read_subtitle_function name
      end in
    let '(ty, st) :=
      if sub_type_eqb ty0 SUB_TYPE_UNKNOWN then
        let '(ty1, st1) := probe_loop 256 (s d) SUB_TYPE_UNKNOWN in
        (ty1, snd (stream_Seek0 st1))
      else (ty0, s d) in
    if sub_type_eqb ty SUB_TYPE_UNKNOWN
    then Open_error VLC_EGENERIC g (set_stream d st)
    else
      match reader_of_type sub_read_subtitle_function ty with
      | None => Open_undefined
      | Some pf_read =>
          let '(load, t, st') := TextLoad st in
          let sys := {| i_type := ty; txt := t; i_next_demux_date := idate;
                        i_microsecperframe := mspf2; psz_header := None;
                        i_subtitle := 0; i_subtitles := 0; subtitle := [];
                        i_length := 0 |} in
          match Open_parse fuel pf_read g (set_sys (set_stream d st') sys) with
          | Parse_out_of_fuel => Open_out_of_fuel
          | Parse_undefined => Open_undefined
          | Parse_done g' d' =>
              let sys1 := set_txt (p_sys d') (TextUnload (txt (p_sys d'))) in
              let sys2 := set_length (set_subtitle sys1 0) (Open_length sys1) in
              let codec :=
                if sub_type_eqb (i_type sys2) SUB_TYPE_SSA1
                   || sub_type_eqb (i_type sys2) SUB_TYPE_SSA2_4
                   || sub_type_eqb (i_type sys2) SUB_TYPE_ASS
                then "ssa " else "subt" in
              Opened g' (set_sys d' sys2) load
                     {| i_codec := codec; p_extra := psz_header sys2 |}
          end
      end.

(** "Parse it" with its [realloc]: when the count has reached [i_max]
    the array is grown by 500 slots, and [Open] returns VLC_ENOMEM when
    the [realloc] fails.  [realloc_ok m] says whether the request for [m]
    slots is granted; [i_max] grows with every request, so one call of
    [Open] asks for a given number of slots once at most.  [i_max += 500]
    is an [int] addition: past INT_MAX it is undefined. *)
Fixpoint Open_parse_mem (realloc_ok : Z -> bool) (fuel : nat) (i_max : Z)
  (pf_read : reader) (g : statics) (d : demux_t) : parse_mem_end :=
  match fuel with
  | O => Mem_out_of_fuel
  | S k =>
      let n := i_subtitles (p_sys d) in
      let grow := n >=? i_max in
      let i_max' := if grow then i_max + 500 else i_max in
      if grow && (INT_MAX <? i_max') then Mem_undefined
      else if grow && negb (realloc_ok i_max') then Mem_enomem g d
      else
        match pf_read g d (heap0 n) n with
        | Ret code (g', d') sub =>
            if nonzero code then Mem_done g' d'
            else Open_parse_mem realloc_ok k i_max' pf_read g'
                   (set_sys d' (push_subtitle (p_sys d') sub))
        | Undefined => Mem_undefined
        | OutOfFuel => Mem_out_of_fuel
        end
  end.

(** [Open] with the [realloc] of its parsing loop; the rest is [Open]
    above.  After VLC_ENOMEM the line table and [p_sys] are freed. *)
Definition Open_mem (realloc_ok : Z -> bool) (fuel : nat) (idate : Z)
  (g : statics) (d : demux_t) : open_result :=
  if negb (b_force d) then Open_error VLC_EGENERIC g d
  else
    let mspf0 := 40000 in
    let mspf1 := if ge_one (sub_original_fps d)
                 then frame_duration (sub_original_fps d) else mspf0 in
    let mspf2 := if ge_one (sub_fps d) then frame_duration (sub_fps d) else mspf1 in
    let ty0 :=
      match sub_type_name d with
      | EmptyString => SUB_TYPE_UNKNOWN
      | name => type_of_name sub_read_subtitle_function name
      end in
    let '(ty, st) :=
      if sub_type_eqb ty0 SUB_TYPE_UNKNOWN then
        let '(ty1, st1) := probe_loop 256 (s d) SUB_TYPE_UNKNOWN in
        (ty1, snd (stream_Seek0 st1))
      else (ty0, s d) in
    if sub_type_eqb ty SUB_TYPE_UNKNOWN
    then Open_error VLC_EGENERIC g (set_stream d st)
    else
      match reader_of_type sub_read_subtitle_function ty with
      | None => Open_undefined
      | Some pf_read =>
          let '(load, t, st') := TextLoad st in
          let sys := {| i_type := ty; txt := t; i_next_demux_date := idate;
                        i_microsecperframe := mspf2; psz_header := None;
                        i_subtitle := 0; i_subtitles := 0; subtitle := [];
                        i_length := 0 |} in
          match Open_parse_mem realloc_ok fuel 0 pf_read g
                  (set_sys (set_stream d st') sys) with
          | Mem_out_of_fuel => Open_out_of_fuel
          | Mem_undefined => Open_undefined
          | Mem_enomem g' d' =>
              Open_error VLC_ENOMEM g'
                (set_sys d' (set_txt (p_sys d') (TextUnload (txt (p_sys d')))))
          | Mem_done g' d' =>
              let sys1 := set_txt (p_sys d') (TextUnload (txt (p_sys d'))) in
              let sys2 := set_length (set_subtitle sys1 0) (Open_length sys1) in
              let codec :=
                if sub_type_eqb (i_type sys2) SUB_TYPE_SSA1
                   || sub_type_eqb (i_type sys2) SUB_TYPE_SSA2_4
                   || sub_type_eqb (i_type sys2) SUB_TYPE_ASS
                then "ssa " else "subt" in
              Opened g' (set_sys d' sys2) load
                     {| i_codec := codec; p_extra := psz_header sys2 |}
          end
      end.

End Indeterminate.

(* ================================================================== *)
(** * [Control] *)

Inductive demux_query : Type :=
| DEMUX_GET_LENGTH
| DEMUX_GET_TIME
| DEMUX_SET_TIME (i64 : Z)
| DEMUX_GET_POSITION
| DEMUX_SET_POSITION (f : double)
| DEMUX_SET_NEXT_DEMUX_TIME (i64 : Z)
| DEMUX_GET_FPS
| DEMUX_GET_META
| DEMUX_GET_ATTACHMENTS
| DEMUX_GET_TITLE_INFO
| DEMUX_HAS_UNSUPPORTED_META
| DEMUX_OTHER (i_query : Z).

(** What a query stores through its pointer argument. *)
Inductive answer : Type :=
| No_answer
| Int64_answer (v : Z)
| Double_answer (v : double).

Definition start_at (sys : demux_sys_t) (i : Z) : Z :=
  i_start (nth (Z.to_nat i) (subtitle sys) (mk_subtitle 0 0 EmptyString)).

(** [while( p_sys->i_subtitle < p_sys->i_subtitles &&
            p_sys->subtitle[p_sys->i_subtitle].i_start < i64 )
        p_sys->i_subtitle++;]
    At most [fuel] increments are made. *)
Fixpoint seek_loop (fuel : nat) (sys : demux_sys_t) (i64 : Z) : demux_sys_t :=
  match fuel with
  | O => sys
  | S k =>
      if (i_subtitle sys <? i_subtitles sys)
         && (start_at sys (i_subtitle sys) <? i64)
      then seek_loop k (set_subtitle sys (i_subtitle sys + 1)) i64
      else sys
  end.

Definition seek (sys : demux_sys_t) (i64 : Z) : vlc_code * demux_sys_t :=
  let sys' := seek_loop (Z.to_nat (i_subtitles sys)) (set_subtitle sys 0) i64 in
  if i_subtitle sys' >=? i_subtitles sys' then (VLC_EGENERIC, sys')
  else (VLC_SUCCESS, sys').

Definition Control (sys : demux_sys_t) (q : demux_query)
  : vlc_code * demux_sys_t * answer :=
  match q with
  | DEMUX_GET_LENGTH => (VLC_SUCCESS, sys, Int64_answer (i_length sys))
  | DEMUX_GET_TIME =>
      if i_subtitle sys <? i_subtitles sys
      then (VLC_SUCCESS, sys, Int64_answer (start_at sys (i_subtitle sys)))
      else (VLC_EGENERIC, sys, No_answer)
  | DEMUX_SET_TIME i64 =>
      let '(c, sys') := seek sys i64 in (c, sys', No_answer)
  | DEMUX_GET_POSITION =>
      if i_subtitle sys >=? i_subtitles sys
      then (VLC_SUCCESS, sys, Double_answer (double_of_Z 1))
      else if i_subtitles sys >? 0
      then (VLC_SUCCESS, sys,
            Double_answer
              (SFdiv d_prec d_emax (double_of_Z (start_at sys (i_subtitle sys)))
                     (double_of_Z (i_length sys))))
      else (VLC_SUCCESS, sys, Double_answer (double_of_Z 0))
  | DEMUX_SET_POSITION f =>
      let i64 := int64_of_float (SFmul d_prec d_emax f (double_of_Z (i_length sys))) in
      let '(c, sys') := seek sys i64 in (c, sys', No_answer)
  | DEMUX_SET_NEXT_DEMUX_TIME i64 =>
      (VLC_SUCCESS, set_next_demux_date sys i64, No_answer)
  | DEMUX_GET_FPS | DEMUX_GET_META | DEMUX_GET_ATTACHMENTS
  | DEMUX_GET_TITLE_INFO | DEMUX_HAS_UNSUPPORTED_META =>
      (VLC_EGENERIC, sys, No_answer)
  | DEMUX_OTHER _ => (VLC_EGENERIC, sys, No_answer)
  end.

(* ================================================================== *)
(** * [Demux] *)

(** The block [Demux] hands to [es_out_Send].  [block_New] is taken to
    succeed and to return a block whose fields are zero; the field
    [i_block_length] is [i_length] in the source. *)
Record block_t : Type := mk_block {
  i_pts : Z;
  i_dts : Z;
  i_block_length : Z;
  p_buffer : string                (* the [i_len] bytes copied by [memcpy] *)
}.

Definition cue_at (sys : demux_sys_t) (i : Z) : subtitle_t :=
  nth (Z.to_nat i) (subtitle sys) (mk_subtitle 0 0 EmptyString).

(** The [while] loop of [Demux]; [out] collects the blocks given to
    [es_out_Send], oldest first.  Every round increments [i_subtitle], so
    at most [fuel] rounds are made. *)
Fixpoint Demux_loop (fuel : nat) (sys : demux_sys_t) (i_maxdate : Z)
  (out : list block_t) : demux_sys_t * list block_t :=
  match fuel with
  | O => (sys, out)
  | S k =>
      if (i_subtitle sys <? i_subtitles sys)
         && (start_at sys (i_subtitle sys) <? i_maxdate)
      then
        let cue := cue_at sys (i_subtitle sys) in
        let i_len := int32 (strlen (psz_text cue) + 1) in
        let next := set_subtitle sys (i_subtitle sys + 1) in
        if i_len <=? 1 then Demux_loop k next i_maxdate out
        else if i_start cue <? 0 then Demux_loop k next i_maxdate out
        else
          let p_block :=
            {| i_pts := i_start cue; i_dts := i_start cue;
               i_block_length :=
                 if i_stop cue >? 0 then int64 (i_stop cue - i_start cue) else 0;
               p_buffer :=
                 str_take (Z.to_nat i_len)
                          (strcat (psz_text cue) (String NUL EmptyString)) |} in
          if i_pts p_block >? 0
          then Demux_loop k next i_maxdate (out ++ [p_block])
          else Demux_loop k next i_maxdate out
      else (sys, out)
  end.

(** [Demux]: the return value, the state and the blocks sent.
    [spu_delay] is the value of the variable [spu-delay] of the parent. *)
Definition Demux (sys : demux_sys_t) (spu_delay : Z)
  : Z * demux_sys_t * list block_t :=
  if i_subtitle sys >=? i_subtitles sys then (0, sys, [])
  else
    let i_maxdate0 := int64 (i_next_demux_date sys - spu_delay) in
    let i_maxdate :=
      if (i_maxdate0 <=? 0) && (i_subtitle sys <? i_subtitles sys)
      then int64 (start_at sys (i_subtitle sys) + 1)
      else i_maxdate0 in
    let '(sys', out) :=
      Demux_loop (Z.to_nat (i_subtitles sys - i_subtitle sys)) sys i_maxdate [] in
    (1, set_next_demux_date sys' 0, out).

(* ================================================================== *)
(** * Definitions the statements use *)

(** Uses of the line cursor. *)
Inductive cursor_op : Type := Next | PushBack.

Definition cursor_step (t : text_t) (op : cursor_op) : text_t :=
  match op with
  | Next => snd (TextGetLine t)
  | PushBack => TextPreviousLine t
  end.

Definition cursor_run (t : text_t) (ops : list cursor_op) : text_t :=
  fold_left cursor_step ops t.

Definition cursor_in_bounds (t : text_t) : Prop :=
  0 <= i_line t <= i_line_count t.

(** The array of cues and its length agree. *)
Definition cues_wf (sys : demux_sys_t) : Prop :=
  i_subtitles sys = Z.of_nat (List.length (subtitle sys)).

(** Number of leading cues that start before [q]: the index of the first
    cue whose start is at or after [q], the number of cues when there is
    none. *)
Fixpoint first_at_or_after (q : Z) (cues : list subtitle_t) : nat :=
  match cues with
  | [] => O
  | c :: rest => if i_start c <? q then S (first_at_or_after q rest) else O
  end.

(** Start times increase strictly along the sequence. *)
Fixpoint increasing (cues : list subtitle_t) : Prop :=
  match cues with
  | [] => True
  | c :: rest =>
      match rest with
      | [] => True
      | c' :: _ => i_start c < i_start c' /\ increasing rest
      end
  end.

(** Section 4.5: "Duration = last cue's stop, or last cue's start + 1 if
    that stop is non-positive; zero cues => duration 0". *)
Definition duration_of (cues : list subtitle_t) : Z :=
  match rev cues with
  | [] => 0
  | c :: _ => if i_stop c <=? 0 then i_start c + 1 else i_stop c
  end.

(** A reader leaves the array of cues alone: only [Open] appends to it. *)
Definition keeps_cues (pf : reader) : Prop :=
  forall g d sub idx code g' d' sub',
    pf g d sub idx = Ret code (g', d') sub' ->
    subtitle (p_sys d') = subtitle (p_sys d)
    /\ i_subtitles (p_sys d') = i_subtitles (p_sys d).

Definition same_cues (d d' : demux_t) : Prop :=
  subtitle (p_sys d') = subtitle (p_sys d)
  /\ i_subtitles (p_sys d') = i_subtitles (p_sys d).

(** [i_start + 1] is defined for the cue: its start is an [int64_t] below
    the largest one. *)
Definition start_can_step (c : subtitle_t) : Prop :=
  INT64_MIN <= i_start c < INT64_MAX.

(** Three cues with increasing starts, for the instances below. *)
Definition three_cues : demux_sys_t :=
  {| i_type := SUB_TYPE_SUBRIP;
     txt := {| i_line_count := 0; i_line := 0; line := [] |};
     i_next_demux_date := 0; i_microsecperframe := 40000;
     psz_header := None; i_subtitle := 0; i_subtitles := 3;
     subtitle := [mk_subtitle 1000000 2000000 "a";
                  mk_subtitle 3000000 4000000 "b";
                  mk_subtitle 5000000 0 "c"];
     i_length := 5000001 |}.

(** ** Sessions for the instances below *)

(** The [p_sys] of a demuxer before [Open] has run. *)
Definition blank_sys : demux_sys_t :=
  {| i_type := SUB_TYPE_UNKNOWN;
     txt := {| i_line_count := 0; i_line := 0; line := [] |};
     i_next_demux_date := 0; i_microsecperframe := 0; psz_header := None;
     i_subtitle := 0; i_subtitles := 0; subtitle := []; i_length := 0 |}.

(** A forced demuxer on a seekable stream of the given lines, with the
    [sub-type] and [sub-fps] variables as given and no declared frame rate. *)
Definition demux_on (sub_type_var : string) (fps : float) (lines : list string)
  : demux_t :=
  {| b_force := true;
     s := {| s_lines := lines; s_pos := O; s_seekable := true |};
     sub_original_fps := fzero; sub_fps := fps;
     sub_type_name := sub_type_var; p_sys := blank_sys |}.

(** Memory contents for the instances: every byte and every slot zero. *)
Definition zero_text : Z -> ascii := fun _ => NUL.
Definition zero_heap : Z -> subtitle_t := fun _ => mk_subtitle 0 0 EmptyString.

(** [Open] of a fresh process on the given input. *)
Definition open_fresh (sub_type_var : string) (fps : float) (lines : list string)
  : open_result :=
  Open zero_text zero_heap (S (List.length lines)) 0 statics_at_load
       (demux_on sub_type_var fps lines).

(** The MicroDVD sample of section 8. *)
Definition microdvd_sample : list string := ["{1}{1}23.976"; "{100}{200}Hello"].

(** A demuxer whose cursor is at line [pos] of [lines]. *)
Definition at_line (d : demux_t) (lines : list string) (pos : Z) : demux_t :=
  set_sys d (set_txt (p_sys d)
               (mk_text (Z.of_nat (List.length lines)) pos lines)).

(** The cues of a session that opened. *)
Definition cues_of (r : open_result) : option (list subtitle_t) :=
  match r with
  | Opened _ d _ _ => Some (subtitle (p_sys d))
  | _ => None
  end.

(** The statics a session leaves behind, those of process start when it
    has undefined behaviour or runs out of fuel. *)
Definition statics_after (r : open_result) : statics :=
  match r with
  | Opened g _ _ _ => g
  | Open_error _ g _ => g
  | _ => statics_at_load
  end.

(** [Open] in a process whose statics are [g]. *)
Definition open_next (g : statics) (sub_type_var : string) (fps : float)
  (lines : list string) : open_result :=
  Open zero_text zero_heap (S (List.length lines)) 0 g
       (demux_on sub_type_var fps lines).

(** An MPSub file and a JacoSub file. *)
Definition mpsub_sample : list string :=
  ["FORMAT=TIME"; EmptyString; "1 2"; "Hello"; EmptyString].
Definition jacosub_sample : list string :=
  ["@30 @60 D Hi"; "#T100"; "@300 @600 D Ho"].

(** The names of [sub_read_subtitle_function]. *)
Definition format_names : list string :=
  ["microdvd"; "subrip"; "subviewer"; "ssa1"; "ssa2-4"; "ass"; "vplayer";
   "sami"; "dvdsubtitle"; "mpl2"; "aqt"; "pjs"; "mpsub"; "jacosub"].

(** A session of the given SSA dialect at the start of [lines]. *)
Definition ssa_session (ty : sub_type) (lines : list string) : demux_t :=
  at_line (set_sys (demux_on "auto" fzero lines) (set_type blank_sys ty)) lines 0.

(** A Dialogue line with a ten-digit layer. *)
Definition long_layer_line : string :=
  "Dialogue: 2000000000,0:00:01.00,0:00:02.00,Default,,0,0,0,,Hi".

(** The text of the cue a reader returned. *)
Definition text_of (r : result demux_t) : option string :=
  match r with
  | Ret VLC_SUCCESS _ sub => Some (psz_text sub)
  | _ => None
  end.

(** ** The signature table of section 4.2

    The signatures of the section are written as patterns; the table is
    given twice, as the section writes it and with the signatures the
    tests of [Open] accept. *)

(** A signature pattern: ordinary characters, [#] for a number, a blank
    for any run of white space. *)
Inductive pat : Type := P_char (c : ascii) | P_blank | P_num.

(** The pattern a string writes, as in [{#}{#}] for section 4.2's
    [{n}{n}]. *)
Fixpoint pattern (s : string) : list pat :=
  match s with
  | EmptyString => []
  | String c r =>
      (if Ascii.eqb c "#" then P_num
       else if Ascii.eqb c " " then P_blank else P_char c) :: pattern r
  end.

(** The line without its leading white space, without its leading
    digits. *)
Fixpoint after_blanks (l : string) : string :=
  match l with
  | String c r => if isspace c then after_blanks r else l
  | EmptyString => l
  end.

Fixpoint after_digits (l : string) : string :=
  match l with
  | String c r => if isdigit c then after_digits r else l
  | EmptyString => l
  end.

(** A number: blanks, a sign, both optional, then at least one digit. *)
Definition after_number (l : string) : option string :=
  let unsigned l1 :=
    match l1 with
    | String c r => if isdigit c then Some (after_digits r) else None
    | EmptyString => None
    end in
  match after_blanks l with
  | String "+" r => unsigned r
  | String "-" r => unsigned r
  | l1 => unsigned l1
  end.

(** What is left of the line after its beginning matched the pattern. *)
Fixpoint strip (p : list pat) (l : string) : option string :=
  match p with
  | [] => Some l
  | P_char c :: q =>
      match l with
      | String a r => if Ascii.eqb a c then strip q r else None
      | EmptyString => None
      end
  | P_blank :: q => strip q (after_blanks l)
  | P_num :: q =>
      match after_number l with
      | Some r => strip q r
      | None => None
      end
  end.

(** The line begins with the pattern. *)
Definition begins (p : string) (l : string) : bool :=
  match strip (pattern p) l with Some _ => true | None => false end.

(** The [sscanf] directive that reads an item of a pattern, the number of
    [%d] of a pattern, and the directives that assign nothing. *)
Definition dir_of (p : pat) : directive :=
  match p with P_char c => Dlit c | P_blank => Dws | P_num => Cd true end.

Fixpoint nums (p : list pat) : nat :=
  match p with
  | [] => O
  | P_num :: q => S (nums q)
  | _ :: q => nums q
  end.

Definition no_conv (d : directive) : Prop :=
  match d with Dws | Dlit _ => True | _ => False end.

(** The line begins with the text, the case of letters apart. *)
Fixpoint starts_ci (text l : string) : bool :=
  match text, l with
  | EmptyString, _ => true
  | String a text', String b l' =>
      Ascii.eqb (tolower b) (tolower a) && starts_ci text' l'
  | String _ _, EmptyString => false
  end.

(** The line contains the text, the case of letters apart. *)
Fixpoint contains_ci (text l : string) : bool :=
  starts_ci text l
  || match l with
     | String _ r => contains_ci text r
     | EmptyString => false
     end.

(** A signature: a text somewhere in the line, a text at its beginning,
    or one of several patterns at its beginning. *)
Inductive signature : Type :=
| Sig_contains (text : string)
| Sig_starts (text : string)
| Sig_begins (patterns : list string).

Definition carries (sg : signature) (l : string) : bool :=
  match sg with
  | Sig_contains text => contains_ci text l
  | Sig_starts text => starts_ci text l
  | Sig_begins patterns => existsb (fun p => begins p l) patterns
  end.

Inductive strength : Type := Strong | Weak.

Definition ends_scan (k : strength) : bool :=
  match k with Strong => true | Weak => false end.

Definition table : Type := list (signature * sub_type * strength).


(** The rows with the signatures the tests of [Open] accept.  A [sscanf]
    test compares the count of values assigned, so a pattern is looked at
    up to its last number only: [{#}{}] is [{#], [#:#:#:] is [#:#:#], and
    the second time of SubRip is asked for in full. *)
Definition probed_table : table :=
  [ (Sig_contains "<SAMI>",                             SUB_TYPE_SAMI,        Strong);
    (Sig_begins ["{#"],                                 SUB_TYPE_MICRODVD,    Strong);
    (Sig_begins ["#:#:#,# --> #:#:#,#"],                SUB_TYPE_SUBRIP,      Strong);
    (Sig_starts "!: This is a Sub Station Alpha v1",    SUB_TYPE_SSA1,        Strong);
    (Sig_starts "ScriptType: v4.00+",                   SUB_TYPE_ASS,         Strong);
    (Sig_starts "ScriptType: v4.00",                    SUB_TYPE_SSA2_4,      Strong);
    (Sig_starts "Dialogue: Marked",                     SUB_TYPE_SSA2_4,      Strong);
    (Sig_starts "Dialogue:",                            SUB_TYPE_ASS,         Strong);
    (Sig_contains "[INFORMATION]",                      SUB_TYPE_SUBVIEWER,   Strong);
    (Sig_begins ["#:#:#.# #:#:#"; "@# @#"],             SUB_TYPE_JACOSUB,     Weak);
    (Sig_begins ["#:#:#"],                              SUB_TYPE_VPLAYER,     Strong);
    (Sig_begins ["{T #:#:#:#"],                         SUB_TYPE_DVDSUBTITLE, Strong);
    (Sig_begins ["[#"],                                 SUB_TYPE_MPL2,        Strong);
    (Sig_begins ["FORMAT=#"; "FORMAT=TIME"],            SUB_TYPE_MPSUB,       Weak);
    (Sig_begins ["-->> #"],                             SUB_TYPE_AQT,         Weak);
    (Sig_begins ["#,#"],                                SUB_TYPE_PJS,         Weak) ].

(** "Earlier rows win ties": the first row whose signature the line
    carries. *)
Fixpoint first_match (tb : table) (l : string) : option (sub_type * strength) :=
  match tb with
  | [] => None
  | (sg, ty, k) :: rest => if carries sg l then Some (ty, k) else first_match rest l
  end.

(** The scan in the words of section 4.2: a strong match ends it, a weak
    match sets the tentative result and the scan goes on, a line without a
    match changes nothing. *)
Fixpoint scan_lines (tb : table) (lines : list string) (tentative : sub_type)
  : sub_type :=
  match lines with
  | [] => tentative
  | l :: rest =>
      match first_match tb l with
      | Some (ty, Strong) => ty
      | Some (ty, Weak) => scan_lines tb rest ty
      | None => scan_lines tb rest tentative
      end
  end.




(** The lines a stream has yet to deliver. *)
Definition unread (st : stream_t) : list string := skipn (s_pos st) (s_lines st).


(** ** The text buffer of [ParseSami] *)

(** The array holds a C string of [i_text] characters: no NUL before index
    [i_text], a NUL at it, and the index inside the array. *)
Definition buf_ok (text : Z -> ascii) (i_text : Z) : Prop :=
  0 <= i_text < sizeof_text
  /\ text i_text = NUL
  /\ forall j, 0 <= j < i_text -> text j <> NUL.

Fixpoint nul_free (t : string) : Prop :=
  match t with
  | EmptyString => True
  | String c r => c <> NUL /\ nul_free r
  end.

(** [n] times the character [c]. *)
Fixpoint run_of (n : nat) (c : ascii) : string :=
  match n with
  | O => EmptyString
  | S k => String c (run_of k c)
  end.

(** A SAMI paragraph of 9000 letters on one line. *)
Definition long_paragraph : list string :=
  [("<SYNC Start=1000><P>" ++ run_of (Z.to_nat 9000) "a")%string].

(** ** The line cursor read to its end *)

(** The lines [TextGetLine] returns until it returns NULL, and the cursor
    then; at most [fuel] calls are made. *)
Fixpoint read_lines (fuel : nat) (t : text_t) : list string * text_t :=
  match fuel with
  | O => ([], t)
  | S k =>
      match TextGetLine t with
      | (Some l, t') => let '(ls, t'') := read_lines k t' in (l :: ls, t'')
      | (None, t') => ([], t')
      end
  end.

(** ** Playing the cues: [Control] and [Demux] together *)

(** The values of a cue for which the arithmetic of [Demux] is exact: the
    length of the text fits an [int], [i_start + 1] and [i_stop - i_start]
    fit an [int64_t]. *)
Definition cue_in_range (c : subtitle_t) : Prop :=
  strlen (psz_text c) < INT_MAX /\ start_can_step c /\ i_stop c <= INT64_MAX.

(** The cues [Demux] sends on: those with a text and a positive start. *)
Definition sendable (c : subtitle_t) : bool :=
  negb (String.eqb (psz_text c) EmptyString) && (0 <? i_start c).

(** The block of a cue: its start as time stamp, its duration when it has
    a positive stop, its text with the terminating NUL. *)
Definition block_of (c : subtitle_t) : block_t :=
  {| i_pts := i_start c; i_dts := i_start c;
     i_block_length := if 0 <? i_stop c then i_stop c - i_start c else 0;
     p_buffer := strcat (psz_text c) (String NUL EmptyString) |}.

(** The cues from the current index on. *)
Definition remaining (sys : demux_sys_t) : list subtitle_t :=
  skipn (Z.to_nat (i_subtitle sys)) (subtitle sys).

(** DEMUX_SET_NEXT_DEMUX_TIME followed by [Demux], as the input thread
    calls them: the state and the blocks sent. *)
Definition deliver (sys : demux_sys_t) (date spu_delay : Z)
  : demux_sys_t * list block_t :=
  let sys1 := snd (fst (Control sys (DEMUX_SET_NEXT_DEMUX_TIME date))) in
  let '(_, sys2, out) := Demux sys1 spu_delay in (sys2, out).

(** The calls a session receives after [Open]. *)
Inductive demux_op : Type :=
| Op_control (q : demux_query)
| Op_demux (spu_delay : Z).

Definition demux_step (sys : demux_sys_t) (op : demux_op) : demux_sys_t :=
  match op with
  | Op_control q => snd (fst (Control sys q))
  | Op_demux spu_delay => snd (fst (Demux sys spu_delay))
  end.

(** The count is the length of the array and the index is inside
    [0 .. i_subtitles]. *)
Definition session_inv (sys : demux_sys_t) : Prop :=
  cues_wf sys /\ 0 <= i_subtitle sys <= i_subtitles sys.

(** ** How a reader moves the cursor *)

(** The cursor after a reader call against the cursor before, by the code
    returned: the line table is the same; after VLC_SUCCESS a line was
    there and at least one was consumed; after VLC_EGENERIC the cursor is
    at the end; VLC_ENOMEM is not returned. *)
Definition outcome (t t' : text_t) (c : vlc_code) : Prop :=
  line t' = line t /\ i_line_count t' = i_line_count t
  /\ match c with
     | VLC_SUCCESS => i_line t < i_line_count t /\ i_line t < i_line t'
     | VLC_EGENERIC => i_line t <= i_line t' /\ i_line_count t <= i_line t'
     | VLC_ENOMEM => False
     end.

(** The same for a loop that is entered after a line has been read: the
    cursor has not moved back. *)
Definition later_outcome (t t' : text_t) (c : vlc_code) : Prop :=
  line t' = line t /\ i_line_count t' = i_line_count t
  /\ i_line t <= i_line t'
  /\ match c with
     | VLC_SUCCESS => True
     | VLC_EGENERIC => i_line_count t <= i_line t'
     | VLC_ENOMEM => False
     end.

(** The code a loop returns that found ([Some]) or did not find ([None])
    what it scans for. *)
Definition code_of {A : Type} (r : option A) : vlc_code :=
  match r with Some _ => VLC_SUCCESS | None => VLC_EGENERIC end.

(** The text loop of [ParseJSS] reads further lines at a line
    continuation; it never steps back. *)
Definition jss_moved (t0 : text_t) (r : jss_end) : Prop :=
  match r with
  | Jss_text _ t2 _ => later_outcome t0 t2 VLC_SUCCESS
  | Jss_input_end _ t2 => later_outcome t0 t2 VLC_EGENERIC
  | Jss_undefined => True
  end.

(** A reader moves the cursor as its return code says. *)
Definition consumes_input (pf : reader) : Prop :=
  forall g d sub idx c g' d' sub',
    pf g d sub idx = Ret c (g', d') sub' ->
    outcome (txt (p_sys d)) (txt (p_sys d')) c.

(** ** What a reader leaves alone *)

(** What no reader changes: the variables of the demuxer other than
    [sub-fps], the stream, and in [p_sys] the type, the array of cues with
    its count and index, the length and the next demux date. *)
Definition same_session (d d' : demux_t) : Prop :=
  b_force d' = b_force d /\ s d' = s d
  /\ sub_original_fps d' = sub_original_fps d
  /\ sub_type_name d' = sub_type_name d
  /\ i_type (p_sys d') = i_type (p_sys d)
  /\ i_next_demux_date (p_sys d') = i_next_demux_date (p_sys d)
  /\ i_subtitle (p_sys d') = i_subtitle (p_sys d)
  /\ i_subtitles (p_sys d') = i_subtitles (p_sys d)
  /\ subtitle (p_sys d') = subtitle (p_sys d)
  /\ i_length (p_sys d') = i_length (p_sys d).

(** Every returning call of the reader relates the demuxer before and
    after by [R]. *)
Definition respects (R : demux_t -> demux_t -> Prop) (pf : reader) : Prop :=
  forall g d sub idx c g' d' sub',
    pf g d sub idx = Ret c (g', d') sub' -> R d d'.

(** ** What [Open] leaves in the session *)

Definition is_ssa (ty : sub_type) : bool :=
  sub_type_eqb ty SUB_TYPE_SSA1 || sub_type_eqb ty SUB_TYPE_SSA2_4
  || sub_type_eqb ty SUB_TYPE_ASS.

(** The frame duration [Open] derives from the variables [sub-fps] and
    [sub-original-fps]. *)
Definition configured_frame_duration (d : demux_t) : Z :=
  if ge_one (sub_fps d) then frame_duration (sub_fps d)
  else if ge_one (sub_original_fps d) then frame_duration (sub_original_fps d)
  else 40000.

(** ** Texts and lines of the formats *)

(** No character of the text opens a tag. *)
Fixpoint no_tag (t : string) : Prop :=
  match t with
  | EmptyString => True
  | String c r => c <> "<"%char /\ no_tag r
  end.

(** A SAMI line with two SYNC tags: a paragraph [body] that starts at
    time 1000, then the next SYNC tag on the same line. *)
Definition two_syncs (body tail : string) : string :=
  ("<SYNC Start=1000><P>" ++ body ++ "<SYNC Start=" ++ tail)%string.

(** The values an [int] holds. *)
Definition is_int (z : Z) : Prop := - 2 ^ 31 <= z <= INT_MAX.

(** The lines of a body, each followed by a newline. *)
Fixpoint join_lines (ls : list string) : string :=
  match ls with
  | [] => EmptyString
  | l :: rest => strcat l (strcat NL (join_lines rest))
  end.

(** A SubViewer entry with two [br] marks. *)
Definition subviewer_sample : list string :=
  ["00:00:01.00,00:00:02.50"; "Line1[br]Line2[br]"; EmptyString].

Fixpoint no_bar (t : string) : Prop :=
  match t with
  | EmptyString => True
  | String c r => c <> "|"%char /\ no_bar r
  end.

(** No line of the text begins with a slash; [at_start] says whether the
    text begins a line. *)
Fixpoint no_leading_slash (at_start : bool) (t : string) : Prop :=
  match t with
  | EmptyString => True
  | String c r =>
      (at_start = true -> c <> "/"%char)
      /\ no_leading_slash (Ascii.eqb c LF) r
  end.

(** The lines on which [sscanf( s, "FORMAT=%[^\r\n]", psz_temp )] meets the
    end of the input before its conversion: the proper prefixes of
    [FORMAT=], the empty line among them, and [FORMAT=] itself. *)
Definition format_prefixes : list string :=
  [EmptyString; "F"; "FO"; "FOR"; "FORM"; "FORMA"; "FORMAT"; "FORMAT="].

Fixpoint no_space (t : string) : Prop :=
  match t with
  | EmptyString => True
  | String c r => c <> " "%char /\ no_space r
  end.

(** ** A SubRip file *)

(** An entry of a SubRip file: the lines before the timing line (the
    counter line, as a rule), the timing line with the times it holds, the
    lines of the text. *)
Record subrip_entry : Type := mk_entry {
  e_skip : list string;
  e_timing : string;
  e_start : Z;
  e_stop : Z;
  e_body : list string
}.

Definition subrip_fmt : string := "%d:%d:%d,%d --> %d:%d:%d,%d".

Definition entry_ok (e : subrip_entry) : Prop :=
  Forall (fun l => scan_timing subrip_fmt l = None) (e_skip e)
  /\ scan_timing subrip_fmt (e_timing e) = Some (e_start e, e_stop e)
  /\ Forall (fun l => l <> EmptyString) (e_body e).

(** The lines of an entry, the empty line that ends it included. *)
Definition entry_lines (e : subrip_entry) : list string :=
  e_skip e ++ e_timing e :: e_body e ++ [EmptyString].

Definition entry_cue (e : subrip_entry) : subtitle_t :=
  {| i_start := e_start e; i_stop := e_stop e;
     psz_text := join_lines (e_body e) |}.

(** ** Values of [sscanf] and the text of a SAMI paragraph *)

(** A value [%d] stores is an [int]. *)
Definition val_in_range (v : sval) : Prop :=
  match v with Vint z => is_int z | _ => True end.

(** The characters [ParseSami] collects from a paragraph without tags:
    [&nbsp;] and a tab become a space. *)
Fixpoint sami_chars (fuel : nat) (body : string) : string :=
  match fuel with
  | O => EmptyString
  | S k =>
      match body with
      | EmptyString => EmptyString
      | String c r =>
          if strncmp_eq body "&nbsp;" 6
          then String " " (sami_chars k (str_drop 6 body))
          else if Ascii.eqb c TAB then String " " (sami_chars k r)
          else String c (sami_chars k r)
      end
  end.

(** The text of the cue: what of them fits [char text[8192]]. *)
Definition sami_text (body : string) : string :=
  str_take (Z.to_nat 8191) (sami_chars (String.length body) body).

(** The array holds the C string [acc]. *)
Definition buf_holds (text : Z -> ascii) (acc : string) : Prop :=
  nul_free acc
  /\ Z.of_nat (String.length acc) < sizeof_text
  /\ text (Z.of_nat (String.length acc)) = NUL
  /\ forall j, (j < String.length acc)%nat ->
               String.get j acc = Some (text (Z.of_nat j)).

(** Case analysis on the condition of the first conditional of the goal. *)
Ltac case_if :=
  match goal with |- context [if ?b then _ else _] => destruct b end.

(* ================================================================== *)
(** * The line cursor *)

Lemma TextGetLine_bounds (t : text_t) :
  cursor_in_bounds t -> cursor_in_bounds (snd (TextGetLine t)).
Proof.
  unfold cursor_in_bounds, TextGetLine.
  destruct (i_line t >=? i_line_count t) eqn:E; simpl; lia.
Qed.

Lemma TextPreviousLine_bounds (t : text_t) :
  cursor_in_bounds t -> cursor_in_bounds (TextPreviousLine t).
Proof.
  unfold cursor_in_bounds, TextPreviousLine.
  destruct (i_line t >? 0) eqn:E; simpl; lia.
Qed.

Lemma cursor_step_frame (t : text_t) (op : cursor_op) :
  i_line_count (cursor_step t op) = i_line_count t
  /\ line (cursor_step t op) = line t.
Proof.
  destruct op; simpl.
  - unfold TextGetLine. destruct (i_line t >=? i_line_count t); auto.
  - unfold TextPreviousLine. destruct (i_line t >? 0); auto.
Qed.

Lemma cursor_step_bounds (t : text_t) (op : cursor_op) :
  cursor_in_bounds t -> cursor_in_bounds (cursor_step t op).
Proof.
  destruct op; [apply TextGetLine_bounds | apply TextPreviousLine_bounds].
Qed.

Lemma cursor_run_bounds (ops : list cursor_op) :
  forall t, cursor_in_bounds t ->
            cursor_in_bounds (cursor_run t ops)
            /\ i_line_count (cursor_run t ops) = i_line_count t
            /\ line (cursor_run t ops) = line t.
Proof.
  induction ops as [|op ops IH]; intros t H; simpl.
  - auto.
  - destruct (IH (cursor_step t op) (cursor_step_bounds t op H)) as (B & C & L).
    destruct (cursor_step_frame t op) as (C' & L').
    repeat split; try apply B; congruence.
Qed.

(** C10.  From a cursor with [0 <= i_line <= i_line_count], every sequence
    of [TextGetLine] and [TextPreviousLine] calls leaves a cursor within the
    same bounds over the same lines; [TextGetLine] at the end returns NULL
    and does not move the cursor, [TextPreviousLine] at position 0 changes
    nothing. *)
Theorem cursor_position_invariant (t : text_t) (ops : list cursor_op) :
  cursor_in_bounds t ->
  let t' := cursor_run t ops in
  cursor_in_bounds t'
  /\ i_line_count t' = i_line_count t /\ line t' = line t
  /\ (i_line t' = i_line_count t' -> TextGetLine t' = (None, t'))
  /\ (i_line t' < i_line_count t' ->
      exists l, TextGetLine t' = (Some l, snd (TextGetLine t'))
                /\ i_line (snd (TextGetLine t')) = i_line t' + 1)
  /\ (i_line t' = 0 -> TextPreviousLine t' = t').
Proof.
  intros H t'.
  destruct (cursor_run_bounds ops t H) as (B & C & L).
  fold t' in B, C, L.
  repeat split; try apply B; auto.
  - intros E. unfold TextGetLine. rewrite E, Z.geb_leb, Z.leb_refl. reflexivity.
  - intros E. unfold TextGetLine.
    destruct (i_line t' >=? i_line_count t') eqn:G.
    + rewrite Z.geb_leb in G. apply Z.leb_le in G. lia.
    + eexists. split; reflexivity.
  - intros E. unfold TextPreviousLine. rewrite E. reflexivity.
Qed.

Lemma cursor_position_invariant_witness :
  let t := {| i_line_count := 2; i_line := 0; line := ["a"; "b"] |} in
  let t' := cursor_run t [PushBack; Next; Next; Next; PushBack] in
  cursor_in_bounds t' /\ i_line t' = 1.
Proof.
  intros t t'.
  assert (H : cursor_in_bounds t) by (unfold cursor_in_bounds; simpl; lia).
  split.
  - exact (proj1 (cursor_position_invariant t
                    [PushBack; Next; Next; Next; PushBack] H)).
  - reflexivity.
Defined.

(* ================================================================== *)
(** * The timeline: duration and seeking *)

Lemma seek_loop_frame (fuel : nat) :
  forall sys q,
    subtitle (seek_loop fuel sys q) = subtitle sys
    /\ i_subtitles (seek_loop fuel sys q) = i_subtitles sys
    /\ i_length (seek_loop fuel sys q) = i_length sys.
Proof.
  induction fuel as [|k IH]; intros sys q; simpl; auto.
  destruct ((i_subtitle sys <? i_subtitles sys)
            && (start_at sys (i_subtitle sys) <? q)); auto.
  destruct (IH (set_subtitle sys (i_subtitle sys + 1)) q) as (A & B & C).
  simpl in *. auto.
Qed.

(** The loop started at index [Z.of_nat done] over the cues [pre ++ rest]
    stops at the first cue of [rest] that does not start before [q]. *)
Lemma seek_loop_index (rest : list subtitle_t) :
  forall (pre : list subtitle_t) (sys : demux_sys_t) (q : Z) (fuel : nat),
    subtitle sys = pre ++ rest ->
    i_subtitles sys = Z.of_nat (List.length (pre ++ rest)) ->
    i_subtitle sys = Z.of_nat (List.length pre) ->
    (List.length rest <= fuel)%nat ->
    i_subtitle (seek_loop fuel sys q)
    = Z.of_nat (List.length pre + first_at_or_after q rest).
Proof.
  induction rest as [|c rest IH]; intros pre sys q fuel Hs Hn Hi Hf.
  - simpl. rewrite Nat.add_0_r.
    destruct fuel; simpl; auto.
    replace (i_subtitle sys <? i_subtitles sys) with false; [exact Hi|].
    symmetry. apply Z.ltb_ge. rewrite Hi, Hn, app_nil_r. lia.
  - destruct fuel as [|k]; [simpl in Hf; lia|].
    simpl seek_loop.
    assert (Hlt : (i_subtitle sys <? i_subtitles sys) = true).
    { apply Z.ltb_lt. rewrite Hi, Hn, length_app. simpl. lia. }
    assert (Hat : start_at sys (i_subtitle sys) = i_start c).
    { unfold start_at. rewrite Hi, Nat2Z.id, Hs, app_nth2, Nat.sub_diag by lia.
      reflexivity. }
    rewrite Hlt, Hat. simpl.
    destruct (i_start c <? q) eqn:E.
    + rewrite (IH (pre ++ [c]) (set_subtitle sys (i_subtitle sys + 1)) q k).
      * rewrite length_app. simpl. f_equal. lia.
      * simpl. rewrite Hs, <- app_assoc. reflexivity.
      * simpl. rewrite Hn, <- app_assoc. reflexivity.
      * simpl. rewrite Hi, length_app. simpl. lia.
      * simpl in Hf. lia.
    + rewrite Hi. f_equal. lia.
Qed.

Lemma first_at_or_after_le (q : Z) (cues : list subtitle_t) :
  (first_at_or_after q cues <= List.length cues)%nat.
Proof.
  induction cues as [|c rest IH]; simpl; [lia|].
  destruct (i_start c <? q); lia.
Qed.

(** What the index means: the cues before it start before [q], the cue at
    it, if any, does not. *)
Lemma first_at_or_after_spec (q : Z) (cues : list subtitle_t) :
  let k := first_at_or_after q cues in
  (forall j, (j < k)%nat ->
             i_start (nth j cues (mk_subtitle 0 0 EmptyString)) < q)
  /\ ((k < List.length cues)%nat ->
      q <= i_start (nth k cues (mk_subtitle 0 0 EmptyString))).
Proof.
  induction cues as [|c rest IH]; simpl.
  - split; intros; lia.
  - destruct (i_start c <? q) eqn:E.
    + destruct IH as (A & B). split.
      * intros [|j] Hj; [apply Z.ltb_lt; exact E | apply A; lia].
      * intros Hk. apply B. lia.
    + split; [intros; lia | intros _; apply Z.ltb_ge; exact E].
Qed.

Lemma increasing_all_before_last (cues : list subtitle_t) (c : subtitle_t) :
  increasing (cues ++ [c]) ->
  Forall (fun x => i_start x < i_start c) cues.
Proof.
  induction cues as [|a rest IH]; intros H; [constructor|].
  destruct rest as [|b rest'].
  - simpl in H. constructor; [tauto | constructor].
  - change (i_start a < i_start b /\ increasing ((b :: rest') ++ [c])) in H.
    destruct H as (Hab & Hr).
    specialize (IH Hr). constructor; auto.
    inversion IH; subst. lia.
Qed.

Lemma first_at_or_after_all_before (q : Z) (cues rest : list subtitle_t) :
  Forall (fun x => i_start x < q) cues ->
  first_at_or_after q (cues ++ rest)
  = (List.length cues + first_at_or_after q rest)%nat.
Proof.
  induction 1 as [|a l Ha Hl IH]; simpl; auto.
  apply Z.ltb_lt in Ha. rewrite Ha, IH. reflexivity.
Qed.

Lemma seek_index (sys : demux_sys_t) (q : Z) :
  cues_wf sys ->
  i_subtitle (snd (seek sys q)) = Z.of_nat (first_at_or_after q (subtitle sys))
  /\ i_subtitles (snd (seek sys q)) = i_subtitles sys
  /\ subtitle (snd (seek sys q)) = subtitle sys
  /\ (fst (seek sys q) = VLC_EGENERIC <->
      first_at_or_after q (subtitle sys) = List.length (subtitle sys))
  /\ (fst (seek sys q) = VLC_SUCCESS <->
      (first_at_or_after q (subtitle sys) < List.length (subtitle sys))%nat).
Proof.
  intros Hwf. unfold cues_wf in Hwf. unfold seek.
  set (sys0 := set_subtitle sys 0).
  set (fuel := Z.to_nat (i_subtitles sys)).
  assert (Hi : i_subtitle (seek_loop fuel sys0 q)
               = Z.of_nat (first_at_or_after q (subtitle sys))).
  { rewrite (seek_loop_index (subtitle sys) [] sys0 q fuel); simpl; auto.
    unfold fuel. rewrite Hwf, Nat2Z.id. lia. }
  destruct (seek_loop_frame fuel sys0 q) as (Fs & Fn & _).
  simpl in Fs, Fn.
  pose proof (first_at_or_after_le q (subtitle sys)) as Hle.
  destruct (i_subtitle (seek_loop fuel sys0 q)
            >=? i_subtitles (seek_loop fuel sys0 q)) eqn:E; simpl;
    rewrite Hi, Fn, Fs; repeat split; auto; try discriminate;
    rewrite Z.geb_leb in E;
    [apply Z.leb_le in E | apply Z.leb_le in E
    | apply Z.leb_gt in E | apply Z.leb_gt in E];
    rewrite Hi, Fn, Hwf in E; intros; try lia.
Qed.

Lemma Control_set_time (sys : demux_sys_t) (q : Z) :
  Control sys (DEMUX_SET_TIME q) = (fst (seek sys q), snd (seek sys q), No_answer).
Proof. simpl. destruct (seek sys q). reflexivity. Qed.

(** C8.  For cues with increasing start times, DEMUX_SET_TIME positions
    [i_subtitle] at the first cue whose start is at or after the query: all
    cues before it start earlier, the cue at it does not, and the call
    succeeds exactly when there is such a cue.  A query equal to the last
    cue's start gives index [N - 1]; a query past the last cue's start (or
    any query on zero cues) returns VLC_EGENERIC.  DEMUX_SET_POSITION is
    the same operation on the query [(int64_t)(f * i_length)]. *)
Theorem timeline_seek (sys : demux_sys_t) (q : Z) (f : double) :
  cues_wf sys ->
  increasing (subtitle sys) ->
  let cues := subtitle sys in
  let k := first_at_or_after q cues in
  let none := mk_subtitle 0 0 EmptyString in
  let code := fst (fst (Control sys (DEMUX_SET_TIME q))) in
  let sys' := snd (fst (Control sys (DEMUX_SET_TIME q))) in
  (i_subtitle sys' = Z.of_nat k /\ subtitle sys' = cues
   /\ (forall j, (j < k)%nat -> i_start (nth j cues none) < q)
   /\ ((k < List.length cues)%nat ->
       code = VLC_SUCCESS /\ q <= i_start (nth k cues none))
   /\ (k = List.length cues -> code = VLC_EGENERIC))
  /\ (forall pre last, cues = pre ++ [last] ->
        (q = i_start last ->
         code = VLC_SUCCESS /\ i_subtitle sys' = i_subtitles sys - 1)
        /\ (i_start last < q -> code = VLC_EGENERIC))
  /\ (cues = [] -> code = VLC_EGENERIC)
  /\ Control sys (DEMUX_SET_POSITION f)
     = Control sys (DEMUX_SET_TIME
                      (int64_of_float
                         (SFmul d_prec d_emax f (double_of_Z (i_length sys))))).
Proof.
  intros Hwf Hinc cues k none code sys'.
  unfold code, sys'. rewrite Control_set_time. simpl fst. simpl snd.
  destruct (seek_index sys q Hwf) as (Hi & Hn & Hs & He & Hok).
  destruct (first_at_or_after_spec q cues) as (Hbefore & Hat).
  fold k in Hi, He, Hok, Hbefore, Hat. fold cues in Hs, He, Hok.
  assert (Hlast : forall pre last, cues = pre ++ [last] ->
            i_start last <= q ->
            k = (List.length pre
                 + (if (i_start last <? q)%Z then 1 else 0))%nat).
  { intros pre last H Hq. unfold k. rewrite H.
    rewrite first_at_or_after_all_before.
    - simpl. destruct (i_start last <? q); reflexivity.
    - pose proof (increasing_all_before_last pre last) as Hall.
      fold cues in Hinc. rewrite H in Hinc. specialize (Hall Hinc).
      eapply Forall_impl; [|exact Hall]. simpl. intros; lia. }
  split; [|split; [|split]].
  - split; [exact Hi|]. split; [exact Hs|]. split; [exact Hbefore|]. split.
    + intros Hk. split; [apply Hok; exact Hk | apply Hat; exact Hk].
    + intros Hk. apply He; exact Hk.
  - intros pre last H. pose proof (Hlast pre last H) as Hk.
    assert (Hlen : List.length cues = S (List.length pre)).
    { rewrite H, length_app. simpl. lia. }
    split.
    + intros Hq. rewrite Hq, Z.ltb_irrefl in Hk. specialize (Hk (Z.le_refl _)).
      split.
      * apply Hok. lia.
      * rewrite Hi. fold cues. fold k.
        unfold cues_wf in Hwf. fold cues in Hwf. rewrite Hwf, Hk, Hlen. lia.
    + intros Hq. specialize (Hk (Z.lt_le_incl _ _ Hq)).
      apply Z.ltb_lt in Hq. rewrite Hq in Hk. apply He. lia.
  - intros E. apply He. unfold k. rewrite E. reflexivity.
  - simpl. reflexivity.
Qed.

Lemma timeline_seek_witness :
  cues_wf three_cues /\ increasing (subtitle three_cues)
  /\ fst (fst (Control three_cues (DEMUX_SET_TIME 5000000))) = VLC_SUCCESS
  /\ i_subtitle (snd (fst (Control three_cues (DEMUX_SET_TIME 5000000)))) = 2.
Proof.
  assert (Hwf : cues_wf three_cues) by reflexivity.
  assert (Hinc : increasing (subtitle three_cues)) by (simpl; lia).
  split; [exact Hwf|]. split; [exact Hinc|].
  destruct (timeline_seek three_cues 5000000 fzero Hwf Hinc)
    as (_ & Hlast & _).
  exact (proj1 (Hlast [mk_subtitle 1000000 2000000 "a";
                       mk_subtitle 3000000 4000000 "b"]
                      (mk_subtitle 5000000 0 "c") eq_refl) eq_refl).
Defined.

(** ** The readers leave the cue array alone *)

Lemma same_cues_refl (d : demux_t) : same_cues d d.
Proof. split; reflexivity. Qed.

Lemma same_cues_trans (a b c : demux_t) :
  same_cues a b -> same_cues b c -> same_cues a c.
Proof. unfold same_cues. intros (A & B) (C & D). split; congruence. Qed.

Lemma same_cues_set_txt (d : demux_t) (t : text_t) :
  same_cues d (set_sys d (set_txt (p_sys d) t)).
Proof. split; reflexivity. Qed.

Lemma on_txt_keeps (f : text_t -> result text_t) (d d' : demux_t)
  (code : vlc_code) (sub : subtitle_t) :
  on_txt f d = Ret code d' sub -> same_cues d d'.
Proof.
  unfold on_txt, map_state. destruct (f (txt (p_sys d))); try discriminate.
  intros H. inversion H; subst. apply same_cues_set_txt.
Qed.

Lemma on_demux_keeps (f : demux_t -> subtitle_t -> Z -> result demux_t) :
  (forall d sub idx code d' sub',
      f d sub idx = Ret code d' sub' -> same_cues d d') ->
  keeps_cues (on_demux f).
Proof.
  intros Hf g d sub idx code g' d' sub'. unfold on_demux, map_state.
  destruct (f d sub idx) eqn:E; try discriminate.
  intros H. inversion H; subst. exact (Hf _ _ _ _ _ _ E).
Qed.

Lemma ParseMicroDvd_loop_keeps (fuel : nat) :
  forall d,
    match ParseMicroDvd_loop fuel d with
    | inl (Ret _ d' _) => same_cues d d'
    | inl _ => True
    | inr (d', _, _, _) => same_cues d d'
    end.
Proof.
  induction fuel as [|k IH]; intros d; simpl; [exact I|].
  destruct (TextGetLine (txt (p_sys d))) as [[l|] t'];
    [|apply same_cues_set_txt].
  assert (H1 : same_cues d (set_sys d (set_txt (p_sys d) t')))
    by apply same_cues_set_txt.
  assert (Hrec : forall x, same_cues d x ->
            match ParseMicroDvd_loop k x with
            | inl (Ret _ d' _) => same_cues d d'
            | inl _ => True
            | inr (d', _, _, _) => same_cues d d'
            end).
  { intros x Hx. specialize (IH x).
    destruct (ParseMicroDvd_loop k x) as [[c d' sub'| |]|[[[d' a] b] tx]];
      auto; eapply same_cues_trans; eauto. }
  destruct (scan_microdvd l) as [[[start stop] text]|]; [|apply Hrec; exact H1].
  destruct (negb (start =? 1) || negb (stop =? 1)); [exact H1|].
  case_if; apply Hrec; [|exact H1].
  eapply same_cues_trans; [exact H1 | split; reflexivity].
Qed.

Lemma ParseMicroDvd_keeps : keeps_cues (on_demux ParseMicroDvd).
Proof.
  apply on_demux_keeps. intros d sub idx code d' sub'. unfold ParseMicroDvd.
  pose proof (ParseMicroDvd_loop_keeps (lines_left (txt (p_sys d))) d) as H.
  destruct (ParseMicroDvd_loop (lines_left (txt (p_sys d))) d)
    as [[c d'' sub''| |]|[[[d'' a] b] tx]]; try discriminate;
    intros E; inversion E; subst; exact H.
Qed.

Lemma ParseSSA_loop_keeps (fuel : nat) :
  forall sys sub idx code sys' sub',
    ParseSSA_loop fuel sys sub idx = Ret code sys' sub' ->
    subtitle sys' = subtitle sys /\ i_subtitles sys' = i_subtitles sys
    /\ i_type sys' = i_type sys.
Proof.
  induction fuel as [|k IH]; intros sys sub idx code sys' sub'; simpl;
    [discriminate|].
  destruct (TextGetLine (txt sys)) as [[l|] t'].
  - destruct (scan_dialogue l) as [[[[temp start] stop] text]|].
    + intros H; inversion H; subst. simpl. auto.
    + intros H. apply IH in H. simpl in H. exact H.
  - intros H; inversion H; subst. simpl. auto.
Qed.

Lemma ParseSSA_keeps : keeps_cues (on_demux ParseSSA).
Proof.
  apply on_demux_keeps. intros d sub idx code d' sub'.
  unfold ParseSSA, on_sys, map_state.
  destruct (ParseSSA_loop (lines_left (txt (p_sys d))) (p_sys d) sub idx) eqn:E;
    try discriminate.
  intros H; inversion H; subst.
  apply ParseSSA_loop_keeps in E. unfold same_cues. simpl. tauto.
Qed.

Lemma MPSub_head_keeps (fuel : nat) :
  forall g d sub,
    match MPSub_head fuel g d sub with
    | inl (Ret _ (_, d') _) => same_cues d d'
    | inl _ => True
    | inr (_, d', _) => same_cues d d'
    end.
Proof.
  induction fuel as [|k IH]; intros g d sub; simpl; [exact I|].
  destruct (TextGetLine (txt (p_sys d))) as [[l|] t'];
    [|apply same_cues_set_txt].
  assert (H1 : same_cues d (set_sys d (set_txt (p_sys d) t')))
    by apply same_cues_set_txt.
  destruct (mpsub_format_time l); [exact H1|].
  destruct (mpsub_format l); [| |exact I].
  - destruct (mpsub_data l) as [[f1 f2]|]; [exact H1|].
    match goal with |- context [MPSub_head k ?a ?b ?c] =>
      specialize (IH a b c);
      destruct (MPSub_head k a b c) as [[c' [g' d'] sub'| |]|[[g' d'] sub']]
    end; auto; eapply same_cues_trans; eauto.
  - case_if; [|exact H1].
    eapply same_cues_trans; [exact H1 | split; reflexivity].
Qed.

Lemma ParseMPSub_keeps : keeps_cues ParseMPSub.
Proof.
  intros g d sub idx code g' d' sub'. unfold ParseMPSub.
  pose proof (MPSub_head_keeps (lines_left (txt (p_sys d))) g d sub) as H.
  destruct (MPSub_head (lines_left (txt (p_sys d))) g d sub)
    as [[c [g1 d1] sub1| |]|[[g1 d1] sub1]]; try discriminate.
  - intros E; inversion E; subst. exact H.
  - destruct (MPSub_body (lines_left (txt (p_sys d1))) (txt (p_sys d1)) "")
      as [[[text|] t2]|]; try discriminate;
      intros E; inversion E; subst;
      (eapply same_cues_trans; [exact H | apply same_cues_set_txt]).
Qed.

Lemma ParseJSS_keeps : keeps_cues ParseJSS.
Proof.
  intros g d sub idx code g' d' sub'. unfold ParseJSS, map_state.
  destruct (ParseJSS_loop _ _ _ _) as [c [g1 t1] sub1| |]; try discriminate.
  intros E; inversion E; subst. apply same_cues_set_txt.
Qed.

Lemma txt_reader_keeps (f : demux_t -> subtitle_t -> text_t -> result text_t) :
  keeps_cues (on_demux (fun d sub _ => on_txt (f d sub) d)).
Proof.
  apply on_demux_keeps. intros d sub idx code d' sub' H.
  exact (on_txt_keeps _ _ _ _ _ H).
Qed.

Lemma table_readers_keep (text0 : Z -> ascii) (ty : sub_type) (pf : reader) :
  reader_of_type (sub_read_subtitle_function text0) ty = Some pf ->
  keeps_cues pf.
Proof.
  destruct ty; simpl; intros H; inversion H; subst;
    first [ apply ParseMicroDvd_keeps | apply ParseSSA_keeps
          | apply ParseMPSub_keeps | apply ParseJSS_keeps
          | apply on_demux_keeps; intros d sub idx code d' sub' E;
            exact (on_txt_keeps _ _ _ _ _ E) ].
Qed.

Lemma Open_parse_wf (heap0 : Z -> subtitle_t) (pf : reader) :
  keeps_cues pf ->
  forall fuel g d g' d',
    cues_wf (p_sys d) ->
    Open_parse heap0 fuel pf g d = Parse_done g' d' ->
    cues_wf (p_sys d').
Proof.
  intros Hpf. induction fuel as [|k IH]; intros g d g' d' Hwf; simpl;
    [discriminate|].
  destruct (pf g d (heap0 (i_subtitles (p_sys d))) (i_subtitles (p_sys d)))
    as [code [g1 d1] sub1| |] eqn:E; try discriminate.
  destruct (Hpf _ _ _ _ _ _ _ _ E) as (Hs & Hn).
  destruct (nonzero code).
  - intros H; inversion H; subst. unfold cues_wf in *. congruence.
  - intros H. apply IH in H; [exact H|].
    unfold cues_wf in *. simpl. rewrite Hs, Hn, Hwf, length_app. simpl. lia.
Qed.

Lemma int64_small (z : Z) : INT64_MIN <= z <= INT64_MAX -> int64 z = z.
Proof.
  unfold INT64_MIN, INT64_MAX, int64, wrap.
  change (2 ^ 64) with 18446744073709551616.
  change (2 ^ (64 - 1)) with 9223372036854775808.
  change (2 ^ 63) with 9223372036854775808.
  intros H. destruct (Z_lt_dec z 0) as [Hneg|Hpos].
  - rewrite <- (Z.mod_add z 1) by lia. rewrite Z.mod_small by lia.
    destruct (z + 1 * 18446744073709551616 <? 9223372036854775808) eqn:E;
      [apply Z.ltb_lt in E|]; lia.
  - rewrite Z.mod_small by lia.
    destruct (z <? 9223372036854775808) eqn:E; [|apply Z.ltb_ge in E]; lia.
Qed.

(** The computation at the end of [Open] against section 4.5. *)
Lemma Open_length_spec (heap0 : Z -> subtitle_t) (sys : demux_sys_t) :
  cues_wf sys ->
  Forall start_can_step (subtitle sys) ->
  Open_length heap0 sys = duration_of (subtitle sys).
Proof.
  unfold cues_wf, Open_length, duration_of. intros Hwf Hall.
  destruct (rev (subtitle sys)) as [|x r] eqn:Hrev.
  - apply (f_equal (@rev subtitle_t)) in Hrev. rewrite rev_involutive in Hrev.
    rewrite Hwf, Hrev. reflexivity.
  - apply (f_equal (@rev subtitle_t)) in Hrev. rewrite rev_involutive in Hrev.
    simpl in Hrev. rewrite Hrev in Hwf, Hall |- *.
    rewrite Hwf, length_app. simpl List.length.
    replace (Z.of_nat (List.length (rev r) + 1) >? 0) with true
      by (symmetry; apply Z.gtb_lt; lia).
    replace (Z.to_nat (Z.of_nat (List.length (rev r) + 1) - 1))
      with (List.length (rev r)) by lia.
    rewrite app_nth2, Nat.sub_diag by lia. simpl.
    destruct (i_stop x <=? 0); [|reflexivity].
    apply int64_small.
    apply Forall_app in Hall. destruct Hall as (_ & Hx).
    inversion Hx; subst. unfold start_can_step, INT64_MIN, INT64_MAX in *. lia.
Qed.

(** C7.  When [Open] succeeds, the length it computed is that of section
    4.5 for the cue sequence it built: the last cue's stop, or the last
    cue's start + 1 if that stop is not positive, and 0 for no cue at all;
    DEMUX_GET_LENGTH answers exactly this value.  The computation itself
    gives that value on every cue array.  The starts are [int64_t] values
    for which the increment is defined. *)
Theorem duration_is_last_cue (text0 : Z -> ascii) (heap0 : Z -> subtitle_t)
  (fuel : nat) (idate : Z) (g g' : statics) (d d' : demux_t)
  (load : vlc_code) (es : es_format_t) :
  Open text0 heap0 fuel idate g d = Opened g' d' load es ->
  Forall start_can_step (subtitle (p_sys d')) ->
  let cues := subtitle (p_sys d') in
  i_length (p_sys d') = duration_of cues
  /\ (cues = [] -> i_length (p_sys d') = 0)
  /\ (forall pre last, cues = pre ++ [last] ->
        i_length (p_sys d')
        = if i_stop last <=? 0 then i_start last + 1 else i_stop last)
  /\ Control (p_sys d') DEMUX_GET_LENGTH
     = (VLC_SUCCESS, p_sys d', Int64_answer (duration_of cues))
  /\ (forall sys, cues_wf sys -> Forall start_can_step (subtitle sys) ->
                  Open_length heap0 sys = duration_of (subtitle sys)).
Proof.
  intros HO Hall cues.
  assert (Hlen : i_length (p_sys d') = duration_of cues).
  { unfold Open in HO.
    destruct (negb (b_force d)); [discriminate|].
    destruct (if sub_type_eqb _ SUB_TYPE_UNKNOWN then _ else _) as [ty st] in HO.
    destruct (sub_type_eqb ty SUB_TYPE_UNKNOWN); [discriminate|].
    destruct (reader_of_type (sub_read_subtitle_function text0) ty)
      as [pf|] eqn:Hpf; [|discriminate].
    destruct (TextLoad st) as [[ld t] st'].
    match type of HO with
    | match Open_parse ?h ?f ?p ?g0 ?d0 with _ => _ end = _ =>
        destruct (Open_parse h f p g0 d0) as [g1 d1| |] eqn:HP;
          try discriminate;
          assert (Hwf : cues_wf (p_sys d1))
            by (eapply (Open_parse_wf heap0 pf (table_readers_keep text0 ty pf Hpf));
                [|exact HP]; reflexivity)
    end.
    injection HO as Eg Ed Eload Ees. unfold cues. clear cues.
    rewrite <- Ed in Hall |- *. simpl in Hall |- *.
    exact (Open_length_spec heap0
             (set_txt (p_sys d1) (TextUnload (txt (p_sys d1)))) Hwf Hall). }
  split; [exact Hlen|]. split; [|split; [|split]].
  - intros E. rewrite Hlen, E. reflexivity.
  - intros pre last E. rewrite Hlen, E. unfold duration_of.
    rewrite rev_app_distr. reflexivity.
  - simpl. rewrite Hlen. reflexivity.
  - intros sys Hwf Hs. apply Open_length_spec; assumption.
Qed.

Lemma duration_is_last_cue_witness :
  exists g' d' load es,
    open_fresh "auto" fzero ["0:00:01:a|b"] = Opened g' d' load es
    /\ Forall start_can_step (subtitle (p_sys d'))
    /\ subtitle (p_sys d') = [mk_subtitle 1000000 0 (String "a" (String LF "b"))]
    /\ i_length (p_sys d') = 1000001.
Proof.
  match eval vm_compute in (open_fresh "auto" fzero ["0:00:01:a|b"]) with
  | Opened ?g ?d ?l ?e =>
      exists g, d, l, e;
      assert (E : open_fresh "auto" fzero ["0:00:01:a|b"] = Opened g d l e)
        by (vm_compute; reflexivity)
  end.
  assert (Hall : Forall start_can_step
                   [mk_subtitle 1000000 0 (String "a" (String LF "b"))]).
  { repeat constructor; vm_compute; discriminate. }
  split; [exact E|]. split; [exact Hall|]. split; [reflexivity|].
  destruct (duration_is_last_cue _ _ _ _ _ _ _ _ _ _ E Hall)
    as (_ & _ & Hlast & _).
  exact (Hlast [] _ eq_refl).
Defined.

(* ================================================================== *)
(** * SubRip *)

(** Reading the line that follows the lines [pre]. *)
Lemma TextGetLine_next (pre : list string) (x : string) (rest : list string) (n : Z) :
  n = Z.of_nat (List.length (pre ++ x :: rest)) ->
  TextGetLine (mk_text n (Z.of_nat (List.length pre)) (pre ++ x :: rest))
  = (Some x, mk_text n (Z.of_nat (List.length (pre ++ [x]))) (pre ++ x :: rest)).
Proof.
  intros Hn. unfold TextGetLine. simpl.
  replace (Z.of_nat (List.length pre) >=? n) with false.
  - rewrite Nat2Z.id, app_nth2, Nat.sub_diag by lia. simpl.
    rewrite length_app. simpl. do 2 f_equal. lia.
  - symmetry. rewrite Z.geb_leb. apply Z.leb_gt.
    rewrite Hn, length_app. simpl. lia.
Qed.

Lemma lines_left_at (pre rest : list string) :
  lines_left (mk_text (Z.of_nat (List.length (pre ++ rest)))
                      (Z.of_nat (List.length pre)) (pre ++ rest))
  = S (List.length rest).
Proof.
  unfold lines_left. simpl. rewrite length_app. f_equal. lia.
Qed.

(** The first loop skips the lines that are no timing line. *)
Lemma SubRip_timing_found (psz_fmt : string) (skip : list string) :
  forall (pre : list string) (timing : string) (rest : list string)
         (times : Z * Z) (fuel : nat),
    Forall (fun l => scan_timing psz_fmt l = None) skip ->
    scan_timing psz_fmt timing = Some times ->
    (List.length skip < fuel)%nat ->
    SubRip_timing fuel psz_fmt
      (mk_text (Z.of_nat (List.length (pre ++ skip ++ timing :: rest)))
               (Z.of_nat (List.length pre)) (pre ++ skip ++ timing :: rest))
    = Some (Some times,
            mk_text (Z.of_nat (List.length (pre ++ skip ++ timing :: rest)))
                    (Z.of_nat (List.length (pre ++ skip ++ [timing])))
                    (pre ++ skip ++ timing :: rest)).
Proof.
  induction skip as [|x skip IH]; intros pre timing rest times fuel Hskip Ht Hf;
    (destruct fuel as [|k]; [simpl in Hf; lia|]); simpl SubRip_timing.
  - simpl app. rewrite TextGetLine_next by reflexivity. rewrite Ht. reflexivity.
  - inversion Hskip as [|? ? Hx Hrest]; subst.
    simpl app. rewrite TextGetLine_next by reflexivity. rewrite Hx.
    replace (pre ++ x :: skip ++ timing :: rest)
      with ((pre ++ [x]) ++ skip ++ timing :: rest)
      by (rewrite <- app_assoc; reflexivity).
    rewrite (IH (pre ++ [x]) timing rest times k Hrest Ht) by (simpl in Hf; lia).
    rewrite <- !app_assoc. reflexivity.
Qed.

(** The second loop appends every line and a newline up to the first
    empty line. *)
Lemma SubRip_body_found (body : list string) :
  forall (pre rest : list string) (text : string) (fuel : nat),
    Forall (fun l => l <> EmptyString) body ->
    (List.length body < fuel)%nat ->
    SubRip_body fuel false
      (mk_text (Z.of_nat (List.length (pre ++ body ++ EmptyString :: rest)))
               (Z.of_nat (List.length pre)) (pre ++ body ++ EmptyString :: rest))
      text
    = Some (Some (fold_left (fun acc l => strcat (strcat acc l) NL) body text),
            mk_text (Z.of_nat (List.length (pre ++ body ++ EmptyString :: rest)))
                    (Z.of_nat (List.length (pre ++ body ++ [EmptyString])))
                    (pre ++ body ++ EmptyString :: rest)).
Proof.
  induction body as [|x body IH]; intros pre rest text fuel Hbody Hf;
    (destruct fuel as [|k]; [simpl in Hf; lia|]); simpl SubRip_body.
  - simpl app. rewrite TextGetLine_next by reflexivity. reflexivity.
  - inversion Hbody as [|? ? Hx Hrest]; subst.
    simpl app. rewrite TextGetLine_next by reflexivity.
    replace (strlen x <=? 0) with false.
    + replace (pre ++ x :: body ++ EmptyString :: rest)
        with ((pre ++ [x]) ++ body ++ EmptyString :: rest)
        by (rewrite <- app_assoc; reflexivity).
      rewrite (IH (pre ++ [x]) rest _ k Hrest) by (simpl in Hf; lia).
      rewrite <- !app_assoc. reflexivity.
    + symmetry. apply Z.leb_gt. unfold strlen.
      destruct x; [contradiction | simpl; lia].
Qed.

(** A SubRip entry: lines that are no timing line, a timing line, body
    lines, an empty line.  The cue has the times of the timing line and the
    body lines, each followed by a newline, as text; the cursor is left
    after the empty line. *)
Lemma ParseSubRip_entry (skip body rest : list string) (timing : string)
  (start stop : Z) (sub : subtitle_t) :
  Forall (fun l => scan_timing "%d:%d:%d,%d --> %d:%d:%d,%d" l = None) skip ->
  scan_timing "%d:%d:%d,%d --> %d:%d:%d,%d" timing = Some (start, stop) ->
  Forall (fun l => l <> EmptyString) body ->
  let lines := skip ++ timing :: body ++ EmptyString :: rest in
  let n := Z.of_nat (List.length lines) in
  ParseSubRipSubViewer (mk_text n 0 lines) sub
                       "%d:%d:%d,%d --> %d:%d:%d,%d" false
  = Ret VLC_SUCCESS
        (mk_text n (Z.of_nat (List.length (skip ++ timing :: body ++ [EmptyString])))
                 lines)
        {| i_start := start; i_stop := stop;
           psz_text := fold_left (fun acc l => strcat (strcat acc l) NL)
                                 body EmptyString |}.
Proof.
  intros Hskip Ht Hbody lines n. unfold ParseSubRipSubViewer.
  pose proof (SubRip_timing_found "%d:%d:%d,%d --> %d:%d:%d,%d" skip []
                timing (body ++ EmptyString :: rest) (start, stop)
                (lines_left (mk_text n 0 lines)) Hskip Ht) as H1.
  simpl app in H1. change (Z.of_nat (List.length (@nil string))) with 0 in H1.
  fold lines in H1. fold n in H1.
  rewrite H1.
  2:{ unfold lines_left, n, lines. simpl. rewrite !length_app. simpl. lia. }
  pose proof (SubRip_body_found body (skip ++ [timing]) rest EmptyString) as H2.
  rewrite <- !app_assoc in H2. simpl app in H2. fold lines in H2. fold n in H2.
  rewrite H2; [reflexivity | exact Hbody |].
  unfold lines_left, n, lines. simpl. rewrite !length_app. simpl.
  rewrite !length_app. simpl. lia.
Qed.

(** C5.  The SubRip entry [00:00:01,000 --> 00:00:02,500], [Line one],
    [Line two], empty line gives, from any demuxer state and into any slot,
    one cue with start 1000000, stop 2500000 and text
    "Line one\nLine two\n", the cursor left after the empty line. *)
Theorem subrip_two_line_entry (d : demux_t) (sub : subtitle_t) (i_idx : Z) :
  let lines := ["00:00:01,000 --> 00:00:02,500"; "Line one"; "Line two";
                EmptyString] in
  ParseSubRip (set_sys d (set_txt (p_sys d) (mk_text 4 0 lines))) sub i_idx
  = Ret VLC_SUCCESS (set_sys d (set_txt (p_sys d) (mk_text 4 4 lines)))
        {| i_start := 1000000; i_stop := 2500000;
           psz_text := strcat "Line one" (strcat NL (strcat "Line two" NL)) |}.
Proof.
  intros lines. unfold ParseSubRip, on_txt. simpl txt.
  pose proof (ParseSubRip_entry [] ["Line one"; "Line two"] []
                "00:00:01,000 --> 00:00:02,500" 1000000 2500000 sub) as H.
  simpl in H. fold lines in H. rewrite H.
  - reflexivity.
  - constructor.
  - vm_compute. reflexivity.
  - repeat constructor; discriminate.
Qed.

(* ================================================================== *)
(** * MicroDVD *)

(** One round of the loop of [ParseMicroDvd] on a line with start and stop
    both 1: no cue, the frame duration is replaced when the text is a
    positive number and [sub-fps] is not set, and the loop goes on. *)
Lemma ParseMicroDvd_loop_declaration (k : nat) (d : demux_t) (l text : string)
  (t' : text_t) :
  TextGetLine (txt (p_sys d)) = (Some l, t') ->
  scan_microdvd l = Some (1, 1, text) ->
  ParseMicroDvd_loop (S k) d
  = let d1 := set_sys d (set_txt (p_sys d) t') in
    let f_fps := float_of_double (us_strtod text) in
    ParseMicroDvd_loop k
      (if gt_zero f_fps && le_zero (sub_fps d)
       then set_sys d1 (set_microsecperframe (p_sys d1) (frame_duration f_fps))
       else d1).
Proof.
  intros Hline Hscan. cbn [ParseMicroDvd_loop]. rewrite Hline, Hscan.
  cbn [Z.eqb Pos.eqb negb orb sub_fps set_sys].
  destruct (gt_zero (float_of_double (us_strtod text)) && le_zero (sub_fps d));
    reflexivity.
Qed.

(** One round on any other matching line: the loop ends with the cue's
    frame numbers and text. *)
Lemma ParseMicroDvd_loop_cue (k : nat) (d : demux_t) (l text : string)
  (t' : text_t) (start stop : Z) :
  TextGetLine (txt (p_sys d)) = (Some l, t') ->
  scan_microdvd l = Some (start, stop, text) ->
  start <> 1 \/ stop <> 1 ->
  ParseMicroDvd_loop (S k) d
  = inr (set_sys d (set_txt (p_sys d) t'), start, stop, text).
Proof.
  intros Hline Hscan Hne. cbn [ParseMicroDvd_loop]. rewrite Hline, Hscan.
  replace (negb (start =? 1) || negb (stop =? 1)) with true; [reflexivity|].
  symmetry. apply orb_true_iff.
  destruct Hne as [H|H]; [left|right]; apply negb_true_iff, Z.eqb_neq; exact H.
Qed.

Lemma scan_microdvd_declaration :
  scan_microdvd "{1}{1}23.976" = Some (1, 1, "23.976").
Proof. vm_compute. reflexivity. Qed.

Lemma scan_microdvd_hello :
  scan_microdvd "{100}{200}Hello" = Some (100, 200, "Hello").
Proof. vm_compute. reflexivity. Qed.

Lemma declared_rate_usable :
  gt_zero (float_of_double (us_strtod "23.976")) = true
  /\ frame_duration (float_of_double (us_strtod "23.976")) = 41708.
Proof. split; vm_compute; reflexivity. Qed.

(** [ParseMicroDvd] on the sample, from any demuxer state: the declaration
    line gives no cue with or without an override; without one the frame
    duration becomes 41708, with one it stays. *)
Lemma ParseMicroDvd_sample (d : demux_t) (sub : subtitle_t) (i_idx : Z) :
  ParseMicroDvd (at_line d microdvd_sample 0) sub i_idx
  = let mspf := if le_zero (sub_fps d) then 41708
                else i_microsecperframe (p_sys d) in
    Ret VLC_SUCCESS
        (set_sys d (set_microsecperframe
                      (set_txt (p_sys d) (mk_text 2 2 microdvd_sample)) mspf))
        {| i_start := int64 (100 * mspf); i_stop := int64 (200 * mspf);
           psz_text := "Hello" |}.
Proof.
  destruct declared_rate_usable as (Hgt & Hdur).
  unfold ParseMicroDvd.
  change (lines_left (txt (p_sys (at_line d microdvd_sample 0)))) with 3%nat.
  erewrite ParseMicroDvd_loop_declaration;
    [|reflexivity | exact scan_microdvd_declaration].
  cbv zeta. rewrite Hgt, Hdur.
  change (sub_fps (at_line d microdvd_sample 0)) with (sub_fps d).
  cbn [andb].
  destruct (le_zero (sub_fps d));
    (erewrite ParseMicroDvd_loop_cue;
     [|reflexivity | exact scan_microdvd_hello | left; discriminate]);
    destruct d as [bf st ofps fps name sys]; destruct sys; reflexivity.
Qed.

(** C4, as stated, fails: the claim lets the [{1}{1}] line pass without a
    cue only when no fps override is set.  With [sub-fps] set to 25 the
    sample still yields the one cue of its second line, timed with the
    override's 40000 microseconds per frame; the [{1}{1}] line yields none. *)
Lemma microdvd_declaration_dropped_under_override :
  le_zero (float_of_Z 25) = false
  /\ cues_of (open_fresh "auto" (float_of_Z 25) microdvd_sample)
     = Some [{| i_start := 4000000; i_stop := 8000000; psz_text := "Hello" |}].
Proof. split; vm_compute; reflexivity. Qed.

(** C4, amended.  With no fps override the sample yields exactly one cue,
    text "Hello", start 100 frames of 1000000/23.976 microseconds, the frame
    duration being a whole number of microseconds (41708).  From any
    demuxer state the [{1}{1}] line is passed over without a cue; what
    depends on the override is the frame duration, replaced by the declared
    one only if [sub-fps] is not set. *)
Theorem microdvd_frame_rate_declaration :
  cues_of (open_fresh "auto" fzero microdvd_sample)
  = Some [{| i_start := 100 * (1000000000 / 23976);
             i_stop := 200 * (1000000000 / 23976); psz_text := "Hello" |}]
  /\ forall (d : demux_t) (sub : subtitle_t) (i_idx : Z),
       ParseMicroDvd (at_line d microdvd_sample 0) sub i_idx
       = let mspf := if le_zero (sub_fps d) then 1000000000 / 23976
                     else i_microsecperframe (p_sys d) in
         Ret VLC_SUCCESS
             (set_sys d (set_microsecperframe
                           (set_txt (p_sys d) (mk_text 2 2 microdvd_sample))
                           mspf))
             {| i_start := int64 (100 * mspf); i_stop := int64 (200 * mspf);
                psz_text := "Hello" |}.
Proof.
  split.
  - vm_compute. reflexivity.
  - intros d sub i_idx. rewrite ParseMicroDvd_sample.
    change (1000000000 / 23976) with 41708. reflexivity.
Qed.

(* ================================================================== *)
(** * Empty input *)

(** C2, the code at the failing input.  [TextLoad] on a stream without
    lines returns VLC_EGENERIC.  [Open] does not look at that code: with
    any format named explicitly it goes on, the reader finds no line, and
    [Open] succeeds with zero cues and length 0.  With autodetection [Open]
    fails before [TextLoad] is reached, the type being unknown. *)
Theorem Open_on_empty_stream :
  fst (fst (TextLoad {| s_lines := []; s_pos := O; s_seekable := true |}))
  = VLC_EGENERIC
  /\ Forall (fun name =>
               exists g d es,
                 open_fresh name fzero [] = Opened g d VLC_EGENERIC es
                 /\ subtitle (p_sys d) = [] /\ i_subtitles (p_sys d) = 0
                 /\ i_length (p_sys d) = 0)
            format_names
  /\ open_fresh "auto" fzero []
     = Open_error VLC_EGENERIC statics_at_load (demux_on "auto" fzero []).
Proof.
  split; [reflexivity|]. split; [|vm_compute; reflexivity].
  unfold format_names.
  repeat (constructor;
          [match goal with
           | |- exists g d es, ?r = _ /\ _ =>
               match eval vm_compute in r with
               | Opened ?g ?d ?l ?e =>
                   exists g, d, e; repeat split; vm_compute; reflexivity
               end
           end|]).
  constructor.
Qed.

(* ================================================================== *)
(** * Static variables across sessions *)

(** C1, the code at the failing input.  The running total of MPSub and the
    time resolution of JacoSub have static storage duration, so the second
    session of a process starts from what the first one left: the same
    MPSub file gives "Hello" at 1000000 in the first session and at 4000000
    in the second, the total being 300 and not 0 at its start; the same
    JacoSub file gives "Hi" at 1000000 in the first session and at 0 in the
    second, the resolution being 100 and not 30 at its start. *)
Theorem statics_survive_the_session :
  let first := open_fresh "auto" fzero mpsub_sample in
  let second := open_next (statics_after first) "auto" fzero mpsub_sample in
  let jfirst := open_fresh "auto" fzero jacosub_sample in
  let jsecond := open_next (statics_after jfirst) "auto" fzero jacosub_sample in
  (cues_of first
   = Some [zero_heap 0;
           {| i_start := 1000000; i_stop := 3000000;
              psz_text := strcat "Hello" NL |}]
   /\ mpsub_total (statics_after first) = float_of_Z 300
   /\ cues_of second
      = Some [zero_heap 0;
              {| i_start := 4000000; i_stop := 6000000;
                 psz_text := strcat "Hello" NL |}])
  /\ (cues_of jfirst
      = Some [{| i_start := 1000000; i_stop := 2000000; psz_text := "Hi" |};
              {| i_start := 3000000; i_stop := 6000000; psz_text := "Ho" |}]
      /\ jss_time_resolution (statics_after jfirst) = 100
      /\ cues_of jsecond
         = Some [{| i_start := 0; i_stop := 0; psz_text := "Hi" |};
                 {| i_start := 3000000; i_stop := 6000000; psz_text := "Ho" |}]).
Proof.
  cbv zeta. repeat split; vm_compute; reflexivity.
Qed.

(* ================================================================== *)
(** * SSA and ASS *)

Lemma str_take_all (n : nat) (t : string) :
  (String.length t <= n)%nat -> str_take n t = t.
Proof.
  revert n. induction t as [|c r IH]; intros [|n] H; simpl in *;
    try reflexivity; try lia.
  f_equal. apply IH. lia.
Qed.

(** A Dialogue line ends the loop with the repaired text. *)
Lemma ParseSSA_loop_dialogue (k : nat) (sys : demux_sys_t) (sub : subtitle_t)
  (i_idx : Z) (l temp text : string) (t' : text_t) (start stop : Z) :
  TextGetLine (txt sys) = (Some l, t') ->
  scan_dialogue l = Some (temp, start, stop, text) ->
  ParseSSA_loop (S k) sys sub i_idx
  = Ret VLC_SUCCESS (set_txt sys t')
        {| i_start := start; i_stop := stop;
           psz_text := ssa_text (i_type sys) i_idx temp text |}.
Proof.
  intros Hline Hscan. cbn [ParseSSA_loop]. rewrite Hline, Hscan. reflexivity.
Qed.

(** Any other line goes to the header, followed by a newline, and the
    loop continues. *)
Lemma ParseSSA_loop_header (k : nat) (sys : demux_sys_t) (sub : subtitle_t)
  (i_idx : Z) (l : string) (t' : text_t) :
  TextGetLine (txt sys) = (Some l, t') ->
  scan_dialogue l = None ->
  ParseSSA_loop (S k) sys sub i_idx
  = ParseSSA_loop k
      (set_header (set_txt sys t')
         (Some (strcat (strcat (match psz_header sys with
                                | Some h => h
                                | None => EmptyString
                                end) l) NL)))
      sub i_idx.
Proof.
  intros Hline Hscan. cbn [ParseSSA_loop]. rewrite Hline, Hscan. reflexivity.
Qed.

(** The repair in SSA-v1 mode, and in the other modes when the prefix fits
    the 16 bytes of [temp]. *)
Lemma ssa_text_repair (ty : sub_type) (i_idx : Z) (temp text : string) :
  (ty = SUB_TYPE_SSA1 -> ssa_text ty i_idx temp text = String "," text)
  /\ (ty <> SUB_TYPE_SSA1 ->
      let i_layer := if sub_type_eqb ty SUB_TYPE_ASS then atoi temp else 0 in
      let prefix := (string_of_Z i_idx ++ "," ++ string_of_Z i_layer ++ ",")%string in
      (String.length prefix <= 15)%nat ->
      ssa_text ty i_idx temp text = (prefix ++ text)%string).
Proof.
  split.
  - intros ->. reflexivity.
  - intros Hty i_layer prefix Hfit. unfold ssa_text.
    destruct (sub_type_eqb ty SUB_TYPE_SSA1) eqn:E.
    + destruct ty; try discriminate. contradiction.
    + fold i_layer. fold prefix. unfold snprintf. simpl Nat.pred.
      rewrite str_take_all by exact Hfit. reflexivity.
Qed.

(** C6, the code at the failing input.  In ASS mode the cue of index 1000
    on a Dialogue line with layer 2000000000 should start with
    "1000,2000000000,"; these are 16 characters, [snprintf] keeps 15 of
    them in [temp], and the text starts with "1000,2000000000Default". *)
Theorem ssa_prefix_cut_at_15 :
  text_of (ParseSSA (ssa_session SUB_TYPE_ASS [long_layer_line])
                    (zero_heap 1000) 1000)
  = Some "1000,2000000000Default,,0,0,0,,Hi"
  /\ scan_dialogue long_layer_line
     = Some ("2000000000", 1000000, 2000000, "Default,,0,0,0,,Hi")
  /\ (string_of_Z 1000 ++ "," ++ string_of_Z (atoi "2000000000") ++ ","
      ++ "Default,,0,0,0,,Hi")%string
     = "1000,2000000000,Default,,0,0,0,,Hi".
Proof.
  repeat split; vm_compute; reflexivity.
Qed.

(* ================================================================== *)
(** * Format probing

    The conditions of the chain of [Open] against the signatures of the
    table: a [sscanf] test compares the count of assigned values, so it
    looks at the line up to the last number of its format. *)

Lemma scan_digits_rest (l : string) :
  forall acc n,
    snd (scan_digits l acc n) = after_digits l
    /\ (n <= snd (fst (scan_digits l acc n)))%nat.
Proof.
  induction l as [|c r IH]; intros acc n; simpl;
    [split; [reflexivity|apply le_n]|].
  destruct (isdigit c); [|split; [reflexivity | apply le_n]].
  destruct (IH (10 * acc + digit_val c) (S n)) as (A & B).
  split; [exact A|]. apply Nat.le_trans with (S n); [apply Nat.le_succ_diag_r | exact B].
Qed.

Lemma scan_unsigned (l : string) (neg : bool) :
  option_map snd
    (let '(v, n, rest) := scan_digits l 0 O in
     match n with
     | O => None
     | S _ => Some (if neg then - v else v, rest)
     end)
  = match l with
    | String c r => if isdigit c then Some (after_digits r) else None
    | EmptyString => None
    end.
Proof.
  destruct l as [|c r]; [reflexivity|]. cbn [scan_digits].
  destruct (isdigit c); [|reflexivity].
  destruct (scan_digits_rest r (10 * 0 + digit_val c) 1) as (A & B).
  destruct (scan_digits r (10 * 0 + digit_val c) 1) as [[v n] rest].
  simpl in A, B. destruct n as [|n]; [inversion B|].
  simpl. rewrite A. reflexivity.
Qed.

(** [%d] after the white space: the rest of the input is the one
    [after_number] gives. *)
Lemma scan_decimal_rest (l : string) :
  option_map snd (scan_decimal (skip_spaces l)) = after_number l.
Proof.
  unfold after_number. change (after_blanks l) with (skip_spaces l).
  unfold scan_decimal, scan_sign.
  set (i := skip_spaces l). clearbody i.
  destruct i as [|c r]; [reflexivity|].
  destruct (Ascii.eqb_spec c "-") as [->|Hm]; [exact (scan_unsigned r true)|].
  destruct (Ascii.eqb_spec c "+") as [->|Hp]; [exact (scan_unsigned r false)|].
  assert (E : (match String c r with
               | String "-" r0 => (true, r0)
               | String "+" r0 => (false, r0)
               | _ => (false, String c r)
               end) = (false, String c r)).
  { destruct c as [[] [] [] [] [] [] [] []]; try reflexivity; congruence. }
  rewrite E. rewrite (scan_unsigned (String c r) false).
  destruct c as [[] [] [] [] [] [] [] []]; try reflexivity; congruence.
Qed.

Lemma scan_no_conv (k : list directive) :
  Forall no_conv k ->
  forall inp vals, fst (scan k inp vals) = vals.
Proof.
  induction 1 as [|d k Hd Hk IH]; intros inp vals; [reflexivity|].
  destruct d; try contradiction; cbn [scan].
  - apply IH.
  - destruct inp as [|a r]; [reflexivity|].
    destruct (Ascii.eqb a c); [apply IH | reflexivity].
Qed.

Lemma scan_Cd (k : list directive) (inp : string) (vals : list sval) :
  match after_number inp with
  | Some rest => exists v, scan (Cd true :: k) inp vals = scan k rest (vals ++ [v])
  | None => fst (scan (Cd true :: k) inp vals) = vals
  end.
Proof.
  pose proof (scan_decimal_rest inp) as H. cbn [scan].
  destruct (skip_spaces inp) as [|a r] eqn:Es.
  - simpl in H. rewrite <- H. reflexivity.
  - destruct (scan_decimal (String a r)) as [[v rest]|]; simpl in H; rewrite <- H.
    + eexists. reflexivity.
    + reflexivity.
Qed.

(** The directives of a pattern that ends with a number assign all their
    values exactly on the inputs that begin with the pattern. *)
Lemma scan_pattern (p : list pat) :
  forall (k : list directive) (inp : string) (vals : list sval),
    match strip (p ++ [P_num]) inp with
    | Some rest =>
        exists vs, List.length vs = S (nums p)
                   /\ scan (map dir_of (p ++ [P_num]) ++ k) inp vals
                      = scan k rest (vals ++ vs)
    | None =>
        (List.length (fst (scan (map dir_of (p ++ [P_num]) ++ k) inp vals))
         <= List.length vals + nums p)%nat
    end.
Proof.
  induction p as [|a p IH]; intros k inp vals.
  - simpl app. cbn [strip map dir_of nums].
    pose proof (scan_Cd k inp vals) as H.
    destruct (after_number inp) as [rest|].
    + destruct H as (v & H). exists [v]. split; [reflexivity | exact H].
    + simpl app. rewrite H. lia.
  - destruct a as [c| |]; simpl app; cbn [strip map dir_of nums scan].
    + destruct inp as [|b r]; [simpl; lia|].
      destruct (Ascii.eqb b c); [apply IH | simpl; lia].
    + change (skip_spaces inp) with (after_blanks inp). apply IH.
    + pose proof (scan_Cd (map dir_of (p ++ [P_num]) ++ k) inp vals) as H.
      cbn [scan] in H.
      destruct (after_number inp) as [rest|].
      * destruct H as (v & H). rewrite H.
        specialize (IH k rest (vals ++ [v])).
        destruct (strip (p ++ [P_num]) rest) as [rest'|].
        -- destruct IH as (vs & Hl & E). exists (v :: vs).
           split; [simpl; lia|]. rewrite E, <- app_assoc. reflexivity.
        -- rewrite length_app in IH. simpl in IH. lia.
      * rewrite H. lia.
Qed.

(** The test [sscanf( s, format, ... ) == n] of a format of ordinary
    characters, white space and [n] [%d], whatever follows the last [%d]. *)
Lemma count_pattern (p : list pat) (tail : list directive) (l : string) :
  Forall no_conv tail ->
  (fst (sscanf l (map dir_of (p ++ [P_num]) ++ tail)) =? Z.of_nat (S (nums p)))
  = match strip (p ++ [P_num]) l with Some _ => true | None => false end.
Proof.
  intros Htail. unfold sscanf.
  pose proof (scan_pattern p tail l []) as H.
  destruct (strip (p ++ [P_num]) l) as [rest|].
  - destruct H as (vs & Hl & E). rewrite E.
    pose proof (scan_no_conv tail Htail rest ([] ++ vs)) as Hv.
    destruct (scan tail rest ([] ++ vs)) as [vals stop]. simpl in Hv. subst vals.
    simpl app. destruct vs as [|v vs]; [discriminate|].
    cbn [fst]. rewrite Hl. apply Z.eqb_refl.
  - destruct (scan (map dir_of (p ++ [P_num]) ++ tail) l []) as [vals stop].
    simpl in H.
    destruct vals as [|v vs]; [destruct stop|]; cbn [fst]; unfold EOF;
      apply Z.eqb_neq; simpl List.length in *; lia.
Qed.


Lemma starts_ci_strn (text : string) :
  forall l, strncasecmp_eq l text (String.length text) = starts_ci text l.
Proof.
  unfold strncasecmp_eq.
  induction text as [|a text IH]; intros l; [reflexivity|].
  destruct l as [|b l]; [reflexivity|]. cbn [String.length strn_eq starts_ci].
  rewrite IH. destruct (Ascii.eqb (tolower b) (tolower a)); reflexivity.
Qed.

Lemma contains_ci_search (text : string) :
  forall l, found (strcasestr l text) = contains_ci text l.
Proof.
  unfold strcasestr. induction l as [|b l IH]; cbn [str_search contains_ci].
  - pose proof (starts_ci_strn text EmptyString) as H.
    unfold strncasecmp_eq in H. rewrite H.
    destruct (starts_ci text EmptyString); reflexivity.
  - pose proof (starts_ci_strn text (String b l)) as H.
    unfold strncasecmp_eq in H. rewrite H.
    destruct (starts_ci text (String b l)); [reflexivity|]. exact IH.
Qed.

Lemma format_time_test (l : string) :
  match sscanf l (format "FORMAT=TIM%c") with
  | (1, [Vchar p_dummy]) => Ascii.eqb p_dummy "E"
  | _ => false
  end = begins "FORMAT=TIME" l.
Proof.
  unfold begins.
  change (pattern "FORMAT=TIME")
    with (map P_char ["F"; "O"; "R"; "M"; "A"; "T"; "="; "T"; "I"; "M"; "E"]%char).
  change (format "FORMAT=TIM%c")
    with (map Dlit ["F"; "O"; "R"; "M"; "A"; "T"; "="; "T"; "I"; "M"]%char
          ++ [Cc true]).
  unfold sscanf.
  do 10 (destruct l as [|? l]; [reflexivity|];
         cbn [map app scan strip];
         match goal with
         | |- context [Ascii.eqb ?a ?b] => destruct (Ascii.eqb a b); [|reflexivity]
         end).
  destruct l as [|e l]; [reflexivity|]. cbn [map app scan strip fst List.length].
  destruct (Ascii.eqb e "E"); reflexivity.
Qed.

(** The sixteen conditions of the chain of [Open], each against the
    signature of its row. *)
Lemma sig_sami_row (l : string) : sig_sami l = carries (Sig_contains "<SAMI>") l.
Proof. apply contains_ci_search. Qed.

(** A line that begins with a pattern begins with every beginning of
    the pattern. *)
Lemma strip_beginning (p q : list pat) :
  forall l r, strip (p ++ q) l = Some r -> exists r', strip p l = Some r'.
Proof.
  induction p as [|a p IH]; intros l r H; [exists l; reflexivity|].
  destruct a as [c| |]; cbn [app strip] in H |- *.
  - destruct l as [|b l]; [discriminate|].
    destruct (Ascii.eqb b c); [exact (IH _ _ H) | discriminate].
  - exact (IH _ _ H).
  - destruct (after_number l) as [l'|]; [exact (IH _ _ H) | discriminate].
Qed.

Lemma begins_longer (p q : string) (l : string) :
  (exists t, pattern q = pattern p ++ t) ->
  begins q l || begins p l = begins p l.
Proof.
  intros (t & E). unfold begins. rewrite E.
  destruct (strip (pattern p ++ t) l) as [r|] eqn:H; [|reflexivity].
  destruct (strip_beginning _ _ _ _ H) as (r' & ->). reflexivity.
Qed.

Lemma sig_microdvd_row (l : string) :
  sig_microdvd l = carries (Sig_begins ["{#"]) l.
Proof.
  unfold sig_microdvd, carries, existsb, count. rewrite orb_false_r.
  rewrite <- (begins_longer "{#" "{#}{#" l) by (eexists; reflexivity). f_equal.
  - exact (count_pattern [P_char "{"; P_num; P_char "}"; P_char "{"] [Dlit "}"] l
             ltac:(repeat constructor)).
  - exact (count_pattern [P_char "{"] [Dlit "}"; Dlit "{"; Dlit "}"] l
             ltac:(repeat constructor)).
Qed.

Lemma sig_subrip_row (l : string) :
  sig_subrip l = carries (Sig_begins ["#:#:#,# --> #:#:#,#"]) l.
Proof.
  unfold sig_subrip, carries, existsb, count. rewrite orb_false_r.
  exact (count_pattern
           (removelast (pattern "#:#:#,# --> #:#:#,#")) [] l (Forall_nil _)).
Qed.

Lemma sig_ssa1_row (l : string) :
  sig_ssa1 l = carries (Sig_starts "!: This is a Sub Station Alpha v1") l.
Proof. exact (starts_ci_strn "!: This is a Sub Station Alpha v1" l). Qed.

Lemma sig_ass_row (l : string) :
  sig_ass l = carries (Sig_starts "ScriptType: v4.00+") l.
Proof. exact (starts_ci_strn "ScriptType: v4.00+" l). Qed.

Lemma sig_ssa2_4_row (l : string) :
  sig_ssa2_4 l = carries (Sig_starts "ScriptType: v4.00") l.
Proof. exact (starts_ci_strn "ScriptType: v4.00" l). Qed.

Lemma sig_dialogue_marked_row (l : string) :
  sig_dialogue_marked l = carries (Sig_starts "Dialogue: Marked") l.
Proof. exact (starts_ci_strn "Dialogue: Marked" l). Qed.

Lemma sig_dialogue_row (l : string) :
  sig_dialogue l = carries (Sig_starts "Dialogue:") l.
Proof. exact (starts_ci_strn "Dialogue:" l). Qed.

Lemma sig_subviewer_row (l : string) :
  sig_subviewer l = carries (Sig_contains "[INFORMATION]") l.
Proof. apply contains_ci_search. Qed.

Lemma sig_jacosub_row (l : string) :
  sig_jacosub l = carries (Sig_begins ["#:#:#.# #:#:#"; "@# @#"]) l.
Proof.
  unfold sig_jacosub, carries, existsb, count. rewrite orb_false_r. f_equal.
  - exact (count_pattern (removelast (pattern "#:#:#.# #:#:#")) [] l
             (Forall_nil _)).
  - exact (count_pattern (removelast (pattern "@# @#")) [] l (Forall_nil _)).
Qed.

Lemma sig_vplayer_row (l : string) :
  sig_vplayer l = carries (Sig_begins ["#:#:#"]) l.
Proof.
  unfold sig_vplayer, carries, existsb, count. rewrite orb_false_r.
  rewrite (count_pattern (removelast (pattern "#:#:#")) [Dlit ":"] l
             ltac:(repeat constructor) : (fst (sscanf l (format "%d:%d:%d:")) =? 3) = _).
  rewrite (count_pattern (removelast (pattern "#:#:#")) [Dws] l
             ltac:(repeat constructor) : (fst (sscanf l (format "%d:%d:%d ")) =? 3) = _).
  apply orb_diag.
Qed.

Lemma sig_dvdsubtitle_row (l : string) :
  sig_dvdsubtitle l = carries (Sig_begins ["{T #:#:#:#"]) l.
Proof.
  unfold sig_dvdsubtitle, carries, existsb, count. rewrite orb_false_r.
  exact (count_pattern (removelast (pattern "{T #:#:#:#")) [] l (Forall_nil _)).
Qed.

Lemma sig_mpl2_row (l : string) :
  sig_mpl2 l = carries (Sig_begins ["[#"]) l.
Proof.
  unfold sig_mpl2, carries, existsb, count. rewrite orb_false_r.
  rewrite <- (begins_longer "[#" "[#][#" l) by (eexists; reflexivity). f_equal.
  - exact (count_pattern (removelast (pattern "[#][#")) [Dlit "]"] l
             ltac:(repeat constructor)).
  - exact (count_pattern [P_char "["] [Dlit "]"; Dlit "["; Dlit "]"] l
             ltac:(repeat constructor)).
Qed.

Lemma sig_mpsub_row (l : string) :
  sig_mpsub l = carries (Sig_begins ["FORMAT=#"; "FORMAT=TIME"]) l.
Proof.
  unfold sig_mpsub, carries, existsb, count. rewrite orb_false_r. f_equal.
  - exact (count_pattern (removelast (pattern "FORMAT=#")) [] l (Forall_nil _)).
  - apply format_time_test.
Qed.

Lemma sig_aqt_row (l : string) :
  sig_aqt l = carries (Sig_begins ["-->> #"]) l.
Proof.
  unfold sig_aqt, carries, existsb, count. rewrite orb_false_r.
  exact (count_pattern (removelast (pattern "-->> #")) [] l (Forall_nil _)).
Qed.

Lemma sig_pjs_row (l : string) :
  sig_pjs l = carries (Sig_begins ["#,#"]) l.
Proof.
  unfold sig_pjs, carries, existsb, count. rewrite orb_false_r.
  exact (count_pattern (removelast (pattern "#,#")) [Dlit ","] l
           ltac:(repeat constructor)).
Qed.

(** The chain of [Open] is the table read top down. *)
Lemma probe_line_table (l : string) :
  probe_line l
  = option_map (fun r => (fst r, ends_scan (snd r))) (first_match probed_table l).
Proof.
  unfold probe_line, probed_table, first_match.
  rewrite sig_sami_row, sig_microdvd_row, sig_subrip_row, sig_ssa1_row,
    sig_ass_row, sig_ssa2_4_row, sig_dialogue_marked_row, sig_dialogue_row,
    sig_subviewer_row, sig_jacosub_row, sig_vplayer_row, sig_dvdsubtitle_row,
    sig_mpl2_row, sig_mpsub_row, sig_aqt_row, sig_pjs_row.
  repeat match goal with
         | |- (if ?c then _ else _) = _ => destruct c; [reflexivity|]
         end.
  reflexivity.
Qed.


Lemma skipn_nth_error (lines : list string) :
  forall n,
    match nth_error lines n with
    | Some x => skipn n lines = x :: skipn (S n) lines
    | None => skipn n lines = []
    end.
Proof.
  induction lines as [|x lines IH]; intros [|n]; simpl; auto.
  apply IH.
Qed.

Lemma unread_next (st : stream_t) :
  match stream_ReadLine st with
  | (Some l, st') => unread st = l :: unread st' /\ s_pos st' = S (s_pos st)
  | (None, st') => unread st = [] /\ st' = st
  end.
Proof.
  unfold stream_ReadLine, unread.
  pose proof (skipn_nth_error (s_lines st) (s_pos st)) as H.
  destruct (nth_error (s_lines st) (s_pos st)); simpl; auto.
Qed.

(** The loop of [Open] is the scan of section 4.2 over the first [tries]
    unread lines, and it reads at most [tries] lines. *)
Lemma probe_loop_scan (tries : nat) :
  forall st ty,
    fst (probe_loop tries st ty)
    = scan_lines probed_table (firstn tries (unread st)) ty
    /\ (s_pos st <= s_pos (snd (probe_loop tries st ty)) <= s_pos st + tries)%nat
    /\ s_lines (snd (probe_loop tries st ty)) = s_lines st
    /\ s_seekable (snd (probe_loop tries st ty)) = s_seekable st.
Proof.
  induction tries as [|k IH]; intros st ty.
  - simpl. repeat split; lia.
  - cbn [probe_loop]. pose proof (unread_next st) as Hn.
    assert (Hfr : s_lines (snd (stream_ReadLine st)) = s_lines st
                  /\ s_seekable (snd (stream_ReadLine st)) = s_seekable st).
    { unfold stream_ReadLine. destruct (nth_error (s_lines st) (s_pos st));
        simpl; auto. }
    destruct (stream_ReadLine st) as [[l|] st'].
    + destruct Hn as (Hu & Hp). rewrite Hu. cbn [firstn scan_lines].
      rewrite probe_line_table. simpl in Hfr. destruct Hfr as (Hl & Hs).
      destruct (first_match probed_table l) as [[t [|]]|];
        cbn [option_map fst snd ends_scan].
      * repeat split; auto; lia.
      * destruct (IH st' t) as (A & B & C & D).
        rewrite A, C, D. repeat split; auto; lia.
      * destruct (IH st' ty) as (A & B & C & D).
        rewrite A, C, D. repeat split; auto; lia.
    + destruct Hn as (Hu & Hst). subst st'. rewrite Hu. simpl.
      repeat split; lia.
Qed.



(* ================================================================== *)
(** * SAMI: the text buffer *)

Lemma store_inside (text : Z -> ascii) (i : Z) (c : ascii) :
  0 <= i < sizeof_text ->
  store text i c = Some (fun j => if j =? i then c else text j).
Proof.
  intros H. unfold store.
  replace ((0 <=? i) && (i <? sizeof_text)) with true; [reflexivity|].
  symmetry. apply andb_true_iff. split; [apply Z.leb_le | apply Z.ltb_lt]; lia.
Qed.

(** Appending a character never stores outside the array and keeps the
    buffer a C string; at the cap the character is dropped and nothing
    changes. *)
Lemma sami_put_ok (text : Z -> ascii) (i_text : Z) (c : ascii) :
  buf_ok text i_text ->
  exists text' i_text',
    sami_put text i_text c = Some (text', i_text')
    /\ buf_ok text' i_text'
    /\ (i_text + 1 >= sizeof_text -> text' = text /\ i_text' = i_text).
Proof.
  intros (Hr & Hnul & Hbefore). unfold sami_put.
  destruct (negb (Ascii.eqb c NUL)) eqn:Ec; cbn [andb].
  - destruct (i_text + 1 <? sizeof_text) eqn:El.
    + apply Z.ltb_lt in El. apply negb_true_iff, Ascii.eqb_neq in Ec.
      rewrite store_inside by lia. rewrite store_inside by lia.
      eexists _, _. split; [reflexivity|]. split; [|lia].
      split; [lia|]. split.
      * rewrite Z.eqb_refl. reflexivity.
      * intros j Hj. destruct (j =? i_text + 1) eqn:E1;
          [apply Z.eqb_eq in E1; lia|].
        destruct (j =? i_text) eqn:E2; [exact Ec|].
        apply Z.eqb_neq in E2. apply Hbefore. lia.
    + exists text, i_text. repeat split; auto; lia.
  - exists text, i_text. repeat split; auto; lia.
Qed.

(** Reading a C string of [k] characters out of the array. *)
Lemma c_string_reads (k : nat) :
  forall (n : nat) (text : Z -> ascii) (i : Z),
    (k < n)%nat ->
    text (i + Z.of_nat k) = NUL ->
    (forall j, 0 <= j < Z.of_nat k -> text (i + j) <> NUL) ->
    exists t, c_string n text i = Some t
              /\ String.length t = k /\ nul_free t.
Proof.
  induction k as [|k IH]; intros n text i Hn Hnul Hbefore;
    (destruct n as [|n]; [lia|]); cbn [c_string].
  - replace (i + Z.of_nat 0) with i in Hnul by lia. rewrite Hnul.
    unfold NUL. rewrite Ascii.eqb_refl.
    exists EmptyString. repeat split.
  - assert (H0 : text i <> NUL).
    { replace i with (i + 0) by lia. apply Hbefore. lia. }
    apply Ascii.eqb_neq in H0. rewrite H0.
    destruct (IH n text (i + 1)) as (t & Ht & Hlen & Hfree).
    + lia.
    + replace (i + 1 + Z.of_nat k) with (i + Z.of_nat (S k)) by lia. exact Hnul.
    + intros j Hj. replace (i + 1 + j) with (i + (j + 1)) by lia.
      apply Hbefore. lia.
    + rewrite Ht. cbn [option_map]. eexists. split; [reflexivity|].
      split; [simpl; lia|]. split; [apply Ascii.eqb_neq; exact H0 | exact Hfree].
Qed.

Lemma strdup_text_ok (text : Z -> ascii) (i_text : Z) :
  buf_ok text i_text ->
  exists t, strdup_text text = Some t
            /\ Z.of_nat (String.length t) = i_text /\ nul_free t.
Proof.
  intros (Hr & Hnul & Hbefore). unfold strdup_text.
  destruct (c_string_reads (Z.to_nat i_text) (Z.to_nat sizeof_text) text 0)
    as (t & Ht & Hlen & Hfree).
  - unfold sizeof_text in *. lia.
  - rewrite Z2Nat.id by lia. exact Hnul.
  - intros j Hj. apply Hbefore. lia.
  - exists t. repeat split; auto. lia.
Qed.

(** * SAMI: every loop ends *)

Lemma TextGetLine_cases (t : text_t) :
  match TextGetLine t with
  | (Some l, t') => chars_left t = S (String.length l + chars_left t')
                    /\ lines_left t = S (lines_left t')
  | (None, t') => t' = t
  end.
Proof.
  unfold TextGetLine, chars_left, lines_left.
  destruct (i_line t >=? i_line_count t) eqn:E; [reflexivity|].
  rewrite Z.geb_leb in E. apply Z.leb_gt in E. simpl.
  replace (Z.to_nat (i_line_count t - i_line t))
    with (S (Z.to_nat (i_line_count t - (i_line t + 1)))) by lia.
  split; reflexivity.
Qed.

Lemma strn_eq_length (fold : ascii -> ascii) (needle : string) :
  forall x, strn_eq fold (String.length needle) x needle = true ->
            (String.length needle <= String.length x)%nat.
Proof.
  induction needle as [|c r IH]; intros x H; simpl in *; [lia|].
  destruct x as [|a x']; [discriminate|].
  destruct (Ascii.eqb (fold a) (fold c)); [|discriminate].
  apply IH in H. simpl. lia.
Qed.

Lemma str_search_found (fold : ascii -> ascii) (needle : string) :
  forall hay m,
    str_search fold hay needle = Some m ->
    (String.length needle <= String.length m <= String.length hay)%nat.
Proof.
  induction hay as [|c r IH]; intros m; cbn [str_search].
  - destruct (strn_eq fold (String.length needle) "" needle) eqn:E;
      [|discriminate].
    intros H; inversion H; subst. apply strn_eq_length in E. lia.
  - destruct (strn_eq fold (String.length needle) (String c r) needle) eqn:E.
    + intros H; inversion H; subst. apply strn_eq_length in E. lia.
    + intros H. apply IH in H. simpl. lia.
Qed.

Lemma str_drop_length (n : nat) :
  forall t, String.length (str_drop n t) = (String.length t - n)%nat.
Proof.
  induction n as [|n IH]; intros [|c r]; simpl; auto.
Qed.

(** The text after a needle found in [hay] is shorter than [hay]. *)
Lemma after_needle_shorter (hay needle m : string) :
  needle <> EmptyString ->
  strcasestr hay needle = Some m ->
  (String.length (str_drop (String.length needle) m) < String.length hay)%nat.
Proof.
  intros Hne H. apply str_search_found in H. rewrite str_drop_length.
  destruct needle; [contradiction|]. simpl in *. lia.
Qed.

Lemma ParseSamiSearch_loop_ends (fuel : nat) :
  forall t needle,
    (lines_left t <= fuel)%nat ->
    exists r t2,
      ParseSamiSearch_loop fuel t needle = Some (r, t2)
      /\ match r with
         | None => (chars_left t2 <= chars_left t)%nat
         | Some x => (String.length x + chars_left t2 < chars_left t)%nat
         end.
Proof.
  induction fuel as [|k IH]; intros t needle Hf;
    [unfold lines_left in Hf; lia|].
  cbn [ParseSamiSearch_loop]. pose proof (TextGetLine_cases t) as Hc.
  destruct (TextGetLine t) as [[p|] t'].
  - destruct Hc as (Hch & Hll).
    destruct (strcasestr p needle) as [m|] eqn:Em.
    + exists (Some (str_drop (String.length needle) m)), t'.
      split; [reflexivity|]. cbv beta iota.
      apply str_search_found in Em. rewrite str_drop_length. lia.
    + destruct (IH t' needle) as (r & t2 & Hr & Hm); [lia|].
      exists r, t2. split; [exact Hr|]. destruct r; lia.
  - subst t'. exists None, t. split; [reflexivity|]. cbv beta iota. lia.
Qed.

Lemma ParseSamiSearch_ends (t : text_t) (start : option string) (needle : string) :
  exists r t2, ParseSamiSearch t start needle = Some (r, t2).
Proof.
  unfold ParseSamiSearch.
  destruct start as [st|].
  - destruct (strcasestr st needle); [eexists _, _; reflexivity|].
    destruct (ParseSamiSearch_loop_ends (lines_left t) t needle (le_n _))
      as (r & t2 & H & _). eauto.
  - destruct (ParseSamiSearch_loop_ends (lines_left t) t needle (le_n _))
      as (r & t2 & H & _). eauto.
Qed.

(** A search that starts inside a non-empty rest of line leaves less to
    scan. *)
Lemma ParseSamiSearch_progress (t : text_t) (str needle : string) :
  str <> EmptyString -> needle <> EmptyString ->
  exists r t2,
    ParseSamiSearch t (Some str) needle = Some (r, t2)
    /\ (sami_left t2 r < sami_left t (Some str))%nat.
Proof.
  intros Hs Hn. unfold ParseSamiSearch, sami_left.
  destruct (strcasestr str needle) as [m|] eqn:Em.
  - exists (Some (str_drop (String.length needle) m)), t.
    split; [reflexivity|]. cbv beta iota.
    pose proof (after_needle_shorter str needle m Hn Em). lia.
  - destruct (ParseSamiSearch_loop_ends (lines_left t) t needle (le_n _))
      as (r & t2 & H & Hm).
    exists r, t2. split; [exact H|].
    destruct str; [contradiction|]. simpl. destruct r; lia.
Qed.

Lemma sami_skip_empty_ends (fuel : nat) :
  forall t sp,
    (lines_left t <= fuel)%nat ->
    exists sp1 t1,
      sami_skip_empty fuel t sp = Some (sp1, t1)
      /\ (sami_left t1 sp1 <= sami_left t sp)%nat
      /\ sp1 <> Some EmptyString.
Proof.
  induction fuel as [|k IH]; intros t sp Hf; [unfold lines_left in Hf; lia|].
  destruct sp as [[|c r]|].
  - cbn [sami_skip_empty]. pose proof (TextGetLine_cases t) as Hc.
    destruct (TextGetLine t) as [[l|] t'].
    + destruct Hc as (Hch & Hll).
      destruct (IH t' (Some l)) as (sp1 & t1 & H & Hm & Hne); [lia|].
      exists sp1, t1. split; [exact H|]. split; [|exact Hne].
      unfold sami_left in *. simpl. lia.
    + subst t'. exists None, t. split; [destruct k; reflexivity|].
      split; [unfold sami_left; simpl; lia | discriminate].
  - exists (Some (String c r)), t. split; [reflexivity|].
    split; [lia | discriminate].
  - exists None, t. split; [reflexivity|]. split; [lia | discriminate].
Qed.

(** The loop of [ParseSami] ends within the fuel it is given, stores
    nothing outside the array, and leaves a C string in it. *)
Lemma ParseSami_loop_ends (fuel : nat) :
  forall t sp text i_text,
    buf_ok text i_text ->
    (sami_left t sp < fuel)%nat ->
    exists t' text' i_text',
      ParseSami_loop fuel t sp text i_text = Sami_done t' text' i_text'
      /\ buf_ok text' i_text'.
Proof.
  induction fuel as [|k IH]; intros t sp text i_text Hbuf Hf; [lia|].
  cbn [ParseSami_loop].
  destruct (sami_skip_empty_ends (lines_left t) t sp (le_n _))
    as (sp1 & t1 & Hskip & Hm1 & Hne).
  rewrite Hskip.
  destruct sp1 as [[|c0 rest]|]; [congruence | | eauto].
  assert (Hcont : forall t2 sp2 c,
             (sami_left t2 sp2 < sami_left t1 (Some (String c0 rest)))%nat ->
             exists t' text' i_text',
               match sami_put text i_text c with
               | Some (text1, i1) => ParseSami_loop k t2 sp2 text1 i1
               | None => Sami_undefined
               end = Sami_done t' text' i_text'
               /\ buf_ok text' i_text').
  { intros t2 sp2 c Hlt.
    destruct (sami_put_ok text i_text c Hbuf) as (text1 & i1 & Hput & Hok & _).
    rewrite Hput. apply IH; [exact Hok | lia]. }
  assert (Hsearch : forall needle, needle <> EmptyString ->
             exists r t2,
               ParseSamiSearch t1 (Some (String c0 rest)) needle = Some (r, t2)
               /\ (sami_left t2 r < sami_left t1 (Some (String c0 rest)))%nat).
  { intros needle Hn. apply ParseSamiSearch_progress; [discriminate | exact Hn]. }
  destruct (Ascii.eqb c0 "<").
  - destruct (strncasecmp_eq (String c0 rest) "<br" 3).
    + destruct (Hsearch ">" ltac:(discriminate)) as (r & t2 & Hr & Hlt).
      rewrite Hr. apply Hcont. exact Hlt.
    + destruct (found (strcasestr (String c0 rest) "Start=")); [eauto|].
      destruct (Hsearch ">" ltac:(discriminate)) as (r & t2 & Hr & Hlt).
      rewrite Hr. apply Hcont. exact Hlt.
  - destruct (strncmp_eq (String c0 rest) "&nbsp;" 6) eqn:En.
    + apply Hcont. unfold sami_left. rewrite str_drop_length.
      unfold strncmp_eq in En.
      apply (strn_eq_length (fun c => c) "&nbsp;") in En. simpl in *. lia.
    + destruct (Ascii.eqb c0 TAB); apply Hcont; unfold sami_left; simpl; lia.
Qed.

(** A paragraph of 9000 letters: the call succeeds, all of the line is
    consumed, the text is the first 8191 letters. *)
Lemma ParseSami_long_paragraph (text0 : Z -> ascii) (sub : subtitle_t) :
  ParseSami text0 (mk_text 1 0 long_paragraph) sub
  = Ret VLC_SUCCESS (mk_text 1 1 long_paragraph)
        {| i_start := 1000000; i_stop := 0;
           psz_text := run_of (Z.to_nat 8191) "a" |}.
Proof. vm_compute. reflexivity. Qed.

(** [ParseSami] returns on every input, and what it returns on success
    fits the buffer. *)
Lemma ParseSami_returns (text0 : Z -> ascii) (t : text_t) (sub : subtitle_t) :
  exists code t' sub',
    ParseSami text0 t sub = Ret code t' sub'
    /\ (code = VLC_SUCCESS \/ code = VLC_EGENERIC)
    /\ (code = VLC_SUCCESS ->
        strlen (psz_text sub') <= 8191 /\ nul_free (psz_text sub')).
Proof.
  assert (Hgen : forall t1 : text_t,
             exists code t' sub',
               Ret VLC_EGENERIC t1 sub = Ret code t' sub'
               /\ (code = VLC_SUCCESS \/ code = VLC_EGENERIC)
               /\ (code = VLC_SUCCESS ->
                   strlen (psz_text sub') <= 8191 /\ nul_free (psz_text sub'))).
  { intros t1. eexists _, _, _. split; [reflexivity|].
    split; [right; reflexivity | discriminate]. }
  unfold ParseSami.
  destruct (ParseSamiSearch_ends t None "Start=") as (r1 & t1 & H1).
  rewrite H1. destruct r1 as [s1|]; [|apply Hgen].
  destruct (strtol0 s1) as [start s2].
  destruct (ParseSamiSearch_ends t1 (Some s2) "<P") as (r2 & t2 & H2).
  rewrite H2. destruct r2 as [s3|]; [|apply Hgen].
  destruct (ParseSamiSearch_ends t2 (Some s3) ">") as (r3 & t3 & H3).
  rewrite H3. destruct r3 as [s4|]; [|apply Hgen].
  rewrite store_inside by (unfold sizeof_text; lia).
  assert (Hbuf : buf_ok (fun j => if j =? 0 then NUL else text0 j) 0).
  { split; [unfold sizeof_text; lia|]. split; [reflexivity | intros; lia]. }
  destruct (ParseSami_loop_ends (sami_fuel t3 (Some s4)) t3 (Some s4) _ 0 Hbuf)
    as (t4 & text & i_text & Hloop & Hok); [unfold sami_fuel; lia|].
  rewrite Hloop.
  destruct (strdup_text_ok text i_text Hok) as (copy & Hcopy & Hlen & Hfree).
  rewrite Hcopy. eexists _, _, _. split; [reflexivity|].
  split; [left; reflexivity|]. intros _. simpl.
  split; [|exact Hfree]. destruct Hok as (Hr & _).
  unfold sizeof_text in Hr. unfold strlen. lia.
Qed.

(** C9.  On every input [ParseSami] returns, with VLC_SUCCESS or
    VLC_EGENERIC: no store leaves the 8192 bytes of [text] and the copy
    finds its terminating NUL inside them, whatever the array held at
    entry.  The text of the cue has at most 8191 characters and no NUL among
    them.  Once 8191 characters are in the buffer a further character is
    dropped: the buffer and its index stay as they are and the scan goes
    on, with no error; a paragraph of 9000 letters gives a cue with the
    first 8191. *)
Theorem sami_text_within_buffer (text0 : Z -> ascii) (t : text_t)
  (sub : subtitle_t) :
  (exists code t' sub',
      ParseSami text0 t sub = Ret code t' sub'
      /\ (code = VLC_SUCCESS \/ code = VLC_EGENERIC)
      /\ (code = VLC_SUCCESS ->
          strlen (psz_text sub') <= 8191 /\ nul_free (psz_text sub')))
  /\ (forall text c, buf_ok text 8191 ->
                     sami_put text 8191 c = Some (text, 8191))
  /\ ParseSami text0 (mk_text 1 0 long_paragraph) sub
     = Ret VLC_SUCCESS (mk_text 1 1 long_paragraph)
           {| i_start := 1000000; i_stop := 0;
              psz_text := run_of (Z.to_nat 8191) "a" |}.
Proof.
  split; [apply ParseSami_returns|split; [|apply ParseSami_long_paragraph]].
  intros text c Hbuf.
  destruct (sami_put_ok text 8191 c Hbuf) as (text' & i' & Hput & _ & Hcap).
  destruct Hcap as (-> & ->); [unfold sizeof_text; lia|]. exact Hput.
Qed.

(* ================================================================== *)
(** * The readers end within their fuel

    Every loop of a reader consumes a line of the cursor per round, so the
    fuel [lines_left] the callers pass is never used up: a reader returns a
    code or reaches undefined behaviour, and the model of a returning call
    does not depend on the fuel. *)

Lemma lines_left_pos (t : text_t) : (lines_left t <= 0)%nat -> False.
Proof. unfold lines_left. lia. Qed.

Ltac next_line t IH :=
  let H := fresh "Hline" in
  pose proof (TextGetLine_cases t) as H;
  destruct (TextGetLine t) as [[l|] t'];
  [ destruct H as [_ H] | try discriminate ].

Lemma ParseMicroDvd_loop_ends (fuel : nat) :
  forall d, (lines_left (txt (p_sys d)) <= fuel)%nat ->
            ParseMicroDvd_loop fuel d <> inl OutOfFuel.
Proof.
  induction fuel as [|k IH]; intros d Hf;
    [destruct (lines_left_pos _ Hf)|].
  cbn [ParseMicroDvd_loop]. next_line (txt (p_sys d)) IH.
  destruct (scan_microdvd l) as [[[start stop] text]|];
    [|apply IH; simpl; lia].
  destruct (negb (start =? 1) || negb (stop =? 1)); [discriminate|].
  case_if; apply IH; simpl; lia.
Qed.

Lemma SubRip_timing_ends (psz_fmt : string) (fuel : nat) :
  forall t, (lines_left t <= fuel)%nat -> SubRip_timing fuel psz_fmt t <> None.
Proof.
  induction fuel as [|k IH]; intros t Hf; [destruct (lines_left_pos _ Hf)|].
  cbn [SubRip_timing]. next_line t IH.
  destruct (scan_timing psz_fmt l); [discriminate | apply IH; lia].
Qed.

Lemma SubRip_body_ends (b : bool) (fuel : nat) :
  forall t text, (lines_left t <= fuel)%nat ->
                 SubRip_body fuel b t text <> None.
Proof.
  induction fuel as [|k IH]; intros t text Hf;
    [destruct (lines_left_pos _ Hf)|].
  cbn [SubRip_body]. next_line t IH.
  destruct (strlen l <=? 0); [discriminate | apply IH; lia].
Qed.

Lemma ParseSubRipSubViewer_ends (t : text_t) (sub : subtitle_t)
  (psz_fmt : string) (b : bool) :
  ParseSubRipSubViewer t sub psz_fmt b <> OutOfFuel.
Proof.
  unfold ParseSubRipSubViewer.
  pose proof (SubRip_timing_ends psz_fmt _ t (le_n _)) as H1.
  destruct (SubRip_timing (lines_left t) psz_fmt t) as [[[[a b0]|] t1]|];
    [|discriminate|congruence].
  pose proof (SubRip_body_ends b _ t1 EmptyString (le_n _)) as H2.
  destruct (SubRip_body (lines_left t1) b t1 EmptyString) as [[[text|] t2]|];
    [discriminate|discriminate|congruence].
Qed.

Lemma ParseSSA_loop_ends (fuel : nat) :
  forall sys sub idx, (lines_left (txt sys) <= fuel)%nat ->
                      ParseSSA_loop fuel sys sub idx <> OutOfFuel.
Proof.
  induction fuel as [|k IH]; intros sys sub idx Hf;
    [destruct (lines_left_pos _ Hf)|].
  cbn [ParseSSA_loop]. next_line (txt sys) IH.
  destruct (scan_dialogue l) as [[[[temp start] stop] text]|];
    [discriminate | apply IH; simpl; lia].
Qed.

Lemma ParseVplayer_loop_ends (fuel : nat) :
  forall t sub, (lines_left t <= fuel)%nat ->
                ParseVplayer_loop fuel t sub <> OutOfFuel.
Proof.
  induction fuel as [|k IH]; intros t sub Hf;
    [destruct (lines_left_pos _ Hf)|].
  cbn [ParseVplayer_loop]. next_line t IH.
  destruct (scan_vplayer l) as [[start text]|];
    [discriminate | apply IH; lia].
Qed.

Lemma DVDSubtitle_timing_ends (fuel : nat) :
  forall t, (lines_left t <= fuel)%nat -> DVDSubtitle_timing fuel t <> None.
Proof.
  induction fuel as [|k IH]; intros t Hf; [destruct (lines_left_pos _ Hf)|].
  cbn [DVDSubtitle_timing]. next_line t IH.
  destruct (scan_dvdsubtitle l); [discriminate | apply IH; lia].
Qed.

Lemma DVDSubtitle_body_ends (fuel : nat) :
  forall t text, (lines_left t <= fuel)%nat ->
                 DVDSubtitle_body fuel t text <> None.
Proof.
  induction fuel as [|k IH]; intros t text Hf;
    [destruct (lines_left_pos _ Hf)|].
  cbn [DVDSubtitle_body]. next_line t IH.
  destruct (String.eqb l "}"); [discriminate | apply IH; lia].
Qed.

Lemma ParseDVDSubtitle_txt_ends (t : text_t) (sub : subtitle_t) :
  ParseDVDSubtitle_txt t sub <> OutOfFuel.
Proof.
  unfold ParseDVDSubtitle_txt.
  pose proof (DVDSubtitle_timing_ends _ t (le_n _)) as H1.
  destruct (DVDSubtitle_timing (lines_left t) t) as [[[start|] t1]|];
    [|discriminate|congruence].
  pose proof (DVDSubtitle_body_ends _ t1 EmptyString (le_n _)) as H2.
  destruct (DVDSubtitle_body (lines_left t1) t1 EmptyString)
    as [[[text|] t2]|]; [discriminate|discriminate|congruence].
Qed.

Lemma ParseMPL2_loop_ends (fuel : nat) :
  forall t sub, (lines_left t <= fuel)%nat ->
                ParseMPL2_loop fuel t sub <> OutOfFuel.
Proof.
  induction fuel as [|k IH]; intros t sub Hf;
    [destruct (lines_left_pos _ Hf)|].
  cbn [ParseMPL2_loop]. next_line t IH.
  destruct (scan_mpl2 l) as [[[start stop] text]|];
    [discriminate | apply IH; lia].
Qed.

Lemma ParseAQT_loop_ends (fuel : nat) :
  forall t sub text first, (lines_left t <= fuel)%nat ->
                           ParseAQT_loop fuel t sub text first <> OutOfFuel.
Proof.
  induction fuel as [|k IH]; intros t sub text first Hf;
    [destruct (lines_left_pos _ Hf)|].
  cbn [ParseAQT_loop]. next_line t IH.
  destruct (scan_aqt l) as [v|].
  - destruct first; [apply IH; lia | discriminate].
  - destruct (i_line t' =? i_line_count t'); [discriminate | apply IH; lia].
Qed.

Lemma ParsePJS_loop_ends (fuel : nat) :
  forall t sub, (lines_left t <= fuel)%nat ->
                ParsePJS_loop fuel t sub <> OutOfFuel.
Proof.
  induction fuel as [|k IH]; intros t sub Hf;
    [destruct (lines_left_pos _ Hf)|].
  cbn [ParsePJS_loop]. next_line t IH.
  destruct (scan_pjs l) as [[[t1 t2] text]|];
    [discriminate | apply IH; lia].
Qed.

Lemma MPSub_head_ends (fuel : nat) :
  forall g d sub, (lines_left (txt (p_sys d)) <= fuel)%nat ->
                  MPSub_head fuel g d sub <> inl OutOfFuel.
Proof.
  induction fuel as [|k IH]; intros g d sub Hf;
    [destruct (lines_left_pos _ Hf)|].
  cbn [MPSub_head]. next_line (txt (p_sys d)) IH.
  destruct (mpsub_format_time l); [discriminate|].
  destruct (mpsub_format l); try discriminate.
  destruct (mpsub_data l) as [[f1 f2]|];
    [discriminate | apply IH; simpl; lia].
Qed.

Lemma MPSub_body_ends (fuel : nat) :
  forall t text, (lines_left t <= fuel)%nat -> MPSub_body fuel t text <> None.
Proof.
  induction fuel as [|k IH]; intros t text Hf;
    [destruct (lines_left_pos _ Hf)|].
  cbn [MPSub_body]. next_line t IH.
  destruct (strlen l =? 0); [discriminate | apply IH; lia].
Qed.

Lemma ParseMPSub_ends (g : statics) (d : demux_t) (sub : subtitle_t)
  (idx : Z) : ParseMPSub g d sub idx <> OutOfFuel.
Proof.
  unfold ParseMPSub.
  pose proof (MPSub_head_ends _ g d sub (le_n _)) as H1.
  destruct (MPSub_head (lines_left (txt (p_sys d))) g d sub)
    as [r|[[g1 d1] sub1]]; [congruence|].
  pose proof (MPSub_body_ends _ (txt (p_sys d1)) EmptyString (le_n _)) as H2.
  destruct (MPSub_body (lines_left (txt (p_sys d1))) (txt (p_sys d1))
                       EmptyString) as [[[text|] t2]|];
    [discriminate|discriminate|congruence].
Qed.

Lemma ParseJSS_loop_ends (fuel : nat) :
  forall g t sub, (lines_left t <= fuel)%nat ->
                  ParseJSS_loop fuel g t sub <> OutOfFuel.
Proof.
  induction fuel as [|k IH]; intros g t sub Hf;
    [destruct (lines_left_pos _ Hf)|].
  cbn [ParseJSS_loop]. next_line t IH.
  destruct (scan_jss (jss_time_shift g) (jss_time_resolution g) l)
    as [[[[start|] [stop|]] text]|]; try discriminate.
  - destruct (if isalpha (nth_char (jss_skip_blanks text) 0)
                 || Ascii.eqb (nth_char (jss_skip_blanks text) 0) "["
              then jss_skip_word (jss_skip_blanks text)
              else Some (jss_skip_blanks text)) as [p3|]; [|discriminate].
    destruct (jss_strip (jss_skip_blanks p3) (i_comment g) t' EmptyString);
      discriminate.
  - destruct (Ascii.eqb (nth_char l 0) "#"); [|apply IH; lia].
    destruct (jss_directive l g); [apply IH; lia | discriminate].
Qed.

Lemma map_state_ends {A B : Type} (f : A -> B) (r : result A) :
  r <> OutOfFuel -> map_state f r <> OutOfFuel.
Proof. destruct r; simpl; congruence. Qed.

(** Every reader of the table returns or reaches undefined behaviour, on
    every state of the session. *)
Lemma table_readers_end (text0 : Z -> ascii) (ty : sub_type) (pf : reader) :
  reader_of_type (sub_read_subtitle_function text0) ty = Some pf ->
  forall g d sub idx, pf g d sub idx <> OutOfFuel.
Proof.
  destruct ty; simpl; intros H; inversion H; subst; intros g d sub idx;
    try apply ParseMPSub_ends;
    unfold on_demux, ParseSubRip, ParseSubViewer, ParseSSA, ParseVplayer,
      ParseJSS, on_txt, on_sys;
    repeat apply map_state_ends;
    first [ apply ParseSubRipSubViewer_ends
          | apply ParseSSA_loop_ends; apply le_n
          | apply ParseVplayer_loop_ends; apply le_n
          | apply ParseDVDSubtitle_txt_ends
          | apply ParseMPL2_loop_ends; apply le_n
          | apply ParseAQT_loop_ends; apply le_n
          | apply ParsePJS_loop_ends; apply le_n
          | apply ParseJSS_loop_ends; apply le_n
          | idtac ].
  - unfold ParseMicroDvd.
    pose proof (ParseMicroDvd_loop_ends _ d (le_n _)) as H1.
    destruct (ParseMicroDvd_loop (lines_left (txt (p_sys d))) d)
      as [[c d' s|  |]|[[[d' start] stop] text]]; congruence.
  - destruct (ParseSami_returns text0 (txt (p_sys d)) sub)
      as (c & t' & sub' & E & _). rewrite E. discriminate.
Qed.

(* ================================================================== *)
(** * The line cursor: loading and reading *)

Lemma unread_step (st : stream_t) :
  match stream_ReadLine st with
  | (Some l, st') => unread st = l :: unread st' /\ s_lines st' = s_lines st
  | (None, st') => unread st = [] /\ st' = st
  end.
Proof.
  unfold stream_ReadLine, unread.
  destruct (nth_error (s_lines st) (s_pos st)) as [l|] eqn:E; simpl.
  - split; [|reflexivity]. revert E. generalize (s_pos st) as n.
    induction (s_lines st) as [|x xs IH]; intros [|n] E; simpl in *;
      try discriminate.
    + congruence.
    + apply IH. exact E.
  - split; [|reflexivity]. apply skipn_all2. apply nth_error_None. exact E.
Qed.

Lemma TextLoad_loop_spec (fuel : nat) :
  forall st acc,
    (List.length (unread st) < fuel)%nat ->
    let r := TextLoad_loop fuel st acc in
    fst r = acc ++ unread st
    /\ unread (snd r) = [] /\ s_lines (snd r) = s_lines st.
Proof.
  induction fuel as [|k IH]; intros st acc Hf; [lia|].
  cbn [TextLoad_loop]. pose proof (unread_step st) as Hu.
  destruct (stream_ReadLine st) as [[l|] st'].
  - destruct Hu as (Hu & Hl). rewrite Hu in Hf. simpl in Hf.
    destruct (IH st' (acc ++ [l])) as (H1 & H2 & H3); [lia|].
    cbv zeta. rewrite H1, H2, H3, Hu, Hl, <- app_assoc. auto.
  - destruct Hu as (Hu & ->). simpl. rewrite Hu, app_nil_r. auto.
Qed.

Lemma unread_length (st : stream_t) :
  (List.length (unread st) <= List.length (s_lines st))%nat.
Proof. unfold unread. rewrite length_skipn. lia. Qed.

Lemma TextGetLine_end (n : Z) (lines : list string) :
  n = Z.of_nat (List.length lines) ->
  TextGetLine (mk_text n n lines) = (None, mk_text n n lines).
Proof.
  intros Hn. unfold TextGetLine. simpl.
  replace (n >=? n) with true; [reflexivity|].
  symmetry. rewrite Z.geb_leb. apply Z.leb_refl.
Qed.

Lemma cursor_reads_lines_in_order_core (rest : list string) :
  forall (pre : list string) (fuel : nat),
    (List.length rest < fuel)%nat ->
    let n := Z.of_nat (List.length (pre ++ rest)) in
    read_lines fuel (mk_text n (Z.of_nat (List.length pre)) (pre ++ rest))
    = (rest, mk_text n n (pre ++ rest))
    /\ TextGetLine (mk_text n n (pre ++ rest)) = (None, mk_text n n (pre ++ rest)).
Proof.
  induction rest as [|x rest IH]; intros pre fuel Hf n;
    (destruct fuel as [|k]; [simpl in Hf; lia|]); cbn [read_lines].
  - subst n. rewrite app_nil_r. rewrite TextGetLine_end by reflexivity. auto.
  - subst n. rewrite TextGetLine_next by reflexivity.
    destruct (IH (pre ++ [x]) k) as (H1 & H2); [simpl in Hf; lia|].
    rewrite <- app_assoc in H1, H2. simpl app in H1, H2.
    rewrite H1. auto.
Qed.

(** X1.  From any position of a loaded cursor, successive calls of
    [TextGetLine] return the lines from that position on, each once and in
    order, and leave the cursor at the count, where [TextGetLine] returns
    NULL and does not move. *)
Theorem cursor_reads_lines_in_order (pre rest : list string) (fuel : nat) :
  (List.length rest < fuel)%nat ->
  let n := Z.of_nat (List.length (pre ++ rest)) in
  read_lines fuel (mk_text n (Z.of_nat (List.length pre)) (pre ++ rest))
  = (rest, mk_text n n (pre ++ rest))
  /\ TextGetLine (mk_text n n (pre ++ rest)) = (None, mk_text n n (pre ++ rest)).
Proof. apply cursor_reads_lines_in_order_core. Qed.

Lemma cursor_reads_lines_in_order_witness :
  read_lines 3 (mk_text 3 1 ["a"; "b"; "c"])
  = (["b"; "c"], mk_text 3 3 ["a"; "b"; "c"]).
Proof.
  exact (proj1 (cursor_reads_lines_in_order ["a"] ["b"; "c"] 3
                  ltac:(simpl; lia))).
Defined.

(** X2.  When [TextGetLine] returns a line, the cursor not being
    negative, it is the line at the cursor; [TextPreviousLine] then restores
    the cursor, and the next [TextGetLine] returns the same line again. *)
Theorem cursor_push_back_round_trip (t t' : text_t) (l : string) :
  0 <= i_line t ->
  TextGetLine t = (Some l, t') ->
  TextPreviousLine t' = t
  /\ TextGetLine (TextPreviousLine t') = (Some l, t')
  /\ l = nth (Z.to_nat (i_line t)) (line t) EmptyString.
Proof.
  intros Hi H. unfold TextGetLine in H.
  destruct (i_line t >=? i_line_count t) eqn:E; [discriminate|].
  injection H as <- <-.
  assert (Hback : TextPreviousLine
                    {| i_line_count := i_line_count t; i_line := i_line t + 1;
                       line := line t |} = t).
  { unfold TextPreviousLine. simpl.
    replace (i_line t + 1 >? 0) with true
      by (symmetry; rewrite Z.gtb_ltb; apply Z.ltb_lt; lia).
    destruct t; simpl. f_equal. lia. }
  rewrite Hback. repeat split.
  unfold TextGetLine. rewrite E. reflexivity.
Qed.

Lemma cursor_push_back_round_trip_witness :
  TextPreviousLine (mk_text 2 1 ["a"; "b"]) = mk_text 2 0 ["a"; "b"].
Proof.
  exact (proj1 (cursor_push_back_round_trip (mk_text 2 0 ["a"; "b"])
                  (mk_text 2 1 ["a"; "b"]) "a" ltac:(simpl; lia) eq_refl)).
Defined.

Lemma TextLoad_loads (st : stream_t) :
  let code := fst (fst (TextLoad st)) in
  let t := snd (fst (TextLoad st)) in
  let st' := snd (TextLoad st) in
  t = mk_text (Z.of_nat (List.length (unread st))) 0 (unread st)
  /\ unread st' = [] /\ s_lines st' = s_lines st
  /\ (unread st = [] -> code = VLC_EGENERIC)
  /\ (unread st <> [] -> code = VLC_SUCCESS)
  /\ fst (read_lines (lines_left t) t) = unread st.
Proof.
  unfold TextLoad.
  destruct (TextLoad_loop_spec (S (List.length (s_lines st))) st [])
    as (H1 & H2 & H3).
  { pose proof (unread_length st). lia. }
  destruct (TextLoad_loop (S (List.length (s_lines st))) st []) as [lines st'].
  simpl in H1, H2, H3. subst lines. cbn [i_line_count].
  assert (Hall : fst (read_lines
                        (lines_left (mk_text (Z.of_nat (List.length (unread st)))
                                             0 (unread st)))
                        (mk_text (Z.of_nat (List.length (unread st))) 0
                                 (unread st))) = unread st).
  { destruct (cursor_reads_lines_in_order_core (unread st) []
                (lines_left (mk_text (Z.of_nat (List.length (unread st))) 0
                                     (unread st)))) as (H & _).
    - unfold lines_left. simpl. lia.
    - exact (f_equal fst H). }
  destruct (unread st) as [|x rest] eqn:Eu.
  - simpl. repeat split; auto. congruence.
  - replace (Z.of_nat (List.length (x :: rest)) <=? 0) with false
      by (symmetry; apply Z.leb_gt; simpl; lia).
    cbn [fst snd]. repeat split; auto. congruence.
Qed.

(** X3.  [TextLoad] loads every line the stream has yet to deliver, in
    order, with the cursor at line 0 and the count their number, and leaves
    the stream at its end.  It returns VLC_EGENERIC when there is no such
    line and VLC_SUCCESS otherwise.  Reading the loaded cursor with
    [TextGetLine] until NULL gives the same lines back. *)
Theorem TextLoad_reads_every_line (st : stream_t) :
  let code := fst (fst (TextLoad st)) in
  let t := snd (fst (TextLoad st)) in
  let st' := snd (TextLoad st) in
  t = mk_text (Z.of_nat (List.length (unread st))) 0 (unread st)
  /\ unread st' = [] /\ s_lines st' = s_lines st
  /\ (unread st = [] -> code = VLC_EGENERIC)
  /\ (unread st <> [] -> code = VLC_SUCCESS)
  /\ fst (read_lines (lines_left t) t) = unread st.
Proof. exact (TextLoad_loads st). Qed.

(* ================================================================== *)
(** * Playing the cues: [Control] and [Demux] *)

Lemma set_subtitle_same (sys : demux_sys_t) :
  set_subtitle sys (i_subtitle sys + 0) = sys.
Proof. destruct sys. unfold set_subtitle. simpl. f_equal. lia. Qed.

Lemma str_take_whole (t : string) (n : nat) :
  (String.length t <= n)%nat -> str_take n t = t.
Proof.
  revert n. induction t as [|a r IH]; intros [|n] H; simpl in *;
    try reflexivity; try lia.
  rewrite IH by lia. reflexivity.
Qed.

Lemma strcat_length (a b : string) :
  String.length (strcat a b) = (String.length a + String.length b)%nat.
Proof. unfold strcat. induction a; simpl; auto. Qed.

Lemma int32_small (z : Z) : - 2 ^ 31 <= z <= INT_MAX -> int32 z = z.
Proof.
  unfold INT_MAX, int32, wrap.
  change (2 ^ 32) with 4294967296.
  change (2 ^ (32 - 1)) with 2147483648.
  change (2 ^ 31) with 2147483648.
  intros H. destruct (Z_lt_dec z 0) as [Hneg|Hpos].
  - rewrite <- (Z.mod_add z 1) by lia. rewrite Z.mod_small by lia.
    destruct (z + 1 * 4294967296 <? 2147483648) eqn:E;
      [apply Z.ltb_lt in E|]; lia.
  - rewrite Z.mod_small by lia.
    destruct (z <? 2147483648) eqn:E; [|apply Z.ltb_ge in E]; lia.
Qed.

Lemma Demux_loop_spec (i_maxdate : Z) (rest : list subtitle_t) :
  forall (pre : list subtitle_t) (sys : demux_sys_t) (out : list block_t)
         (fuel : nat),
    subtitle sys = pre ++ rest ->
    i_subtitle sys = Z.of_nat (List.length pre) ->
    i_subtitles sys = Z.of_nat (List.length (pre ++ rest)) ->
    Forall cue_in_range rest ->
    (List.length rest <= fuel)%nat ->
    let k := first_at_or_after i_maxdate rest in
    Demux_loop fuel sys i_maxdate out
    = (set_subtitle sys (i_subtitle sys + Z.of_nat k),
       out ++ map block_of (filter sendable (firstn k rest))).
Proof.
  induction rest as [|c rest IH]; intros pre sys out fuel Hs Hi Hn Hr Hf k.
  - subst k. simpl. rewrite set_subtitle_same, app_nil_r.
    destruct fuel; simpl; [reflexivity|].
    replace (i_subtitle sys <? i_subtitles sys) with false; [reflexivity|].
    symmetry. apply Z.ltb_ge. rewrite Hi, Hn, app_nil_r. lia.
  - destruct fuel as [|fuel]; [simpl in Hf; lia|].
    inversion Hr as [|? ? Hc Hr']; subst.
    cbn [Demux_loop].
    assert (Hcue : cue_at sys (i_subtitle sys) = c).
    { unfold cue_at. rewrite Hs, Hi, Nat2Z.id, app_nth2, Nat.sub_diag by lia.
      reflexivity. }
    unfold start_at. fold (cue_at sys (i_subtitle sys)). rewrite Hcue.
    replace (i_subtitle sys <? i_subtitles sys) with true
      by (symmetry; apply Z.ltb_lt; rewrite Hi, Hn, length_app; simpl; lia).
    subst k. cbn [first_at_or_after andb].
    destruct (i_start c <? i_maxdate) eqn:Ed.
    2:{ simpl. rewrite set_subtitle_same, app_nil_r. reflexivity. }
    assert (Hnext : forall out',
               Demux_loop fuel (set_subtitle sys (i_subtitle sys + 1)) i_maxdate out'
               = (set_subtitle sys (i_subtitle sys
                                    + Z.of_nat (S (first_at_or_after i_maxdate rest))),
                  out' ++ map block_of
                            (filter sendable
                               (firstn (first_at_or_after i_maxdate rest) rest)))).
    { intros out'.
      rewrite (IH (pre ++ [c]) (set_subtitle sys (i_subtitle sys + 1)) out' fuel).
      - f_equal. destruct sys; unfold set_subtitle; simpl. f_equal. lia.
      - simpl. rewrite Hs, <- app_assoc. reflexivity.
      - simpl. rewrite Hi, length_app. simpl. lia.
      - simpl. rewrite Hn, <- app_assoc. reflexivity.
      - exact Hr'.
      - simpl in Hf. lia. }
    destruct Hc as (Hlen & (Hst0 & Hst) & Hsp).
    assert (Hi32 : int32 (strlen (psz_text c) + 1) = strlen (psz_text c) + 1).
    { apply int32_small. unfold INT_MAX in *. unfold strlen in *. lia. }
    rewrite Hi32. cbn [firstn filter].
    assert (Hsend : sendable c
                    = negb (String.eqb (psz_text c) EmptyString)
                      && (0 <? i_start c)) by reflexivity.
    rewrite Hsend. clear Hsend.
    destruct (psz_text c) as [|a r] eqn:Et.
    + cbn [String.eqb negb andb]. change (strlen EmptyString + 1 <=? 1) with true.
      cbv iota. apply Hnext.
    + replace (strlen (String a r) + 1 <=? 1) with false
        by (symmetry; apply Z.leb_gt; unfold strlen; simpl; lia).
      cbn [String.eqb negb andb i_pts].
      destruct (i_start c <? 0) eqn:Eneg.
      * replace (0 <? i_start c) with false
          by (symmetry; apply Z.ltb_ge; apply Z.ltb_lt in Eneg; lia).
        apply Hnext.
      * rewrite Z.gtb_ltb. destruct (0 <? i_start c) eqn:Epos; [|apply Hnext].
        rewrite Hnext. cbn [map]. rewrite <- app_assoc. simpl app.
        do 3 f_equal. unfold block_of. rewrite Et. f_equal.
        -- rewrite Z.gtb_ltb. destruct (0 <? i_stop c) eqn:Es; [|reflexivity].
           apply Z.ltb_lt in Es, Epos. apply int64_small.
           unfold INT64_MIN, INT64_MAX in *. lia.
        -- apply str_take_whole. rewrite strcat_length. simpl.
           unfold strlen. simpl. lia.
Qed.

Lemma remaining_length (sys : demux_sys_t) :
  cues_wf sys -> 0 <= i_subtitle sys ->
  Z.of_nat (List.length (remaining sys))
  = Z.max 0 (i_subtitles sys - i_subtitle sys).
Proof.
  unfold cues_wf, remaining. intros Hwf Hi. rewrite length_skipn. lia.
Qed.

Lemma remaining_split (sys : demux_sys_t) :
  cues_wf sys -> 0 <= i_subtitle sys <= i_subtitles sys ->
  subtitle sys = firstn (Z.to_nat (i_subtitle sys)) (subtitle sys) ++ remaining sys
  /\ i_subtitle sys
     = Z.of_nat (List.length (firstn (Z.to_nat (i_subtitle sys)) (subtitle sys))).
Proof.
  unfold cues_wf, remaining. intros Hwf Hi. split.
  - symmetry. apply firstn_skipn.
  - rewrite length_firstn. lia.
Qed.

Lemma Forall_skipn_keeps {A : Type} (P : A -> Prop) (n : nat) (l : list A) :
  Forall P l -> Forall P (skipn n l).
Proof.
  revert l. induction n as [|n IH]; intros [|a l] H; simpl; auto.
  inversion H; auto.
Qed.

Lemma remaining_head (sys : demux_sys_t) :
  cues_wf sys -> 0 <= i_subtitle sys < i_subtitles sys ->
  exists tail, remaining sys = cue_at sys (i_subtitle sys) :: tail.
Proof.
  intros Hwf Hi. destruct (remaining_split sys Hwf) as (Hs & Hl); [lia|].
  pose proof (remaining_length sys Hwf) as Hlen.
  destruct (remaining sys) as [|c tail] eqn:E; [simpl in Hlen; lia|].
  exists tail. f_equal. unfold cue_at. rewrite Hs.
  rewrite app_nth2 by (rewrite length_firstn; unfold cues_wf in Hwf; lia).
  replace (_ - _)%nat with O; [reflexivity|].
  rewrite length_firstn. unfold cues_wf in Hwf. lia.
Qed.

Lemma Demux_sends_core (sys : demux_sys_t) (spu_delay : Z) :
  cues_wf sys ->
  0 <= i_subtitle sys ->
  Forall cue_in_range (subtitle sys) ->
  INT64_MIN <= i_next_demux_date sys - spu_delay <= INT64_MAX ->
  let date := i_next_demux_date sys - spu_delay in
  let i_maxdate :=
    if date <=? 0 then start_at sys (i_subtitle sys) + 1 else date in
  let k := first_at_or_after i_maxdate (remaining sys) in
  (i_subtitles sys <= i_subtitle sys -> Demux sys spu_delay = (0, sys, []))
  /\ (i_subtitle sys < i_subtitles sys ->
      Demux sys spu_delay
      = (1, set_next_demux_date (set_subtitle sys (i_subtitle sys + Z.of_nat k)) 0,
         map block_of (filter sendable (firstn k (remaining sys))))).
Proof.
  intros Hwf Hi Hr Hd date i_maxdate k. split.
  - intros Hend. unfold Demux.
    replace (i_subtitle sys >=? i_subtitles sys) with true; [reflexivity|].
    symmetry. rewrite Z.geb_leb. apply Z.leb_le. exact Hend.
  - intros Hlt. unfold Demux.
    replace (i_subtitle sys >=? i_subtitles sys) with false
      by (symmetry; rewrite Z.geb_leb; apply Z.leb_gt; exact Hlt).
    rewrite (int64_small (i_next_demux_date sys - spu_delay)) by exact Hd.
    replace (i_subtitle sys <? i_subtitles sys) with true
      by (symmetry; apply Z.ltb_lt; exact Hlt).
    rewrite andb_true_r. fold date.
    destruct (remaining_head sys Hwf) as (tail & Htail); [lia|].
    assert (Hcur : start_can_step (cue_at sys (i_subtitle sys))).
    { assert (Hrem : Forall cue_in_range (remaining sys))
        by (apply Forall_skipn_keeps; exact Hr).
      rewrite Htail in Hrem. inversion Hrem as [|? ? Hc _]. apply Hc. }
    assert (Hmax : (if date <=? 0
                    then int64 (start_at sys (i_subtitle sys) + 1)
                    else date) = i_maxdate).
    { unfold i_maxdate. destruct (date <=? 0); [|reflexivity].
      apply int64_small. unfold start_can_step in Hcur.
      unfold start_at. fold (cue_at sys (i_subtitle sys)). lia. }
    rewrite Hmax.
    destruct (remaining_split sys Hwf) as (Hs & Hl); [lia|].
    rewrite (Demux_loop_spec i_maxdate (remaining sys) _ sys [] _ Hs Hl).
    + reflexivity.
    + rewrite <- Hs. exact Hwf.
    + apply Forall_skipn_keeps. exact Hr.
    + pose proof (remaining_length sys Hwf Hi). lia.
Qed.

(** X4.  [Demux] with the index at the end returns 0 and changes nothing.
    Otherwise it returns 1, resets [i_next_demux_date] to 0 and moves the
    index over the cues that start before the deadline, up to the first cue
    that does not; the deadline is [i_next_demux_date - spu-delay], or the
    start of the current cue plus one when that difference is not positive.
    The blocks sent are those of the cues passed that have a text and a
    positive start, in the order of the cues: both time stamps are the
    start, the length is stop minus start for a positive stop and 0
    otherwise, the buffer is the text with its NUL.  No block has an empty
    text or a time stamp that is not positive. *)
Theorem Demux_sends_due_cues (sys : demux_sys_t) (spu_delay : Z) :
  cues_wf sys ->
  0 <= i_subtitle sys ->
  Forall cue_in_range (subtitle sys) ->
  INT64_MIN <= i_next_demux_date sys - spu_delay <= INT64_MAX ->
  let date := i_next_demux_date sys - spu_delay in
  let i_maxdate :=
    if date <=? 0 then start_at sys (i_subtitle sys) + 1 else date in
  let k := first_at_or_after i_maxdate (remaining sys) in
  (i_subtitles sys <= i_subtitle sys -> Demux sys spu_delay = (0, sys, []))
  /\ (i_subtitle sys < i_subtitles sys ->
      Demux sys spu_delay
      = (1, set_next_demux_date (set_subtitle sys (i_subtitle sys + Z.of_nat k)) 0,
         map block_of (filter sendable (firstn k (remaining sys)))))
  /\ Forall (fun b => 0 < i_pts b /\ 1 < strlen (p_buffer b))
            (snd (Demux sys spu_delay)).
Proof.
  intros Hwf Hi Hr Hd date i_maxdate k.
  destruct (Demux_sends_core sys spu_delay Hwf Hi Hr Hd) as (H0 & H1).
  fold date i_maxdate k in H1.
  split; [exact H0|]. split; [exact H1|].
  destruct (Z_lt_dec (i_subtitle sys) (i_subtitles sys)) as [Hlt|Hge].
  - rewrite (H1 Hlt). simpl snd.
    apply Forall_forall. intros b Hb. apply in_map_iff in Hb.
    destruct Hb as (c & <- & Hc). apply filter_In in Hc.
    destruct Hc as (_ & Hc). unfold sendable in Hc.
    apply andb_true_iff in Hc. destruct Hc as (Ht & Hp).
    apply Z.ltb_lt in Hp. split; [exact Hp|]. simpl.
    unfold strlen. rewrite strcat_length.
    destruct (psz_text c); [discriminate|]. simpl. lia.
  - rewrite H0 by lia. constructor.
Qed.

Lemma Demux_sends_due_cues_witness :
  Demux three_cues 0
  = (1, set_next_demux_date (set_subtitle three_cues 1) 0,
     [mk_block 1000000 1000000 1000000 (String "a" (String NUL EmptyString))]).
Proof.
  assert (Hr : Forall cue_in_range (subtitle three_cues)).
  { repeat constructor; vm_compute; congruence. }
  destruct (Demux_sends_due_cues three_cues 0 eq_refl ltac:(simpl; lia) Hr
              ltac:(vm_compute; split; congruence)) as (_ & H & _).
  rewrite H by (simpl; lia). reflexivity.
Defined.

(** Frame of the loop, on any state. *)
Lemma Demux_loop_frame (fuel : nat) :
  forall sys i_maxdate out,
    let sys' := fst (Demux_loop fuel sys i_maxdate out) in
    subtitle sys' = subtitle sys
    /\ i_subtitles sys' = i_subtitles sys
    /\ i_length sys' = i_length sys
    /\ i_subtitle sys <= i_subtitle sys'
    /\ (i_subtitle sys <= i_subtitles sys -> i_subtitle sys' <= i_subtitles sys).
Proof.
  induction fuel as [|k IH]; intros sys i_maxdate out; cbn [Demux_loop];
    [simpl; repeat split; lia|].
  destruct (i_subtitle sys <? i_subtitles sys) eqn:El;
    [|simpl; repeat split; lia].
  destruct (start_at sys (i_subtitle sys) <? i_maxdate);
    [|simpl; repeat split; lia].
  apply Z.ltb_lt in El. cbn [andb].
  assert (Hstep : forall out',
             let sys' := fst (Demux_loop k (set_subtitle sys (i_subtitle sys + 1))
                                         i_maxdate out') in
             subtitle sys' = subtitle sys
             /\ i_subtitles sys' = i_subtitles sys
             /\ i_length sys' = i_length sys
             /\ i_subtitle sys <= i_subtitle sys'
             /\ (i_subtitle sys <= i_subtitles sys ->
                 i_subtitle sys' <= i_subtitles sys)).
  { intros out'.
    destruct (IH (set_subtitle sys (i_subtitle sys + 1)) i_maxdate out')
      as (H1 & H2 & H3 & H4 & H5).
    simpl in *. repeat split; try assumption; try lia. }
  repeat case_if; apply Hstep.
Qed.

Lemma seek_keeps_session (sys : demux_sys_t) (q : Z) :
  session_inv sys ->
  let sys' := snd (seek sys q) in
  session_inv sys' /\ subtitle sys' = subtitle sys
  /\ i_length sys' = i_length sys.
Proof.
  intros (Hwf & Hi). destruct (seek_index sys q Hwf) as (H1 & H2 & H3 & _).
  pose proof (first_at_or_after_le q (subtitle sys)) as Hle.
  unfold session_inv, cues_wf in *. cbv zeta.
  rewrite H1, H2, H3. repeat split; try lia.
  unfold seek.
  destruct (seek_loop_frame (Z.to_nat (i_subtitles sys)) (set_subtitle sys 0) q)
    as (_ & _ & Hl).
  case_if; simpl; exact Hl.
Qed.

Lemma demux_step_keeps_session (sys : demux_sys_t) (op : demux_op) :
  session_inv sys ->
  session_inv (demux_step sys op)
  /\ subtitle (demux_step sys op) = subtitle sys
  /\ i_length (demux_step sys op) = i_length sys.
Proof.
  intros Hinv. destruct op as [q|spu_delay]; cbn [demux_step].
  - destruct q; cbn [Control];
      try (repeat case_if; simpl; repeat split; solve [apply Hinv | reflexivity]).
    + pose proof (seek_keeps_session sys i64 Hinv) as H.
      destruct (seek sys i64). exact H.
    + pose proof (seek_keeps_session sys
                    (int64_of_float
                       (SFmul d_prec d_emax f (double_of_Z (i_length sys)))) Hinv)
        as H.
      destruct (seek sys _). exact H.
  - unfold Demux. case_if; [simpl; repeat split; solve [apply Hinv | reflexivity]|].
    match goal with
    | |- context [Demux_loop ?n ?s0 ?m ?o] =>
        pose proof (Demux_loop_frame n s0 m o) as H;
        destruct (Demux_loop n s0 m o) as [sys' out]
    end.
    destruct Hinv as (Hwf & Hi). simpl in H.
    destruct H as (H1 & H2 & H3 & H4 & H5).
    unfold session_inv, cues_wf in *. simpl. rewrite H1, H2, H3.
    repeat split; try lia. 
Qed.

(** X5.  Every sequence of [Control] queries and [Demux] calls keeps the
    index inside [0 .. i_subtitles] and the count equal to the length of
    the array, and leaves the cues and the length as they were. *)
Theorem index_stays_in_bounds (ops : list demux_op) :
  forall sys,
    session_inv sys ->
    let sys' := fold_left demux_step ops sys in
    session_inv sys' /\ subtitle sys' = subtitle sys
    /\ i_length sys' = i_length sys.
Proof.
  induction ops as [|op ops IH]; intros sys Hinv; simpl.
  - repeat split; apply Hinv.
  - destruct (demux_step_keeps_session sys op Hinv) as (H1 & H2 & H3).
    destruct (IH _ H1) as (H4 & H5 & H6). simpl in *.
    repeat split; try apply H4; congruence.
Qed.

Lemma index_stays_in_bounds_witness :
  session_inv
    (fold_left demux_step
       [Op_control (DEMUX_SET_TIME 3000000); Op_demux 0;
        Op_control DEMUX_GET_POSITION; Op_control (DEMUX_SET_TIME 9000000);
        Op_demux 0]
       three_cues).
Proof.
  assert (H : session_inv three_cues) by (split; [reflexivity | simpl; lia]).
  exact (proj1 (index_stays_in_bounds
                  [Op_control (DEMUX_SET_TIME 3000000); Op_demux 0;
                   Op_control DEMUX_GET_POSITION;
                   Op_control (DEMUX_SET_TIME 9000000); Op_demux 0]
                  three_cues H)).
Defined.

Lemma first_at_or_after_later (d1 d2 : Z) (cues : list subtitle_t) :
  d1 <= d2 ->
  first_at_or_after d2 cues
  = (first_at_or_after d1 cues
     + first_at_or_after d2 (skipn (first_at_or_after d1 cues) cues))%nat.
Proof.
  intros Hd. induction cues as [|c rest IH]; [reflexivity|].
  cbn [first_at_or_after]. destruct (i_start c <? d1) eqn:E1.
  - replace (i_start c <? d2) with true
      by (symmetry; apply Z.ltb_lt; apply Z.ltb_lt in E1; lia).
    cbn [skipn Nat.add]. f_equal. exact IH.
  - reflexivity.
Qed.

Lemma firstn_plus {A : Type} (a b : nat) (l : list A) :
  firstn (a + b) l = firstn a l ++ firstn b (skipn a l).
Proof.
  revert l. induction a as [|a IH]; intros [|x l]; simpl;
    try reflexivity.
  - rewrite firstn_nil. reflexivity.
  - f_equal. apply IH.
Qed.

(** [deliver] in closed form, for a positive date. *)
Lemma deliver_spec (sys : demux_sys_t) (date spu_delay : Z) :
  cues_wf sys -> 0 <= i_subtitle sys ->
  Forall cue_in_range (subtitle sys) ->
  0 < date - spu_delay <= INT64_MAX ->
  let k := first_at_or_after (date - spu_delay) (remaining sys) in
  let sys' := fst (deliver sys date spu_delay) in
  snd (deliver sys date spu_delay)
  = map block_of (filter sendable (firstn k (remaining sys)))
  /\ i_subtitle sys' = i_subtitle sys + Z.of_nat k
  /\ subtitle sys' = subtitle sys
  /\ i_subtitles sys' = i_subtitles sys.
Proof.
  intros Hwf Hi Hr Hd k sys'. subst sys'. unfold deliver. cbn [Control fst snd].
  set (sys1 := set_next_demux_date sys date).
  assert (Hd1 : INT64_MIN <= i_next_demux_date sys1 - spu_delay <= INT64_MAX)
    by (simpl; unfold INT64_MIN, INT64_MAX in *; lia).
  destruct (Demux_sends_core sys1 spu_delay Hwf Hi Hr Hd1) as (H0 & H1).
  simpl i_next_demux_date in H0, H1.
  replace (date - spu_delay <=? 0) with false in H1
    by (symmetry; apply Z.leb_gt; lia).
  change (remaining sys1) with (remaining sys) in H1. fold k in H1.
  destruct (Z_lt_dec (i_subtitle sys) (i_subtitles sys)) as [Hlt|Hge].
  - rewrite (H1 Hlt). simpl. auto.
  - rewrite H0 by (simpl; lia). simpl.
    assert (Hrem : remaining sys = []).
    { pose proof (remaining_length sys Hwf Hi) as Hl.
      destruct (remaining sys); [reflexivity | simpl in Hl; lia]. }
    subst k. rewrite Hrem. simpl. repeat split; lia.
Qed.

(** X6.  Delivering up to a date and then up to a later date sends the
    blocks that delivering up to the later date at once sends, in the same
    order, and ends at the same index; the cues are left as they were. *)
Theorem Demux_in_two_steps (sys : demux_sys_t) (d1 d2 spu_delay : Z) :
  cues_wf sys -> 0 <= i_subtitle sys ->
  Forall cue_in_range (subtitle sys) ->
  0 < d1 - spu_delay -> d1 <= d2 -> d2 - spu_delay <= INT64_MAX ->
  let first := deliver sys d1 spu_delay in
  let second := deliver (fst first) d2 spu_delay in
  let whole := deliver sys d2 spu_delay in
  snd whole = snd first ++ snd second
  /\ i_subtitle (fst whole) = i_subtitle (fst second)
  /\ subtitle (fst second) = subtitle sys.
Proof.
  intros Hwf Hi Hr H1 H12 H2 first second whole.
  destruct (deliver_spec sys d1 spu_delay Hwf Hi Hr) as (Ho1 & Hi1 & Hs1 & Hn1);
    [lia|].
  fold first in Ho1, Hi1, Hs1, Hn1.
  assert (Hrem : remaining (fst first)
                 = skipn (first_at_or_after (d1 - spu_delay) (remaining sys))
                         (remaining sys)).
  { set (k1 := first_at_or_after (d1 - spu_delay) (remaining sys)) in *.
    unfold remaining. rewrite Hs1, Hi1, skipn_skipn.
    replace (Z.to_nat (i_subtitle sys + Z.of_nat k1))
      with (k1 + Z.to_nat (i_subtitle sys))%nat by lia.
    reflexivity. }
  destruct (deliver_spec (fst first) d2 spu_delay) as (Ho2 & Hi2 & Hs2 & Hn2).
  { unfold cues_wf in *. rewrite Hn1, Hs1. exact Hwf. }
  { lia. }
  { rewrite Hs1. exact Hr. }
  { lia. }
  fold second in Ho2, Hi2, Hs2, Hn2.
  destruct (deliver_spec sys d2 spu_delay Hwf Hi Hr) as (Ho & Hi' & Hs & Hn);
    [lia|].
  fold whole in Ho, Hi', Hs, Hn.
  rewrite Ho, Ho1, Ho2, Hi', Hi2, Hi1, Hs2, Hs1, Hrem.
  rewrite (first_at_or_after_later (d1 - spu_delay) (d2 - spu_delay)) by lia.
  rewrite firstn_plus, filter_app, map_app.
  repeat split; try reflexivity. lia.
Qed.

Lemma Demux_in_two_steps_witness :
  snd (deliver three_cues 4000000 0)
  = snd (deliver three_cues 2000000 0)
    ++ snd (deliver (fst (deliver three_cues 2000000 0)) 4000000 0).
Proof.
  assert (Hr : Forall cue_in_range (subtitle three_cues))
    by (repeat constructor; vm_compute; congruence).
  exact (proj1 (Demux_in_two_steps three_cues 2000000 4000000 0 eq_refl
                  ltac:(simpl; lia) Hr ltac:(lia) ltac:(lia)
                  ltac:(unfold INT64_MAX; lia))).
Defined.

(** X7.  After DEMUX_SET_TIME with the time [q], on any array of cues,
    sorted or not: when it returns VLC_SUCCESS, DEMUX_GET_TIME succeeds and
    answers the start of the cue at the new index, which is at or after
    [q]; when it returns VLC_EGENERIC, every cue starts before [q],
    DEMUX_GET_TIME fails, DEMUX_GET_POSITION answers 1.0 and [Demux] returns
    0 and sends nothing.  It returns no other code. *)
Theorem seek_then_time (sys : demux_sys_t) (q spu_delay : Z) :
  cues_wf sys ->
  let r := Control sys (DEMUX_SET_TIME q) in
  let sys' := snd (fst r) in
  (fst (fst r) = VLC_SUCCESS ->
   exists t, Control sys' DEMUX_GET_TIME = (VLC_SUCCESS, sys', Int64_answer t)
             /\ q <= t
             /\ t = i_start (cue_at sys (i_subtitle sys')))
  /\ (fst (fst r) = VLC_EGENERIC ->
      Control sys' DEMUX_GET_TIME = (VLC_EGENERIC, sys', No_answer)
      /\ Control sys' DEMUX_GET_POSITION
         = (VLC_SUCCESS, sys', Double_answer (double_of_Z 1))
      /\ Demux sys' spu_delay = (0, sys', [])
      /\ Forall (fun c => i_start c < q) (subtitle sys))
  /\ (fst (fst r) = VLC_SUCCESS \/ fst (fst r) = VLC_EGENERIC).
Proof.
  intros Hwf r sys'. subst r sys'. rewrite Control_set_time. cbn [fst snd].
  destruct (seek_index sys q Hwf) as (Hi & Hn & Hs & Hfail & Hok).
  pose proof (first_at_or_after_spec q (subtitle sys)) as (Hbefore & Hat).
  unfold cues_wf in Hwf.
  split; [|split].
  - intros Hc. apply Hok in Hc. eexists. cbn [Control].
    replace (i_subtitle (snd (seek sys q)) <? i_subtitles (snd (seek sys q)))
      with true by (symmetry; apply Z.ltb_lt; lia).
    split; [reflexivity|]. unfold start_at, cue_at. rewrite Hs, Hi, Nat2Z.id.
    split; [apply Hat; exact Hc | reflexivity].
  - intros Hc. apply Hfail in Hc. cbn [Control]. unfold Demux.
    replace (i_subtitle (snd (seek sys q)) <? i_subtitles (snd (seek sys q)))
      with false by (symmetry; apply Z.ltb_ge; lia).
    replace (i_subtitle (snd (seek sys q)) >=? i_subtitles (snd (seek sys q)))
      with true by (symmetry; rewrite Z.geb_leb; apply Z.leb_le; lia).
    repeat split. apply Forall_forall. intros c Hin.
    destruct (In_nth _ _ (mk_subtitle 0 0 EmptyString) Hin) as (j & Hj & <-).
    apply Hbefore. lia.
  - destruct (fst (seek sys q)) eqn:E; auto.
    exfalso. revert E. unfold seek. case_if; discriminate.
Qed.

Lemma seek_then_time_witness :
  exists t,
    Control (set_subtitle three_cues 1) DEMUX_GET_TIME
    = (VLC_SUCCESS, set_subtitle three_cues 1, Int64_answer t)
    /\ 2000000 <= t.
Proof.
  destruct (seek_then_time three_cues 2000000 0 eq_refl) as (H & _).
  destruct (H eq_refl) as (t & E & Hq & _).
  exists t. split; [exact E | exact Hq].
Defined.

(* ================================================================== *)
(** * The readers and the cursor *)

Lemma TextGetLine_step (t : text_t) :
  match TextGetLine t with
  | (Some l, t') => line t' = line t /\ i_line_count t' = i_line_count t
                    /\ i_line t' = i_line t + 1 /\ i_line t < i_line_count t
                    /\ lines_left t = S (lines_left t')
  | (None, t') => t' = t /\ i_line_count t <= i_line t
  end.
Proof.
  pose proof (TextGetLine_cases t) as H. unfold TextGetLine in *.
  destruct (i_line t >=? i_line_count t) eqn:E.
  - rewrite Z.geb_leb in E. apply Z.leb_le in E. auto.
  - rewrite Z.geb_leb in E. apply Z.leb_gt in E. simpl.
    repeat split; solve [lia | apply H].
Qed.

Lemma outcome_weaken (t t' : text_t) (c : vlc_code) :
  outcome t t' c -> later_outcome t t' c.
Proof.
  unfold outcome, later_outcome. destruct c; intuition lia.
Qed.

Lemma outcome_after_line (t t1 t' : text_t) (c : vlc_code) :
  line t1 = line t -> i_line_count t1 = i_line_count t ->
  i_line t1 = i_line t + 1 -> i_line t < i_line_count t ->
  later_outcome t1 t' c -> outcome t t' c.
Proof.
  unfold outcome, later_outcome. intros H1 H2 H3 H4 (H5 & H6 & H7 & H8).
  rewrite H1 in H5. rewrite H2 in H6, H8.
  destruct c; intuition lia.
Qed.

Lemma outcome_at_end (t : text_t) :
  i_line_count t <= i_line t -> outcome t t VLC_EGENERIC.
Proof. unfold outcome. intuition lia. Qed.

Lemma outcome_line_read (t t1 : text_t) :
  line t1 = line t -> i_line_count t1 = i_line_count t ->
  i_line t1 = i_line t + 1 -> i_line t < i_line_count t ->
  outcome t t1 VLC_SUCCESS.
Proof. unfold outcome. intuition lia. Qed.

(** Reading the next line in a loop whose result is [Ret]. *)
Ltac read_line t :=
  let H := fresh "Hget" in
  pose proof (TextGetLine_step t) as H;
  destruct (TextGetLine t) as [[l|] t1];
  [ destruct H as (Hl1 & Hl2 & Hl3 & Hl4 & Hl5)
  | destruct H as (-> & Hend) ].

Lemma ParseVplayer_loop_moves (fuel : nat) :
  forall t sub c t' sub',
    ParseVplayer_loop fuel t sub = Ret c t' sub' -> outcome t t' c.
Proof.
  induction fuel as [|k IH]; intros t sub c t' sub' H; [discriminate|].
  cbn [ParseVplayer_loop] in H. read_line t.
  - destruct (scan_vplayer l) as [[start text]|].
    + injection H as <- <- <-. apply outcome_line_read; assumption.
    + apply IH in H. apply outcome_weaken in H.
      exact (outcome_after_line t t1 t' c Hl1 Hl2 Hl3 Hl4 H).
  - injection H as <- <- <-. apply outcome_at_end. exact Hend.
Qed.

Lemma outcome_then (t t1 t' : text_t) (c : vlc_code) :
  outcome t t1 VLC_SUCCESS -> later_outcome t1 t' c -> outcome t t' c.
Proof.
  unfold outcome, later_outcome.
  intros (H1 & H2 & H3 & H4) (H5 & H6 & H7 & H8).
  rewrite H1 in H5. rewrite H2 in H6, H8. destruct c; intuition lia.
Qed.

Lemma SubRip_timing_moves (psz_fmt : string) (fuel : nat) :
  forall t r t', SubRip_timing fuel psz_fmt t = Some (r, t') ->
                 outcome t t' (code_of r).
Proof.
  induction fuel as [|k IH]; intros t r t' H; [discriminate|].
  cbn [SubRip_timing] in H. read_line t.
  - destruct (scan_timing psz_fmt l) as [times|].
    + injection H as <- <-. apply outcome_line_read; assumption.
    + apply IH in H. apply outcome_weaken in H.
      exact (outcome_after_line t t1 t' _ Hl1 Hl2 Hl3 Hl4 H).
  - injection H as <- <-. apply outcome_at_end. exact Hend.
Qed.

Lemma SubRip_body_moves (b : bool) (fuel : nat) :
  forall t text r t', SubRip_body fuel b t text = Some (r, t') ->
                      outcome t t' (code_of r).
Proof.
  induction fuel as [|k IH]; intros t text r t' H; [discriminate|].
  cbn [SubRip_body] in H. read_line t.
  - destruct (strlen l <=? 0).
    + injection H as <- <-. apply outcome_line_read; assumption.
    + apply IH in H. apply outcome_weaken in H.
      exact (outcome_after_line t t1 t' _ Hl1 Hl2 Hl3 Hl4 H).
  - injection H as <- <-. apply outcome_at_end. exact Hend.
Qed.

Lemma ParseSubRipSubViewer_moves (t : text_t) (sub : subtitle_t)
  (psz_fmt : string) (b : bool) (c : vlc_code) (t' : text_t) (sub' : subtitle_t) :
  ParseSubRipSubViewer t sub psz_fmt b = Ret c t' sub' -> outcome t t' c.
Proof.
  unfold ParseSubRipSubViewer. intros H.
  destruct (SubRip_timing (lines_left t) psz_fmt t) as [[[[a b0]|] t1]|] eqn:E1;
    try discriminate; apply SubRip_timing_moves in E1.
  - destruct (SubRip_body (lines_left t1) b t1 EmptyString)
      as [[[text|] t2]|] eqn:E2; try discriminate;
      apply SubRip_body_moves in E2; injection H as <- <- <-;
      exact (outcome_then _ _ _ _ E1 (outcome_weaken _ _ _ E2)).
  - injection H as <- <- <-. exact E1.
Qed.

Lemma DVDSubtitle_timing_moves (fuel : nat) :
  forall t r t', DVDSubtitle_timing fuel t = Some (r, t') ->
                 outcome t t' (code_of r).
Proof.
  induction fuel as [|k IH]; intros t r t' H; [discriminate|].
  cbn [DVDSubtitle_timing] in H. read_line t.
  - destruct (scan_dvdsubtitle l) as [start|].
    + injection H as <- <-. apply outcome_line_read; assumption.
    + apply IH in H. apply outcome_weaken in H.
      exact (outcome_after_line t t1 t' _ Hl1 Hl2 Hl3 Hl4 H).
  - injection H as <- <-. apply outcome_at_end. exact Hend.
Qed.

Lemma DVDSubtitle_body_moves (fuel : nat) :
  forall t text r t', DVDSubtitle_body fuel t text = Some (r, t') ->
                      outcome t t' (code_of r).
Proof.
  induction fuel as [|k IH]; intros t text r t' H; [discriminate|].
  cbn [DVDSubtitle_body] in H. read_line t.
  - destruct (String.eqb l "}").
    + injection H as <- <-. apply outcome_line_read; assumption.
    + apply IH in H. apply outcome_weaken in H.
      exact (outcome_after_line t t1 t' _ Hl1 Hl2 Hl3 Hl4 H).
  - injection H as <- <-. apply outcome_at_end. exact Hend.
Qed.

Lemma ParseDVDSubtitle_txt_moves (t : text_t) (sub : subtitle_t)
  (c : vlc_code) (t' : text_t) (sub' : subtitle_t) :
  ParseDVDSubtitle_txt t sub = Ret c t' sub' -> outcome t t' c.
Proof.
  unfold ParseDVDSubtitle_txt. intros H.
  destruct (DVDSubtitle_timing (lines_left t) t) as [[[start|] t1]|] eqn:E1;
    try discriminate; apply DVDSubtitle_timing_moves in E1.
  - destruct (DVDSubtitle_body (lines_left t1) t1 EmptyString)
      as [[[text|] t2]|] eqn:E2; try discriminate;
      apply DVDSubtitle_body_moves in E2; injection H as <- <- <-;
      exact (outcome_then _ _ _ _ E1 (outcome_weaken _ _ _ E2)).
  - injection H as <- <- <-. exact E1.
Qed.

Lemma ParseMPL2_loop_moves (fuel : nat) :
  forall t sub c t' sub',
    ParseMPL2_loop fuel t sub = Ret c t' sub' -> outcome t t' c.
Proof.
  induction fuel as [|k IH]; intros t sub c t' sub' H; [discriminate|].
  cbn [ParseMPL2_loop] in H. read_line t.
  - destruct (scan_mpl2 l) as [[[start stop] text]|].
    + injection H as <- <- <-. apply outcome_line_read; assumption.
    + apply IH in H. apply outcome_weaken in H.
      exact (outcome_after_line t t1 t' c Hl1 Hl2 Hl3 Hl4 H).
  - injection H as <- <- <-. apply outcome_at_end. exact Hend.
Qed.

Lemma ParsePJS_loop_moves (fuel : nat) :
  forall t sub c t' sub',
    ParsePJS_loop fuel t sub = Ret c t' sub' -> outcome t t' c.
Proof.
  induction fuel as [|k IH]; intros t sub c t' sub' H; [discriminate|].
  cbn [ParsePJS_loop] in H. read_line t.
  - destruct (scan_pjs l) as [[[a b] text]|].
    + injection H as <- <- <-. apply outcome_line_read; assumption.
    + apply IH in H. apply outcome_weaken in H.
      exact (outcome_after_line t t1 t' c Hl1 Hl2 Hl3 Hl4 H).
  - injection H as <- <- <-. apply outcome_at_end. exact Hend.
Qed.

(** ParseAQT steps back one line at the marker that ends a cue: by then
    the marker that began it has been read. *)
Lemma ParseAQT_loop_moves (fuel : nat) :
  forall t sub text first c t' sub',
    ParseAQT_loop fuel t sub text first = Ret c t' sub' ->
    if first then outcome t t' c else later_outcome t t' c.
Proof.
  induction fuel as [|k IH]; intros t sub text first c t' sub' H;
    [discriminate|].
  cbn [ParseAQT_loop] in H. read_line t.
  - destruct (scan_aqt l) as [v|].
    + destruct first.
      * apply IH in H. cbv iota in H.
        exact (outcome_after_line t t1 t' c Hl1 Hl2 Hl3 Hl4 H).
      * injection H as <- <- <-. unfold later_outcome. simpl.
        repeat split; try assumption; lia.
    + destruct (i_line t1 =? i_line_count t1).
      * injection H as <- <- <-.
        pose proof (outcome_line_read t t1 Hl1 Hl2 Hl3 Hl4) as Ho.
        destruct first; [exact Ho | exact (outcome_weaken _ _ _ Ho)].
      * apply IH in H.
        assert (Hw : later_outcome t1 t' c)
          by (destruct first; [exact (outcome_weaken _ _ _ H) | exact H]).
        pose proof (outcome_after_line t t1 t' c Hl1 Hl2 Hl3 Hl4 Hw) as Ho.
        destruct first; [exact Ho | exact (outcome_weaken _ _ _ Ho)].
  - injection H as <- <- <-.
    pose proof (outcome_at_end t Hend) as Ho.
    destruct first; [exact Ho | exact (outcome_weaken _ _ _ Ho)].
Qed.

Lemma ParseSSA_loop_moves (fuel : nat) :
  forall sys sub idx c sys' sub',
    ParseSSA_loop fuel sys sub idx = Ret c sys' sub' ->
    outcome (txt sys) (txt sys') c.
Proof.
  induction fuel as [|k IH]; intros sys sub idx c sys' sub' H; [discriminate|].
  cbn [ParseSSA_loop] in H. read_line (txt sys).
  - destruct (scan_dialogue l) as [[[[temp start] stop] text]|].
    + injection H as <- <- <-. apply outcome_line_read; assumption.
    + apply IH in H. apply outcome_weaken in H. simpl in H.
      exact (outcome_after_line _ t1 _ c Hl1 Hl2 Hl3 Hl4 H).
  - injection H as <- <- <-. simpl. apply outcome_at_end. exact Hend.
Qed.

Lemma ParseMicroDvd_loop_moves (fuel : nat) :
  forall d,
    match ParseMicroDvd_loop fuel d with
    | inl (Ret c d' _) => outcome (txt (p_sys d)) (txt (p_sys d')) c
    | inl _ => True
    | inr (d', _, _, _) => outcome (txt (p_sys d)) (txt (p_sys d')) VLC_SUCCESS
    end.
Proof.
  induction fuel as [|k IH]; intros d; [exact I|].
  cbn [ParseMicroDvd_loop]. read_line (txt (p_sys d)).
  - assert (Hrec : forall d1,
               txt (p_sys d1) = t1 ->
               match ParseMicroDvd_loop k d1 with
               | inl (Ret c d' _) => outcome (txt (p_sys d)) (txt (p_sys d')) c
               | inl _ => True
               | inr (d', _, _, _) =>
                   outcome (txt (p_sys d)) (txt (p_sys d')) VLC_SUCCESS
               end).
    { intros d1 E. specialize (IH d1). rewrite E in IH.
      destruct (ParseMicroDvd_loop k d1) as [[c d' sub'| |]|[[[d' a] b] text]];
        try exact I;
        exact (outcome_after_line _ t1 _ _ Hl1 Hl2 Hl3 Hl4
                 (outcome_weaken _ _ _ IH)). }
    destruct (scan_microdvd l) as [[[start stop] text]|];
      [|apply Hrec; reflexivity].
    destruct (negb (start =? 1) || negb (stop =? 1)).
    + simpl. apply outcome_line_read; assumption.
    + case_if; apply Hrec; reflexivity.
  - simpl. apply outcome_at_end. exact Hend.
Qed.

Lemma ParseMicroDvd_moves (d : demux_t) (sub : subtitle_t) (idx : Z)
  (c : vlc_code) (d' : demux_t) (sub' : subtitle_t) :
  ParseMicroDvd d sub idx = Ret c d' sub' ->
  outcome (txt (p_sys d)) (txt (p_sys d')) c.
Proof.
  unfold ParseMicroDvd. intros H.
  pose proof (ParseMicroDvd_loop_moves (lines_left (txt (p_sys d))) d) as Hm.
  destruct (ParseMicroDvd_loop (lines_left (txt (p_sys d))) d)
    as [[c0 d0 sub0| |]|[[[d0 a] b] text]]; try discriminate;
    injection H as <- <- <-; exact Hm.
Qed.

Lemma MPSub_head_moves (fuel : nat) :
  forall g d sub,
    match MPSub_head fuel g d sub with
    | inl (Ret c (_, d') _) => outcome (txt (p_sys d)) (txt (p_sys d')) c
    | inl _ => True
    | inr (_, d', _) => outcome (txt (p_sys d)) (txt (p_sys d')) VLC_SUCCESS
    end.
Proof.
  induction fuel as [|k IH]; intros g d sub; [exact I|].
  cbn [MPSub_head]. read_line (txt (p_sys d)).
  - destruct (mpsub_format_time l);
      [simpl; apply outcome_line_read; assumption|].
    destruct (mpsub_format l); try exact I.
    + destruct (mpsub_data l) as [[f1 f2]|];
        [simpl; apply outcome_line_read; assumption|].
      specialize (IH g (set_sys d (set_txt (p_sys d) t1)) sub).
      simpl txt in IH.
      destruct (MPSub_head k g _ sub) as [[c [g' d'] sub'| |]|[[g' d'] sub']];
        try exact I;
        exact (outcome_after_line _ t1 _ _ Hl1 Hl2 Hl3 Hl4
                 (outcome_weaken _ _ _ IH)).
    + case_if; simpl; apply outcome_line_read; assumption.
  - simpl. apply outcome_at_end. exact Hend.
Qed.

Lemma MPSub_body_moves (fuel : nat) :
  forall t text r t', MPSub_body fuel t text = Some (r, t') ->
                      outcome t t' (code_of r).
Proof.
  induction fuel as [|k IH]; intros t text r t' H; [discriminate|].
  cbn [MPSub_body] in H. read_line t.
  - destruct (strlen l =? 0).
    + injection H as <- <-. apply outcome_line_read; assumption.
    + apply IH in H. apply outcome_weaken in H.
      exact (outcome_after_line t t1 t' _ Hl1 Hl2 Hl3 Hl4 H).
  - injection H as <- <-. apply outcome_at_end. exact Hend.
Qed.

Lemma ParseMPSub_moves (g : statics) (d : demux_t) (sub : subtitle_t)
  (idx : Z) (c : vlc_code) (g' : statics) (d' : demux_t) (sub' : subtitle_t) :
  ParseMPSub g d sub idx = Ret c (g', d') sub' ->
  outcome (txt (p_sys d)) (txt (p_sys d')) c.
Proof.
  unfold ParseMPSub. intros H.
  pose proof (MPSub_head_moves (lines_left (txt (p_sys d))) g d sub) as Hm.
  destruct (MPSub_head (lines_left (txt (p_sys d))) g d sub)
    as [r|[[g1 d1] sub1]].
  - subst r. exact Hm.
  - destruct (MPSub_body (lines_left (txt (p_sys d1))) (txt (p_sys d1))
                         EmptyString) as [[[text|] t2]|] eqn:E2;
      try discriminate; apply MPSub_body_moves in E2;
      injection H as <- <- <- <-; simpl;
      exact (outcome_then _ _ _ _ Hm (outcome_weaken _ _ _ E2)).
Qed.

Lemma jss_strip_moves (n : nat) :
  forall p comment t out t0,
    (String.length p <= n)%nat ->
    later_outcome t0 t VLC_SUCCESS ->
    jss_moved t0 (jss_strip p comment t out).
Proof.
  induction n as [|n IH]; intros p comment t out t0 Hn Ht;
    (destruct p as [|c r]; [exact Ht|]); [simpl in Hn; lia|].
  simpl in Hn.
  assert (Hr : forall t1 comment1 out1,
             later_outcome t0 t1 VLC_SUCCESS ->
             jss_moved t0 (jss_strip r comment1 t1 out1))
    by (intros; apply IH; [lia | assumption]).
  assert (Hline : forall comment1 out1,
             jss_moved t0 match TextGetLine t with
                          | (Some _, t1) => jss_strip r comment1 t1 out1
                          | (None, t1) => Jss_input_end comment1 t1
                          end).
  { intros comment1 out1. read_line t.
    - apply Hr. unfold later_outcome in *. intuition (try congruence; lia).
    - unfold jss_moved, later_outcome in *. intuition lia. }
  cbn [jss_strip].
  destruct (Ascii.eqb c LF || Ascii.eqb c CR); [exact Ht|].
  destruct (Ascii.eqb c "{"); [apply Hr; exact Ht|].
  destruct (Ascii.eqb c "}").
  { destruct (negb (comment =? 0)); [|apply Hr; exact Ht].
    destruct r as [|a r2]; [apply Hr; exact Ht|].
    destruct (Ascii.eqb a " ") eqn:Ea.
    - apply Ascii.eqb_eq in Ea. subst a. apply IH; [simpl in Hn; lia | exact Ht].
    - assert (E : match String a r2 with
                  | String " " r3 => jss_strip r3 0 t out
                  | _ => jss_strip (String a r2) 0 t out
                  end = jss_strip (String a r2) 0 t out).
      { destruct a as [[] [] [] [] [] [] [] []]; try reflexivity.
        discriminate Ea. }
      rewrite E. apply Hr. exact Ht. }
  destruct (Ascii.eqb c "~"); [apply Hr; exact Ht|].
  destruct (Ascii.eqb c " " || Ascii.eqb c TAB);
    [case_if; apply Hr; exact Ht|].
  destruct (Ascii.eqb c "\"); [|apply Hr; exact Ht].
  destruct r as [|a r2]; [apply Hline|].
  destruct (Ascii.eqb a "n"); [apply IH; [simpl in Hn; lia | exact Ht]|].
  destruct (Ascii.eqb (toupper a) "C" || Ascii.eqb (toupper a) "F").
  { destruct r2 as [|b r3]; [exact I|].
    apply IH; [simpl in Hn; lia | exact Ht]. }
  destruct (existsb (Ascii.eqb a) ["B"; "b"; "I"; "i"; "U"; "u"; "D"; "N"]%char);
    [apply IH; [simpl in Hn; lia | exact Ht]|].
  destruct (existsb (Ascii.eqb a) ["~"; "{"; "\"]%char);
    [apply IH; [simpl in Hn; lia | exact Ht]|].
  destruct (Ascii.eqb a CR || Ascii.eqb a LF); [apply Hline|].
  apply Hr. exact Ht.
Qed.

Lemma ParseJSS_loop_moves (fuel : nat) :
  forall g t sub c g' t' sub',
    ParseJSS_loop fuel g t sub = Ret c (g', t') sub' -> outcome t t' c.
Proof.
  induction fuel as [|k IH]; intros g t sub c g' t' sub' H; [discriminate|].
  cbn [ParseJSS_loop] in H. read_line t.
  - destruct (scan_jss (jss_time_shift g) (jss_time_resolution g) l)
      as [[[[start|] [stop|]] text]|]; try discriminate.
    + destruct (if isalpha (nth_char (jss_skip_blanks text) 0)
                   || Ascii.eqb (nth_char (jss_skip_blanks text) 0) "["
                then jss_skip_word (jss_skip_blanks text)
                else Some (jss_skip_blanks text)) as [p3|]; [|discriminate].
      pose proof (jss_strip_moves (String.length (jss_skip_blanks p3))
                    (jss_skip_blanks p3) (i_comment g) t1 EmptyString t1
                    (le_n _)) as Hm.
      destruct (jss_strip (jss_skip_blanks p3) (i_comment g) t1 EmptyString)
        as [comment t2 out|comment t2|]; try discriminate;
        injection H as <- <- <- <-;
        apply (outcome_after_line t t1 _ _ Hl1 Hl2 Hl3 Hl4); apply Hm;
        unfold later_outcome; intuition lia.
    + assert (Hrec : forall g1, ParseJSS_loop k g1 t1 sub = Ret c (g', t') sub' ->
                                outcome t t' c).
      { intros g1 E. apply IH in E.
        exact (outcome_after_line t t1 t' c Hl1 Hl2 Hl3 Hl4
                 (outcome_weaken _ _ _ E)). }
      destruct (Ascii.eqb (nth_char l 0) "#"); [|exact (Hrec _ H)].
      destruct (jss_directive l g); [exact (Hrec _ H) | discriminate].
  - injection H as <- <- <- <-. apply outcome_at_end. exact Hend.
Qed.

Lemma on_txt_moves (f : text_t -> result text_t) :
  (forall t c t' sub', f t = Ret c t' sub' -> outcome t t' c) ->
  forall d c d' sub',
    on_txt f d = Ret c d' sub' -> outcome (txt (p_sys d)) (txt (p_sys d')) c.
Proof.
  intros Hf d c d' sub' H. unfold on_txt in H.
  destruct (f (txt (p_sys d))) as [c0 t0 sub0| |] eqn:E; try discriminate.
  simpl in H. injection H as <- <- <-. simpl. exact (Hf _ _ _ _ E).
Qed.

Lemma on_demux_moves (f : demux_t -> subtitle_t -> Z -> result demux_t) :
  (forall d sub idx c d' sub',
      f d sub idx = Ret c d' sub' -> outcome (txt (p_sys d)) (txt (p_sys d')) c) ->
  consumes_input (on_demux f).
Proof.
  intros Hf g d sub idx c g' d' sub' H. unfold on_demux in H.
  destruct (f d sub idx) as [c0 d0 sub0| |] eqn:E; try discriminate.
  simpl in H. injection H as <- <- <- <-. exact (Hf _ _ _ _ _ _ E).
Qed.

Lemma ParseSSA_moves (d : demux_t) (sub : subtitle_t) (idx : Z)
  (c : vlc_code) (d' : demux_t) (sub' : subtitle_t) :
  ParseSSA d sub idx = Ret c d' sub' ->
  outcome (txt (p_sys d)) (txt (p_sys d')) c.
Proof.
  intros H. unfold ParseSSA, on_sys in H.
  destruct (ParseSSA_loop _ _ _ _) as [c0 s0 sub0| |] eqn:E; try discriminate.
  simpl in H. injection H as <- <- <-. simpl.
  exact (ParseSSA_loop_moves _ _ _ _ _ _ _ E).
Qed.

Lemma ParseJSS_moves (g : statics) (d : demux_t) (sub : subtitle_t)
  (idx : Z) (c : vlc_code) (g' : statics) (d' : demux_t) (sub' : subtitle_t) :
  ParseJSS g d sub idx = Ret c (g', d') sub' ->
  outcome (txt (p_sys d)) (txt (p_sys d')) c.
Proof.
  intros H. unfold ParseJSS in H.
  destruct (ParseJSS_loop _ _ _ _) as [c0 [g0 t0] sub0| |] eqn:E;
    try discriminate.
  simpl in H. injection H as <- <- <- <-. simpl.
  exact (ParseJSS_loop_moves _ _ _ _ _ _ _ _ E).
Qed.

Lemma table_readers_consume (text0 : Z -> ascii) (ty : sub_type) (pf : reader) :
  ty <> SUB_TYPE_SAMI ->
  reader_of_type (sub_read_subtitle_function text0) ty = Some pf ->
  consumes_input pf.
Proof.
  intros Hty H. destruct ty; simpl in H; try discriminate;
    try (exfalso; apply Hty; reflexivity); injection H as <-;
    first
      [ exact (on_demux_moves _ ParseMicroDvd_moves)
      | exact (on_demux_moves _ ParseSSA_moves)
      | intros g d sub idx c g' d' sub'; apply ParseMPSub_moves
      | intros g d sub idx c g' d' sub'; apply ParseJSS_moves
      | apply on_demux_moves; intros d sub idx;
        unfold ParseSubRip, ParseSubViewer, ParseVplayer;
        apply on_txt_moves; intros t c t' sub';
        first [ apply ParseSubRipSubViewer_moves
              | apply ParseVplayer_loop_moves
              | apply ParseDVDSubtitle_txt_moves
              | apply ParseMPL2_loop_moves
              | apply ParsePJS_loop_moves
              | exact (ParseAQT_loop_moves _ _ _ _ true _ _ _) ] ].
Qed.

(** The parsing loop of [Open] ends: a reader that consumes a line at
    every success is called at most once more than there are lines. *)
Lemma Open_parse_ends (heap0 : Z -> subtitle_t) (pf : reader) :
  consumes_input pf -> keeps_cues pf ->
  (forall g d sub idx, pf g d sub idx <> OutOfFuel) ->
  forall fuel g d,
    (lines_left (txt (p_sys d)) <= fuel)%nat ->
    match Open_parse heap0 fuel pf g d with
    | Parse_out_of_fuel => False
    | Parse_undefined => True
    | Parse_done g' d' =>
        i_subtitles (p_sys d')
        <= i_subtitles (p_sys d)
           + Z.max 0 (i_line_count (txt (p_sys d)) - i_line (txt (p_sys d)))
        /\ i_line_count (txt (p_sys d')) <= i_line (txt (p_sys d'))
    end.
Proof.
  intros Hc Hk He. induction fuel as [|k IH]; intros g d Hf;
    [destruct (lines_left_pos _ Hf)|].
  cbn [Open_parse].
  destruct (pf g d (heap0 (i_subtitles (p_sys d))) (i_subtitles (p_sys d)))
    as [code [g1 d1] sub1| |] eqn:E; [| exact I | exact (He _ _ _ _ E)].
  pose proof (Hc _ _ _ _ _ _ _ _ E) as (Hl & Hn & Hcode).
  destruct (Hk _ _ _ _ _ _ _ _ E) as (Hs & Hsn).
  destruct code; cbn [nonzero]; try contradiction.
  - specialize (IH g1 (set_sys d1 (push_subtitle (p_sys d1) sub1))).
    simpl txt in IH. simpl i_subtitles in IH.
    destruct (Open_parse heap0 k pf g1 _) as [g' d'| |].
    + destruct IH as (H1 & H2); [unfold lines_left in *; lia|]. split; lia.
    + exact I.
    + apply IH. unfold lines_left in *. lia.
  - split; lia.
Qed.

(* ================================================================== *)
(** * What the readers leave alone *)

Section Frame.

(** A relation between the demuxer before and after that the four
    updates the readers make respect. *)
Variable R : demux_t -> demux_t -> Prop.
Hypothesis R_refl : forall d, R d d.
Hypothesis R_trans : forall a b c, R a b -> R b c -> R a c.
Hypothesis R_txt : forall d t, R d (set_sys d (set_txt (p_sys d) t)).
Hypothesis R_microsecperframe :
  forall d v, R d (set_sys d (set_microsecperframe (p_sys d) v)).
Hypothesis R_header : forall d h, R d (set_sys d (set_header (p_sys d) h)).
Hypothesis R_sub_fps : forall d f, R d (set_sub_fps d f).

Lemma on_txt_respects (f : text_t -> result text_t) (d d' : demux_t)
  (c : vlc_code) (sub : subtitle_t) :
  on_txt f d = Ret c d' sub -> R d d'.
Proof.
  unfold on_txt, map_state. destruct (f (txt (p_sys d))); try discriminate.
  intros H. injection H as <- <- <-. apply R_txt.
Qed.

Lemma on_demux_respects (f : demux_t -> subtitle_t -> Z -> result demux_t) :
  (forall d sub idx c d' sub', f d sub idx = Ret c d' sub' -> R d d') ->
  respects R (on_demux f).
Proof.
  intros Hf g d sub idx c g' d' sub'. unfold on_demux, map_state.
  destruct (f d sub idx) eqn:E; try discriminate.
  intros H. injection H as <- <- <- <-. exact (Hf _ _ _ _ _ _ E).
Qed.

Lemma ParseMicroDvd_loop_respects (fuel : nat) :
  forall d,
    match ParseMicroDvd_loop fuel d with
    | inl (Ret _ d' _) => R d d'
    | inl _ => True
    | inr (d', _, _, _) => R d d'
    end.
Proof.
  induction fuel as [|k IH]; intros d; simpl; [exact I|].
  destruct (TextGetLine (txt (p_sys d))) as [[l|] t']; [|apply R_txt].
  assert (H1 : R d (set_sys d (set_txt (p_sys d) t'))) by apply R_txt.
  assert (Hrec : forall x, R d x ->
            match ParseMicroDvd_loop k x with
            | inl (Ret _ d' _) => R d d'
            | inl _ => True
            | inr (d', _, _, _) => R d d'
            end).
  { intros x Hx. specialize (IH x).
    destruct (ParseMicroDvd_loop k x) as [[c d' sub'| |]|[[[d' a] b] tx]];
      auto; eapply R_trans; eauto. }
  destruct (scan_microdvd l) as [[[start stop] text]|]; [|apply Hrec; exact H1].
  destruct (negb (start =? 1) || negb (stop =? 1)); [exact H1|].
  case_if; apply Hrec; [|exact H1].
  eapply R_trans; [exact H1 | apply R_microsecperframe].
Qed.

Lemma ParseMicroDvd_respects : respects R (on_demux ParseMicroDvd).
Proof.
  apply on_demux_respects. intros d sub idx c d' sub'. unfold ParseMicroDvd.
  pose proof (ParseMicroDvd_loop_respects (lines_left (txt (p_sys d))) d) as H.
  destruct (ParseMicroDvd_loop (lines_left (txt (p_sys d))) d)
    as [[c0 d0 sub0| |]|[[[d0 a] b] tx]]; try discriminate;
    intros E; injection E as <- <- <-; exact H.
Qed.

Lemma ParseSSA_loop_respects (fuel : nat) :
  forall d sub idx c sys' sub',
    ParseSSA_loop fuel (p_sys d) sub idx = Ret c sys' sub' ->
    R d (set_sys d sys').
Proof.
  induction fuel as [|k IH]; intros d sub idx c sys' sub'; simpl;
    [discriminate|].
  destruct (TextGetLine (txt (p_sys d))) as [[l|] t'].
  - destruct (scan_dialogue l) as [[[[temp start] stop] text]|].
    + intros H. injection H as <- <- <-. apply R_txt.
    + intros H.
      set (d1 := set_sys d (set_txt (p_sys d) t')).
      set (d2 := set_sys d1 (set_header (p_sys d1)
                               (header_append (psz_header (p_sys d1)) l))).
      apply (IH d2) in H. apply (R_trans d d1); [apply R_txt|].
      apply (R_trans d1 d2); [apply R_header | exact H].
  - intros H. injection H as <- <- <-. apply R_txt.
Qed.

Lemma ParseSSA_respects : respects R (on_demux ParseSSA).
Proof.
  apply on_demux_respects. intros d sub idx c d' sub'.
  unfold ParseSSA, on_sys, map_state.
  destruct (ParseSSA_loop (lines_left (txt (p_sys d))) (p_sys d) sub idx) eqn:E;
    try discriminate.
  intros H. injection H as <- <- <-.
  exact (ParseSSA_loop_respects _ _ _ _ _ _ _ E).
Qed.

Lemma MPSub_head_respects (fuel : nat) :
  forall g d sub,
    match MPSub_head fuel g d sub with
    | inl (Ret _ (_, d') _) => R d d'
    | inl _ => True
    | inr (_, d', _) => R d d'
    end.
Proof.
  induction fuel as [|k IH]; intros g d sub; simpl; [exact I|].
  destruct (TextGetLine (txt (p_sys d))) as [[l|] t']; [|apply R_txt].
  assert (H1 : R d (set_sys d (set_txt (p_sys d) t'))) by apply R_txt.
  destruct (mpsub_format_time l); [exact H1|].
  destruct (mpsub_format l); [| |exact I].
  - destruct (mpsub_data l) as [[f1 f2]|]; [exact H1|].
    match goal with |- context [MPSub_head k ?a ?b ?c] =>
      specialize (IH a b c);
      destruct (MPSub_head k a b c) as [[c' [g' d'] sub'| |]|[[g' d'] sub']]
    end; auto; eapply R_trans; eauto.
  - case_if; [|exact H1].
    eapply R_trans; [exact H1 | apply R_sub_fps].
Qed.

Lemma ParseMPSub_respects : respects R ParseMPSub.
Proof.
  intros g d sub idx c g' d' sub'. unfold ParseMPSub.
  pose proof (MPSub_head_respects (lines_left (txt (p_sys d))) g d sub) as H.
  destruct (MPSub_head (lines_left (txt (p_sys d))) g d sub)
    as [[c0 [g1 d1] sub1| |]|[[g1 d1] sub1]]; try discriminate.
  - intros E. injection E as <- <- <- <-. exact H.
  - destruct (MPSub_body (lines_left (txt (p_sys d1))) (txt (p_sys d1)) EmptyString)
      as [[[text|] t2]|]; try discriminate;
      intros E; injection E as <- <- <- <-;
      (eapply R_trans; [exact H | apply R_txt]).
Qed.

Lemma ParseJSS_respects : respects R ParseJSS.
Proof.
  intros g d sub idx c g' d' sub'. unfold ParseJSS, map_state.
  destruct (ParseJSS_loop _ _ _ _) as [c0 [g1 t1] sub1| |]; try discriminate.
  intros E. injection E as <- <- <- <-. apply R_txt.
Qed.

Lemma table_readers_respect (text0 : Z -> ascii) (ty : sub_type) (pf : reader) :
  reader_of_type (sub_read_subtitle_function text0) ty = Some pf ->
  respects R pf.
Proof.
  destruct ty; simpl; intros H; inversion H; subst;
    first [ apply ParseMicroDvd_respects | apply ParseSSA_respects
          | apply ParseMPSub_respects | apply ParseJSS_respects
          | apply on_demux_respects; intros d sub idx c d' sub' E;
            exact (on_txt_respects _ _ _ _ _ E) ].
Qed.

(** The parsing loop of [Open] keeps what the reader and the append of a
    cue keep. *)
Hypothesis R_push :
  forall d sub, R d (set_sys d (push_subtitle (p_sys d) sub)).

Lemma Open_parse_respects (heap0 : Z -> subtitle_t) (pf : reader) :
  respects R pf ->
  forall fuel g d g' d',
    Open_parse heap0 fuel pf g d = Parse_done g' d' -> R d d'.
Proof.
  intros Hpf. induction fuel as [|k IH]; intros g d g' d'; simpl;
    [discriminate|].
  destruct (pf g d (heap0 (i_subtitles (p_sys d))) (i_subtitles (p_sys d)))
    as [code [g1 d1] sub1| |] eqn:E; try discriminate.
  pose proof (Hpf _ _ _ _ _ _ _ _ E) as H1.
  destruct (nonzero code).
  - intros H. injection H as <- <-. exact H1.
  - intros H. apply IH in H.
    exact (R_trans _ _ _ H1 (R_trans _ _ _ (R_push d1 sub1) H)).
Qed.

End Frame.

Lemma same_session_trans (a b c : demux_t) :
  same_session a b -> same_session b c -> same_session a c.
Proof.
  unfold same_session. intros H1 H2.
  repeat match goal with H : _ /\ _ |- _ => destruct H end.
  repeat split; congruence.
Qed.

Lemma table_readers_keep_session (text0 : Z -> ascii) (ty : sub_type)
  (pf : reader) :
  reader_of_type (sub_read_subtitle_function text0) ty = Some pf ->
  respects same_session pf.
Proof.
  apply (table_readers_respect same_session);
    first [ exact same_session_trans
          | intros; unfold same_session; simpl; repeat split; reflexivity ].
Qed.

Lemma Open_parse_type (heap0 : Z -> subtitle_t) (pf : reader) :
  respects same_session pf ->
  forall fuel g d g' d',
    Open_parse heap0 fuel pf g d = Parse_done g' d' ->
    i_type (p_sys d') = i_type (p_sys d) /\ s d' = s d
    /\ sub_type_name d' = sub_type_name d /\ b_force d' = b_force d.
Proof.
  intros Hpf. induction fuel as [|k IH]; intros g d g' d'; simpl;
    [discriminate|].
  destruct (pf g d (heap0 (i_subtitles (p_sys d))) (i_subtitles (p_sys d)))
    as [code [g1 d1] sub1| |] eqn:E; try discriminate.
  pose proof (Hpf _ _ _ _ _ _ _ _ E) as Hs. unfold same_session in Hs.
  destruct (nonzero code).
  - intros H. injection H as <- <-. tauto.
  - intros H. apply IH in H. simpl in H.
    destruct H as (H1 & H2 & H3 & H4).
    destruct Hs as (S1 & S2 & S3 & S4 & S5 & _).
    repeat split; congruence.
Qed.

(** ** Which reader writes which field *)

Ltac frame_sides :=
  intros; cbv beta in *; simpl; congruence.

(** The frame lemma of the reader in the goal, for the relation [R]. *)
Ltac frame_by R :=
  first [ apply (ParseMicroDvd_respects R); frame_sides
        | apply (ParseSSA_respects R); frame_sides
        | apply (ParseMPSub_respects R); frame_sides
        | apply (ParseJSS_respects R); frame_sides
        | apply (on_demux_respects R);
          let E := fresh "E" in
          intros ? ? ? ? ? ? E;
          apply (on_txt_respects R ltac:(frame_sides) _ _ _ _ _ E) ].

Lemma only_MicroDvd_sets_frame_duration (text0 : Z -> ascii) (ty : sub_type)
  (pf : reader) :
  ty <> SUB_TYPE_MICRODVD ->
  reader_of_type (sub_read_subtitle_function text0) ty = Some pf ->
  respects (fun d d' => i_microsecperframe (p_sys d')
                        = i_microsecperframe (p_sys d)) pf.
Proof.
  intros Hty H. destruct ty; simpl in H; try discriminate;
    try (exfalso; apply Hty; reflexivity); injection H as <-;
    frame_by (fun d d' : demux_t =>
                i_microsecperframe (p_sys d') = i_microsecperframe (p_sys d)).
Qed.

Lemma only_SSA_sets_header (text0 : Z -> ascii) (ty : sub_type) (pf : reader) :
  ty <> SUB_TYPE_SSA1 -> ty <> SUB_TYPE_SSA2_4 -> ty <> SUB_TYPE_ASS ->
  reader_of_type (sub_read_subtitle_function text0) ty = Some pf ->
  respects (fun d d' => psz_header (p_sys d') = psz_header (p_sys d)) pf.
Proof.
  intros H1 H2 H3 H. destruct ty; simpl in H; try discriminate;
    try (exfalso; apply H1; reflexivity);
    try (exfalso; apply H2; reflexivity);
    try (exfalso; apply H3; reflexivity);
    injection H as <-;
    frame_by (fun d d' : demux_t => psz_header (p_sys d') = psz_header (p_sys d)).
Qed.

Lemma only_MPSub_sets_sub_fps (text0 : Z -> ascii) (ty : sub_type) (pf : reader) :
  ty <> SUB_TYPE_MPSUB ->
  reader_of_type (sub_read_subtitle_function text0) ty = Some pf ->
  respects (fun d d' => sub_fps d' = sub_fps d) pf.
Proof.
  intros Hty H. destruct ty; simpl in H; try discriminate;
    try (exfalso; apply Hty; reflexivity); injection H as <-;
    frame_by (fun d d' : demux_t => sub_fps d' = sub_fps d).
Qed.

Lemma on_demux_keeps_statics (f : demux_t -> subtitle_t -> Z -> result demux_t)
  (g : statics) (d : demux_t) (sub : subtitle_t) (idx : Z) (c : vlc_code)
  (g' : statics) (d' : demux_t) (sub' : subtitle_t) :
  on_demux f g d sub idx = Ret c (g', d') sub' -> g' = g.
Proof.
  unfold on_demux, map_state. destruct (f d sub idx); try discriminate.
  intros H. injection H as <- <- <- <-. reflexivity.
Qed.

(** X8.  A call of a reader of the table that returns leaves the stream,
    the variables other than [sub-fps], the type, the cues with their count
    and index, the length and the next demux date as they were.  Only
    [ParseMicroDvd] changes the frame duration, only [ParseSSA] the header,
    only [ParseMPSub] the variable [sub-fps], and only [ParseMPSub] and
    [ParseJSS] the static variables. *)
Theorem readers_write_only_their_fields (text0 : Z -> ascii) (ty : sub_type)
  (pf : reader) (g : statics) (d : demux_t) (sub : subtitle_t) (idx : Z)
  (c : vlc_code) (g' : statics) (d' : demux_t) (sub' : subtitle_t) :
  reader_of_type (sub_read_subtitle_function text0) ty = Some pf ->
  pf g d sub idx = Ret c (g', d') sub' ->
  same_session d d'
  /\ (ty <> SUB_TYPE_MICRODVD ->
      i_microsecperframe (p_sys d') = i_microsecperframe (p_sys d))
  /\ (ty <> SUB_TYPE_SSA1 -> ty <> SUB_TYPE_SSA2_4 -> ty <> SUB_TYPE_ASS ->
      psz_header (p_sys d') = psz_header (p_sys d))
  /\ (ty <> SUB_TYPE_MPSUB -> sub_fps d' = sub_fps d)
  /\ (ty <> SUB_TYPE_MPSUB -> ty <> SUB_TYPE_JACOSUB -> g' = g).
Proof.
  intros Hpf H. split; [|split; [|split; [|split]]].
  - exact (table_readers_keep_session text0 ty pf Hpf _ _ _ _ _ _ _ _ H).
  - intros Hty.
    exact (only_MicroDvd_sets_frame_duration text0 ty pf Hty Hpf _ _ _ _ _ _ _ _ H).
  - intros H1 H2 H3.
    exact (only_SSA_sets_header text0 ty pf H1 H2 H3 Hpf _ _ _ _ _ _ _ _ H).
  - intros Hty.
    exact (only_MPSub_sets_sub_fps text0 ty pf Hty Hpf _ _ _ _ _ _ _ _ H).
  - intros H1 H2. destruct ty; simpl in Hpf; try discriminate;
      try (exfalso; apply H1; reflexivity);
      try (exfalso; apply H2; reflexivity);
      injection Hpf as <-; exact (on_demux_keeps_statics _ _ _ _ _ _ _ _ _ H).
Qed.

Lemma readers_write_only_their_fields_witness :
  exists d' sub',
    on_demux ParseSubRip statics_at_load
      (set_sys (demux_on EmptyString fzero [])
         (set_txt blank_sys
            (mk_text 3 0 ["00:00:01,000 --> 00:00:02,500"; "Hi"; EmptyString])))
      (mk_subtitle 0 0 EmptyString) 0
    = Ret VLC_SUCCESS (statics_at_load, d') sub'
    /\ same_session
         (set_sys (demux_on EmptyString fzero [])
            (set_txt blank_sys
               (mk_text 3 0 ["00:00:01,000 --> 00:00:02,500"; "Hi";
                             EmptyString])))
         d'.
Proof.
  match eval vm_compute in
        (on_demux ParseSubRip statics_at_load
           (set_sys (demux_on EmptyString fzero [])
              (set_txt blank_sys
                 (mk_text 3 0 ["00:00:01,000 --> 00:00:02,500"; "Hi";
                               EmptyString])))
           (mk_subtitle 0 0 EmptyString) 0)
  with
  | Ret VLC_SUCCESS (_, ?d') ?sub' =>
      exists d', sub';
      assert (E : on_demux ParseSubRip statics_at_load
                    (set_sys (demux_on EmptyString fzero [])
                       (set_txt blank_sys
                          (mk_text 3 0 ["00:00:01,000 --> 00:00:02,500"; "Hi";
                                        EmptyString])))
                    (mk_subtitle 0 0 EmptyString) 0
                  = Ret VLC_SUCCESS (statics_at_load, d') sub')
        by (vm_compute; reflexivity);
      split; [exact E|];
      exact (proj1 (readers_write_only_their_fields zero_text SUB_TYPE_SUBRIP
                      _ _ _ _ _ _ _ _ _ eq_refl E))
  end.
Defined.

(** X9.  A call of a reader other than [ParseSami] never changes the
    line table or its count.  When it returns VLC_SUCCESS there was a line
    at the cursor and the cursor has moved forward by at least one line;
    when it returns VLC_EGENERIC the cursor is at or past the end of the
    table.  It never returns VLC_ENOMEM. *)
Theorem readers_consume_input (text0 : Z -> ascii) (ty : sub_type)
  (pf : reader) (g : statics) (d : demux_t) (sub : subtitle_t) (idx : Z)
  (c : vlc_code) (g' : statics) (d' : demux_t) (sub' : subtitle_t) :
  ty <> SUB_TYPE_SAMI ->
  reader_of_type (sub_read_subtitle_function text0) ty = Some pf ->
  pf g d sub idx = Ret c (g', d') sub' ->
  let t := txt (p_sys d) in
  let t' := txt (p_sys d') in
  line t' = line t /\ i_line_count t' = i_line_count t
  /\ (c = VLC_SUCCESS -> i_line t < i_line_count t /\ i_line t < i_line t')
  /\ (c = VLC_EGENERIC -> i_line t <= i_line t' /\ i_line_count t <= i_line t')
  /\ c <> VLC_ENOMEM.
Proof.
  intros Hty Hpf H t t'.
  pose proof (table_readers_consume text0 ty pf Hty Hpf _ _ _ _ _ _ _ _ H)
    as (H1 & H2 & H3).
  fold t t' in H1, H2, H3.
  split; [exact H1|]. split; [exact H2|].
  destruct c; [| |contradiction];
    (split; [|split]); solve [intros _; exact H3 | discriminate].
Qed.

Lemma readers_consume_input_witness :
  exists d' sub',
    on_demux ParseSubRip statics_at_load
      (set_sys (demux_on EmptyString fzero [])
         (set_txt blank_sys
            (mk_text 3 0 ["00:00:01,000 --> 00:00:02,500"; "Hi"; EmptyString])))
      (mk_subtitle 0 0 EmptyString) 0
    = Ret VLC_SUCCESS (statics_at_load, d') sub'
    /\ 0 < i_line (txt (p_sys d')).
Proof.
  match eval vm_compute in
        (on_demux ParseSubRip statics_at_load
           (set_sys (demux_on EmptyString fzero [])
              (set_txt blank_sys
                 (mk_text 3 0 ["00:00:01,000 --> 00:00:02,500"; "Hi";
                               EmptyString])))
           (mk_subtitle 0 0 EmptyString) 0)
  with
  | Ret VLC_SUCCESS (_, ?d') ?sub' =>
      exists d', sub';
      assert (E : on_demux ParseSubRip statics_at_load
                    (set_sys (demux_on EmptyString fzero [])
                       (set_txt blank_sys
                          (mk_text 3 0 ["00:00:01,000 --> 00:00:02,500"; "Hi";
                                        EmptyString])))
                    (mk_subtitle 0 0 EmptyString) 0
                  = Ret VLC_SUCCESS (statics_at_load, d') sub')
        by (vm_compute; reflexivity);
      split; [exact E|];
      exact (proj2 (proj1 (proj2 (proj2
               (readers_consume_input zero_text SUB_TYPE_SUBRIP
                  _ _ _ _ _ _ _ _ _ ltac:(discriminate) eq_refl E))) eq_refl))
  end.
Defined.

(* ================================================================== *)
(** * [Open] returns *)

Lemma probe_line_sami (l : string) (ty : sub_type) (b : bool) :
  sig_sami l = false -> probe_line l = Some (ty, b) -> ty <> SUB_TYPE_SAMI.
Proof.
  unfold probe_line. intros ->.
  repeat case_if; intros H; inversion H; discriminate.
Qed.

Lemma probe_loop_not_sami (tries : nat) :
  forall st ty,
    ty <> SUB_TYPE_SAMI ->
    Forall (fun l => sig_sami l = false) (s_lines st) ->
    fst (probe_loop tries st ty) <> SUB_TYPE_SAMI.
Proof.
  induction tries as [|k IH]; intros st ty Hty Hall; [exact Hty|].
  cbn [probe_loop]. unfold stream_ReadLine.
  destruct (nth_error (s_lines st) (s_pos st)) as [l|] eqn:E; [|exact Hty].
  assert (Hl : sig_sami l = false).
  { apply nth_error_In in E. rewrite Forall_forall in Hall. exact (Hall _ E). }
  destruct (probe_line l) as [[t b]|] eqn:Ep.
  - pose proof (probe_line_sami l t b Hl Ep) as Ht.
    destruct b; [exact Ht|]. apply IH; assumption.
  - apply IH; assumption.
Qed.

Lemma type_of_name_sami (text0 : Z -> ascii) (name : string) :
  type_of_name (sub_read_subtitle_function text0) name = SUB_TYPE_SAMI ->
  name = "sami".
Proof.
  cbn [type_of_name sub_read_subtitle_function].
  repeat match goal with
         | |- context [String.eqb ?a name] =>
             destruct (String.eqb_spec a name)
         end; try discriminate.
  intros _. symmetry. assumption.
Qed.

(** The parsing loop in the runs without a failing [realloc]: when the
    SAMI reader is not selected it ends within one reader call more than
    the stream has lines. *)
Lemma Open_granted_returns (text0 : Z -> ascii) (heap0 : Z -> subtitle_t)
  (fuel : nat) (idate : Z) (g : statics) (d : demux_t) :
  sub_type_name d <> "sami" ->
  Forall (fun l => sig_sami l = false) (s_lines (s d)) ->
  (List.length (s_lines (s d)) < fuel)%nat ->
  match Open text0 heap0 fuel idate g d with
  | Open_out_of_fuel => False
  | Opened g' d' load es =>
      cues_wf (p_sys d')
      /\ i_subtitles (p_sys d') <= Z.of_nat (List.length (s_lines (s d)))
      /\ i_subtitle (p_sys d') = 0
      /\ txt (p_sys d') = mk_text 0 0 []
      /\ i_type (p_sys d') <> SUB_TYPE_SAMI
      /\ i_type (p_sys d') <> SUB_TYPE_UNKNOWN
  | Open_error code _ _ => code = VLC_EGENERIC
  | Open_undefined => True
  end.
Proof.
  intros Hname Hsig Hfuel. unfold Open.
  destruct (negb (b_force d)); [reflexivity|].
  set (ty0 := match sub_type_name d with
              | EmptyString => SUB_TYPE_UNKNOWN
              | String _ _ =>
                  type_of_name (sub_read_subtitle_function text0) (sub_type_name d)
              end).
  assert (Hty0 : ty0 <> SUB_TYPE_SAMI).
  { subst ty0. destruct (sub_type_name d) as [|a r] eqn:En; [discriminate|].
    intros E. apply type_of_name_sami in E. congruence. }
  assert (Ety0 : match sub_type_name d with
                 | EmptyString => SUB_TYPE_UNKNOWN
                 | String a r =>
                     type_of_name (sub_read_subtitle_function text0) (String a r)
                 end = ty0).
  { subst ty0. destruct (sub_type_name d); reflexivity. }
  rewrite Ety0. clearbody ty0. clear Ety0.
  assert (Hsel : forall ty st,
             (if sub_type_eqb ty0 SUB_TYPE_UNKNOWN
              then let '(ty1, st1) := probe_loop 256 (s d) SUB_TYPE_UNKNOWN in
                   (ty1, snd (stream_Seek0 st1))
              else (ty0, s d)) = (ty, st) ->
             ty <> SUB_TYPE_SAMI /\ s_lines st = s_lines (s d)).
  { intros ty st. destruct (sub_type_eqb ty0 SUB_TYPE_UNKNOWN).
    - pose proof (probe_loop_not_sami 256 (s d) SUB_TYPE_UNKNOWN
                    ltac:(discriminate) Hsig) as Hp.
      destruct (probe_loop_scan 256 (s d) SUB_TYPE_UNKNOWN) as (_ & _ & Hl & _).
      destruct (probe_loop 256 (s d) SUB_TYPE_UNKNOWN) as [ty1 st1].
      intros H. injection H as <- <-. split; [exact Hp|].
      simpl in Hl. rewrite <- Hl. unfold stream_Seek0.
      destruct (s_seekable st1); reflexivity.
    - intros H. injection H as <- <-. auto. }
  destruct (if sub_type_eqb ty0 SUB_TYPE_UNKNOWN then _ else _) as [ty st].
  destruct (Hsel ty st eq_refl) as (Hty & Hlines). clear Hsel.
  destruct (sub_type_eqb ty SUB_TYPE_UNKNOWN) eqn:Eu; [reflexivity|].
  destruct (reader_of_type (sub_read_subtitle_function text0) ty) as [pf|] eqn:Er;
    [|exact I].
  pose proof (TextLoad_loads st) as (Ht & _).
  destruct (TextLoad st) as [[load t] st']. simpl in Ht. subst t.
  match goal with
  | |- context [Open_parse heap0 fuel pf g ?d0] =>
      pose proof (Open_parse_ends heap0 pf
                    (table_readers_consume text0 ty pf Hty Er)
                    (table_readers_keep text0 ty pf Er)
                    (table_readers_end text0 ty pf Er) fuel g d0) as Hend;
      pose proof (Open_parse_wf heap0 pf (table_readers_keep text0 ty pf Er)
                    fuel g d0) as Hwf;
      pose proof (Open_parse_type heap0 pf (table_readers_keep_session text0 ty pf Er) fuel g d0) as Htype
  end.
  simpl in Hend, Hwf, Htype.
  destruct (Open_parse heap0 fuel pf g _) as [g' d'| |]; [|exact I|].
  - destruct Hend as (Hn & _).
    { pose proof (unread_length st) as Hu. rewrite Hlines in Hu.
      unfold lines_left. simpl. lia. }
    specialize (Hwf g' d' eq_refl eq_refl). specialize (Htype g' d' eq_refl).
    pose proof (unread_length st) as Hu. rewrite Hlines in Hu.
    destruct Htype as (Htype & _).
    simpl. unfold cues_wf in *. simpl. rewrite Htype.
    repeat split; try assumption; try lia.
    intros ->. discriminate.
  - apply Hend. pose proof (unread_length st) as Hu. rewrite Hlines in Hu.
    unfold lines_left. simpl. lia.
Qed.

(** ** [Open] and its [realloc] *)

(** A run of the loop in which no [realloc] failed is a run of
    [Open_parse]; a failed one met a refused request. *)
Lemma Open_parse_mem_run (heap0 : Z -> subtitle_t) (realloc_ok : Z -> bool)
  (pf : reader) (fuel : nat) :
  forall i_max g d,
    match Open_parse_mem heap0 realloc_ok fuel i_max pf g d with
    | Mem_done g' d' => Open_parse heap0 fuel pf g d = Parse_done g' d'
    | Mem_out_of_fuel => Open_parse heap0 fuel pf g d = Parse_out_of_fuel
    | Mem_enomem _ _ => exists m, realloc_ok m = false
    | Mem_undefined => True
    end.
Proof.
  induction fuel as [|k IH]; intros i_max g d; [reflexivity|].
  cbn [Open_parse_mem Open_parse]. cbv zeta.
  assert (Hread :
            match
              match pf g d (heap0 (i_subtitles (p_sys d))) (i_subtitles (p_sys d)) with
              | Ret code (g', d') sub =>
                  if nonzero code then Mem_done g' d'
                  else Open_parse_mem heap0 realloc_ok k
                         (if i_subtitles (p_sys d) >=? i_max
                          then i_max + 500 else i_max) pf g'
                         (set_sys d' (push_subtitle (p_sys d') sub))
              | Undefined => Mem_undefined
              | OutOfFuel => Mem_out_of_fuel
              end
            with
            | Mem_done g' d' =>
                match pf g d (heap0 (i_subtitles (p_sys d))) (i_subtitles (p_sys d)) with
                | Ret code (g', d') sub =>
                    if nonzero code then Parse_done g' d'
                    else Open_parse heap0 k pf g'
                           (set_sys d' (push_subtitle (p_sys d') sub))
                | Undefined => Parse_undefined
                | OutOfFuel => Parse_out_of_fuel
                end = Parse_done g' d'
            | Mem_out_of_fuel =>
                match pf g d (heap0 (i_subtitles (p_sys d))) (i_subtitles (p_sys d)) with
                | Ret code (g', d') sub =>
                    if nonzero code then Parse_done g' d'
                    else Open_parse heap0 k pf g'
                           (set_sys d' (push_subtitle (p_sys d') sub))
                | Undefined => Parse_undefined
                | OutOfFuel => Parse_out_of_fuel
                end = Parse_out_of_fuel
            | Mem_enomem _ _ => exists m, realloc_ok m = false
            | Mem_undefined => True
            end).
  { destruct (pf g d (heap0 (i_subtitles (p_sys d))) (i_subtitles (p_sys d)))
      as [code [g1 d1] sub1| |]; try reflexivity; try exact I.
    destruct (nonzero code); [reflexivity | apply IH]. }
  destruct (i_subtitles (p_sys d) >=? i_max) eqn:Eg; cbn [andb].
  - destruct (INT_MAX <? i_max + 500) eqn:Eo; [exact I|].
    destruct (realloc_ok (i_max + 500)) eqn:Ek; cbn [negb].
    + exact Hread.
    + exists (i_max + 500). exact Ek.
  - exact Hread.
Qed.

(** With every request granted and no more rounds than an [int] counts,
    the loop is [Open_parse]. *)
Lemma Open_parse_mem_granted (heap0 : Z -> subtitle_t) (realloc_ok : Z -> bool)
  (pf : reader) :
  keeps_cues pf ->
  (forall m, realloc_ok m = true) ->
  forall fuel i_max g d,
    i_subtitles (p_sys d) + Z.of_nat fuel + 500 <= INT_MAX ->
    Open_parse_mem heap0 realloc_ok fuel i_max pf g d
    = mem_of (Open_parse heap0 fuel pf g d).
Proof.
  intros Hk Hok. induction fuel as [|k IH]; intros i_max g d Hb; [reflexivity|].
  cbn [Open_parse_mem Open_parse]. cbv zeta.
  assert (Hgrow : (i_subtitles (p_sys d) >=? i_max)
                  && (INT_MAX <? (if i_subtitles (p_sys d) >=? i_max
                                  then i_max + 500 else i_max)) = false).
  { destruct (i_subtitles (p_sys d) >=? i_max) eqn:Eg; [|reflexivity].
    rewrite Z.geb_leb in Eg. apply Z.leb_le in Eg.
    cbn [andb]. apply Z.ltb_ge. lia. }
  rewrite Hgrow, Hok. cbn [negb]. rewrite andb_false_r.
  destruct (pf g d (heap0 (i_subtitles (p_sys d))) (i_subtitles (p_sys d)))
    as [code [g1 d1] sub1| |] eqn:E; try reflexivity.
  destruct (nonzero code); [reflexivity|].
  apply IH. simpl. destruct (Hk _ _ _ _ _ _ _ _ E) as (_ & Hn). lia.
Qed.

(** [Open] with its [realloc] against [Open]. *)
Lemma Open_mem_run (text0 : Z -> ascii) (heap0 : Z -> subtitle_t)
  (realloc_ok : Z -> bool) (fuel : nat) (idate : Z) (g : statics)
  (d : demux_t) :
  match Open_mem text0 heap0 realloc_ok fuel idate g d with
  | Opened g' d' load es =>
      Open text0 heap0 fuel idate g d = Opened g' d' load es
  | Open_out_of_fuel => Open text0 heap0 fuel idate g d = Open_out_of_fuel
  | Open_error code g' d' =>
      (code = VLC_EGENERIC
       /\ Open text0 heap0 fuel idate g d = Open_error code g' d')
      \/ (code = VLC_ENOMEM /\ exists m, realloc_ok m = false)
  | Open_undefined => True
  end.
Proof.
  unfold Open_mem, Open.
  destruct (negb (b_force d)); [left; split; reflexivity|].
  destruct (if sub_type_eqb _ SUB_TYPE_UNKNOWN then _ else _) as [ty st].
  destruct (sub_type_eqb ty SUB_TYPE_UNKNOWN); [left; split; reflexivity|].
  destruct (reader_of_type (sub_read_subtitle_function text0) ty) as [pf|];
    [|exact I].
  destruct (TextLoad st) as [[load t] st'].
  match goal with
  | |- context [Open_parse_mem heap0 realloc_ok fuel 0 pf g ?d0] =>
      pose proof (Open_parse_mem_run heap0 realloc_ok pf fuel 0 g d0) as H
  end.
  destruct (Open_parse_mem heap0 realloc_ok fuel 0 pf g _) as [g1 d1|g1 d1| |].
  - rewrite H. reflexivity.
  - right. split; [reflexivity | exact H].
  - exact I.
  - rewrite H. reflexivity.
Qed.

Lemma Open_mem_granted (text0 : Z -> ascii) (heap0 : Z -> subtitle_t)
  (realloc_ok : Z -> bool) (fuel : nat) (idate : Z) (g : statics)
  (d : demux_t) :
  (forall m, realloc_ok m = true) ->
  Z.of_nat fuel + 500 <= INT_MAX ->
  Open_mem text0 heap0 realloc_ok fuel idate g d
  = Open text0 heap0 fuel idate g d.
Proof.
  intros Hok Hb. unfold Open_mem, Open.
  destruct (negb (b_force d)); [reflexivity|].
  destruct (if sub_type_eqb _ SUB_TYPE_UNKNOWN then _ else _) as [ty st].
  destruct (sub_type_eqb ty SUB_TYPE_UNKNOWN); [reflexivity|].
  destruct (reader_of_type (sub_read_subtitle_function text0) ty) as [pf|] eqn:Er;
    [|reflexivity].
  destruct (TextLoad st) as [[load t] st'].
  rewrite (Open_parse_mem_granted heap0 realloc_ok pf
             (table_readers_keep text0 ty pf Er) Hok) by (simpl; lia).
  destruct (Open_parse heap0 fuel pf g _); reflexivity.
Qed.

(** X10.  When the SAMI reader is not selected (the [sub-type] variable
    is not [sami] and no line of the stream has the SAMI signature), the
    parsing loop of [Open] ends within one reader call more than the stream
    has lines, whatever [realloc] does.  A successful [Open] is then the
    [Open] of the run without a failing [realloc]; it has at most one cue
    per line of the stream, a count equal to the length of the array, the
    index at 0, the line table released and a type other than Unknown.  A
    failing [Open] returns VLC_EGENERIC, or VLC_ENOMEM, and this only
    after a [realloc] was refused.  The allocations of the readers are
    taken to succeed. *)
Theorem Open_returns (text0 : Z -> ascii) (heap0 : Z -> subtitle_t)
  (realloc_ok : Z -> bool) (fuel : nat) (idate : Z) (g : statics)
  (d : demux_t) :
  sub_type_name d <> "sami" ->
  Forall (fun l => sig_sami l = false) (s_lines (s d)) ->
  (List.length (s_lines (s d)) < fuel)%nat ->
  match Open_mem text0 heap0 realloc_ok fuel idate g d with
  | Open_out_of_fuel => False
  | Opened g' d' load es =>
      Open text0 heap0 fuel idate g d = Opened g' d' load es
      /\ cues_wf (p_sys d')
      /\ i_subtitles (p_sys d') <= Z.of_nat (List.length (s_lines (s d)))
      /\ i_subtitle (p_sys d') = 0
      /\ txt (p_sys d') = mk_text 0 0 []
      /\ i_type (p_sys d') <> SUB_TYPE_SAMI
      /\ i_type (p_sys d') <> SUB_TYPE_UNKNOWN
  | Open_error code _ _ =>
      code = VLC_EGENERIC
      \/ (code = VLC_ENOMEM /\ exists m, realloc_ok m = false)
  | Open_undefined => True
  end.
Proof.
  intros Hname Hsig Hfuel.
  pose proof (Open_granted_returns text0 heap0 fuel idate g d Hname Hsig Hfuel)
    as Hcore.
  pose proof (Open_mem_run text0 heap0 realloc_ok fuel idate g d) as Hrun.
  destruct (Open_mem text0 heap0 realloc_ok fuel idate g d)
    as [g' d' load es|code g' d'| |].
  - rewrite Hrun in Hcore. split; [exact Hrun | exact Hcore].
  - destruct Hrun as [(Hc & _)|Hc]; [left; exact Hc | right; exact Hc].
  - exact I.
  - rewrite Hrun in Hcore. exact Hcore.
Qed.

Lemma Open_returns_witness :
  exists g d load es,
    Open_mem zero_text zero_heap (fun m => m <=? 500) 3 0 statics_at_load
             (demux_on EmptyString fzero microdvd_sample)
    = Opened g d load es
    /\ i_subtitles (p_sys d) <= 2.
Proof.
  match eval vm_compute in
        (Open_mem zero_text zero_heap (fun m => m <=? 500) 3 0 statics_at_load
                  (demux_on EmptyString fzero microdvd_sample)) with
  | Opened ?g ?d ?l ?e =>
      exists g, d, l, e;
      assert (E : Open_mem zero_text zero_heap (fun m => m <=? 500) 3 0
                           statics_at_load
                           (demux_on EmptyString fzero microdvd_sample)
                  = Opened g d l e) by (vm_compute; reflexivity);
      split; [exact E|];
      pose proof (Open_returns zero_text zero_heap (fun m => m <=? 500) 3 0
                    statics_at_load
                    (demux_on EmptyString fzero microdvd_sample)
                    ltac:(discriminate)
                    ltac:(repeat constructor)
                    ltac:(simpl; lia)) as H;
      rewrite E in H;
      exact (proj1 (proj2 (proj2 H)))
  end.
Defined.

(** ** What [Open] leaves in the session *)

Lemma is_ssa_false (ty : sub_type) :
  is_ssa ty = false ->
  ty <> SUB_TYPE_SSA1 /\ ty <> SUB_TYPE_SSA2_4 /\ ty <> SUB_TYPE_ASS.
Proof.
  unfold is_ssa. destruct ty; simpl; intros H; repeat split;
    solve [discriminate | congruence].
Qed.

(** X11.  After a successful [Open]: the type is not Unknown; the codec of
    the elementary stream is [ssa ] for the three SSA types and [subt] for
    the others; its extra data is the header, which is absent for every
    type but the SSA ones; the frame duration is the one the variables
    [sub-fps] and [sub-original-fps] give (40000 without them) unless the
    type is MicroDVD; [sub-fps] is as it was unless the type is MPSub; the
    next demux date is untouched, the stream is read to its end, the index
    is 0 and the line table is released. *)
Theorem Open_settles_format (text0 : Z -> ascii) (heap0 : Z -> subtitle_t)
  (fuel : nat) (idate : Z) (g g' : statics) (d d' : demux_t)
  (load : vlc_code) (es : es_format_t) :
  Open text0 heap0 fuel idate g d = Opened g' d' load es ->
  let ty := i_type (p_sys d') in
  ty <> SUB_TYPE_UNKNOWN
  /\ i_codec es = (if is_ssa ty then "ssa " else "subt")
  /\ p_extra es = psz_header (p_sys d')
  /\ (is_ssa ty = false -> p_extra es = None)
  /\ (ty <> SUB_TYPE_MICRODVD ->
      i_microsecperframe (p_sys d') = configured_frame_duration d)
  /\ (ty <> SUB_TYPE_MPSUB -> sub_fps d' = sub_fps d)
  /\ i_next_demux_date (p_sys d') = idate
  /\ unread (s d') = []
  /\ i_subtitle (p_sys d') = 0
  /\ txt (p_sys d') = mk_text 0 0 [].
Proof.
  unfold Open. destruct (negb (b_force d)); [discriminate|].
  destruct (if sub_type_eqb _ SUB_TYPE_UNKNOWN then _ else _) as [ty st].
  destruct (sub_type_eqb ty SUB_TYPE_UNKNOWN) eqn:Eu; [discriminate|].
  destruct (reader_of_type (sub_read_subtitle_function text0) ty) as [pf|] eqn:Er;
    [|discriminate].
  pose proof (TextLoad_loads st) as (Ht & Hun & _).
  destruct (TextLoad st) as [[load0 t] st']. simpl in Ht, Hun. subst t.
  match goal with
  | |- context [Open_parse heap0 fuel pf g ?d0] => set (d0' := d0)
  end.
  destruct (Open_parse heap0 fuel pf g d0') as [g1 d1| |] eqn:Ep;
    try discriminate.
  intros H. injection H as <- <- <- <-. cbv zeta.
  assert (Hloop : forall R : demux_t -> demux_t -> Prop,
             (forall a b c, R a b -> R b c -> R a c) ->
             (forall a sub, R a (set_sys a (push_subtitle (p_sys a) sub))) ->
             respects R pf -> R d0' d1).
  { intros R Ht Hp Hr.
    exact (Open_parse_respects R Ht Hp heap0 pf Hr fuel g d0' g1 d1 Ep). }
  assert (Hsess : i_type (p_sys d1) = ty /\ s d1 = st'
                  /\ i_next_demux_date (p_sys d1) = idate).
  { apply (Hloop (fun a b => i_type (p_sys b) = i_type (p_sys a)
                            /\ s b = s a
                            /\ i_next_demux_date (p_sys b)
                               = i_next_demux_date (p_sys a))).
    - intros a b c (A1 & A2 & A3) (B1 & B2 & B3). repeat split; congruence.
    - intros a sub. repeat split.
    - intros g0 a sub idx c g2 b sub2 E.
      pose proof (table_readers_keep_session text0 ty pf Er _ _ _ _ _ _ _ _ E)
        as Hs.
      unfold same_session in Hs. tauto. }
  destruct Hsess as (Hty & Hst & Hdate). simpl. rewrite Hty, Hst.
  assert (Hne : ty <> SUB_TYPE_UNKNOWN) by (intros ->; discriminate).
  split; [exact Hne|]. split; [reflexivity|]. split; [reflexivity|].
  split; [|split; [|split; [|split; [|split; [|split]]]]];
    try assumption; try reflexivity.
  - intros Hssa. destruct (is_ssa_false ty Hssa) as (H1 & H2 & H3).
    apply (Hloop (fun a b => psz_header (p_sys b) = psz_header (p_sys a)));
      [intros; congruence | reflexivity |].
    exact (only_SSA_sets_header text0 ty pf H1 H2 H3 Er).
  - intros Hm. unfold configured_frame_duration.
    apply (Hloop (fun a b => i_microsecperframe (p_sys b)
                            = i_microsecperframe (p_sys a)));
      [intros; congruence | reflexivity |].
    exact (only_MicroDvd_sets_frame_duration text0 ty pf Hm Er).
  - intros Hm.
    apply (Hloop (fun a b => sub_fps b = sub_fps a));
      [intros; congruence | reflexivity |].
    exact (only_MPSub_sets_sub_fps text0 ty pf Hm Er).
Qed.

Lemma Open_settles_format_witness :
  exists g d load es,
    open_fresh EmptyString fzero microdvd_sample = Opened g d load es
    /\ i_codec es = "subt" /\ p_extra es = None.
Proof.
  match eval vm_compute in (open_fresh EmptyString fzero microdvd_sample) with
  | Opened ?g ?d ?l ?e =>
      exists g, d, l, e;
      assert (E : open_fresh EmptyString fzero microdvd_sample = Opened g d l e)
        by (vm_compute; reflexivity);
      split; [exact E|];
      destruct (Open_settles_format _ _ _ _ _ _ _ _ _ _ E)
        as (_ & Hc & _ & He & _);
      split; [exact Hc | exact (He eq_refl)]
  end.
Defined.

(* ================================================================== *)
(** * SAMI: two SYNC tags on a line *)

Lemma nbsp_inside (body w : string) :
  no_tag body ->
  strncmp_eq (body ++ String "<" w)%string "&nbsp;" 6 = true ->
  exists body', body = ("&nbsp;" ++ body')%string /\ no_tag body'.
Proof.
  unfold strncmp_eq. intros Hb H.
  repeat (destruct body as [|? body];
          [ simpl in H; discriminate
          | simpl in H;
            match type of H with
            | (if Ascii.eqb ?a ?b then _ else _) = true =>
                destruct (Ascii.eqb_spec a b); [subst|discriminate]
            end;
            destruct Hb as (_ & Hb) ]).
  exists body. split; [reflexivity | exact Hb].
Qed.

Lemma sami_skip_nonempty (fuel : nat) (t : text_t) (c : ascii) (r : string) :
  sami_skip_empty fuel t (Some (String c r)) = Some (Some (String c r), t).
Proof. destruct fuel; reflexivity. Qed.

Lemma ParseSamiSearch_loop_here (pre rest : list string) (l needle m : string) :
  strcasestr l needle = Some m ->
  let lines := pre ++ l :: rest in
  let n := Z.of_nat (List.length lines) in
  ParseSamiSearch (mk_text n (Z.of_nat (List.length pre)) lines) None needle
  = Some (Some (str_drop (String.length needle) m),
          mk_text n (Z.of_nat (List.length (pre ++ [l]))) lines).
Proof.
  intros Hm lines n. unfold ParseSamiSearch.
  subst n lines. rewrite lines_left_at. cbn [length ParseSamiSearch_loop].
  rewrite TextGetLine_next by reflexivity. rewrite Hm. reflexivity.
Qed.

Lemma append_assoc (a b c : string) :
  ((a ++ b) ++ c = a ++ (b ++ c))%string.
Proof. induction a; simpl; congruence. Qed.

Lemma append_empty (a : string) : (a ++ EmptyString)%string = a.
Proof. induction a; simpl; congruence. Qed.

(** ** The text of the cue *)

Lemma append_length (a b : string) :
  String.length (a ++ b) = (String.length a + String.length b)%nat.
Proof. induction a as [|c a IH]; simpl; [reflexivity | rewrite IH; reflexivity]. Qed.

Lemma get_append_left (a b : string) (j : nat) :
  (j < String.length a)%nat -> String.get j (a ++ b) = String.get j a.
Proof.
  revert j. induction a as [|c a IH]; intros j Hj; simpl in *; [lia|].
  destruct j as [|j]; [reflexivity|]. apply IH. lia.
Qed.

Lemma get_append_end (a : string) (c : ascii) :
  String.get (String.length a) (a ++ String c EmptyString) = Some c.
Proof. induction a as [|x a IH]; simpl; [reflexivity | exact IH]. Qed.

Lemma nul_free_append (a b : string) :
  nul_free a -> nul_free b -> nul_free (a ++ b).
Proof.
  induction a as [|c a IH]; simpl; [auto|]. intros (Hc & Ha) Hb.
  split; [exact Hc | apply IH; assumption].
Qed.

(** Appending a character: it is stored when it fits, dropped at the
    cap. *)
Lemma sami_put_holds (text : Z -> ascii) (acc : string) (c : ascii) :
  buf_holds text acc -> c <> NUL ->
  exists text',
    let acc' := if Z.of_nat (String.length acc) + 1 <? sizeof_text
                then (acc ++ String c EmptyString)%string else acc in
    sami_put text (Z.of_nat (String.length acc)) c
    = Some (text', Z.of_nat (String.length acc'))
    /\ buf_holds text' acc'.
Proof.
  intros (Hn & Hl & Hz & Hg) Hc. unfold sami_put.
  replace (Ascii.eqb c NUL) with false
    by (symmetry; apply Ascii.eqb_neq; exact Hc).
  cbn [negb andb].
  destruct (Z.of_nat (String.length acc) + 1 <? sizeof_text) eqn:El.
  - apply Z.ltb_lt in El.
    rewrite store_inside by lia. rewrite store_inside by lia.
    eexists. cbv zeta. split.
    + rewrite append_length. simpl String.length.
      replace (Z.of_nat (String.length acc + 1))
        with (Z.of_nat (String.length acc) + 1) by lia.
      reflexivity.
    + split; [apply nul_free_append; [exact Hn | split; [exact Hc | exact I]]|].
      rewrite append_length. simpl String.length.
      replace (Z.of_nat (String.length acc + 1))
        with (Z.of_nat (String.length acc) + 1) by lia.
      split; [lia|]. split; [rewrite Z.eqb_refl; reflexivity|].
      intros j Hj.
      destruct (Nat.eq_dec j (String.length acc)) as [->|Hne].
      * rewrite get_append_end.
        replace (Z.of_nat (String.length acc) =? Z.of_nat (String.length acc) + 1)
          with false by (symmetry; apply Z.eqb_neq; lia).
        rewrite Z.eqb_refl. reflexivity.
      * rewrite get_append_left by lia. rewrite Hg by lia.
        replace (Z.of_nat j =? Z.of_nat (String.length acc) + 1)
          with false by (symmetry; apply Z.eqb_neq; lia).
        replace (Z.of_nat j =? Z.of_nat (String.length acc))
          with false by (symmetry; apply Z.eqb_neq; lia).
        reflexivity.
  - exists text. cbv zeta. split; [reflexivity|]. repeat split; assumption.
Qed.

Lemma str_take_append_one (s : string) (c : ascii) (n : nat) :
  (if (String.length (str_take n s) <? n)%nat
   then (str_take n s ++ String c EmptyString)%string else str_take n s)
  = str_take n (s ++ String c EmptyString).
Proof.
  revert s. induction n as [|n IH]; intros s; [reflexivity|].
  destruct s as [|a s]; [destruct n; reflexivity|].
  cbn [str_take String.length append].
  specialize (IH s).
  change (S (String.length (str_take n s)) <? S n)%nat
    with (String.length (str_take n s) <? n)%nat.
  destruct (String.length (str_take n s) <? n)%nat; simpl; rewrite <- IH;
    reflexivity.
Qed.

Lemma sami_chars_enough (k : nat) :
  forall body, (String.length body <= k)%nat ->
               sami_chars k body = sami_chars (String.length body) body.
Proof.
  induction k as [k IH] using lt_wf_ind. intros body Hk.
  destruct body as [|c r]; [destruct k; reflexivity|].
  destruct k as [|k]; [simpl in Hk; lia|].
  cbn [String.length sami_chars].
  assert (Hd : (String.length (str_drop 6 (String c r)) <= String.length r)%nat).
  { pose proof (str_drop_length 6 (String c r)) as Hd.
    assert (Hd5 : forall s, (String.length (str_drop 5 s) <= String.length s)%nat).
    { intros s. pose proof (str_drop_length 5 s). lia. }
    cbn [str_drop]. apply Hd5. }
  simpl in Hk.
  destruct (strncmp_eq (String c r) "&nbsp;" 6).
  - rewrite (IH k) by lia. rewrite (IH (String.length r)) by lia. reflexivity.
  - rewrite (IH k) by lia. reflexivity.
Qed.

Lemma nbsp_test_body (body w : string) :
  strncmp_eq (body ++ String "<" w) "&nbsp;" 6 = strncmp_eq body "&nbsp;" 6.
Proof.
  unfold strncmp_eq.
  do 6 (destruct body as [|? body]; [reflexivity|];
        cbn [append strn_eq];
        match goal with
        | |- (if ?b then _ else _) = _ => destruct b; [|reflexivity]
        end).
  reflexivity.
Qed.

Lemma c_string_holds (acc : string) :
  forall (n : nat) (text : Z -> ascii) (i : Z),
    (String.length acc < n)%nat ->
    nul_free acc ->
    text (i + Z.of_nat (String.length acc)) = NUL ->
    (forall j, (j < String.length acc)%nat ->
               String.get j acc = Some (text (i + Z.of_nat j))) ->
    c_string n text i = Some acc.
Proof.
  induction acc as [|c acc IH]; intros n text i Hn Hf Hz Hg;
    (destruct n as [|n]; [simpl in Hn; lia|]); cbn [c_string].
  - simpl in Hz. replace (i + 0) with i in Hz by lia. rewrite Hz.
    unfold NUL. rewrite Ascii.eqb_refl. reflexivity.
  - destruct Hf as (Hc & Hf).
    assert (H0 := Hg O ltac:(simpl; lia)). simpl in H0.
    replace (i + 0) with i in H0 by lia. injection H0 as H0. rewrite <- H0.
    replace (Ascii.eqb c NUL) with false
      by (symmetry; apply Ascii.eqb_neq; exact Hc).
    rewrite (IH n text (i + 1)); [reflexivity | simpl in Hn; lia | exact Hf | |].
    + simpl String.length in Hz.
      replace (i + 1 + Z.of_nat (String.length acc))
        with (i + Z.of_nat (S (String.length acc))) by lia. exact Hz.
    + intros j Hj. specialize (Hg (S j) ltac:(simpl; lia)). simpl in Hg.
      rewrite Hg. f_equal. f_equal. lia.
Qed.

Lemma strdup_text_holds (text : Z -> ascii) (acc : string) :
  buf_holds text acc -> strdup_text text = Some acc.
Proof.
  intros (Hn & Hl & Hz & Hg). unfold strdup_text.
  apply c_string_holds;
    [ unfold sizeof_text in *; lia | exact Hn | exact Hz
    | intros j Hj; rewrite Hg by exact Hj; reflexivity ].
Qed.

Lemma nul_free_drop (n : nat) :
  forall t, nul_free t -> nul_free (str_drop n t).
Proof.
  induction n as [|n IH]; intros [|c r] H; simpl; auto.
  apply IH. exact (proj2 H).
Qed.

Lemma put_is_take (done : string) (c : ascii) :
  (if Z.of_nat (String.length (str_take (Z.to_nat 8191) done)) + 1 <? sizeof_text
   then (str_take (Z.to_nat 8191) done ++ String c EmptyString)%string
   else str_take (Z.to_nat 8191) done)
  = str_take (Z.to_nat 8191) (done ++ String c EmptyString).
Proof.
  rewrite <- str_take_append_one.
  destruct (String.length (str_take (Z.to_nat 8191) done) <? Z.to_nat 8191)%nat
    eqn:E.
  - apply Nat.ltb_lt in E.
    replace (_ <? sizeof_text) with true; [reflexivity|].
    symmetry. apply Z.ltb_lt. unfold sizeof_text. lia.
  - apply Nat.ltb_ge in E.
    replace (_ <? sizeof_text) with false; [reflexivity|].
    symmetry. apply Z.ltb_ge. unfold sizeof_text. lia.
Qed.

(** The loop of [ParseSami] on a paragraph without tags that the next
    SYNC tag follows on the line: the paragraph is collected, the cursor
    is put back on the line. *)
Lemma ParseSami_loop_collects (n : nat) :
  forall body fuel t1 text done tail,
    (String.length body <= n)%nat ->
    (String.length body < fuel)%nat ->
    no_tag body -> nul_free body ->
    buf_holds text (str_take (Z.to_nat 8191) done) ->
    let acc := str_take (Z.to_nat 8191)
                 (done ++ sami_chars (String.length body) body) in
    exists text',
      ParseSami_loop fuel t1 (Some (body ++ "<SYNC Start=" ++ tail)%string)
                     text (Z.of_nat (String.length (str_take (Z.to_nat 8191) done)))
      = Sami_done (TextPreviousLine t1) text' (Z.of_nat (String.length acc))
      /\ buf_holds text' acc.
Proof.
  induction n as [|n IH]; intros body fuel t1 text done tail Hn Hf Hb Hz Hbuf;
    (destruct fuel as [|k]; [lia|]); destruct body as [|c0 rest];
    try (simpl in Hn; lia); cbv zeta.
  - exists text. cbn [ParseSami_loop String.length sami_chars].
    change ((EmptyString ++ "<SYNC Start=" ++ tail)%string)
      with (String "<" ("SYNC Start=" ++ tail)).
    rewrite sami_skip_nonempty, append_empty. split; [reflexivity | exact Hbuf].
  - exists text. cbn [ParseSami_loop String.length sami_chars].
    change ((EmptyString ++ "<SYNC Start=" ++ tail)%string)
      with (String "<" ("SYNC Start=" ++ tail)).
    rewrite sami_skip_nonempty, append_empty. split; [reflexivity | exact Hbuf].
  - destruct Hb as (Hc & Hrest). destruct Hz as (Hc0 & Hzr). simpl in Hn, Hf.
    cbn [ParseSami_loop].
    change ((String c0 rest ++ "<SYNC Start=" ++ tail)%string)
      with (String c0 (rest ++ "<SYNC Start=" ++ tail)).
    rewrite sami_skip_nonempty.
    replace (Ascii.eqb c0 "<") with false
      by (symmetry; apply Ascii.eqb_neq; exact Hc).
    assert (Hcont : forall c body',
               c <> NUL ->
               (String.length body' <= n)%nat ->
               (String.length body' < k)%nat -> no_tag body' -> nul_free body' ->
               sami_chars (String.length (String c0 rest)) (String c0 rest)
               = String c (sami_chars (String.length body') body') ->
               exists text',
                 match sami_put text
                         (Z.of_nat (String.length (str_take (Z.to_nat 8191) done)))
                         c with
                 | Some (text1, i1) =>
                     ParseSami_loop k t1
                       (Some (body' ++ "<SYNC Start=" ++ tail)%string) text1 i1
                 | None => Sami_undefined
                 end
                 = Sami_done (TextPreviousLine t1) text'
                     (Z.of_nat
                        (String.length
                           (str_take (Z.to_nat 8191)
                              (done ++ sami_chars (String.length (String c0 rest))
                                         (String c0 rest)))))
                 /\ buf_holds text'
                      (str_take (Z.to_nat 8191)
                         (done ++ sami_chars (String.length (String c0 rest))
                                    (String c0 rest)))).
    { intros c body' Hcn Hl Hk Hb' Hz' Hchars.
      destruct (sami_put_holds text _ c Hbuf Hcn) as (text1 & Hput & Hok).
      cbv zeta in Hput, Hok. rewrite put_is_take in Hput, Hok.
      rewrite Hput. rewrite Hchars.
      replace (done ++ String c (sami_chars (String.length body') body'))%string
        with ((done ++ String c EmptyString)
              ++ sami_chars (String.length body') body')%string
        by (rewrite append_assoc; reflexivity).
      exact (IH body' k t1 text1 (done ++ String c EmptyString)%string tail
               Hl Hk Hb' Hz' Hok). }
    change (String c0 (rest ++ "<SYNC Start=" ++ tail))
      with (String c0 rest ++ String "<" ("SYNC Start=" ++ tail))%string.
    rewrite nbsp_test_body.
    change (String c0 rest ++ String "<" ("SYNC Start=" ++ tail))%string
      with (String c0 (rest ++ "<SYNC Start=" ++ tail)).
    cbn [String.length sami_chars] in Hcont |- *.
    destruct (strncmp_eq (String c0 rest) "&nbsp;" 6) eqn:En.
    + assert (En' : strncmp_eq (String c0 rest ++ String "<" ("SYNC Start=" ++ tail))
                               "&nbsp;" 6 = true)
        by (rewrite nbsp_test_body; exact En).
      destruct (nbsp_inside (String c0 rest) ("SYNC Start=" ++ tail)%string)
        as (body' & Eb & Hb'); [split; assumption | exact En' |].
      assert (Hdrop6 : str_drop 6 (String c0 (rest ++ "<SYNC Start=" ++ tail))
                       = (body' ++ "<SYNC Start=" ++ tail)%string).
      { injection Eb as -> ->. reflexivity. }
      assert (Hdropb : str_drop 6 (String c0 rest) = body').
      { injection Eb as -> ->. reflexivity. }
      assert (Hlen : String.length rest = (5 + String.length body')%nat).
      { injection Eb as -> ->. reflexivity. }
      rewrite Hdrop6.
      apply (Hcont " "%char body'); try lia; try assumption.
      * discriminate.
      * rewrite <- Hdropb. apply (nul_free_drop 6 (String c0 rest)).
        split; assumption.
      * rewrite Hdropb. f_equal. apply sami_chars_enough. lia.
    + destruct (Ascii.eqb c0 TAB).
      * apply (Hcont " "%char rest); try lia; try assumption;
          [discriminate | reflexivity].
      * apply (Hcont c0 rest); try lia; try assumption. reflexivity.
Qed.

(** [ParseSami] on a line with two SYNC tags returns the first paragraph
    and leaves the cursor on the line. *)
Lemma ParseSami_same_line_text (text0 : Z -> ascii) (pre rest : list string)
  (body tail : string) (sub : subtitle_t) :
  no_tag body -> nul_free body ->
  let lines := pre ++ two_syncs body tail :: rest in
  let t := mk_text (Z.of_nat (List.length lines)) (Z.of_nat (List.length pre))
                   lines in
  ParseSami text0 t sub
  = Ret VLC_SUCCESS t (mk_subtitle 1000000 0 (sami_text body)).
Proof.
  intros Hb Hz lines t. unfold ParseSami.
  set (X := (body ++ "<SYNC Start=" ++ tail)%string).
  assert (E1 : strcasestr (two_syncs body tail) "Start="
               = Some ("Start=1000><P>" ++ X)%string) by reflexivity.
  subst t lines.
  rewrite (ParseSamiSearch_loop_here pre rest _ _ _ E1).
  change (str_drop (String.length "Start=") ("Start=1000><P>" ++ X)%string)
    with ("1000><P>" ++ X)%string.
  assert (E2 : strtol0 ("1000><P>" ++ X)%string = (1000, ("><P>" ++ X)%string))
    by reflexivity.
  rewrite E2. cbn [ParseSamiSearch].
  assert (E3 : strcasestr ("><P>" ++ X)%string "<P" = Some ("<P>" ++ X)%string)
    by reflexivity.
  rewrite E3.
  change (str_drop (String.length "<P") ("<P>" ++ X)%string)
    with (">" ++ X)%string.
  assert (E4 : strcasestr (">" ++ X)%string ">" = Some (">" ++ X)%string)
    by reflexivity.
  rewrite E4.
  change (str_drop (String.length ">") (">" ++ X)%string) with X.
  rewrite store_inside by (unfold sizeof_text; lia).
  assert (Hbuf : buf_holds (fun j => if j =? 0 then NUL else text0 j)
                           (str_take (Z.to_nat 8191) EmptyString)).
  { change (str_take (Z.to_nat 8191) EmptyString) with EmptyString.
    split; [exact I|]. split; [unfold sizeof_text; simpl; lia|].
    split; [reflexivity | intros j Hj; simpl in Hj; lia]. }
  set (t1 := mk_text _ (Z.of_nat (List.length (pre ++ [two_syncs body tail]))) _).
  destruct (ParseSami_loop_collects (String.length body) body
              (sami_fuel t1 (Some X)) t1
              (fun j => if j =? 0 then NUL else text0 j) EmptyString tail (le_n _))
    as (text & Hloop & Hok); [| exact Hb | exact Hz | exact Hbuf |].
  { unfold sami_fuel, sami_left, X. rewrite append_length. lia. }
  fold X in Hloop.
  change (Z.of_nat (String.length (str_take (Z.to_nat 8191) EmptyString)))
    with 0 in Hloop.
  rewrite Hloop. rewrite (strdup_text_holds text _ Hok).
  change (EmptyString ++ sami_chars (String.length body) body)%string
    with (sami_chars (String.length body) body).
  fold (sami_text body). f_equal.
  unfold t1, TextPreviousLine. cbn [i_line i_line_count line].
  rewrite length_app. simpl.
  replace (Z.of_nat (List.length pre + 1) >? 0) with true
    by (symmetry; rewrite Z.gtb_ltb; apply Z.ltb_lt; lia).
  f_equal. lia.
Qed.

(** ** The parsing loop of [Open] on such a line *)

(** The parsing loop on a line with two SYNC tags: every call of the
    reader returns the cue, so the loop is left by the [realloc] only. *)
Lemma Open_parse_mem_sami_never_done (text0 : Z -> ascii)
  (heap0 : Z -> subtitle_t) (realloc_ok : Z -> bool)
  (pre rest : list string) (body tail : string) :
  no_tag body -> nul_free body ->
  let lines := pre ++ two_syncs body tail :: rest in
  let t := mk_text (Z.of_nat (List.length lines)) (Z.of_nat (List.length pre))
                   lines in
  forall fuel i_max g d,
    txt (p_sys d) = t ->
    match Open_parse_mem heap0 realloc_ok fuel i_max (ParseSami_reader text0) g d
    with
    | Mem_done _ _ => False
    | _ => True
    end.
Proof.
  intros Hb Hz lines t. induction fuel as [|k IH]; intros i_max g d Ht;
    [exact I|].
  cbn [Open_parse_mem]. cbv zeta.
  destruct (_ && (INT_MAX <? _)); [exact I|].
  destruct (_ && negb _); [exact I|].
  unfold ParseSami_reader at 1, on_demux, on_txt. rewrite Ht.
  pose proof (ParseSami_same_line_text text0 pre rest body tail
                (heap0 (i_subtitles (p_sys d))) Hb Hz) as E.
  cbv zeta in E. fold lines in E. fold t in E. rewrite E. cbn [map_state nonzero].
  apply IH. reflexivity.
Qed.

Lemma Open_parse_mem_sami_same_line (text0 : Z -> ascii)
  (heap0 : Z -> subtitle_t) (realloc_ok : Z -> bool)
  (pre rest : list string) (body tail : string) (b : Z) :
  no_tag body -> nul_free body ->
  500 * b + 500 <= INT_MAX ->
  let lines := pre ++ two_syncs body tail :: rest in
  let t := mk_text (Z.of_nat (List.length lines)) (Z.of_nat (List.length pre))
                   lines in
  let cue := mk_subtitle 1000000 0 (sami_text body) in
  forall fuel a g d,
    txt (p_sys d) = t ->
    0 <= a <= b ->
    0 <= i_subtitles (p_sys d) <= 500 * a ->
    (forall j, a < j <= b -> realloc_ok (500 * j) = true) ->
    (Z.of_nat fuel <= 500 * b - i_subtitles (p_sys d) ->
     Open_parse_mem heap0 realloc_ok fuel (500 * a) (ParseSami_reader text0) g d
     = Mem_out_of_fuel)
    /\ (500 * b - i_subtitles (p_sys d) < Z.of_nat fuel ->
        realloc_ok (500 * (b + 1)) = false ->
        exists d',
          Open_parse_mem heap0 realloc_ok fuel (500 * a)
                         (ParseSami_reader text0) g d
          = Mem_enomem g d'
          /\ i_subtitles (p_sys d') = 500 * b
          /\ subtitle (p_sys d')
             = subtitle (p_sys d)
               ++ repeat cue (Z.to_nat (500 * b - i_subtitles (p_sys d)))).
Proof.
  intros Hb Hz Hmax lines t cue.
  induction fuel as [|k IH]; intros a g d Ht Ha Hn Hok.
  - split; [reflexivity|]. intros H. lia.
  - cbn [Open_parse_mem]. cbv zeta.
    set (n := i_subtitles (p_sys d)) in *.
    pose proof (ParseSami_same_line_text text0 pre rest body tail (heap0 n) Hb Hz)
      as E.
    cbv zeta in E. fold lines in E. fold t in E. fold cue in E.
    assert (Hstep : forall a',
               a <= a' <= b -> n + 1 <= 500 * a' ->
               (forall j, a' < j <= b -> realloc_ok (500 * j) = true) ->
               (Z.of_nat (S k) <= 500 * b - n ->
                match ParseSami_reader text0 g d (heap0 n) n with
                | Ret code (g', d') sub =>
                    if nonzero code then Mem_done g' d'
                    else Open_parse_mem heap0 realloc_ok k (500 * a')
                           (ParseSami_reader text0) g'
                           (set_sys d' (push_subtitle (p_sys d') sub))
                | Undefined => Mem_undefined
                | OutOfFuel => Mem_out_of_fuel
                end = Mem_out_of_fuel)
               /\ (500 * b - n < Z.of_nat (S k) ->
                   realloc_ok (500 * (b + 1)) = false ->
                   exists d',
                     match ParseSami_reader text0 g d (heap0 n) n with
                     | Ret code (g', d') sub =>
                         if nonzero code then Mem_done g' d'
                         else Open_parse_mem heap0 realloc_ok k (500 * a')
                                (ParseSami_reader text0) g'
                                (set_sys d' (push_subtitle (p_sys d') sub))
                     | Undefined => Mem_undefined
                     | OutOfFuel => Mem_out_of_fuel
                     end = Mem_enomem g d'
                     /\ i_subtitles (p_sys d') = 500 * b
                     /\ subtitle (p_sys d')
                        = subtitle (p_sys d) ++ repeat cue (Z.to_nat (500 * b - n)))).
    { intros a' Ha' Hn' Hok'.
      unfold ParseSami_reader at 1 3, on_demux, on_txt. rewrite Ht, E.
      cbn [map_state nonzero].
      match goal with
      | |- context [Open_parse_mem heap0 realloc_ok k (500 * a') _ g ?d1] =>
          destruct (IH a' g d1 eq_refl ltac:(lia)
                      ltac:(simpl i_subtitles; fold n; lia) Hok') as (IH1 & IH2);
          simpl i_subtitles in IH1, IH2; simpl subtitle in IH2;
          fold n in IH1, IH2
      end.
      split.
      - intros Hf. apply IH1. lia.
      - intros Hf Hr. destruct (IH2 ltac:(lia) Hr) as (d' & E1 & E2 & E3).
        exists d'. split; [exact E1|]. split; [exact E2|].
        rewrite E3, <- app_assoc. f_equal.
        replace (Z.to_nat (500 * b - n)) with (S (Z.to_nat (500 * b - (n + 1))))
          by lia.
        reflexivity. }
    destruct (n >=? 500 * a) eqn:Eg; cbn [andb].
    + rewrite Z.geb_leb in Eg. apply Z.leb_le in Eg.
      assert (En : n = 500 * a) by lia.
      replace (INT_MAX <? 500 * a + 500) with false
        by (symmetry; apply Z.ltb_ge; lia).
      destruct (Z.eq_dec a b) as [Eab|Nab].
      * subst a. split; [intros H; lia|].
        intros _ Hr.
        replace (500 * b + 500) with (500 * (b + 1)) by lia.
        rewrite Hr. cbn [negb]. exists d.
        split; [reflexivity|]. split; [exact En|].
        replace (500 * b - n) with 0 by lia. simpl. rewrite app_nil_r.
        reflexivity.
      * replace (500 * a + 500) with (500 * (a + 1)) by lia.
        rewrite (Hok (a + 1)) by lia. cbn [negb].
        apply Hstep; [lia | lia |]. intros j Hj. apply Hok. lia.
    + rewrite Z.geb_leb in Eg. apply Z.leb_gt in Eg.
      apply Hstep; [lia | lia | exact Hok].
Qed.

(** X12.  A SAMI line that holds a paragraph without tags and the next
    SYNC tag: every call of [ParseSami] at that line returns the paragraph
    as a cue, its text the paragraph with [&nbsp;] and tabs as spaces, cut
    at 8191 characters, and, by its [TextPreviousLine], leaves the cursor
    on the line.  With the [sub-type] variable [sami], on a stream whose
    first line is such a line, the parsing loop of [Open] is never ended by
    the reader: [Open] does not succeed and does not return VLC_EGENERIC.
    While [realloc] grants its requests the loop goes on; at the first
    refused request, for 500 (k + 1) slots, [Open] returns VLC_ENOMEM
    after 500 k copies of the cue. *)
Theorem sami_same_line_sync_never_ends (text0 : Z -> ascii)
  (heap0 : Z -> subtitle_t) (realloc_ok : Z -> bool) (fuel : nat) (idate : Z)
  (g : statics) (d : demux_t) (body tail : string) (rest : list string) :
  b_force d = true ->
  sub_type_name d = "sami" ->
  unread (s d) = two_syncs body tail :: rest ->
  no_tag body -> nul_free body ->
  let cue := mk_subtitle 1000000 0 (sami_text body) in
  let t := mk_text (Z.of_nat (S (List.length rest))) 0
                   (two_syncs body tail :: rest) in
  let opened := Open_mem text0 heap0 realloc_ok fuel idate g d in
  (forall sub, ParseSami text0 t sub = Ret VLC_SUCCESS t cue)
  /\ match opened with
     | Opened _ _ _ _ => False
     | Open_error code _ _ => code = VLC_ENOMEM
     | Open_undefined | Open_out_of_fuel => True
     end
  /\ forall k,
       0 <= k -> 500 * (k + 1) <= INT_MAX ->
       (forall j, 0 < j <= k -> realloc_ok (500 * j) = true) ->
       (Z.of_nat fuel <= 500 * k -> opened = Open_out_of_fuel)
       /\ (500 * k < Z.of_nat fuel ->
           realloc_ok (500 * (k + 1)) = false ->
           exists d',
             opened = Open_error VLC_ENOMEM g d'
             /\ i_subtitles (p_sys d') = 500 * k
             /\ subtitle (p_sys d') = repeat cue (Z.to_nat (500 * k))).
Proof.
  intros Hforce Hname Hlines Hb Hz cue t opened.
  split; [intros sub; exact (ParseSami_same_line_text text0 [] rest body tail sub Hb Hz)|].
  assert (Hopen :
            exists d0,
              txt (p_sys d0) = t /\ i_subtitles (p_sys d0) = 0
              /\ subtitle (p_sys d0) = []
              /\ opened
                 = match Open_parse_mem heap0 realloc_ok fuel 0
                           (ParseSami_reader text0) g d0 with
                   | Mem_out_of_fuel => Open_out_of_fuel
                   | Mem_undefined => Open_undefined
                   | Mem_enomem g' d' =>
                       Open_error VLC_ENOMEM g'
                         (set_sys d' (set_txt (p_sys d')
                                        (TextUnload (txt (p_sys d')))))
                   | Mem_done g' d' => Open_undefined
                   end
              /\ (forall g' d', Open_parse_mem heap0 realloc_ok fuel 0
                                  (ParseSami_reader text0) g d0 <> Mem_done g' d')).
  { subst opened. unfold Open_mem. rewrite Hforce, Hname. cbn [negb].
    change (type_of_name (sub_read_subtitle_function text0) "sami")
      with SUB_TYPE_SAMI.
    cbn [sub_type_eqb].
    change (reader_of_type (sub_read_subtitle_function text0) SUB_TYPE_SAMI)
      with (Some (ParseSami_reader text0)).
    pose proof (TextLoad_loads (s d)) as (Ht & _).
    destruct (TextLoad (s d)) as [[load t0] st']. simpl in Ht. subst t0.
    rewrite Hlines.
    match goal with
    | |- context [Open_parse_mem heap0 realloc_ok fuel 0 _ g ?d0] =>
        exists d0;
        pose proof (Open_parse_mem_sami_never_done text0 heap0 realloc_ok []
                      rest body tail Hb Hz fuel 0 g d0 eq_refl) as Hnd
    end.
    split; [reflexivity|]. split; [reflexivity|]. split; [reflexivity|].
    destruct (Open_parse_mem heap0 realloc_ok fuel 0 _ g _) as [g1 d1|g1 d1| |];
      [contradiction| | |]; (split; [reflexivity | discriminate]). }
  destruct Hopen as (d0 & Ht & Hn0 & Hs0 & Eopen & Hnd).
  split.
  - rewrite Eopen.
    destruct (Open_parse_mem heap0 realloc_ok fuel 0 _ g d0) as [g1 d1|g1 d1| |];
      [exact I | reflexivity | exact I | exact I].
  - intros k Hk Hmax Hok.
    destruct (Open_parse_mem_sami_same_line text0 heap0 realloc_ok [] rest body
                tail k Hb Hz ltac:(lia) fuel 0 g d0 Ht ltac:(lia)
                ltac:(rewrite Hn0; lia) Hok) as (H1 & H2).
    rewrite Hn0 in H1, H2. rewrite Z.sub_0_r in H1, H2. rewrite Hs0 in H2.
    change (500 * 0) with 0 in H1, H2.
    split.
    + intros Hf. rewrite Eopen, (H1 Hf). reflexivity.
    + intros Hf Hr. destruct (H2 Hf Hr) as (d' & E1 & E2 & E3).
      rewrite Eopen, E1. eexists. split; [reflexivity|].
      split; [exact E2 | exact E3].
Qed.

Lemma sami_same_line_sync_never_ends_witness :
  exists d',
    Open_mem zero_text zero_heap (fun m => m <? 1000) 2000 0 statics_at_load
             (demux_on "sami" fzero [two_syncs "Hello" "2000><P>World"])
    = Open_error VLC_ENOMEM statics_at_load d'
    /\ i_subtitles (p_sys d') = 500.
Proof.
  destruct (sami_same_line_sync_never_ends zero_text zero_heap
              (fun m => m <? 1000) 2000 0 statics_at_load
              (demux_on "sami" fzero [two_syncs "Hello" "2000><P>World"])
              "Hello" "2000><P>World" [] eq_refl eq_refl eq_refl
              ltac:(repeat split; discriminate)
              ltac:(repeat split; discriminate))
    as (_ & _ & H).
  destruct (H 1 ltac:(lia) ltac:(unfold INT_MAX; lia)) as (_ & H2).
  { intros j Hj. assert (j = 1) by lia. subst j. reflexivity. }
  destruct (H2 ltac:(lia) eq_refl) as (d' & E & En & _).
  exists d'. split; [exact E | exact En].
Defined.

(* ================================================================== *)
(** * The formats: times, texts and entries *)

Lemma int32_in_range (z : Z) : is_int (int32 z).
Proof.
  unfold is_int, INT_MAX, int32, wrap.
  change (2 ^ 32) with 4294967296. change (2 ^ (32 - 1)) with 2147483648.
  change (2 ^ 31) with 2147483648.
  pose proof (Z.mod_pos_bound z 4294967296 ltac:(lia)) as H.
  destruct (z mod 4294967296 <? 2147483648) eqn:E.
  - apply Z.ltb_lt in E. lia.
  - apply Z.ltb_ge in E. lia.
Qed.

Lemma scan_vals_in_range (f : list directive) :
  forall inp vals,
    Forall val_in_range vals -> Forall val_in_range (fst (scan f inp vals)).
Proof.
  induction f as [|dir k IH]; intros inp vals Hv; [exact Hv|].
  destruct dir as [| c | assign | | assign | width negated set]; cbn [scan].
  - apply IH, Hv.
  - destruct inp as [|a r]; [exact Hv|].
    destruct (Ascii.eqb a c); [apply IH, Hv | exact Hv].
  - destruct (skip_spaces inp) as [|a r]; [exact Hv|].
    destruct (scan_decimal (String a r)) as [[v rest]|]; [|exact Hv].
    apply IH. destruct assign; [|exact Hv].
    apply Forall_app. split; [exact Hv|].
    constructor; [apply int32_in_range | constructor].
  - destruct (skip_spaces inp) as [|a r]; [exact Hv|].
    destruct (scan_number (String a r)) as [[n rest]|]; [|exact Hv].
    apply IH. apply Forall_app. split; [exact Hv|]. repeat constructor.
  - destruct inp as [|a r]; [exact Hv|].
    apply IH. destruct assign; [|exact Hv].
    apply Forall_app. split; [exact Hv|]. repeat constructor.
  - destruct inp as [|a r]; [exact Hv|].
    destruct (scan_set width negated set (String a r)) as [[|c run] rest];
      [exact Hv|].
    apply IH. apply Forall_app. split; [exact Hv|]. repeat constructor.
Qed.

Lemma sscanf_vals_in_range (l : string) (f : list directive) :
  Forall val_in_range (snd (sscanf l f)).
Proof.
  unfold sscanf. pose proof (scan_vals_in_range f l [] (Forall_nil _)) as H.
  destruct (scan f l []) as [vals stop]. simpl in H.
  destruct vals as [|v vs]; [destruct stop; constructor|exact H].
Qed.

Lemma time_us_small (h m sec d : Z) :
  is_int h -> is_int m -> is_int sec -> - 2 ^ 35 <= d <= 2 ^ 35 ->
  time_us h m sec d = ((h * 3600 + m * 60 + sec) * 1000 + d) * 1000.
Proof.
  unfold is_int, INT_MAX, time_us.
  change (2 ^ 31) with 2147483648. change (2 ^ 35) with 34359738368.
  intros Hh Hm Hs Hd.
  assert (Hs64 : forall z, - 9223372036854775808 <= z <= 9223372036854775807 ->
                           int64 z = z).
  { intros z Hz. apply int64_small. unfold INT64_MIN, INT64_MAX.
    change (2 ^ 63) with 9223372036854775808. lia. }
  rewrite (Hs64 (h * 3600 * 1000)) by lia.
  rewrite (Hs64 (m * 60 * 1000)) by lia.
  rewrite (Hs64 (sec * 1000)) by lia.
  rewrite (Hs64 (h * 3600 * 1000 + m * 60 * 1000)) by lia.
  rewrite (Hs64 (h * 3600 * 1000 + m * 60 * 1000 + sec * 1000)) by lia.
  rewrite (Hs64 (h * 3600 * 1000 + m * 60 * 1000 + sec * 1000 + d)) by lia.
  rewrite Hs64 by lia. lia.
Qed.

Lemma time_us_int (h m sec d : Z) :
  is_int h -> is_int m -> is_int sec -> is_int d ->
  time_us h m sec d = ((h * 3600 + m * 60 + sec) * 1000 + d) * 1000.
Proof.
  intros Hh Hm Hs Hd. apply time_us_small; try assumption.
  unfold is_int, INT_MAX in Hd. change (2 ^ 31) with 2147483648 in Hd.
  change (2 ^ 35) with 34359738368. lia.
Qed.

Lemma time_us_centi (h m sec c : Z) :
  is_int h -> is_int m -> is_int sec -> is_int c ->
  time_us h m sec (int64 (c * 10))
  = ((h * 3600 + m * 60 + sec) * 1000 + c * 10) * 1000.
Proof.
  intros Hh Hm Hs Hc.
  assert (Hc' := Hc). unfold is_int, INT_MAX in Hc'.
  change (2 ^ 31) with 2147483648 in Hc'.
  rewrite (int64_small (c * 10)).
  2:{ unfold INT64_MIN, INT64_MAX. change (2 ^ 63) with 9223372036854775808. lia. }
  apply time_us_small; try assumption.
  change (2 ^ 35) with 34359738368. lia.
Qed.

Ltac ints_of H :=
  repeat match type of H with
         | Forall _ (_ :: _) =>
             let Hv := fresh "Hv" in
             let Hr := fresh "Hr" in
             apply Forall_cons_iff in H; destruct H as (Hv & H); simpl in Hv
         end.

(** X13.  The times the readers compute are exact: whenever the
    [sscanf] of [ParseSubRipSubViewer], [ParseSSA], [ParseVplayer] or
    [ParseDVDSubtitle] matches a line, the start (and stop) it gives is
    ((h * 3600 + m * 60 + s) * 1000 + d) * 1000 of the numbers read, with
    d the fourth number for SubRip and SubViewer, ten times it for SSA and
    DVDSubtitle, and 0 for VPlayer.  The [int64_t] arithmetic never wraps,
    whatever [int] values the line holds. *)
Theorem reader_times_exact (l : string) :
  (forall fmt start stop,
      scan_timing fmt l = Some (start, stop) ->
      exists h1 m1 s1 d1 h2 m2 s2 d2,
        sscanf l (format fmt)
        = (8, [Vint h1; Vint m1; Vint s1; Vint d1;
               Vint h2; Vint m2; Vint s2; Vint d2])
        /\ start = ((h1 * 3600 + m1 * 60 + s1) * 1000 + d1) * 1000
        /\ stop = ((h2 * 3600 + m2 * 60 + s2) * 1000 + d2) * 1000)
  /\ (forall temp start stop text,
         scan_dialogue l = Some (temp, start, stop, text) ->
         exists h1 m1 s1 c1 h2 m2 s2 c2,
           sscanf l (format "Dialogue: %15[^,],%d:%d:%d.%d,%d:%d:%d.%d,%[^\r\n]")
           = (10, [Vstr temp; Vint h1; Vint m1; Vint s1; Vint c1;
                   Vint h2; Vint m2; Vint s2; Vint c2; Vstr text])
           /\ start = ((h1 * 3600 + m1 * 60 + s1) * 1000 + c1 * 10) * 1000
           /\ stop = ((h2 * 3600 + m2 * 60 + s2) * 1000 + c2 * 10) * 1000)
  /\ (forall start text,
         scan_vplayer l = Some (start, text) ->
         exists h1 m1 s1,
           sscanf l (format "%d:%d:%d%*c%[^\r\n]")
           = (4, [Vint h1; Vint m1; Vint s1; Vstr text])
           /\ start = (h1 * 3600 + m1 * 60 + s1) * 1000 * 1000)
  /\ (forall start,
         scan_dvdsubtitle l = Some start ->
         exists h1 m1 s1 c1,
           sscanf l (format "{T %d:%d:%d:%d")
           = (4, [Vint h1; Vint m1; Vint s1; Vint c1])
           /\ start = ((h1 * 3600 + m1 * 60 + s1) * 1000 + c1 * 10) * 1000).
Proof.
  split; [|split; [|split]].
  - intros fmt start stop. unfold scan_timing.
    pose proof (sscanf_vals_in_range l (format fmt)) as Hr.
    destruct (sscanf l (format fmt)) as [n vals]. simpl in Hr.
    repeat match goal with
           | |- match ?x with _ => _ end = _ -> _ => destruct x; try discriminate
           end.
    intros H. injection H as <- <-. ints_of Hr.
    do 8 eexists. split; [reflexivity|].
    split; apply time_us_int; assumption.
  - intros temp start stop text. unfold scan_dialogue.
    pose proof (sscanf_vals_in_range l
                  (format "Dialogue: %15[^,],%d:%d:%d.%d,%d:%d:%d.%d,%[^\r\n]"))
      as Hr.
    destruct (sscanf l _) as [n vals]. simpl in Hr.
    repeat match goal with
           | |- match ?x with _ => _ end = _ -> _ => destruct x; try discriminate
           end.
    intros H. injection H as <- <- <- <-. ints_of Hr.
    do 8 eexists. split; [reflexivity|].
    split; apply time_us_centi; assumption.
  - intros start text. unfold scan_vplayer.
    pose proof (sscanf_vals_in_range l (format "%d:%d:%d%*c%[^\r\n]")) as Hr.
    destruct (sscanf l _) as [n vals]. simpl in Hr.
    repeat match goal with
           | |- match ?x with _ => _ end = _ -> _ => destruct x; try discriminate
           end.
    intros H. injection H as <- <-. ints_of Hr.
    do 3 eexists. split; [reflexivity|].
    rewrite time_us_int; try assumption; [lia|].
    unfold is_int, INT_MAX. lia.
  - intros start. unfold scan_dvdsubtitle.
    pose proof (sscanf_vals_in_range l (format "{T %d:%d:%d:%d")) as Hr.
    destruct (sscanf l _) as [n vals]. simpl in Hr.
    repeat match goal with
           | |- match ?x with _ => _ end = _ -> _ => destruct x; try discriminate
           end.
    intros H. injection H as <-. ints_of Hr.
    do 4 eexists. split; [reflexivity|].
    apply time_us_centi; assumption.
Qed.

Lemma reader_times_exact_witness :
  exists h1 m1 s1 c1,
    sscanf "{T 1:2:3:2147483647" (format "{T %d:%d:%d:%d")
    = (4, [Vint h1; Vint m1; Vint s1; Vint c1])
    /\ 21478559470000
       = ((h1 * 3600 + m1 * 60 + s1) * 1000 + c1 * 10) * 1000.
Proof.
  assert (E : scan_dvdsubtitle "{T 1:2:3:2147483647" = Some 21478559470000)
    by (vm_compute; reflexivity).
  exact (proj2 (proj2 (proj2 (reader_times_exact "{T 1:2:3:2147483647")))
           21478559470000 E).
Defined.

Lemma str_take_length (n : nat) (t : string) :
  (n <= String.length t)%nat -> String.length (str_take n t) = n.
Proof.
  revert t. induction n as [|n IH]; intros [|a r] H; simpl in *;
    try reflexivity; try lia.
  rewrite IH by lia. reflexivity.
Qed.

Lemma str_index_inside (needle t : string) (i : nat) :
  str_index t needle = Some i ->
  (i + String.length needle <= String.length t)%nat.
Proof.
  revert i. induction t as [|a r IH]; intros i; cbn [str_index].
  - destruct (strn_eq (fun c => c) (String.length needle) EmptyString needle) eqn:E.
    + intros H. injection H as <-.
      apply strn_eq_length in E. simpl in *. lia.
    + discriminate.
  - destruct (strn_eq (fun c => c) (String.length needle) (String a r) needle)
      eqn:E.
    + intros H. injection H as <-. apply strn_eq_length in E. simpl in *. lia.
    + destruct (str_index r needle) as [j|]; [|discriminate].
      intros H. injection H as <-. specialize (IH j eq_refl). simpl. lia.
Qed.

Lemma replace_br_done (fuel : nat) :
  forall t, (String.length t <= fuel)%nat ->
            str_index (replace_br fuel t) "[br]" = None.
Proof.
  induction fuel as [|k IH]; intros t Hl.
  - destruct t; [reflexivity | simpl in Hl; lia].
  - cbn [replace_br]. destruct (str_index t "[br]") as [i|] eqn:E; [|exact E].
    apply IH. apply str_index_inside in E. simpl in E.
    rewrite !strcat_length, str_take_length, str_drop_length by lia.
    simpl. lia.
Qed.

Lemma SubRip_body_no_br (fuel : nat) :
  forall t text text' t',
    str_index text "[br]" = None ->
    SubRip_body fuel true t text = Some (Some text', t') ->
    str_index text' "[br]" = None.
Proof.
  induction fuel as [|k IH]; intros t text text' t' Ht; cbn [SubRip_body];
    [discriminate|].
  destruct (TextGetLine t) as [[l|] t1]; [|discriminate].
  destruct (strlen l <=? 0).
  - intros H. injection H as <- <-. exact Ht.
  - apply IH. apply replace_br_done. apply le_n.
Qed.

(** X14.  The text of a cue [ParseSubViewer] returns holds no [[br]]:
    every occurrence in the body lines has been replaced by a newline. *)
Theorem subviewer_text_has_no_br (d : demux_t) (sub : subtitle_t) (idx : Z)
  (d' : demux_t) (sub' : subtitle_t) :
  ParseSubViewer d sub idx = Ret VLC_SUCCESS d' sub' ->
  str_index (psz_text sub') "[br]" = None.
Proof.
  unfold ParseSubViewer, on_txt, ParseSubRipSubViewer.
  destruct (SubRip_timing _ _ _) as [[[[a b]|] t1]|]; try discriminate.
  destruct (SubRip_body _ _ _ _) as [[[text|] t2]|] eqn:E; try discriminate.
  cbn [map_state]. intros H. injection H as <- <-. cbn [set_text psz_text].
  exact (SubRip_body_no_br _ _ EmptyString _ _ eq_refl E).
Qed.

Lemma subviewer_text_has_no_br_witness :
  exists d' sub',
    ParseSubViewer (set_sys (demux_on EmptyString fzero [])
                            (set_txt blank_sys (mk_text 3 0 subviewer_sample)))
                   (mk_subtitle 0 0 EmptyString) 0
    = Ret VLC_SUCCESS d' sub'
    /\ str_index (psz_text sub') "[br]" = None.
Proof.
  match eval vm_compute in
        (ParseSubViewer
           (set_sys (demux_on EmptyString fzero [])
                    (set_txt blank_sys (mk_text 3 0 subviewer_sample)))
           (mk_subtitle 0 0 EmptyString) 0)
  with
  | Ret VLC_SUCCESS ?d' ?sub' =>
      exists d', sub';
      assert (E : ParseSubViewer
                    (set_sys (demux_on EmptyString fzero [])
                             (set_txt blank_sys (mk_text 3 0 subviewer_sample)))
                    (mk_subtitle 0 0 EmptyString) 0
                  = Ret VLC_SUCCESS d' sub') by (vm_compute; reflexivity);
      split; [exact E | exact (subviewer_text_has_no_br _ _ _ _ _ E)]
  end.
Defined.

Lemma SubRip_body_at_end (b : bool) (body : list string) :
  forall (pre : list string) (text : string) (fuel : nat),
    Forall (fun l => l <> EmptyString) body ->
    (List.length body < fuel)%nat ->
    let n := Z.of_nat (List.length (pre ++ body)) in
    SubRip_body fuel b (mk_text n (Z.of_nat (List.length pre)) (pre ++ body)) text
    = Some (None, mk_text n n (pre ++ body)).
Proof.
  induction body as [|x body IH]; intros pre text fuel Hbody Hf n;
    (destruct fuel as [|k]; [simpl in Hf; lia|]); cbn [SubRip_body].
  - subst n. rewrite app_nil_r.
    unfold TextGetLine. cbn [i_line i_line_count].
    replace (_ >=? _) with true; [reflexivity|].
    symmetry. rewrite Z.geb_leb. apply Z.leb_refl.
  - inversion Hbody as [|? ? Hx Hrest]; subst. subst n.
    rewrite TextGetLine_next by reflexivity.
    replace (strlen x <=? 0) with false
      by (symmetry; apply Z.leb_gt; unfold strlen;
          destruct x; [contradiction | simpl; lia]).
    replace (pre ++ x :: body) with ((pre ++ [x]) ++ body)
      by (rewrite <- app_assoc; reflexivity).
    rewrite IH; [reflexivity | exact Hrest | simpl in Hf; lia].
Qed.

(** X15.  A SubRip or SubViewer entry whose body runs to the end of the
    input, without an empty line after it: the reader returns VLC_EGENERIC
    with the cursor at the end, so [Open] gets no cue for it.  The slot
    holds the times of the entry and the text it had. *)
Theorem subrip_unterminated_cue_dropped (psz_fmt : string) (b : bool)
  (pre skip body : list string) (timing : string) (times : Z * Z)
  (sub : subtitle_t) :
  Forall (fun l => scan_timing psz_fmt l = None) skip ->
  scan_timing psz_fmt timing = Some times ->
  Forall (fun l => l <> EmptyString) body ->
  let lines := pre ++ skip ++ timing :: body in
  let n := Z.of_nat (List.length lines) in
  ParseSubRipSubViewer (mk_text n (Z.of_nat (List.length pre)) lines) sub
                       psz_fmt b
  = Ret VLC_EGENERIC (mk_text n n lines)
        (set_stop (set_start sub (fst times)) (snd times)).
Proof.
  intros Hskip Ht Hbody lines n. unfold ParseSubRipSubViewer.
  subst n lines.
  rewrite (SubRip_timing_found psz_fmt skip pre timing body times _ Hskip Ht).
  2:{ rewrite lines_left_at, length_app. simpl. lia. }
  destruct times as [start stop].
  replace (pre ++ skip ++ timing :: body)
    with ((pre ++ skip ++ [timing]) ++ body)
    by (rewrite <- !app_assoc; reflexivity).
  rewrite SubRip_body_at_end; [reflexivity | exact Hbody |].
  rewrite lines_left_at. lia.
Qed.

Lemma fold_join_lines (body : list string) :
  forall acc,
    fold_left (fun acc l => strcat (strcat acc l) NL) body acc
    = strcat acc (join_lines body).
Proof.
  unfold strcat. induction body as [|x body IH]; intros acc; simpl.
  - rewrite append_empty. reflexivity.
  - rewrite IH, !append_assoc. reflexivity.
Qed.

Lemma ParseSubRip_entry_at (pre skip body rest : list string) (timing : string)
  (start stop : Z) (d : demux_t) (sub : subtitle_t) (idx : Z) :
  Forall (fun l => scan_timing "%d:%d:%d,%d --> %d:%d:%d,%d" l = None) skip ->
  scan_timing "%d:%d:%d,%d --> %d:%d:%d,%d" timing = Some (start, stop) ->
  Forall (fun l => l <> EmptyString) body ->
  let lines := pre ++ skip ++ timing :: body ++ EmptyString :: rest in
  let n := Z.of_nat (List.length lines) in
  txt (p_sys d) = mk_text n (Z.of_nat (List.length pre)) lines ->
  ParseSubRip d sub idx
  = Ret VLC_SUCCESS
        (set_sys d (set_txt (p_sys d)
           (mk_text n (Z.of_nat (List.length
                                   (pre ++ skip ++ timing :: body ++ [EmptyString])))
                    lines)))
        {| i_start := start; i_stop := stop; psz_text := join_lines body |}.
Proof.
  intros Hskip Ht Hbody lines n Htxt. unfold ParseSubRip, on_txt.
  rewrite Htxt. unfold ParseSubRipSubViewer. subst n lines.
  rewrite (SubRip_timing_found _ skip pre timing (body ++ EmptyString :: rest)
             (start, stop) _ Hskip Ht).
  2:{ rewrite lines_left_at, length_app. simpl. lia. }
  pose proof (SubRip_body_found body (pre ++ skip ++ [timing]) rest EmptyString)
    as H2.
  rewrite <- !app_assoc in H2. simpl app in H2.
  rewrite H2; [| exact Hbody |].
  2:{ replace (pre ++ skip ++ timing :: body ++ EmptyString :: rest)
        with ((pre ++ skip ++ [timing]) ++ body ++ EmptyString :: rest)
        by (rewrite <- !app_assoc; reflexivity).
      rewrite lines_left_at, length_app. simpl. lia. }
  cbn [map_state set_text set_stop set_start i_start i_stop].
  rewrite fold_join_lines. reflexivity.
Qed.

(** X16.  A SubRip entry at any position of the input: lines that are no
    timing line, a timing line, body lines that are not empty, an empty
    line.  [ParseSubRip] returns one cue with the times of the timing line
    and the body lines, each followed by a newline, as text; the cursor is
    left after the empty line. *)
Theorem subrip_entry_at (pre skip body rest : list string) (timing : string)
  (start stop : Z) (d : demux_t) (sub : subtitle_t) (idx : Z) :
  Forall (fun l => scan_timing "%d:%d:%d,%d --> %d:%d:%d,%d" l = None) skip ->
  scan_timing "%d:%d:%d,%d --> %d:%d:%d,%d" timing = Some (start, stop) ->
  Forall (fun l => l <> EmptyString) body ->
  let lines := pre ++ skip ++ timing :: body ++ EmptyString :: rest in
  let n := Z.of_nat (List.length lines) in
  txt (p_sys d) = mk_text n (Z.of_nat (List.length pre)) lines ->
  ParseSubRip d sub idx
  = Ret VLC_SUCCESS
        (set_sys d (set_txt (p_sys d)
           (mk_text n (Z.of_nat (List.length
                                   (pre ++ skip ++ timing :: body ++ [EmptyString])))
                    lines)))
        {| i_start := start; i_stop := stop; psz_text := join_lines body |}.
Proof.
  intros Hskip Ht Hbody lines n Htxt.
  exact (ParseSubRip_entry_at pre skip body rest timing start stop d sub idx
           Hskip Ht Hbody Htxt).
Qed.

Lemma subrip_entry_at_witness :
  ParseSubRip
    (set_sys (demux_on EmptyString fzero [])
       (set_txt blank_sys
          (mk_text 6 1 ["1"; "2"; "00:00:01,000 --> 00:00:02,500"; "Hi"; EmptyString;
                        "3"])))
    (mk_subtitle 0 0 EmptyString) 0
  = Ret VLC_SUCCESS
      (set_sys (demux_on EmptyString fzero [])
         (set_txt blank_sys
            (mk_text 6 5 ["1"; "2"; "00:00:01,000 --> 00:00:02,500"; "Hi"; EmptyString;
                          "3"])))
      (mk_subtitle 1000000 2500000 (strcat "Hi" NL)).
Proof.
  exact (subrip_entry_at ["1"] ["2"] ["Hi"] ["3"]
           "00:00:01,000 --> 00:00:02,500" 1000000 2500000
           (set_sys (demux_on EmptyString fzero [])
              (set_txt blank_sys
                 (mk_text 6 1 ["1"; "2"; "00:00:01,000 --> 00:00:02,500";
                               "Hi"; EmptyString; "3"])))
           (mk_subtitle 0 0 EmptyString) 0
           ltac:(repeat constructor)
           ltac:(vm_compute; reflexivity)
           ltac:(repeat constructor; discriminate)
           eq_refl).
Defined.

Lemma subrip_unterminated_cue_dropped_witness :
  ParseSubRipSubViewer
    (mk_text 2 0 ["00:00:01,000 --> 00:00:02,500"; "Hi"])
    (mk_subtitle 0 0 EmptyString) "%d:%d:%d,%d --> %d:%d:%d,%d" false
  = Ret VLC_EGENERIC (mk_text 2 2 ["00:00:01,000 --> 00:00:02,500"; "Hi"])
        (mk_subtitle 1000000 2500000 EmptyString).
Proof.
  exact (subrip_unterminated_cue_dropped "%d:%d:%d,%d --> %d:%d:%d,%d" false
           [] [] ["Hi"] "00:00:01,000 --> 00:00:02,500" (1000000, 2500000)
           (mk_subtitle 0 0 EmptyString)
           ltac:(constructor)
           ltac:(vm_compute; reflexivity)
           ltac:(repeat constructor; discriminate)).
Defined.

Lemma ParseMicroDvd_loop_override (fuel : nat) :
  forall d,
    le_zero (sub_fps d) = false ->
    match ParseMicroDvd_loop fuel d with
    | inl (Ret _ d' _) | inr (d', _, _, _) =>
        i_microsecperframe (p_sys d') = i_microsecperframe (p_sys d)
        /\ sub_fps d' = sub_fps d
    | inl _ => True
    end.
Proof.
  induction fuel as [|k IH]; intros d Hfps; cbn [ParseMicroDvd_loop];
    [exact I|].
  destruct (TextGetLine (txt (p_sys d))) as [[l|] t']; [|simpl; auto].
  assert (Hrec : match ParseMicroDvd_loop k (set_sys d (set_txt (p_sys d) t')) with
                 | inl (Ret _ d' _) | inr (d', _, _, _) =>
                     i_microsecperframe (p_sys d') = i_microsecperframe (p_sys d)
                     /\ sub_fps d' = sub_fps d
                 | inl _ => True
                 end).
  { apply (IH (set_sys d (set_txt (p_sys d) t'))). exact Hfps. }
  destruct (scan_microdvd l) as [[[start stop] text]|]; [|exact Hrec].
  destruct (negb (start =? 1) || negb (stop =? 1)); [simpl; auto|].
  cbn [sub_fps set_sys]. rewrite Hfps, andb_false_r. exact Hrec.
Qed.

(** X17.  With [sub-fps] set (not [<= 0.0]), no line of a MicroDVD file
    changes the frame duration or the variable: [ParseMicroDvd] returns
    with both as they were, whatever frame rate the file declares. *)
Theorem microdvd_override_keeps_frame_duration (d : demux_t)
  (sub : subtitle_t) (idx : Z) (c : vlc_code) (d' : demux_t)
  (sub' : subtitle_t) :
  le_zero (sub_fps d) = false ->
  ParseMicroDvd d sub idx = Ret c d' sub' ->
  i_microsecperframe (p_sys d') = i_microsecperframe (p_sys d)
  /\ sub_fps d' = sub_fps d.
Proof.
  intros Hfps. unfold ParseMicroDvd.
  pose proof (ParseMicroDvd_loop_override (lines_left (txt (p_sys d))) d Hfps)
    as H.
  destruct (ParseMicroDvd_loop (lines_left (txt (p_sys d))) d)
    as [[c0 d0 sub0| |]|[[[d0 a] b] text]]; try discriminate;
    intros E; injection E as <- <- <-; exact H.
Qed.

Lemma microdvd_override_keeps_frame_duration_witness :
  exists d' sub',
    ParseMicroDvd
      (set_sys (demux_on EmptyString (float_of_Z 25) [])
               (set_microsecperframe
                  (set_txt blank_sys (mk_text 2 0 microdvd_sample)) 40000))
      (mk_subtitle 0 0 EmptyString) 0
    = Ret VLC_SUCCESS d' sub'
    /\ i_microsecperframe (p_sys d') = 40000
    /\ i_start sub' = 4000000.
Proof.
  match eval vm_compute in
        (ParseMicroDvd
           (set_sys (demux_on EmptyString (float_of_Z 25) [])
                    (set_microsecperframe
                       (set_txt blank_sys (mk_text 2 0 microdvd_sample)) 40000))
           (mk_subtitle 0 0 EmptyString) 0)
  with
  | Ret VLC_SUCCESS ?d' ?sub' =>
      exists d', sub';
      assert (E : ParseMicroDvd
                    (set_sys (demux_on EmptyString (float_of_Z 25) [])
                       (set_microsecperframe
                          (set_txt blank_sys (mk_text 2 0 microdvd_sample))
                          40000))
                    (mk_subtitle 0 0 EmptyString) 0
                  = Ret VLC_SUCCESS d' sub') by (vm_compute; reflexivity);
      assert (Hfps : le_zero (sub_fps
                        (set_sys (demux_on EmptyString (float_of_Z 25) [])
                           (set_microsecperframe
                              (set_txt blank_sys (mk_text 2 0 microdvd_sample))
                              40000))) = false) by (vm_compute; reflexivity);
      split; [exact E|];
      split; [|reflexivity];
      exact (proj1 (microdvd_override_keeps_frame_duration _ _ _ _ _ _ Hfps E))
  end.
Defined.

Lemma mpl2_text_clean (t : string) :
  no_bar (mpl2_text true t) /\ no_leading_slash true (mpl2_text true t).
Proof.
  generalize true as at_start. induction t as [|c r IH]; intros at_start;
    cbn [mpl2_text]; [split; exact I|].
  destruct (Ascii.eqb c "|") eqn:Ec.
  - change (Ascii.eqb LF "/") with false. cbn [andb no_bar no_leading_slash].
    destruct (IH (Ascii.eqb LF LF)) as (H1 & H2).
    repeat split; try assumption; discriminate.
  - destruct (Ascii.eqb c "/" && at_start) eqn:Es; [apply IH|].
    cbn [no_bar no_leading_slash]. destruct (IH (Ascii.eqb c LF)) as (H1 & H2).
    repeat split; try assumption.
    + apply Ascii.eqb_neq. exact Ec.
    + intros -> ->. rewrite Ascii.eqb_refl in Es. discriminate.
Qed.

(** X18.  The text of a cue [ParseMPL2] returns holds no bar, each one
    having become a newline, and none of its lines begins with a slash. *)
Theorem mpl2_cue_text_clean (fuel : nat) :
  forall t sub t' sub',
    ParseMPL2_loop fuel t sub = Ret VLC_SUCCESS t' sub' ->
    no_bar (psz_text sub') /\ no_leading_slash true (psz_text sub').
Proof.
  induction fuel as [|k IH]; intros t sub t' sub'; cbn [ParseMPL2_loop];
    [discriminate|].
  destruct (TextGetLine t) as [[l|] t1]; [|discriminate].
  destruct (scan_mpl2 l) as [[[start stop] text]|]; [|apply IH].
  intros H. injection H as <- <-. apply mpl2_text_clean.
Qed.

Lemma mpl2_cue_text_clean_witness :
  exists t' sub',
    ParseMPL2_loop 2 (mk_text 1 0 ["[10][20] //a|/b/c"])
                   (mk_subtitle 0 0 EmptyString)
    = Ret VLC_SUCCESS t' sub'
    /\ no_bar (psz_text sub') /\ no_leading_slash true (psz_text sub').
Proof.
  match eval vm_compute in
        (ParseMPL2_loop 2 (mk_text 1 0 ["[10][20] //a|/b/c"])
                        (mk_subtitle 0 0 EmptyString))
  with
  | Ret VLC_SUCCESS ?t' ?sub' =>
      exists t', sub';
      assert (E : ParseMPL2_loop 2 (mk_text 1 0 ["[10][20] //a|/b/c"])
                                 (mk_subtitle 0 0 EmptyString)
                  = Ret VLC_SUCCESS t' sub') by (vm_compute; reflexivity);
      split; [exact E | exact (mpl2_cue_text_clean _ _ _ _ _ E)]
  end.
Defined.

Lemma ParseAQT_loop_body (body : list string) :
  forall (pre rest : list string) (m2 : string) (t2 : Z) (sub : subtitle_t)
         (text : string) (fuel : nat),
    Forall (fun l => scan_aqt l = None) body ->
    scan_aqt m2 = Some t2 ->
    (List.length body < fuel)%nat ->
    let lines := pre ++ body ++ m2 :: rest in
    let n := Z.of_nat (List.length lines) in
    ParseAQT_loop fuel (mk_text n (Z.of_nat (List.length pre)) lines) sub text
                  false
    = Ret VLC_SUCCESS
          (mk_text n (Z.of_nat (List.length (pre ++ body))) lines)
          {| i_start := t2; i_stop := 0;
             psz_text := strcat text (join_lines body) |}.
Proof.
  induction body as [|x body IH];
    intros pre rest m2 t2 sub text fuel Hbody Hm Hf lines n;
    (destruct fuel as [|k]; [simpl in Hf; lia|]); cbn [ParseAQT_loop];
    subst n lines.
  - simpl app. rewrite TextGetLine_next by reflexivity. rewrite Hm.
    cbn [i_line i_line_count line set_text set_stop set_start i_start i_stop].
    unfold strcat. rewrite append_empty, app_nil_r.
    do 2 f_equal. rewrite length_app. simpl. lia.
  - inversion Hbody as [|? ? Hx Hrest]; subst.
    simpl app. rewrite TextGetLine_next by reflexivity. rewrite Hx.
    cbn [i_line i_line_count].
    replace (Z.of_nat (List.length (pre ++ [x]))
             =? Z.of_nat (List.length (pre ++ x :: body ++ m2 :: rest)))
      with false
      by (symmetry; apply Z.eqb_neq; rewrite !length_app; simpl;
          rewrite length_app; simpl; lia).
    replace (pre ++ x :: body ++ m2 :: rest)
      with ((pre ++ [x]) ++ body ++ m2 :: rest)
      by (rewrite <- app_assoc; reflexivity).
    rewrite (IH (pre ++ [x]) rest m2 t2 sub _ k Hrest Hm) by (simpl in Hf; lia).
    rewrite <- !app_assoc. simpl app. do 2 f_equal.
    cbn [join_lines]. unfold strcat. rewrite !append_assoc. reflexivity.
Qed.

(** X19.  An AQTitle cue: a time marker, text lines, the next time
    marker.  [ParseAQT] returns the text lines, each followed by a newline,
    with the time of the SECOND marker as start, the first one being
    overwritten when the second is read; the cursor is left on the second
    marker. *)
Theorem aqt_cue_timed_by_next_marker (pre body rest : list string)
  (m1 m2 : string) (t1 t2 : Z) (sub : subtitle_t) :
  scan_aqt m1 = Some t1 ->
  Forall (fun l => scan_aqt l = None) body ->
  scan_aqt m2 = Some t2 ->
  let lines := pre ++ m1 :: body ++ m2 :: rest in
  let n := Z.of_nat (List.length lines) in
  let t := mk_text n (Z.of_nat (List.length pre)) lines in
  ParseAQT_loop (lines_left t) t sub EmptyString true
  = Ret VLC_SUCCESS
        (mk_text n (Z.of_nat (List.length (pre ++ m1 :: body))) lines)
        {| i_start := t2; i_stop := 0; psz_text := join_lines body |}.
Proof.
  intros H1 Hbody H2 lines n t. subst t n lines.
  rewrite lines_left_at. cbn [length ParseAQT_loop].
  rewrite TextGetLine_next by reflexivity. rewrite H1.
  replace (pre ++ m1 :: body ++ m2 :: rest)
    with ((pre ++ [m1]) ++ body ++ m2 :: rest)
    by (rewrite <- app_assoc; reflexivity).
  rewrite (ParseAQT_loop_body body (pre ++ [m1]) rest m2 t2 _ EmptyString _
             Hbody H2).
  - rewrite <- !app_assoc. reflexivity.
  - simpl. rewrite length_app. simpl. lia.
Qed.

Lemma aqt_cue_timed_by_next_marker_witness :
  ParseAQT_loop 5 (mk_text 4 0 ["-->> 10"; "a"; "-->> 20"; "b"])
                (mk_subtitle 0 0 EmptyString) EmptyString true
  = Ret VLC_SUCCESS (mk_text 4 2 ["-->> 10"; "a"; "-->> 20"; "b"])
        (mk_subtitle 20 0 (strcat "a" NL)).
Proof.
  exact (aqt_cue_timed_by_next_marker [] ["a"] ["b"] "-->> 10" "-->> 20" 10 20
           (mk_subtitle 0 0 EmptyString)
           ltac:(vm_compute; reflexivity)
           ltac:(repeat constructor)
           ltac:(vm_compute; reflexivity)).
Defined.

(** X20.  On an empty line, or any other line that is a prefix of
    [FORMAT=], in the place of a header or data line, the second [sscanf]
    of [ParseMPSub] returns EOF, which its [if] takes for a match: the call
    reads [psz_temp], which nothing has written. *)
Theorem mpsub_short_line_undefined (l : string) (g : statics) (d : demux_t)
  (sub : subtitle_t) (idx : Z) (t' : text_t) :
  In l format_prefixes ->
  TextGetLine (txt (p_sys d)) = (Some l, t') ->
  sscanf l (format "FORMAT=%[^\r\n]") = (EOF, [])
  /\ ParseMPSub g d sub idx = Undefined.
Proof.
  intros Hin Hget.
  assert (Hscan : sscanf l (format "FORMAT=%[^\r\n]") = (EOF, [])
                  /\ mpsub_format_time l = false
                  /\ mpsub_format l = Format_eof).
  { simpl in Hin.
    repeat (destruct Hin as [<-|Hin]; [repeat split; reflexivity|]).
    contradiction. }
  destruct Hscan as (Hs & Ht & Hf). split; [exact Hs|].
  unfold ParseMPSub, lines_left. cbn [MPSub_head].
  rewrite Hget, Ht, Hf. reflexivity.
Qed.

Lemma mpsub_short_line_undefined_witness :
  ParseMPSub statics_at_load
    (set_sys (demux_on EmptyString fzero [])
             (set_txt blank_sys (mk_text 3 0 [EmptyString; "1 2"; "Hello"])))
    (mk_subtitle 0 0 EmptyString) 0
  = Undefined.
Proof.
  exact (proj2 (mpsub_short_line_undefined EmptyString statics_at_load
                  (set_sys (demux_on EmptyString fzero [])
                     (set_txt blank_sys (mk_text 3 0 [EmptyString; "1 2"; "Hello"])))
                  (mk_subtitle 0 0 EmptyString) 0
                  (mk_text 3 1 [EmptyString; "1 2"; "Hello"])
                  ltac:(left; reflexivity) eq_refl)).
Defined.

Lemma jss_skip_word_overruns (t : string) :
  no_space t -> jss_skip_word t = None.
Proof.
  induction t as [|c r IH]; intros H; [reflexivity|].
  destruct H as (Hc & Hr). cbn [jss_skip_word].
  replace (Ascii.eqb c " ") with false
    by (symmetry; apply Ascii.eqb_neq; exact Hc).
  apply IH. exact Hr.
Qed.

Lemma word_start_not_blank (c : ascii) :
  isalpha c || Ascii.eqb c "[" = true ->
  Ascii.eqb c " " || Ascii.eqb c TAB = false.
Proof.
  destruct c as [[] [] [] [] [] [] [] []]; vm_compute; congruence.
Qed.

(** X21.  A timed JacoSub line whose text begins with a letter or [[]
    and holds no space: the loop that skips the directive,
    [while( *psz_text != ' ' )], runs past the end of the text. *)
Theorem jss_single_word_undefined (g : statics) (d : demux_t)
  (sub : subtitle_t) (idx : Z) (l : string) (t' : text_t) (start stop : Z)
  (c : ascii) (r : string) :
  TextGetLine (txt (p_sys d)) = (Some l, t') ->
  scan_jss (jss_time_shift g) (jss_time_resolution g) l
  = Some (Some start, Some stop, String c r) ->
  isalpha c || Ascii.eqb c "[" = true ->
  no_space (String c r) ->
  ParseJSS g d sub idx = Undefined.
Proof.
  intros Hget Hscan Hc Hns.
  unfold ParseJSS, lines_left. cbn [ParseJSS_loop]. rewrite Hget, Hscan.
  cbn [jss_skip_blanks]. rewrite (word_start_not_blank c Hc).
  change (nth_char (String c r) 0) with c. rewrite Hc.
  rewrite (jss_skip_word_overruns _ Hns). reflexivity.
Qed.

Lemma jss_single_word_undefined_witness :
  ParseJSS statics_at_load
    (set_sys (demux_on EmptyString fzero [])
             (set_txt blank_sys (mk_text 1 0 ["0:00:01.00 0:00:02.00 Hello"])))
    (mk_subtitle 0 0 EmptyString) 0
  = Undefined.
Proof.
  exact (jss_single_word_undefined statics_at_load
           (set_sys (demux_on EmptyString fzero [])
              (set_txt blank_sys (mk_text 1 0 ["0:00:01.00 0:00:02.00 Hello"])))
           (mk_subtitle 0 0 EmptyString) 0 "0:00:01.00 0:00:02.00 Hello"
           (mk_text 1 1 ["0:00:01.00 0:00:02.00 Hello"]) 1000000 2000000
           "H" "ello" eq_refl ltac:(vm_compute; reflexivity) eq_refl
           ltac:(repeat split; discriminate)).
Defined.

Lemma DVDSubtitle_timing_found (skip : list string) :
  forall (pre : list string) (timing : string) (rest : list string)
         (start : Z) (fuel : nat),
    Forall (fun l => scan_dvdsubtitle l = None) skip ->
    scan_dvdsubtitle timing = Some start ->
    (List.length skip < fuel)%nat ->
    let lines := pre ++ skip ++ timing :: rest in
    let n := Z.of_nat (List.length lines) in
    DVDSubtitle_timing fuel (mk_text n (Z.of_nat (List.length pre)) lines)
    = Some (Some start,
            mk_text n (Z.of_nat (List.length (pre ++ skip ++ [timing]))) lines).
Proof.
  induction skip as [|x skip IH]; intros pre timing rest start fuel Hskip Ht Hf;
    (destruct fuel as [|k]; [simpl in Hf; lia|]); cbn [DVDSubtitle_timing];
    cbv zeta.
  - simpl app. rewrite TextGetLine_next by reflexivity. rewrite Ht. reflexivity.
  - inversion Hskip as [|? ? Hx Hrest]; subst.
    simpl app. rewrite TextGetLine_next by reflexivity. rewrite Hx.
    replace (pre ++ x :: skip ++ timing :: rest)
      with ((pre ++ [x]) ++ skip ++ timing :: rest)
      by (rewrite <- app_assoc; reflexivity).
    rewrite (IH (pre ++ [x]) timing rest start k Hrest Ht) by (simpl in Hf; lia).
    rewrite <- !app_assoc. reflexivity.
Qed.

Lemma DVDSubtitle_body_found (body : list string) :
  forall (pre rest : list string) (text : string) (fuel : nat),
    Forall (fun l => l <> "}") body ->
    (List.length body < fuel)%nat ->
    let lines := pre ++ body ++ "}" :: rest in
    let n := Z.of_nat (List.length lines) in
    DVDSubtitle_body fuel (mk_text n (Z.of_nat (List.length pre)) lines) text
    = Some (Some (strcat text (join_lines body)),
            mk_text n (Z.of_nat (List.length (pre ++ body ++ ["}"]))) lines).
Proof.
  induction body as [|x body IH]; intros pre rest text fuel Hbody Hf;
    (destruct fuel as [|k]; [simpl in Hf; lia|]); cbn [DVDSubtitle_body];
    cbv zeta.
  - simpl app. rewrite TextGetLine_next by reflexivity.
    cbn [String.eqb Ascii.eqb Bool.eqb]. cbn [join_lines]. unfold strcat.
    rewrite append_empty. reflexivity.
  - inversion Hbody as [|? ? Hx Hrest]; subst.
    simpl app. rewrite TextGetLine_next by reflexivity.
    replace (String.eqb x "}") with false
      by (symmetry; apply String.eqb_neq; exact Hx).
    replace (pre ++ x :: body ++ "}" :: rest)
      with ((pre ++ [x]) ++ body ++ "}" :: rest)
      by (rewrite <- app_assoc; reflexivity).
    rewrite (IH (pre ++ [x]) rest _ k Hrest) by (simpl in Hf; lia).
    rewrite <- !app_assoc. simpl app. do 3 f_equal.
    cbn [join_lines]. unfold strcat. rewrite !append_assoc. reflexivity.
Qed.

(** X22.  A DVDSubtitle entry at any position of the input: lines that
    are no [{T h:m:s:c] line, such a line, text lines, a line that is
    [}].  [ParseDVDSubtitle] returns one cue with the time of the timing
    line as start, 0 as stop and the text lines, each followed by a
    newline, as text; the cursor is left after the closing line. *)
Theorem dvdsubtitle_entry_at (pre skip body rest : list string)
  (timing : string) (start : Z) (sub : subtitle_t) :
  Forall (fun l => scan_dvdsubtitle l = None) skip ->
  scan_dvdsubtitle timing = Some start ->
  Forall (fun l => l <> "}") body ->
  let lines := pre ++ skip ++ timing :: body ++ "}" :: rest in
  let n := Z.of_nat (List.length lines) in
  ParseDVDSubtitle_txt (mk_text n (Z.of_nat (List.length pre)) lines) sub
  = Ret VLC_SUCCESS
        (mk_text n (Z.of_nat (List.length (pre ++ skip ++ timing :: body ++ ["}"])))
                 lines)
        {| i_start := start; i_stop := 0; psz_text := join_lines body |}.
Proof.
  intros Hskip Ht Hbody lines n. unfold ParseDVDSubtitle_txt. subst n lines.
  rewrite (DVDSubtitle_timing_found skip pre timing (body ++ "}" :: rest) start
             _ Hskip Ht).
  2:{ rewrite lines_left_at, length_app. simpl. lia. }
  pose proof (DVDSubtitle_body_found body (pre ++ skip ++ [timing]) rest
                EmptyString) as H2.
  cbv zeta in H2. rewrite <- !app_assoc in H2. simpl app in H2.
  rewrite H2; [reflexivity | exact Hbody |].
  replace (pre ++ skip ++ timing :: body ++ "}" :: rest)
    with ((pre ++ skip ++ [timing]) ++ body ++ "}" :: rest)
    by (rewrite <- !app_assoc; reflexivity).
  rewrite lines_left_at, length_app. simpl. lia.
Qed.

Lemma dvdsubtitle_entry_at_witness :
  ParseDVDSubtitle_txt (mk_text 5 0 ["{HEAD"; "{T 00:00:01:50"; "a"; "b"; "}"])
                       (mk_subtitle 0 0 EmptyString)
  = Ret VLC_SUCCESS (mk_text 5 5 ["{HEAD"; "{T 00:00:01:50"; "a"; "b"; "}"])
        (mk_subtitle 1500000 0 (strcat "a" (strcat NL (strcat "b" NL)))).
Proof.
  exact (dvdsubtitle_entry_at [] ["{HEAD"] ["a"; "b"] [] "{T 00:00:01:50"
           1500000 (mk_subtitle 0 0 EmptyString)
           ltac:(repeat constructor)
           ltac:(vm_compute; reflexivity)
           ltac:(repeat constructor; discriminate)).
Defined.

Lemma scan_jss_zero_resolution (shift res : Z) (l : string) :
  scan_jss shift res l <> None ->
  exists text, scan_jss shift 0 l = Some (None, None, text).
Proof.
  unfold scan_jss. intros H.
  repeat match goal with
         | |- context [match ?x with _ => _ end] => destruct x
         end;
    try (exfalso; apply H; reflexivity);
    eexists; reflexivity.
Qed.

(** X23.  The directive [#T0] sets the time resolution of JacoSub to 0,
    and with the resolution 0 every timed line makes [ParseJSS] divide by
    zero: [( f1 + jss_time_shift ) / jss_time_resolution] on [int]. *)
Theorem jss_zero_resolution_divides_by_zero (g : statics) (d : demux_t)
  (sub : subtitle_t) (idx : Z) (l : string) (rest : list string) :
  scan_jss (jss_time_shift g) (jss_time_resolution g) l <> None ->
  txt (p_sys d)
  = mk_text (Z.of_nat (S (S (List.length rest)))) 0 ("#T0" :: l :: rest) ->
  jss_directive "#T0" g = Some (set_jss g (i_comment g) 0 (jss_time_shift g))
  /\ ParseJSS g d sub idx = Undefined.
Proof.
  intros Hl Ht. split; [reflexivity|].
  set (n := Z.of_nat (S (S (List.length rest)))) in *.
  assert (H1 : TextGetLine (mk_text n 0 ("#T0" :: l :: rest))
               = (Some "#T0", mk_text n 1 ("#T0" :: l :: rest)))
    by exact (TextGetLine_next [] "#T0" (l :: rest) n eq_refl).
  assert (H2 : TextGetLine (mk_text n 1 ("#T0" :: l :: rest))
               = (Some l, mk_text n 2 ("#T0" :: l :: rest)))
    by exact (TextGetLine_next ["#T0"] l rest n eq_refl).
  assert (Hfuel : lines_left (mk_text n 0 ("#T0" :: l :: rest))
                  = S (S (S (List.length rest))))
    by exact (lines_left_at [] ("#T0" :: l :: rest)).
  assert (E0 : forall shift res, scan_jss shift res "#T0" = None)
    by (intros; reflexivity).
  destruct (scan_jss_zero_resolution (jss_time_shift g) (jss_time_resolution g)
              l Hl) as (text & E).
  unfold ParseJSS. rewrite Ht, Hfuel. cbn [ParseJSS_loop].
  rewrite H1, E0.
  change (Ascii.eqb (nth_char "#T0" 0) "#") with true. cbv iota.
  change (jss_directive "#T0" g)
    with (Some (set_jss g (i_comment g) 0 (jss_time_shift g))).
  cbv iota. rewrite H2. cbn [jss_time_shift jss_time_resolution set_jss].
  rewrite E. reflexivity.
Qed.

Lemma jss_zero_resolution_divides_by_zero_witness :
  ParseJSS statics_at_load
    (set_sys (demux_on EmptyString fzero [])
             (set_txt blank_sys (mk_text 2 0 ["#T0"; "@30 @60 D Hi"])))
    (mk_subtitle 0 0 EmptyString) 0
  = Undefined.
Proof.
  exact (proj2 (jss_zero_resolution_divides_by_zero statics_at_load
                  (set_sys (demux_on EmptyString fzero [])
                     (set_txt blank_sys (mk_text 2 0 ["#T0"; "@30 @60 D Hi"])))
                  (mk_subtitle 0 0 EmptyString) 0 "@30 @60 D Hi" []
                  ltac:(vm_compute; discriminate) eq_refl)).
Defined.

(* ================================================================== *)
(** * A whole SubRip file *)

Lemma SubRip_timing_at_end (psz_fmt : string) (skip : list string) :
  forall (pre : list string) (fuel : nat),
    Forall (fun l => scan_timing psz_fmt l = None) skip ->
    (List.length skip < fuel)%nat ->
    let n := Z.of_nat (List.length (pre ++ skip)) in
    SubRip_timing fuel psz_fmt
      (mk_text n (Z.of_nat (List.length pre)) (pre ++ skip))
    = Some (None, mk_text n n (pre ++ skip)).
Proof.
  induction skip as [|x skip IH]; intros pre fuel Hskip Hf n;
    (destruct fuel as [|k]; [simpl in Hf; lia|]); cbn [SubRip_timing]; subst n.
  - rewrite app_nil_r. unfold TextGetLine. cbn [i_line i_line_count].
    replace (_ >=? _) with true; [reflexivity|].
    symmetry. rewrite Z.geb_leb. apply Z.leb_refl.
  - inversion Hskip as [|? ? Hx Hrest]; subst.
    rewrite TextGetLine_next by reflexivity. rewrite Hx.
    replace (pre ++ x :: skip) with ((pre ++ [x]) ++ skip)
      by (rewrite <- app_assoc; reflexivity).
    rewrite IH; [reflexivity | exact Hrest | simpl in Hf; lia].
Qed.

Lemma ParseSubRip_at_end (pre trailer : list string) (d : demux_t)
  (sub : subtitle_t) (idx : Z) :
  Forall (fun l => scan_timing subrip_fmt l = None) trailer ->
  let n := Z.of_nat (List.length (pre ++ trailer)) in
  txt (p_sys d) = mk_text n (Z.of_nat (List.length pre)) (pre ++ trailer) ->
  ParseSubRip d sub idx
  = Ret VLC_EGENERIC
        (set_sys d (set_txt (p_sys d) (mk_text n n (pre ++ trailer)))) sub.
Proof.
  intros Ht n Htxt. unfold ParseSubRip, on_txt, ParseSubRipSubViewer.
  rewrite Htxt. subst n.
  fold subrip_fmt.
  rewrite SubRip_timing_at_end; [reflexivity | exact Ht |].
  rewrite lines_left_at. lia.
Qed.

Lemma Open_parse_subrip (heap0 : Z -> subtitle_t) (entries : list subrip_entry) :
  forall (pre trailer : list string) (g : statics) (d : demux_t) (fuel : nat),
    Forall entry_ok entries ->
    Forall (fun l => scan_timing subrip_fmt l = None) trailer ->
    let lines := pre ++ List.concat (map entry_lines entries) ++ trailer in
    txt (p_sys d)
    = mk_text (Z.of_nat (List.length lines)) (Z.of_nat (List.length pre)) lines ->
    (List.length entries < fuel)%nat ->
    exists d',
      Open_parse heap0 fuel (on_demux ParseSubRip) g d = Parse_done g d'
      /\ subtitle (p_sys d') = subtitle (p_sys d) ++ map entry_cue entries
      /\ i_subtitles (p_sys d')
         = i_subtitles (p_sys d) + Z.of_nat (List.length entries)
      /\ psz_header (p_sys d') = psz_header (p_sys d).
Proof.
  induction entries as [|e es IH];
    intros pre trailer g d fuel Hok Htr lines Htxt Hf;
    (destruct fuel as [|k]; [simpl in Hf; lia|]); cbn [Open_parse];
    unfold on_demux at 1.
  - subst lines. cbn [map List.concat app] in Htxt.
    rewrite (ParseSubRip_at_end pre trailer d _ _ Htr Htxt).
    cbn [map_state nonzero]. eexists. split; [reflexivity|].
    simpl. rewrite app_nil_r. repeat split. lia.
  - inversion Hok as [|? ? He Hes]; subst.
    destruct He as (Hskip & Htime & Hbody).
    set (rest := List.concat (map entry_lines es) ++ trailer).
    assert (El : lines = pre ++ e_skip e ++ e_timing e :: e_body e
                              ++ EmptyString :: rest).
    { subst lines rest. cbn [map List.concat]. unfold entry_lines.
      rewrite <- !app_assoc. cbn [app]. rewrite <- !app_assoc. reflexivity. }
    rewrite El in Htxt.
    rewrite (ParseSubRip_entry_at pre (e_skip e) (e_body e) rest (e_timing e)
               (e_start e) (e_stop e) d _ _ Hskip Htime Hbody Htxt).
    cbn [map_state nonzero].
    match goal with
    | |- context [Open_parse heap0 k _ g ?d2] =>
        destruct (IH (pre ++ entry_lines e) trailer g d2 k Hes Htr)
          as (d' & Hp & Hs & Hn & Hh)
    end.
    + cbn [p_sys set_sys push_subtitle txt set_txt].
      unfold entry_lines. rewrite <- El.
      subst lines. cbn [map List.concat]. unfold entry_lines.
      rewrite <- !app_assoc. cbn [app]. rewrite <- !app_assoc. cbn [app].
      reflexivity.
    + simpl in Hf. lia.
    + exists d'. split; [exact Hp|]. simpl in Hs, Hn, Hh.
      rewrite Hs, Hn, Hh. cbn [map]. rewrite <- app_assoc.
      split; [reflexivity|]. split; [|reflexivity].
      change (List.length (e :: es)) with (S (List.length es)). lia.
Qed.

(** X24.  [Open] on a SubRip file, the [sub-type] variable being [subrip]:
    for a stream that holds entries (lines that are no timing line, a
    timing line, text lines that are not empty, an empty line) and after
    them lines that are no timing line, [Open] succeeds with one cue for
    each entry, in order, each with the times of its timing line and its
    text lines, each followed by a newline, as text.  The type is SubRip,
    the codec [subt], and there is no header. *)
Theorem Open_subrip_file (text0 : Z -> ascii) (heap0 : Z -> subtitle_t)
  (fuel : nat) (idate : Z) (g : statics) (d : demux_t)
  (entries : list subrip_entry) (trailer : list string) :
  b_force d = true ->
  sub_type_name d = "subrip" ->
  unread (s d) = List.concat (map entry_lines entries) ++ trailer ->
  Forall entry_ok entries ->
  Forall (fun l => scan_timing subrip_fmt l = None) trailer ->
  (List.length entries < fuel)%nat ->
  exists d' load es,
    Open text0 heap0 fuel idate g d = Opened g d' load es
    /\ subtitle (p_sys d') = map entry_cue entries
    /\ i_subtitles (p_sys d') = Z.of_nat (List.length entries)
    /\ i_type (p_sys d') = SUB_TYPE_SUBRIP
    /\ i_codec es = "subt" /\ p_extra es = None.
Proof.
  intros Hforce Hname Hlines Hok Htr Hf.
  unfold Open. rewrite Hforce, Hname. cbn [negb].
  change (type_of_name (sub_read_subtitle_function text0) "subrip")
    with SUB_TYPE_SUBRIP.
  cbn [sub_type_eqb].
  change (reader_of_type (sub_read_subtitle_function text0) SUB_TYPE_SUBRIP)
    with (Some (on_demux ParseSubRip)).
  pose proof (TextLoad_loads (s d)) as (Ht & _).
  destruct (TextLoad (s d)) as [[load t] st']. simpl in Ht. subst t.
  rewrite Hlines.
  match goal with
  | |- context [Open_parse heap0 fuel _ g ?d0] =>
      destruct (Open_parse_subrip heap0 entries [] trailer g d0 fuel Hok Htr
                  eq_refl Hf) as (d' & Hp & Hs & Hn & Hh)
  end.
  rewrite Hp. eexists _, _, _. split; [reflexivity|].
  pose proof (Open_parse_type heap0 (on_demux ParseSubRip)
                (table_readers_keep_session text0 SUB_TYPE_SUBRIP _ eq_refl)
                _ _ _ _ _ Hp) as (Hty & _).
  simpl in Hs, Hn, Hh, Hty. simpl.
  rewrite Hs, Hn, Hh, Hty. repeat split.
Qed.

Lemma Open_subrip_file_witness :
  exists d' load es,
    open_fresh "subrip" fzero
      ["1"; "00:00:01,000 --> 00:00:02,500"; "Line one"; "Line two";
       EmptyString;
       "2"; "00:00:03,000 --> 00:00:04,000"; "Bye"; EmptyString; EmptyString]
    = Opened statics_at_load d' load es
    /\ subtitle (p_sys d')
       = [mk_subtitle 1000000 2500000
            (strcat "Line one" (strcat NL (strcat "Line two" NL)));
          mk_subtitle 3000000 4000000 (strcat "Bye" NL)].
Proof.
  assert (Hok : Forall entry_ok
                  [mk_entry ["1"] "00:00:01,000 --> 00:00:02,500"
                            1000000 2500000 ["Line one"; "Line two"];
                   mk_entry ["2"] "00:00:03,000 --> 00:00:04,000"
                            3000000 4000000 ["Bye"]]).
  { repeat constructor; try discriminate; vm_compute; reflexivity. }
  destruct (Open_subrip_file zero_text zero_heap 11 0 statics_at_load
              (demux_on "subrip" fzero
                 ["1"; "00:00:01,000 --> 00:00:02,500"; "Line one"; "Line two";
                  EmptyString;
                  "2"; "00:00:03,000 --> 00:00:04,000"; "Bye"; EmptyString;
                  EmptyString])
              [mk_entry ["1"] "00:00:01,000 --> 00:00:02,500"
                        1000000 2500000 ["Line one"; "Line two"];
               mk_entry ["2"] "00:00:03,000 --> 00:00:04,000"
                        3000000 4000000 ["Bye"]]
              [EmptyString] eq_refl eq_refl eq_refl Hok
              ltac:(repeat constructor) ltac:(simpl; lia))
    as (d' & load & es & E & Hs & _).
  exists d', load, es. split; [exact E | exact Hs].
Defined.

(** ** Playing a file to its end *)

(** X25.  A session at its first cue whose next demux date, less the
    delay, is past the start of every cue: DEMUX_SET_NEXT_DEMUX_TIME and
    [Demux] send one block for each cue with a text and a positive start,
    in the order of the array, and leave the index at the count; every
    later [Demux] returns 0 and sends nothing. *)
Theorem Demux_plays_every_cue (sys : demux_sys_t) (date spu_delay : Z) :
  cues_wf sys -> i_subtitle sys = 0 ->
  Forall cue_in_range (subtitle sys) ->
  0 < date - spu_delay <= INT64_MAX ->
  Forall (fun c => i_start c < date - spu_delay) (subtitle sys) ->
  let played := deliver sys date spu_delay in
  snd played = map block_of (filter sendable (subtitle sys))
  /\ i_subtitle (fst played) = i_subtitles sys
  /\ subtitle (fst played) = subtitle sys
  /\ forall spu_delay', Demux (fst played) spu_delay' = (0, fst played, []).
Proof.
  intros Hwf Hi Hr Hd Hall played.
  destruct (deliver_spec sys date spu_delay Hwf ltac:(lia) Hr Hd)
    as (Ho & Hidx & Hs & Hn).
  fold played in Ho, Hidx, Hs, Hn.
  assert (Hrem : remaining sys = subtitle sys)
    by (unfold remaining; rewrite Hi; reflexivity).
  rewrite Hrem in Ho, Hidx.
  pose proof (first_at_or_after_all_before (date - spu_delay) (subtitle sys) []
                Hall) as Hk.
  rewrite app_nil_r in Hk. cbn [first_at_or_after] in Hk.
  rewrite Nat.add_0_r in Hk. rewrite Hk in Ho, Hidx.
  rewrite firstn_all in Ho. unfold cues_wf in Hwf.
  split; [exact Ho|]. split; [lia|]. split; [exact Hs|].
  intros spu_delay'. unfold Demux.
  replace (i_subtitle (fst played) >=? i_subtitles (fst played)) with true;
    [reflexivity|].
  symmetry. rewrite Z.geb_leb. apply Z.leb_le. lia.
Qed.

Lemma Demux_plays_every_cue_witness :
  snd (deliver three_cues 6000000 0)
  = map block_of (filter sendable (subtitle three_cues)).
Proof.
  assert (Hr : Forall cue_in_range (subtitle three_cues))
    by (repeat constructor; vm_compute; congruence).
  assert (Hall : Forall (fun c => i_start c < 6000000 - 0) (subtitle three_cues))
    by (repeat constructor; simpl; lia).
  exact (proj1 (Demux_plays_every_cue three_cues 6000000 0 eq_refl eq_refl Hr
                  ltac:(unfold INT64_MAX; lia) Hall)).
Defined.

(** ** A PJS line *)

(** The loop of [ParsePJS] passes the lines its [sscanf] does not match
    and returns at the first one it matches. *)
Lemma ParsePJS_loop_found (skip : list string) :
  forall (pre rest : list string) (l text : string) (t1 t2 : Z)
         (sub : subtitle_t) (fuel : nat),
    Forall (fun x => scan_pjs x = None) skip ->
    scan_pjs l = Some (t1, t2, text) ->
    (List.length skip < fuel)%nat ->
    let lines := pre ++ skip ++ l :: rest in
    let n := Z.of_nat (List.length lines) in
    ParsePJS_loop fuel (mk_text n (Z.of_nat (List.length pre)) lines) sub
    = Ret VLC_SUCCESS
          (mk_text n (Z.of_nat (List.length (pre ++ skip ++ [l]))) lines)
          {| i_start := int32 (10 * t1); i_stop := int32 (10 * t2);
             psz_text := drop_last text |}.
Proof.
  induction skip as [|x skip IH];
    intros pre rest l text t1 t2 sub fuel Hs Hl Hf;
    (destruct fuel as [|k]; [simpl in Hf; lia|]); cbn [ParsePJS_loop];
    cbv zeta.
  - simpl app. rewrite TextGetLine_next by reflexivity. rewrite Hl. reflexivity.
  - inversion Hs as [|? ? Hx Hrest]; subst.
    simpl app. rewrite TextGetLine_next by reflexivity. rewrite Hx.
    replace (pre ++ x :: skip ++ l :: rest)
      with ((pre ++ [x]) ++ skip ++ l :: rest)
      by (rewrite <- app_assoc; reflexivity).
    rewrite (IH (pre ++ [x]) rest l text t1 t2 sub k Hrest Hl)
      by (simpl in Hf; lia).
    rewrite <- !app_assoc. reflexivity.
Qed.

(** X26.  A PJS line at any position of the input, after lines the
    [sscanf] of [ParsePJS] does not match: the cue has ten times the two
    numbers of the line as start and stop, in microseconds, when the
    products fit an [int], and the quoted text less its last character,
    which is the closing quote when the line has one; the cursor is left
    after the line. *)
Theorem pjs_entry_at (pre skip rest : list string) (l text : string)
  (t1 t2 : Z) (sub : subtitle_t) :
  Forall (fun x => scan_pjs x = None) skip ->
  scan_pjs l = Some (t1, t2, text) ->
  is_int (10 * t1) -> is_int (10 * t2) ->
  let lines := pre ++ skip ++ l :: rest in
  let n := Z.of_nat (List.length lines) in
  let t := mk_text n (Z.of_nat (List.length pre)) lines in
  ParsePJS_loop (lines_left t) t sub
  = Ret VLC_SUCCESS
        (mk_text n (Z.of_nat (List.length (pre ++ skip ++ [l]))) lines)
        {| i_start := 10 * t1; i_stop := 10 * t2;
           psz_text := drop_last text |}.
Proof.
  intros Hskip Hl H1 H2 lines n t. subst t n lines.
  rewrite (ParsePJS_loop_found skip pre rest l text t1 t2 sub _ Hskip Hl).
  2:{ rewrite lines_left_at, length_app. simpl. lia. }
  rewrite (int32_small _ H1), (int32_small _ H2). reflexivity.
Qed.

Lemma pjs_entry_at_witness :
  ParsePJS_loop 3
    (mk_text 2 0 ["[x]"; ("12,34," ++ String DQUOTE ("Hi" ++ String DQUOTE EmptyString))%string])
    (mk_subtitle 0 0 EmptyString)
  = Ret VLC_SUCCESS
      (mk_text 2 2 ["[x]"; ("12,34," ++ String DQUOTE ("Hi" ++ String DQUOTE EmptyString))%string])
      (mk_subtitle 120 340 "Hi").
Proof.
  exact (pjs_entry_at [] ["[x]"] []
           ("12,34," ++ String DQUOTE ("Hi" ++ String DQUOTE EmptyString))%string
           ("Hi" ++ String DQUOTE EmptyString)%string 12 34
           (mk_subtitle 0 0 EmptyString)
           ltac:(repeat constructor)
           ltac:(vm_compute; reflexivity)
           ltac:(unfold is_int, INT_MAX; lia)
           ltac:(unfold is_int, INT_MAX; lia)).
Defined.

(* ================================================================== *)
(** * Format probing: [Open] and the table *)




